(** * dynamic_whitelist_bridge: the discovery-and-reconciliation engine

    A shallow embedding of [src/dynamic_whitelist_bridge.cpp]:
    the whitelist matcher [check_inregex_list], the reconciler
    [update_bridge], the ROS 1 service type probe [get_ros1_service_info]
    and the name filters of the two pollers ([ros1_poll], [ros2_poll]).

    Conventions.
    - A [std::map<std::string, V>] is a [gmap string V]; a range-for over it
      visits the entries in ascending key order ([in_key_order]).
    - A [std::set<std::string>] is a [gset string].
    - Code that mutates objects passed by reference is written in a small
      state monad [M]; a computation also reports what it emitted (factory
      calls, erasures, log lines) and whether it returned normally.
    - The bridge factory, the type mapping tables, the regex engine and the
      ROS 1 transport are not part of this file of the repository: they are
      the fields of the classes [Collaborators], [RegexEngine] and the record
      [ServiceServer]. *)

From Stdlib Require Import ZArith.
From stdpp Require Import base option list gmap sets strings sorting.

Open Scope string_scope.
Open Scope list_scope.
Open Scope nat_scope.

(** ** Iteration order of [std::map<std::string, V>] *)

Definition key_le {V : Type} (a b : string * V) : Prop :=
  Is_true (String.leb a.1 b.1).

#[global] Instance key_le_dec {V : Type} (a b : string * V) :
  Decision (key_le a b).
Proof. unfold key_le. apply _. Defined.

(** The entries of a map in the order a range-for visits them. *)
Definition in_key_order {V : Type} (m : gmap string V) : list (string * V) :=
  merge_sort key_le (map_to_list m).

(** ** What a computation emits *)

Inductive severity := INFO | WARN | ERROR.

(** The two keys of [whitelist_map]. *)
Inductive whitelist_key := topic_rgxp_list_param | srv_rgxp_list_param.

Inductive event :=
  (* update_bridge, topics *)
  | erase_1to2 (topic_name : string)
  | create_bridge_from_1_to_2_call (ros1_type topic_name ros2_type : string)
  | erase_2to1 (topic_name : string)
  | create_bridge_from_2_to_1_call (ros2_type topic_name ros1_type : string)
  (* update_bridge, services *)
  | get_service_factory_call (domain package name : string)
  | service_bridge_2_to_1_call (name : string)
  | service_bridge_1_to_2_call (name : string)
  | erase_service_2_to_1 (name : string)
  | server_shutdown_call (name : string)
  | erase_service_1_to_2 (name : string)
  (* pollers *)
  | check_inregex_list_call (key : whitelist_key) (name : string)
      (regex_evaluations : nat)
  | lookupService_call (name : string)
  (* RCUTILS_LOG_*: severity, format string, arguments *)
  | log (s : severity) (format : string) (args : list string).

#[global] Instance whitelist_key_eq_dec : EqDecision whitelist_key.
Proof. solve_decision. Defined.

#[global] Instance severity_eq_dec : EqDecision severity.
Proof. solve_decision. Defined.

#[global] Instance event_eq_dec : EqDecision event.
Proof. solve_decision. Defined.

(** ** How a computation ends *)

Inductive stop :=
  (** a C++ exception that no handler of this file catches *)
  | exception (type what : string)
  (** behaviour the C++ standard leaves undefined *)
  | undefined (what : string)
  (** the loop did not finish within the fuel given to the model *)
  | out_of_fuel.

Inductive outcome (A : Type) :=
  | Normal (a : A)
  | Stops (why : stop).
Arguments Normal {A} a.
Arguments Stops {A} why.

Record result (S A : Type) := Res {
  ended : outcome A;
  final : S;
  emitted : list event
}.
Arguments Res {S A} ended final emitted.
Arguments ended {S A} r.
Arguments final {S A} r.
Arguments emitted {S A} r.

(** ** The monad: state, emitted events, abrupt termination *)

Definition M (S A : Type) : Type := S → result S A.

#[global] Instance M_ret {S} : MRet (M S) := λ A a st, Res (Normal a) st [].

#[global] Instance M_bind {S} : MBind (M S) := λ A B k m st,
  match m st with
  | Res (Normal a) st1 ev1 =>
      match k a st1 with
      | Res o st2 ev2 => Res o st2 (ev1 ++ ev2)
      end
  | Res (Stops why) st1 ev1 => Res (Stops why) st1 ev1
  end.

Definition get {S} : M S S := λ st, Res (Normal st) st [].
Definition modify {S} (f : S → S) : M S unit := λ st, Res (Normal tt) (f st) [].
Definition emit {S} (e : event) : M S unit := λ st, Res (Normal tt) st [e].
Definition halt {S A} (why : stop) : M S A := λ st, Res (Stops why) st [].

(** A range-for whose body neither breaks nor returns. *)
Fixpoint for_each {S A} (body : A → M S unit) (l : list A) : M S unit :=
  match l with
  | [] => mret tt
  | x :: rest => body x;; for_each body rest
  end.

(** A computation keeps [Inv] and emits only events in [P], however it
    ends. *)
Definition preserves {S A} (Inv : S → Prop) (P : event → Prop) (m : M S A) : Prop :=
  ∀ st, Inv st → Inv (final (m st)) ∧ Forall P (emitted (m st)).

(** A computation that always returns. *)
Definition returns {S A} (m : M S A) : Prop :=
  ∀ st, ∃ a, ended (m st) = Normal a.

(** The result of a computation that ran after [ev] was emitted. *)
Definition prepend {S A} (ev : list event) (r : result S A) : result S A :=
  Res (ended r) (final r) (ev ++ emitted r).

(** A computation keeps [Inv], does not leave [Q], and ends in [Q] when it
    has emitted an event of [E], however it ends. *)
Definition marks {S A} (Inv Q : S → Prop) (E : event → bool) (m : M S A) : Prop :=
  ∀ st, Inv st →
    Inv (final (m st))
    ∧ (Q st → Q (final (m st)))
    ∧ (List.filter E (emitted (m st)) ≠ [] → Q (final (m st))).

(** ** Whitelist matcher *)

Class RegexEngine := {
  regex : Type;
  (** [std::regex_match(name, rgxp)] *)
  regex_match : string → regex → bool
}.

Section Matcher.
Context {RE : RegexEngine}.

(** The loop of [check_inregex_list]: patterns are tried in list order and
    the loop returns at the first match.  The second component counts the
    calls of [std::regex_match]. *)
Fixpoint match_in_order (regex_list : list regex) (name : string)
    (evaluated : nat) : bool * nat :=
  match regex_list with
  | [] => (false, evaluated)
  | rgxp :: rest =>
      if regex_match name rgxp then (true, S evaluated)
      else match_in_order rest name (S evaluated)
  end.

(** [check_inregex_list(regex_list, name, known_set)]: the returned bool,
    [known_set] as the call leaves it, and the number of patterns
    evaluated. *)
Definition check_inregex_list (regex_list : list regex) (name : string)
    (known_set : gset string) : bool * gset string * nat :=
  if bool_decide (name ∈ known_set) then (true, known_set, 0)
  else
    match match_in_order regex_list name 0 with
    | (true, n) => (true, {[name]} ∪ known_set, n)
    | (false, n) => (false, known_set, n)
    end.
End Matcher.

(** ** The reconciler: external collaborators *)

(** What [update_bridge] calls in [ros1_bridge/bridge.hpp] and in the generated
    factories.  [World] stands for the two middleware domains (the objects
    behind [ros1_node] and [ros2_node]); a call that can throw
    [std::runtime_error] returns [inl what] when it does. *)
Class Collaborators := {
  World : Type;
  Bridge1to2Handles : Type;
  Bridge2to1Handles : Type;
  ServiceBridge1to2 : Type;
  ServiceBridge2to1 : Type;
  ServiceFactoryInterface : Type;
  (** [get_1to2_mapping(ros1_type_name, ros2_type_name)]: [None] when the
      call returns false. *)
  get_1to2_mapping : string → option string;
  get_2to1_mapping : string → option string;
  (** [create_bridge_from_1_to_2(ros1_node, ros2_node, ros1_type_name,
      topic_name, 10, ros2_type_name, topic_name, 10)] *)
  create_bridge_from_1_to_2 :
    string → string → string → World → World * (string + Bridge1to2Handles);
  (** [create_bridge_from_2_to_1(ros2_node, ros1_node, ros2_type_name,
      topic_name, 10, ros1_type_name, topic_name, 10)] *)
  create_bridge_from_2_to_1 :
    string → string → string → World → World * (string + Bridge2to1Handles);
  (** [get_service_factory(domain, package, name)]: [None] for a null
      pointer. *)
  get_service_factory : string → string → string → option ServiceFactoryInterface;
  service_bridge_2_to_1 :
    ServiceFactoryInterface → string → World → World * (string + ServiceBridge2to1);
  service_bridge_1_to_2 :
    ServiceFactoryInterface → string → World → World * (string + ServiceBridge1to2);
  (** [bridge.server.shutdown()] on a [ServiceBridge1to2]: [Some what] when
      it throws [std::runtime_error]. *)
  server_shutdown : ServiceBridge1to2 → World → World * option string
}.

(** [Bridge1to2HandlesAndMessageTypes] and
    [Bridge2to1HandlesAndMessageTypes]: the two structs differ only in the
    type of [bridge_handles]. *)
Record HandlesAndMessageTypes (Handles : Type) := {
  bridge_handles : Handles;
  ros1_type_name : string;
  ros2_type_name : string
}.
Arguments bridge_handles {Handles} _.
Arguments ros1_type_name {Handles} _.
Arguments ros2_type_name {Handles} _.

(** The six inventory snapshots [update_bridge] receives by const
    reference. *)
Record Inventory := {
  ros1_publishers : gmap string string;
  ros1_subscribers : gmap string string;
  ros2_publishers : gmap string string;
  ros2_subscribers : gmap string string;
  ros1_services : gmap string (gmap string string);
  ros2_services : gmap string (gmap string string)
}.

(** The call sites of [RCUTILS_LOG_WARN_ONCE_NAMED] in [update_bridge]; each
    has a static flag of its own. *)
Inductive warn_once_site := warn_ros1_service | warn_ros2_service.

#[global] Instance warn_once_site_eq_dec : EqDecision warn_once_site.
Proof. solve_decision. Defined.

Section Reconciler.
Context {C : Collaborators}.

(** What [update_bridge] can change: the middleware behind the two nodes,
    the four bridge-entry maps, and the warn-once flags. *)
Record State := {
  world : World;
  bridges_1to2 : gmap string (HandlesAndMessageTypes Bridge1to2Handles);
  bridges_2to1 : gmap string (HandlesAndMessageTypes Bridge2to1Handles);
  service_bridges_1_to_2 : gmap string ServiceBridge1to2;
  service_bridges_2_to_1 : gmap string ServiceBridge2to1;
  warned_once : list warn_once_site
}.

Definition set_world (w : World) (st : State) : State :=
  {| world := w;
     bridges_1to2 := bridges_1to2 st;
     bridges_2to1 := bridges_2to1 st;
     service_bridges_1_to_2 := service_bridges_1_to_2 st;
     service_bridges_2_to_1 := service_bridges_2_to_1 st;
     warned_once := warned_once st |}.

Definition set_bridges_1to2
    (m : gmap string (HandlesAndMessageTypes Bridge1to2Handles))
    (st : State) : State :=
  {| world := world st;
     bridges_1to2 := m;
     bridges_2to1 := bridges_2to1 st;
     service_bridges_1_to_2 := service_bridges_1_to_2 st;
     service_bridges_2_to_1 := service_bridges_2_to_1 st;
     warned_once := warned_once st |}.

Definition set_bridges_2to1
    (m : gmap string (HandlesAndMessageTypes Bridge2to1Handles))
    (st : State) : State :=
  {| world := world st;
     bridges_1to2 := bridges_1to2 st;
     bridges_2to1 := m;
     service_bridges_1_to_2 := service_bridges_1_to_2 st;
     service_bridges_2_to_1 := service_bridges_2_to_1 st;
     warned_once := warned_once st |}.

Definition set_service_bridges_1_to_2 (m : gmap string ServiceBridge1to2)
    (st : State) : State :=
  {| world := world st;
     bridges_1to2 := bridges_1to2 st;
     bridges_2to1 := bridges_2to1 st;
     service_bridges_1_to_2 := m;
     service_bridges_2_to_1 := service_bridges_2_to_1 st;
     warned_once := warned_once st |}.

Definition set_service_bridges_2_to_1 (m : gmap string ServiceBridge2to1)
    (st : State) : State :=
  {| world := world st;
     bridges_1to2 := bridges_1to2 st;
     bridges_2to1 := bridges_2to1 st;
     service_bridges_1_to_2 := service_bridges_1_to_2 st;
     service_bridges_2_to_1 := m;
     warned_once := warned_once st |}.

Definition set_warned_once (l : list warn_once_site) (st : State) : State :=
  {| world := world st;
     bridges_1to2 := bridges_1to2 st;
     bridges_2to1 := bridges_2to1 st;
     service_bridges_1_to_2 := service_bridges_1_to_2 st;
     service_bridges_2_to_1 := service_bridges_2_to_1 st;
     warned_once := l |}.

(** A call into the middleware: the world moves on, the answer comes back. *)
Definition call {A} (f : World → World * A) : M State A := λ st,
  let '(w, a) := f (world st) in Res (Normal a) (set_world w st) [].

(** [RCUTILS_LOG_WARN_ONCE_NAMED]: only the first execution of the statement
    logs. *)
Definition log_warn_once (site : warn_once_site) (format : string)
    (args : list string) : M State unit :=
  st ← get;
  if bool_decide (site ∈ warned_once st) then mret tt
  else
    modify (λ st, set_warned_once (site :: warned_once st) st);;
    emit (log WARN format args).

(** [details.at(key)] on a [std::map<std::string, std::string>]. *)
Definition at_key {S} (details : gmap string string) (key : string) : M S string :=
  match details !! key with
  | Some value => mret value
  | None => halt (exception "std::out_of_range" "map::at")
  end.
(** *** Topic pass, ROS 1 to ROS 2 (lines 189-250) *)

(** Lines 195-211: the ROS 2 type the bridge for [topic_name] should have;
    [None] where the loop body says [continue]. *)
Definition wanted_1to2 (inv : Inventory) (bridge_all_1to2_topics : bool)
    (topic_name ros1_type : string) : option string :=
  match ros2_subscribers inv !! topic_name with
  | None =>
      if bridge_all_1to2_topics then get_1to2_mapping ros1_type else None
  | Some ros2_type => Some ros2_type
  end.

(** Lines 226-249: ask the factory; record the entry only if it returns. *)
Definition create_1to2 (topic_name ros1_type ros2_type : string) : M State unit :=
  emit (create_bridge_from_1_to_2_call ros1_type topic_name ros2_type);;
  r ← call (create_bridge_from_1_to_2 ros1_type topic_name ros2_type);
  match r with
  | inl what =>
      emit (log ERROR
        "failed to create 1to2 bridge for topic '%s' with ROS 1 type '%s' and ROS 2 type '%s': %s\n"
        [topic_name; ros1_type; ros2_type; what]);;
      if String.index 0 "No template specialization" what is Some _
      then emit (log ERROR
        "check the list of supported pairs with the `--print-pairs` option\n" [])
      else mret tt
  | inr handles =>
      modify (λ st, set_bridges_1to2
        (<[topic_name := {| bridge_handles := handles;
                            ros1_type_name := ros1_type;
                            ros2_type_name := ros2_type |}]> (bridges_1to2 st)) st);;
      emit (log INFO
        "created 1to2 bridge for topic '%s' with ROS 1 type '%s' and ROS 2 type '%s'\n"
        [topic_name; ros1_type; ros2_type])
  end.

(** Lines 214-224: is the recorded entry the wanted one? *)
Definition in_place_1to2 {Handles} (bridge : HandlesAndMessageTypes Handles)
    (ros1_type ros2_type : string) : bool :=
  bool_decide (ros1_type_name bridge = ros1_type)
  && bool_decide (ros2_type_name bridge = ros2_type).

(** The body of the loop over [ros1_publishers]. *)
Definition update_1to2 (inv : Inventory) (bridge_all_1to2_topics : bool)
    (ros1_publisher : string * string) : M State unit :=
  let topic_name := ros1_publisher.1 in
  let ros1_type := ros1_publisher.2 in
  match wanted_1to2 inv bridge_all_1to2_topics topic_name ros1_type with
  | None => mret tt
  | Some ros2_type =>
      st ← get;
      match bridges_1to2 st !! topic_name with
      | Some bridge =>
          if in_place_1to2 bridge ros1_type ros2_type then mret tt
          else
            modify (λ st, set_bridges_1to2 (delete topic_name (bridges_1to2 st)) st);;
            emit (erase_1to2 topic_name);;
            emit (log INFO "replace 1to2 bridge for topic '%s'\n" [topic_name]);;
            create_1to2 topic_name ros1_type ros2_type
      | None => create_1to2 topic_name ros1_type ros2_type
      end
  end.

(** *** Topic pass, ROS 2 to ROS 1 (lines 253-315) *)

Definition wanted_2to1 (inv : Inventory) (bridge_all_2to1_topics : bool)
    (topic_name ros2_type : string) : option string :=
  match ros1_subscribers inv !! topic_name with
  | None =>
      if bridge_all_2to1_topics then get_2to1_mapping ros2_type else None
  | Some ros1_type => Some ros1_type
  end.

Definition create_2to1 (topic_name ros1_type ros2_type : string) : M State unit :=
  emit (create_bridge_from_2_to_1_call ros2_type topic_name ros1_type);;
  r ← call (create_bridge_from_2_to_1 ros2_type topic_name ros1_type);
  match r with
  | inl what =>
      emit (log ERROR
        "failed to create 2to1 bridge for topic '%s' with ROS 2 type '%s' and ROS 1 type '%s': %s\n"
        [topic_name; ros2_type; ros1_type; what]);;
      if String.index 0 "No template specialization" what is Some _
      then emit (log ERROR
        "check the list of supported pairs with the `--print-pairs` option\n" [])
      else mret tt
  | inr handles =>
      modify (λ st, set_bridges_2to1
        (<[topic_name := {| bridge_handles := handles;
                            ros1_type_name := ros1_type;
                            ros2_type_name := ros2_type |}]> (bridges_2to1 st)) st);;
      emit (log INFO
        "created 2to1 bridge for topic '%s' with ROS 2 type '%s' and ROS 1 type '%s'\n"
        [topic_name; ros2_type; ros1_type])
  end.

(** Lines 279-285: the test of the 2to1 pass also accepts a recorded ROS 1
    type that is the empty string. *)
Definition in_place_2to1 {Handles} (bridge : HandlesAndMessageTypes Handles)
    (ros1_type ros2_type : string) : bool :=
  (bool_decide (ros1_type_name bridge = ros1_type)
   || bool_decide (ros1_type_name bridge = ""))
  && bool_decide (ros2_type_name bridge = ros2_type).

(** The body of the loop over [ros2_publishers]. *)
Definition update_2to1 (inv : Inventory) (bridge_all_2to1_topics : bool)
    (ros2_publisher : string * string) : M State unit :=
  let topic_name := ros2_publisher.1 in
  let ros2_type := ros2_publisher.2 in
  match wanted_2to1 inv bridge_all_2to1_topics topic_name ros2_type with
  | None => mret tt
  | Some ros1_type =>
      st ← get;
      match bridges_2to1 st !! topic_name with
      | Some bridge =>
          if in_place_2to1 bridge ros1_type ros2_type then mret tt
          else
            modify (λ st, set_bridges_2to1 (delete topic_name (bridges_2to1 st)) st);;
            emit (erase_2to1 topic_name);;
            emit (log INFO "replace 2to1 bridge for topic '%s'\n" [topic_name]);;
            create_2to1 topic_name ros1_type ros2_type
      | None => create_2to1 topic_name ros1_type ros2_type
      end
  end.

(** *** Service creation (lines 351-396) *)

(** The body of the loop over [ros1_services].  In
    [service_bridges_2_to_1[name] = factory->service_bridge_2_to_1(...)] the
    right-hand side is evaluated first (C++17), so a throwing factory
    leaves the map untouched. *)
Definition create_ros1_service (service : string * gmap string string) : M State unit :=
  let name := service.1 in
  let details := service.2 in
  st ← get;
  match service_bridges_2_to_1 st !! name, service_bridges_1_to_2 st !! name with
  | None, None =>
      package ← at_key details "package";
      type_name ← at_key details "name";
      emit (get_service_factory_call "ros1" package type_name);;
      match get_service_factory "ros1" package type_name with
      | Some factory =>
          emit (service_bridge_2_to_1_call name);;
          r ← call (service_bridge_2_to_1 factory name);
          match r with
          | inr bridge =>
              modify (λ st, set_service_bridges_2_to_1
                (<[name := bridge]> (service_bridges_2_to_1 st)) st);;
              emit (log INFO "Created 2 to 1 bridge for service %s\n" [name])
          | inl what =>
              emit (log ERROR "Failed to created a bridge: %s\n" [what])
          end
      | None =>
          log_warn_once warn_ros1_service
            "Can't bridge service ROS1=>ROS2 Service: %s for ROS1 Type: %s/%s"
            [name; package; type_name]
      end
  | _, _ => mret tt
  end.

(** The body of the loop over [ros2_services]. *)
Definition create_ros2_service (service : string * gmap string string) : M State unit :=
  let name := service.1 in
  let details := service.2 in
  st ← get;
  match service_bridges_1_to_2 st !! name, service_bridges_2_to_1 st !! name with
  | None, None =>
      package ← at_key details "package";
      type_name ← at_key details "name";
      emit (get_service_factory_call "ros2" package type_name);;
      match get_service_factory "ros2" package type_name with
      | Some factory =>
          emit (service_bridge_1_to_2_call name);;
          r ← call (service_bridge_1_to_2 factory name);
          match r with
          | inr bridge =>
              modify (λ st, set_service_bridges_1_to_2
                (<[name := bridge]> (service_bridges_1_to_2 st)) st);;
              emit (log INFO "Created 1 to 2 bridge for service %s\n" [name])
          | inl what =>
              emit (log ERROR "Failed to created a bridge: %s\n" [what])
          end
      | None =>
          log_warn_once warn_ros2_service
            "Can't bridge service ROS2=>ROS1 Service: %s for ROS2 Type: %s/%s"
            [name; package; type_name]
      end
  | _, _ => mret tt
  end.

(** *** Service removal (lines 399-425) *)

(** One visit of the loop over [service_bridges_2_to_1].  The [try] block
    holds only [erase(it)], which runs the destructor of the entry and does
    not throw: the iterator always moves on. *)
Definition remove_obsolete_2_to_1 (inv : Inventory)
    (entry : string * ServiceBridge2to1) : M State unit :=
  match ros1_services inv !! entry.1 with
  | None =>
      emit (log INFO "Removed 2 to 1 bridge for service %s\n" [entry.1]);;
      emit (erase_service_2_to_1 entry.1);;
      modify (λ st, set_service_bridges_2_to_1
        (delete entry.1 (service_bridges_2_to_1 st)) st)
  | Some _ => mret tt
  end.

(** The visits of the loop over [service_bridges_1_to_2] to one obsolete
    entry.  When [server.shutdown()] throws, the handler logs and the loop
    tests the same iterator again: [it] is advanced by [erase] only.
    [fuel] bounds the number of attempts the model follows. *)
Fixpoint shutdown_and_erase (fuel : nat) (name : string)
    (bridge : ServiceBridge1to2) : M State unit :=
  match fuel with
  | 0 => halt out_of_fuel
  | S fuel' =>
      emit (log INFO "Removed 1 to 2 bridge for service %s\n" [name]);;
      emit (server_shutdown_call name);;
      r ← call (server_shutdown bridge);
      match r with
      | None =>
          emit (erase_service_1_to_2 name);;
          modify (λ st, set_service_bridges_1_to_2
            (delete name (service_bridges_1_to_2 st)) st)
      | Some what =>
          emit (log ERROR
            "There was an error while removing 1 to 2 bridge: %s\n" [what]);;
          shutdown_and_erase fuel' name bridge
      end
  end.

Definition remove_obsolete_1_to_2 (fuel : nat) (inv : Inventory)
    (entry : string * ServiceBridge1to2) : M State unit :=
  match ros2_services inv !! entry.1 with
  | None => shutdown_and_erase fuel entry.1 entry.2
  | Some _ => mret tt
  end.

(** *** [update_bridge] *)

(** Lines 188-250, "create 1to2 bridges". *)
Definition create_1to2_bridges (inv : Inventory) (bridge_all_1to2_topics : bool) :
    M State unit :=
  for_each (update_1to2 inv bridge_all_1to2_topics)
    (in_key_order (ros1_publishers inv)).

(** Lines 252-315, "create 2to1 bridges". *)
Definition create_2to1_bridges (inv : Inventory) (bridge_all_2to1_topics : bool) :
    M State unit :=
  for_each (update_2to1 inv bridge_all_2to1_topics)
    (in_key_order (ros2_publishers inv)).

(** Lines 350-425: "create bridges for ros1 services", "create bridges for
    ros2 services", "remove obsolete ros1 services", "remove obsolete ros2
    services".  The code for the removal of obsolete topic bridges (lines
    317-348) is commented out. *)
Definition update_service_bridges (fuel : nat) (inv : Inventory) : M State unit :=
  for_each create_ros1_service (in_key_order (ros1_services inv));;
  for_each create_ros2_service (in_key_order (ros2_services inv));;
  st ← get;
  for_each (remove_obsolete_2_to_1 inv) (in_key_order (service_bridges_2_to_1 st));;
  st ← get;
  for_each (remove_obsolete_1_to_2 fuel inv) (in_key_order (service_bridges_1_to_2 st)).

(** The function holds [g_bridge_mutex] from its first line to its last;
    the model is the sequential run under that lock. *)
Definition update_bridge (fuel : nat) (inv : Inventory)
    (bridge_all_1to2_topics bridge_all_2to1_topics : bool) : M State unit :=
  create_1to2_bridges inv bridge_all_1to2_topics;;
  create_2to1_bridges inv bridge_all_2to1_topics;;
  update_service_bridges fuel inv.
End Reconciler.

(** ** The ROS 1 service type probe (lines 428-498) *)

(** [std::string::npos] for a 64-bit [size_t]. *)
Definition npos : Z := 2 ^ 64 - 1.

(** [t.find(sep)] *)
Definition find (t sep : string) : Z :=
  match String.index 0 sep t with
  | Some i => Z.of_nat i
  | None => npos
  end.

(** [std::string(t.begin() + first, t.begin() + last)].  The iterators must
    lie within [[t.begin(), t.end()]] and be in order; otherwise the
    behaviour is undefined ([None]). *)
Definition string_of_range (t : string) (first last : Z) : option string :=
  if bool_decide (0 ≤ first ∧ first ≤ last ∧ last ≤ Z.of_nat (String.length t))%Z
  then Some (String.substring (Z.to_nat first) (Z.to_nat (last - first)) t)
  else None.

(** What one run of the probe observes of the network: the results of the
    calls it makes, in the order it makes them. *)
Record ServiceServer := {
  (** [manager.lookupService(name, host, port)]: host and port, or [None]
      when the call returns false *)
  lookupService : option (string * string);
  (** [transport->connect(host, port)] *)
  connect : bool;
  (** [transport->read(&length, 4)]: the bytes read and the value left in
      [length] *)
  read_length : Z * Z;
  (** [transport->read(response.data(), length)]: the bytes read *)
  read_response : Z;
  (** [header_in.parse(response.data(), length, error)]: the error text, or
      the fields of the header *)
  parse : string + gmap string string
}.

(** [ros1_services[key][field] = value] *)
Definition assign_field (key field value : string)
    (ros1_services : gmap string (gmap string string)) :
    gmap string (gmap string string) :=
  <[key := <[field := value]> (default ∅ (ros1_services !! key))]> ros1_services.

(** Lines 495-497: the split of the type string.  There is no test of the
    result of [t.find("/")]. *)
Definition split_type (key : string) : M (gmap string (gmap string string)) unit :=
  ros1_services ← get;
  let t := default "" (default ∅ (ros1_services !! key) !! "type") in
  match string_of_range t 0 (find t "/") with
  | None => halt (undefined "iterator past the end of the string")
  | Some package =>
      modify (assign_field key "package" package);;
      match string_of_range t (find t "/" + 1) (Z.of_nat (String.length t)) with
      | None => halt (undefined "iterator past the end of the string")
      | Some type_name => modify (assign_field key "name" type_name)
      end
  end.

(** [get_ros1_service_info(name, ros1_services)]; the state is the map passed
    by reference.  The transport is closed on every path by the scope-exit
    guard, which the model leaves out. *)
Definition get_ros1_service_info (server : ServiceServer) (name : string) :
    M (gmap string (gmap string string)) unit :=
  emit (lookupService_call name);;
  match lookupService server with
  | None => emit (log ERROR "Failed to look up %s\n" [name])
  | Some (host, port) =>
      if negb (connect server)
      then emit (log ERROR "Failed to connect to %s:%d\n" [host; port])
      else
        let '(read, length) := read_length server in
        if bool_decide (read ≠ 4%Z)
        then emit (log ERROR "Failed to read a response from a service server\n" [])
        else
          let read := read_response server in
          if bool_decide (read < 0)%Z || bool_decide (read `mod` 2 ^ 32 ≠ length)%Z
          then emit (log ERROR "Failed to read a response from a service server\n" [])
          else
            let key := name in
            modify (λ ros1_services, <[key := ∅]> ros1_services);;
            match parse server with
            | inl error => emit (log ERROR "%s\n" [error])
            | inr header_in =>
                match header_in !! "type" with
                | None =>
                    emit (log ERROR "Failed to read '%s' from a header for '%s'\n"
                            ["type"; key]);;
                    modify (λ ros1_services, delete key ros1_services)
                | Some value =>
                    modify (assign_field key "type" value);;
                    split_type key
                end
            end
  end.

(** ** The pollers (lines 563-721 and 733-893)

    The model is the run with [output_topic_introspection] false. *)

(** Run a computation on a part of the state. *)
Definition zoom {S T A} (part : S → T) (update : T → S → S) (m : M T A) : M S A :=
  λ st, match m (part st) with Res o t ev => Res o (update t st) ev end.

(** The sets [ros1_poll] captures by reference, followed by the locals of one
    run of the lambda. *)
Record Ros1Poll := {
  already_ignored_ros1_topics : gset string;
  already_ignored_ros1_services : gset string;
  valid_ros1_topics : gset string;
  valid_ros1_services : gset string;
  active_publishers : gset string;
  active_subscribers : gset string;
  active_ros1_services : gmap string (gmap string string)
}.

Definition with_already_ignored_ros1_topics (x : gset string) (st : Ros1Poll) : Ros1Poll :=
  {| already_ignored_ros1_topics := x;
     already_ignored_ros1_services := already_ignored_ros1_services st;
     valid_ros1_topics := valid_ros1_topics st;
     valid_ros1_services := valid_ros1_services st;
     active_publishers := active_publishers st;
     active_subscribers := active_subscribers st;
     active_ros1_services := active_ros1_services st |}.

Definition with_already_ignored_ros1_services (x : gset string) (st : Ros1Poll) : Ros1Poll :=
  {| already_ignored_ros1_topics := already_ignored_ros1_topics st;
     already_ignored_ros1_services := x;
     valid_ros1_topics := valid_ros1_topics st;
     valid_ros1_services := valid_ros1_services st;
     active_publishers := active_publishers st;
     active_subscribers := active_subscribers st;
     active_ros1_services := active_ros1_services st |}.

Definition with_valid_ros1_topics (x : gset string) (st : Ros1Poll) : Ros1Poll :=
  {| already_ignored_ros1_topics := already_ignored_ros1_topics st;
     already_ignored_ros1_services := already_ignored_ros1_services st;
     valid_ros1_topics := x;
     valid_ros1_services := valid_ros1_services st;
     active_publishers := active_publishers st;
     active_subscribers := active_subscribers st;
     active_ros1_services := active_ros1_services st |}.

Definition with_valid_ros1_services (x : gset string) (st : Ros1Poll) : Ros1Poll :=
  {| already_ignored_ros1_topics := already_ignored_ros1_topics st;
     already_ignored_ros1_services := already_ignored_ros1_services st;
     valid_ros1_topics := valid_ros1_topics st;
     valid_ros1_services := x;
     active_publishers := active_publishers st;
     active_subscribers := active_subscribers st;
     active_ros1_services := active_ros1_services st |}.

Definition with_active_publishers (x : gset string) (st : Ros1Poll) : Ros1Poll :=
  {| already_ignored_ros1_topics := already_ignored_ros1_topics st;
     already_ignored_ros1_services := already_ignored_ros1_services st;
     valid_ros1_topics := valid_ros1_topics st;
     valid_ros1_services := valid_ros1_services st;
     active_publishers := x;
     active_subscribers := active_subscribers st;
     active_ros1_services := active_ros1_services st |}.

Definition with_active_subscribers (x : gset string) (st : Ros1Poll) : Ros1Poll :=
  {| already_ignored_ros1_topics := already_ignored_ros1_topics st;
     already_ignored_ros1_services := already_ignored_ros1_services st;
     valid_ros1_topics := valid_ros1_topics st;
     valid_ros1_services := valid_ros1_services st;
     active_publishers := active_publishers st;
     active_subscribers := x;
     active_ros1_services := active_ros1_services st |}.

Definition with_active_ros1_services (x : gmap string (gmap string string)) (st : Ros1Poll) : Ros1Poll :=
  {| already_ignored_ros1_topics := already_ignored_ros1_topics st;
     already_ignored_ros1_services := already_ignored_ros1_services st;
     valid_ros1_topics := valid_ros1_topics st;
     valid_ros1_services := valid_ros1_services st;
     active_publishers := active_publishers st;
     active_subscribers := active_subscribers st;
     active_ros1_services := x |}.

(** The sets [ros2_poll] captures by reference, followed by the locals of one
    run of the lambda. *)
Record Ros2Poll := {
  already_ignored_topics : gset string;
  already_ignored_services : gset string;
  valid_ros2_topics : gset string;
  valid_ros2_services : gset string;
  current_ros2_publishers : gmap string string;
  current_ros2_subscribers : gmap string string;
  active_ros2_services : gmap string (gmap string string)
}.

Definition with_already_ignored_topics (x : gset string) (st : Ros2Poll) : Ros2Poll :=
  {| already_ignored_topics := x;
     already_ignored_services := already_ignored_services st;
     valid_ros2_topics := valid_ros2_topics st;
     valid_ros2_services := valid_ros2_services st;
     current_ros2_publishers := current_ros2_publishers st;
     current_ros2_subscribers := current_ros2_subscribers st;
     active_ros2_services := active_ros2_services st |}.

Definition with_already_ignored_services (x : gset string) (st : Ros2Poll) : Ros2Poll :=
  {| already_ignored_topics := already_ignored_topics st;
     already_ignored_services := x;
     valid_ros2_topics := valid_ros2_topics st;
     valid_ros2_services := valid_ros2_services st;
     current_ros2_publishers := current_ros2_publishers st;
     current_ros2_subscribers := current_ros2_subscribers st;
     active_ros2_services := active_ros2_services st |}.

Definition with_valid_ros2_topics (x : gset string) (st : Ros2Poll) : Ros2Poll :=
  {| already_ignored_topics := already_ignored_topics st;
     already_ignored_services := already_ignored_services st;
     valid_ros2_topics := x;
     valid_ros2_services := valid_ros2_services st;
     current_ros2_publishers := current_ros2_publishers st;
     current_ros2_subscribers := current_ros2_subscribers st;
     active_ros2_services := active_ros2_services st |}.

Definition with_valid_ros2_services (x : gset string) (st : Ros2Poll) : Ros2Poll :=
  {| already_ignored_topics := already_ignored_topics st;
     already_ignored_services := already_ignored_services st;
     valid_ros2_topics := valid_ros2_topics st;
     valid_ros2_services := x;
     current_ros2_publishers := current_ros2_publishers st;
     current_ros2_subscribers := current_ros2_subscribers st;
     active_ros2_services := active_ros2_services st |}.

Definition with_current_ros2_publishers (x : gmap string string) (st : Ros2Poll) : Ros2Poll :=
  {| already_ignored_topics := already_ignored_topics st;
     already_ignored_services := already_ignored_services st;
     valid_ros2_topics := valid_ros2_topics st;
     valid_ros2_services := valid_ros2_services st;
     current_ros2_publishers := x;
     current_ros2_subscribers := current_ros2_subscribers st;
     active_ros2_services := active_ros2_services st |}.

Definition with_current_ros2_subscribers (x : gmap string string) (st : Ros2Poll) : Ros2Poll :=
  {| already_ignored_topics := already_ignored_topics st;
     already_ignored_services := already_ignored_services st;
     valid_ros2_topics := valid_ros2_topics st;
     valid_ros2_services := valid_ros2_services st;
     current_ros2_publishers := current_ros2_publishers st;
     current_ros2_subscribers := x;
     active_ros2_services := active_ros2_services st |}.

Definition with_active_ros2_services (x : gmap string (gmap string string)) (st : Ros2Poll) : Ros2Poll :=
  {| already_ignored_topics := already_ignored_topics st;
     already_ignored_services := already_ignored_services st;
     valid_ros2_topics := valid_ros2_topics st;
     valid_ros2_services := valid_ros2_services st;
     current_ros2_publishers := current_ros2_publishers st;
     current_ros2_subscribers := current_ros2_subscribers st;
     active_ros2_services := x |}.

Section Pollers.
Context {RE : RegexEngine}.

(** *** ROS 1 *)

(** The loop over the nodes of one topic (lines 590-608 and 615-633): nodes
    that are the bridge itself are skipped, the first other node runs
    [body] and breaks. *)
Fixpoint first_other_node {S} (this_node : string) (body : M S unit)
    (nodes : list string) : M S unit :=
  match nodes with
  | [] => mret tt
  | node_name :: rest =>
      if bool_decide (node_name = this_node)
      then first_other_node this_node body rest
      else body
  end.

(** Lines 596-606 and 621-631: the whitelist test of a topic name;
    [activate] is the insertion into [active_publishers] or
    [active_subscribers]. *)
Definition whitelist_ros1_topic (regex_list : list regex) (topic_name : string)
    (activate : M Ros1Poll unit) : M Ros1Poll unit :=
  st ← get;
  if bool_decide (topic_name ∈ already_ignored_ros1_topics st) then mret tt
  else
    let '(found, known_set, evaluated) :=
      check_inregex_list regex_list topic_name (valid_ros1_topics st) in
    emit (check_inregex_list_call topic_rgxp_list_param topic_name evaluated);;
    modify (with_valid_ros1_topics known_set);;
    if found then activate
    else
      emit (log INFO "ignoring topic '%s',as it does not match any regex \n"
              [topic_name]);;
      modify (λ st, with_already_ignored_ros1_topics
                      ({[topic_name]} ∪ already_ignored_ros1_topics st) st).

(** Lines 587-610, the body of the loop over [payload[0]]. *)
Definition check_publisher (this_node : string) (regex_list : list regex)
    (entry : string * list string) : M Ros1Poll unit :=
  let topic_name := entry.1 in
  first_other_node this_node
    (whitelist_ros1_topic regex_list topic_name
       (modify (λ st, with_active_publishers
                        ({[topic_name]} ∪ active_publishers st) st)))
    entry.2.

(** Lines 612-635, the body of the loop over [payload[1]]. *)
Definition check_subscriber (this_node : string) (regex_list : list regex)
    (entry : string * list string) : M Ros1Poll unit :=
  let topic_name := entry.1 in
  first_other_node this_node
    (whitelist_ros1_topic regex_list topic_name
       (modify (λ st, with_active_subscribers
                        ({[topic_name]} ∪ active_subscribers st) st)))
    entry.2.

(** Lines 640-656, the body of the loop over [payload[2]]; [network] is what
    the probe of each name observes. *)
Definition check_service (network : string → ServiceServer)
    (regex_list : list regex) (entry : string * list string) : M Ros1Poll unit :=
  let name := entry.1 in
  st ← get;
  if bool_decide (name ∈ already_ignored_ros1_services st) then mret tt
  else
    let '(found, known_set, evaluated) :=
      check_inregex_list regex_list name (valid_ros1_services st) in
    emit (check_inregex_list_call srv_rgxp_list_param name evaluated);;
    modify (with_valid_ros1_services known_set);;
    if found
    then zoom active_ros1_services with_active_ros1_services
           (get_ros1_service_info (network name) name)
    else
      emit (log INFO "ignoring service '%s',as it does not match any regex \n"
              [name]);;
      modify (λ st, with_already_ignored_ros1_services
                      ({[name]} ∪ already_ignored_ros1_services st) st).

(** Lines 576-656: the three loops over the system state of the master.
    [payload] lists publishers, subscribers and services, in this order. *)
Definition collect_ros1_names (this_node : string)
    (topic_regex_list srv_regex_list : list regex)
    (payload : list (list (string * list string)))
    (network : string → ServiceServer) : M Ros1Poll unit :=
  modify (with_active_publishers ∅);;
  modify (with_active_subscribers ∅);;
  for_each (check_publisher this_node topic_regex_list) (default [] (payload !! 0));;
  for_each (check_subscriber this_node topic_regex_list) (default [] (payload !! 1));;
  modify (with_active_ros1_services ∅);;
  for_each (check_service network srv_regex_list) (default [] (payload !! 2)).

(** Lines 670-691: the loop over the topics the master reports with their
    types. *)
Definition record_topic_types (active_publishers active_subscribers : gset string)
    (current : gmap string string * gmap string string)
    (topic : string * string) : gmap string string * gmap string string :=
  let topic_name := topic.1 in
  let has_publisher := bool_decide (topic_name ∈ active_publishers) in
  let has_subscriber := bool_decide (topic_name ∈ active_subscribers) in
  (if has_publisher then <[topic_name := topic.2]> current.1 else current.1,
   if has_subscriber then <[topic_name := topic.2]> current.2 else current.2).

(** Lines 694-701: subscribers the master reported no type for get the
    empty string. *)
Definition add_untyped_subscriber (active_subscriber : string)
    (current_ros1_subscribers : gmap string string) : gmap string string :=
  match current_ros1_subscribers !! active_subscriber with
  | None => <[active_subscriber := ""]> current_ros1_subscribers
  | Some _ => current_ros1_subscribers
  end.

(** Lines 670-701: [current_ros1_publishers] and
    [current_ros1_subscribers]. *)
Definition current_ros1_topics (st : Ros1Poll) (topics : list (string * string)) :
    gmap string string * gmap string string :=
  let current :=
    foldl (record_topic_types (active_publishers st) (active_subscribers st))
      (∅, ∅) topics in
  (current.1, set_fold add_untyped_subscriber current.2 (active_subscribers st)).

(** *** ROS 2 *)

Definition ignored_topics : gset string := {["parameter_events"]}.

(** [types[0]] on a [std::vector<std::string>]: there is no bounds check,
    and element 0 of an empty vector is undefined.  The reference taken at
    lines 760 and 825 is read at lines 808, 812 and 857; the model stops
    where it is taken. *)
Definition element_0 {S} (types : list string) : M S string :=
  match types with
  | first :: _ => mret first
  | [] => halt (undefined "element 0 of an empty vector")
  end.

(** Lines 753-819, the body of the loop over [ros2_topics].  The two
    booleans say whether [bridges_1to2] and [bridges_2to1] hold an entry for
    the topic.  Line 760 takes [topic_and_types.second[0]] for every topic
    that is not in [ignored_topics], before the number of types is looked
    at. *)
Definition check_ros2_topic (regex_list : list regex)
    (count_publishers count_subscribers : string → nat)
    (bridged_1to2 bridged_2to1 : string → bool)
    (topic_and_types : string * list string) : M Ros2Poll unit :=
  let topic_name := topic_and_types.1 in
  if bool_decide (topic_name ∈ ignored_topics) then mret tt
  else
    topic_type ← element_0 topic_and_types.2;
    st ← get;
    if bool_decide (1 < length topic_and_types.2) then
      if bool_decide (topic_name ∈ already_ignored_topics st) then mret tt
      else
        emit (log WARN "ignoring topic '%s', which has more than one type: [%s]\n"
                [topic_name; String.concat ", " topic_and_types.2]);;
        modify (λ st, with_already_ignored_topics
                        ({[topic_name]} ∪ already_ignored_topics st) st)
    else if bool_decide (topic_name ∈ already_ignored_topics st) then mret tt
    else
      let '(found, known_set, evaluated) :=
        check_inregex_list regex_list topic_name (valid_ros2_topics st) in
      emit (check_inregex_list_call topic_rgxp_list_param topic_name evaluated);;
      modify (with_valid_ros2_topics known_set);;
      if negb found then
        emit (log INFO "ignoring topic '%s',as it does not match any regex \n"
                [topic_name]);;
        modify (λ st, with_already_ignored_topics
                        ({[topic_name]} ∪ already_ignored_topics st) st)
      else
        let publisher_count := count_publishers topic_name in
        let subscriber_count := count_subscribers topic_name in
        let publisher_count :=
          if bridged_1to2 topic_name && bool_decide (0 < publisher_count)
          then publisher_count - 1 else publisher_count in
        let subscriber_count :=
          if bridged_2to1 topic_name && bool_decide (0 < subscriber_count)
          then subscriber_count - 1 else subscriber_count in
        (if bool_decide (publisher_count ≠ 0)
         then modify (λ st, with_current_ros2_publishers
                (<[topic_name := topic_type]> (current_ros2_publishers st)) st)
         else mret tt);;
        (if bool_decide (subscriber_count ≠ 0)
         then modify (λ st, with_current_ros2_subscribers
                (<[topic_name := topic_type]> (current_ros2_subscribers st)) st)
         else mret tt).

(** [active_ros2_services[service_name][field] = value] *)
Definition assign_ros2_field (service_name field value : string) (st : Ros2Poll) :
    Ros2Poll :=
  with_active_ros2_services
    (assign_field service_name field value (active_ros2_services st)) st.

(** Lines 823-868, the body of the loop over [ros2_services_and_types].
    Line 825 takes [service_and_types.second[0]] first. *)
Definition check_ros2_service (regex_list : list regex)
    (service_and_types : string * list string) : M Ros2Poll unit :=
  let service_name := service_and_types.1 in
  service_type ← element_0 service_and_types.2;
  st ← get;
  if bool_decide (1 < length service_and_types.2) then
    if bool_decide (service_name ∈ already_ignored_services st) then mret tt
    else
      emit (log INFO "ignoring service '%s', which has more than one type: [%s]\n"
              [service_name; String.concat ", " service_and_types.2]);;
      modify (λ st, with_already_ignored_services
                      ({[service_name]} ∪ already_ignored_services st) st)
  else if bool_decide (service_name ∈ already_ignored_services st) then mret tt
  else
    let '(found, known_set, evaluated) :=
      check_inregex_list regex_list service_name (valid_ros2_services st) in
    emit (check_inregex_list_call srv_rgxp_list_param service_name evaluated);;
    modify (with_valid_ros2_services known_set);;
    if negb found then
      emit (log INFO "ignoring topic '%s',as it does not match any regex \n"
              [service_name]);;
      modify (λ st, with_already_ignored_services
                      ({[service_name]} ∪ already_ignored_services st) st)
    else
      let separator_position := find service_type "/" in
      if bool_decide (separator_position = npos)
      then emit (log ERROR "invalid service type '%s', skipping...\n" [service_type])
      else
        let service_type_package_name :=
          String.substring 0 (Z.to_nat separator_position) service_type in
        let service_type_srv_name :=
          String.substring (Z.to_nat (separator_position + 1))
            (String.length service_type - Z.to_nat (separator_position + 1))
            service_type in
        modify (assign_ros2_field service_name "package" service_type_package_name);;
        modify (assign_ros2_field service_name "name" service_type_srv_name).

(** Lines 746-868: the two loops of [ros2_poll]. *)
Definition collect_ros2_names (topic_regex_list srv_regex_list : list regex)
    (ros2_topics ros2_services_and_types : gmap string (list string))
    (count_publishers count_subscribers : string → nat)
    (bridged_1to2 bridged_2to1 : string → bool) : M Ros2Poll unit :=
  modify (with_current_ros2_publishers ∅);;
  modify (with_current_ros2_subscribers ∅);;
  for_each (check_ros2_topic topic_regex_list count_publishers count_subscribers
              bridged_1to2 bridged_2to1)
    (in_key_order ros2_topics);;
  modify (with_active_ros2_services ∅);;
  for_each (check_ros2_service srv_regex_list) (in_key_order ros2_services_and_types).
End Pollers.

(** The calls of the whitelist matcher for a topic name. *)
Definition offered_topic (topic_name : string) (e : event) : bool :=
  match e with
  | check_inregex_list_call topic_rgxp_list_param n _ => bool_decide (n = topic_name)
  | _ => false
  end.

(** A topic the ROS 1 poller has put aside: it is in the already-ignored
    set and not among the active names. *)
Definition put_aside_ros1 (topic_name : string) (st : Ros1Poll) : Prop :=
  topic_name ∈ already_ignored_ros1_topics st
  ∧ (topic_name ∉ active_publishers st)
  ∧ (topic_name ∉ active_subscribers st).

Definition put_aside_ros2 (topic_name : string) (st : Ros2Poll) : Prop :=
  topic_name ∈ already_ignored_topics st
  ∧ current_ros2_publishers st !! topic_name = None
  ∧ current_ros2_subscribers st !! topic_name = None.

(** The same for service names. *)
Definition offered_service (name : string) (e : event) : bool :=
  match e with
  | check_inregex_list_call srv_rgxp_list_param n _ => bool_decide (n = name)
  | _ => false
  end.

Definition service_put_aside_ros1 (name : string) (st : Ros1Poll) : Prop :=
  name ∈ already_ignored_ros1_services st
  ∧ active_ros1_services st !! name = None.

Definition service_put_aside_ros2 (name : string) (st : Ros2Poll) : Prop :=
  name ∈ already_ignored_services st
  ∧ active_ros2_services st !! name = None.

(** What the ROS 2 node reports holds at least one type for every name. *)
Definition reported_with_a_type (names_and_types : gmap string (list string)) :
    Prop :=
  map_Forall (λ _ types, types ≠ []) names_and_types.

(** ** The engine: the variables of [main] the two timers share *)

Definition with_ros1_publishers (x : gmap string string) (st : Inventory) : Inventory :=
  {| ros1_publishers := x;
     ros1_subscribers := ros1_subscribers st;
     ros2_publishers := ros2_publishers st;
     ros2_subscribers := ros2_subscribers st;
     ros1_services := ros1_services st;
     ros2_services := ros2_services st |}.

Definition with_ros1_subscribers (x : gmap string string) (st : Inventory) : Inventory :=
  {| ros1_publishers := ros1_publishers st;
     ros1_subscribers := x;
     ros2_publishers := ros2_publishers st;
     ros2_subscribers := ros2_subscribers st;
     ros1_services := ros1_services st;
     ros2_services := ros2_services st |}.

Definition with_ros2_publishers (x : gmap string string) (st : Inventory) : Inventory :=
  {| ros1_publishers := ros1_publishers st;
     ros1_subscribers := ros1_subscribers st;
     ros2_publishers := x;
     ros2_subscribers := ros2_subscribers st;
     ros1_services := ros1_services st;
     ros2_services := ros2_services st |}.

Definition with_ros2_subscribers (x : gmap string string) (st : Inventory) : Inventory :=
  {| ros1_publishers := ros1_publishers st;
     ros1_subscribers := ros1_subscribers st;
     ros2_publishers := ros2_publishers st;
     ros2_subscribers := x;
     ros1_services := ros1_services st;
     ros2_services := ros2_services st |}.

Definition with_ros1_services (x : gmap string (gmap string string)) (st : Inventory) : Inventory :=
  {| ros1_publishers := ros1_publishers st;
     ros1_subscribers := ros1_subscribers st;
     ros2_publishers := ros2_publishers st;
     ros2_subscribers := ros2_subscribers st;
     ros1_services := x;
     ros2_services := ros2_services st |}.

Definition with_ros2_services (x : gmap string (gmap string string)) (st : Inventory) : Inventory :=
  {| ros1_publishers := ros1_publishers st;
     ros1_subscribers := ros1_subscribers st;
     ros2_publishers := ros2_publishers st;
     ros2_subscribers := ros2_subscribers st;
     ros1_services := ros1_services st;
     ros2_services := x |}.

(** What the command line and the parameter server fix for the lifetime of
    the process. *)
Record Options {RE : RegexEngine} := {
  bridge_all_1to2_topics : bool;
  bridge_all_2to1_topics : bool;
  (** [whitelist_map[topic_rgxp_list_param]] *)
  topic_regex_list : list regex;
  (** [whitelist_map[srv_rgxp_list_param]] *)
  srv_regex_list : list regex;
  (** [ros::this_node::getName()] *)
  this_node : string
}.

Section Engine.
Context {RE : RegexEngine} {C : Collaborators}.

Record Engine := {
  inventory : Inventory;
  registry : State;
  ros1 : Ros1Poll;
  ros2 : Ros2Poll
}.

Definition with_inventory (x : Inventory) (st : Engine) : Engine :=
  {| inventory := x;
     registry := registry st;
     ros1 := ros1 st;
     ros2 := ros2 st |}.

Definition with_registry (x : State) (st : Engine) : Engine :=
  {| inventory := inventory st;
     registry := x;
     ros1 := ros1 st;
     ros2 := ros2 st |}.

Definition with_ros1 (x : Ros1Poll) (st : Engine) : Engine :=
  {| inventory := inventory st;
     registry := registry st;
     ros1 := x;
     ros2 := ros2 st |}.

Definition with_ros2 (x : Ros2Poll) (st : Engine) : Engine :=
  {| inventory := inventory st;
     registry := registry st;
     ros1 := ros1 st;
     ros2 := x |}.

(** [ros1_poll]: [system_state] is the payload of [getSystemState] and
    [topics] the answer of [getTopics], [None] when the call fails. *)
Definition ros1_poll (fuel : nat) (opts : Options)
    (system_state : option (list (list (string * list string))))
    (network : string → ServiceServer)
    (topics : option (list (string * string))) : M Engine unit :=
  match system_state with
  | None => emit (log ERROR "failed to get system state from ROS 1 master\n" [])
  | Some payload =>
      zoom ros1 with_ros1
        (collect_ros1_names (this_node opts) (topic_regex_list opts)
           (srv_regex_list opts) payload network);;
      modify (λ e, with_inventory
        (with_ros1_services (active_ros1_services (ros1 e)) (inventory e)) e);;
      match topics with
      | None => emit (log ERROR "failed to poll ROS 1 master\n" [])
      | Some topics =>
          modify (λ e,
            let current := current_ros1_topics (ros1 e) topics in
            with_inventory
              (with_ros1_subscribers current.2
                 (with_ros1_publishers current.1 (inventory e))) e);;
          e ← get;
          zoom registry with_registry
            (update_bridge fuel (inventory e)
               (bridge_all_1to2_topics opts) (bridge_all_2to1_topics opts))
      end
  end.

(** [ros2_poll]: the names and types the ROS 2 node reports, and its
    publisher and subscriber counts. *)
Definition ros2_poll (fuel : nat) (opts : Options)
    (ros2_topics ros2_services_and_types : gmap string (list string))
    (count_publishers count_subscribers : string → nat) : M Engine unit :=
  e ← get;
  zoom ros2 with_ros2
    (collect_ros2_names (topic_regex_list opts) (srv_regex_list opts)
       ros2_topics ros2_services_and_types count_publishers count_subscribers
       (λ topic_name, bool_decide (is_Some (bridges_1to2 (registry e) !! topic_name)))
       (λ topic_name, bool_decide (is_Some (bridges_2to1 (registry e) !! topic_name))));;
  modify (λ e, with_inventory
    (with_ros2_services (active_ros2_services (ros2 e)) (inventory e)) e);;
  modify (λ e, with_inventory
    (with_ros2_subscribers (current_ros2_subscribers (ros2 e))
       (with_ros2_publishers (current_ros2_publishers (ros2 e)) (inventory e))) e);;
  e ← get;
  zoom registry with_registry
    (update_bridge fuel (inventory e)
       (bridge_all_1to2_topics opts) (bridge_all_2to1_topics opts)).

(** The variables of [main] before the first timer fires. *)
Definition start (w : World) : Engine :=
  {| inventory := {| ros1_publishers := ∅; ros1_subscribers := ∅;
                     ros2_publishers := ∅; ros2_subscribers := ∅;
                     ros1_services := ∅; ros2_services := ∅ |};
     registry := {| world := w; bridges_1to2 := ∅; bridges_2to1 := ∅;
                    service_bridges_1_to_2 := ∅; service_bridges_2_to_1 := ∅;
                    warned_once := [] |};
     ros1 := {| already_ignored_ros1_topics := ∅; already_ignored_ros1_services := ∅;
                valid_ros1_topics := ∅; valid_ros1_services := ∅;
                active_publishers := ∅; active_subscribers := ∅;
                active_ros1_services := ∅ |};
     ros2 := {| already_ignored_topics := ∅; already_ignored_services := ∅;
                valid_ros2_topics := ∅; valid_ros2_services := ∅;
                current_ros2_publishers := ∅; current_ros2_subscribers := ∅;
                active_ros2_services := ∅ |} |}.
End Engine.

(** ** Sequences of reconciliation passes *)

Section Passes.
Context {C : Collaborators}.

(** One timer tick as the reconciler sees it: the snapshots of the moment,
    and what the rest of the system did to the middleware since the
    previous pass. *)
Record Pass := {
  pass_fuel : nat;
  pass_inventory : Inventory;
  meanwhile : World → World
}.

(** The registry after the passes, one after the other.  The maps are kept
    whatever way a pass ends. *)
Definition run_passes (bridge_all_1to2_topics bridge_all_2to1_topics : bool)
    (passes : list Pass) (st : State) : State :=
  foldl (λ st p,
           final (update_bridge (pass_fuel p) (pass_inventory p)
                    bridge_all_1to2_topics bridge_all_2to1_topics
                    (set_world (meanwhile p (world st)) st)))
        st passes.

(** The registry of a process that has just started. *)
Definition empty_registry (w : World) : State :=
  {| world := w; bridges_1to2 := ∅; bridges_2to1 := ∅;
     service_bridges_1_to_2 := ∅; service_bridges_2_to_1 := ∅;
     warned_once := [] |}.

(** The events of a pass that concern the ROS 1 to ROS 2 bridge of a
    topic: its erasure and the requests to the factory. *)
Definition about_1to2 (topic_name : string) (e : event) : bool :=
  match e with
  | erase_1to2 n => bool_decide (n = topic_name)
  | create_bridge_from_1_to_2_call _ n _ => bool_decide (n = topic_name)
  | _ => false
  end.

Definition about_2to1 (topic_name : string) (e : event) : bool :=
  match e with
  | erase_2to1 n => bool_decide (n = topic_name)
  | create_bridge_from_2_to_1_call _ n _ => bool_decide (n = topic_name)
  | _ => false
  end.

(** The registry holds every bridge the inventories call for, and no service
    bridge whose origin is gone. *)
Definition reflects (inv : Inventory)
    (bridge_all_1to2_topics bridge_all_2to1_topics : bool) (st : State) : Prop :=
  map_Forall (λ topic_name ros1_type,
      ∀ ros2_type,
        wanted_1to2 inv bridge_all_1to2_topics topic_name ros1_type = Some ros2_type →
        ∃ bridge, bridges_1to2 st !! topic_name = Some bridge
                  ∧ ros1_type_name bridge = ros1_type
                  ∧ ros2_type_name bridge = ros2_type)
    (ros1_publishers inv)
  ∧ map_Forall (λ topic_name ros2_type,
      ∀ ros1_type,
        wanted_2to1 inv bridge_all_2to1_topics topic_name ros2_type = Some ros1_type →
        ∃ bridge, bridges_2to1 st !! topic_name = Some bridge
                  ∧ (ros1_type_name bridge = ros1_type ∨ ros1_type_name bridge = "")
                  ∧ ros2_type_name bridge = ros2_type)
    (ros2_publishers inv)
  ∧ (∀ name, is_Some (ros1_services inv !! name) →
       is_Some (service_bridges_2_to_1 st !! name)
       ∨ is_Some (service_bridges_1_to_2 st !! name))
  ∧ (∀ name, is_Some (ros2_services inv !! name) →
       is_Some (service_bridges_1_to_2 st !! name)
       ∨ is_Some (service_bridges_2_to_1 st !! name))
  ∧ (∀ name, is_Some (service_bridges_2_to_1 st !! name) →
       is_Some (ros1_services inv !! name))
  ∧ (∀ name, is_Some (service_bridges_1_to_2 st !! name) →
       is_Some (ros2_services inv !! name)).

(** Frames: what a property of the registry does not depend on. *)
Definition ignores_world (Inv : State → Prop) : Prop :=
  ∀ st w, Inv st → Inv (set_world w st).

Definition ignores_warned_once (Inv : State → Prop) : Prop :=
  ∀ st l, Inv st → Inv (set_warned_once l st).

(** [Inv] looks at [bridges_1to2] at most outside the key [k]. *)
Definition ignores_1to2 (k : string) (Inv : State → Prop) : Prop :=
  ∀ st m, Inv st → (∀ n, n ≠ k → m !! n = bridges_1to2 st !! n) →
          Inv (set_bridges_1to2 m st).

Definition ignores_2to1 (k : string) (Inv : State → Prop) : Prop :=
  ∀ st m, Inv st → (∀ n, n ≠ k → m !! n = bridges_2to1 st !! n) →
          Inv (set_bridges_2to1 m st).

Definition ignores_service_1_to_2 (Inv : State → Prop) : Prop :=
  ∀ st m, Inv st → Inv (set_service_bridges_1_to_2 m st).

Definition ignores_service_2_to_1 (Inv : State → Prop) : Prop :=
  ∀ st m, Inv st → Inv (set_service_bridges_2_to_1 m st).

(** No service name is bridged in both directions. *)
Definition exclusive (st : State) : Prop :=
  ∀ name, ¬ (is_Some (service_bridges_1_to_2 st !! name)
             ∧ is_Some (service_bridges_2_to_1 st !! name)).

(** The events of the topic passes. *)
Definition topic_event (e : event) : bool :=
  match e with
  | erase_1to2 _ | create_bridge_from_1_to_2_call _ _ _
  | erase_2to1 _ | create_bridge_from_2_to_1_call _ _ _ => true
  | _ => false
  end.

(** Every service of the snapshot has its ["package"] and ["name"]. *)
Definition well_formed (services : gmap string (gmap string string)) : Prop :=
  map_Forall (λ _ details,
      is_Some (details !! "package") ∧ is_Some (details !! "name")) services.


(** The topic is in none of the four topic snapshots. *)
Definition no_topic (topic_name : string) (inv : Inventory) : Prop :=
  ros1_publishers inv !! topic_name = None
  ∧ ros1_subscribers inv !! topic_name = None
  ∧ ros2_publishers inv !! topic_name = None
  ∧ ros2_subscribers inv !! topic_name = None.
End Passes.

(** ** Names the whitelist lets through *)

(** Every key of the map is a name in [W]. *)
Definition keys_satisfy {V} (W : string → Prop) (m : gmap string V) : Prop :=
  ∀ name, is_Some (m !! name) → W name.

Section Whitelisting.
Context {RE : RegexEngine}.

(** Some pattern of the list matches the name. *)
Definition whitelisted (regex_list : list regex) (name : string) : Prop :=
  ∃ rgxp, rgxp ∈ regex_list ∧ regex_match name rgxp = true.

Definition all_whitelisted (regex_list : list regex) (names : gset string) : Prop :=
  ∀ name, name ∈ names → whitelisted regex_list name.

Definition keys_whitelisted {V} (regex_list : list regex) (m : gmap string V) : Prop :=
  keys_satisfy (whitelisted regex_list) m.

(** Every name the ROS 1 poller holds as valid or as active matches the
    list it was tested against. *)
Definition ros1_poll_whitelisted (topic_regex_list srv_regex_list : list regex)
    (st : Ros1Poll) : Prop :=
  all_whitelisted topic_regex_list (valid_ros1_topics st)
  ∧ all_whitelisted srv_regex_list (valid_ros1_services st)
  ∧ all_whitelisted topic_regex_list (active_publishers st)
  ∧ all_whitelisted topic_regex_list (active_subscribers st)
  ∧ keys_whitelisted srv_regex_list (active_ros1_services st).

Definition ros2_poll_whitelisted (topic_regex_list srv_regex_list : list regex)
    (st : Ros2Poll) : Prop :=
  all_whitelisted topic_regex_list (valid_ros2_topics st)
  ∧ all_whitelisted srv_regex_list (valid_ros2_services st)
  ∧ keys_whitelisted topic_regex_list (current_ros2_publishers st)
  ∧ keys_whitelisted topic_regex_list (current_ros2_subscribers st)
  ∧ keys_whitelisted srv_regex_list (active_ros2_services st).

Definition inventory_whitelisted (topic_regex_list srv_regex_list : list regex)
    (inv : Inventory) : Prop :=
  keys_whitelisted topic_regex_list (ros1_publishers inv)
  ∧ keys_whitelisted topic_regex_list (ros1_subscribers inv)
  ∧ keys_whitelisted topic_regex_list (ros2_publishers inv)
  ∧ keys_whitelisted topic_regex_list (ros2_subscribers inv)
  ∧ keys_whitelisted srv_regex_list (ros1_services inv)
  ∧ keys_whitelisted srv_regex_list (ros2_services inv).
End Whitelisting.

(** ** The two timers of [main] (lines 723 and 895) *)

Section Timers.
Context {RE : RegexEngine} {C : Collaborators}.

Definition registry_whitelisted (topic_regex_list srv_regex_list : list regex)
    (st : State) : Prop :=
  keys_whitelisted topic_regex_list (bridges_1to2 st)
  ∧ keys_whitelisted topic_regex_list (bridges_2to1 st)
  ∧ keys_whitelisted srv_regex_list (service_bridges_1_to_2 st)
  ∧ keys_whitelisted srv_regex_list (service_bridges_2_to_1 st).

Definition engine_whitelisted (opts : Options) (e : Engine) : Prop :=
  ros1_poll_whitelisted (topic_regex_list opts) (srv_regex_list opts) (ros1 e)
  ∧ ros2_poll_whitelisted (topic_regex_list opts) (srv_regex_list opts) (ros2 e)
  ∧ inventory_whitelisted (topic_regex_list opts) (srv_regex_list opts) (inventory e)
  ∧ registry_whitelisted (topic_regex_list opts) (srv_regex_list opts) (registry e).

(** One firing of a timer: which poller runs, what it observes, and what
    the rest of the system did to the middleware since the previous
    firing. *)
Inductive Tick :=
  | ros1_poll_timer (fuel : nat) (meanwhile : World → World)
      (system_state : option (list (list (string * list string))))
      (network : string → ServiceServer)
      (topics : option (list (string * string)))
  | ros2_poll_timer (fuel : nat) (meanwhile : World → World)
      (ros2_topics ros2_services_and_types : gmap string (list string))
      (count_publishers count_subscribers : string → nat).

Definition fire (opts : Options) (tick : Tick) : M Engine unit :=
  match tick with
  | ros1_poll_timer fuel meanwhile system_state network topics =>
      modify (λ e, with_registry
                     (set_world (meanwhile (world (registry e))) (registry e)) e);;
      ros1_poll fuel opts system_state network topics
  | ros2_poll_timer fuel meanwhile ros2_topics ros2_services_and_types
      count_publishers count_subscribers =>
      modify (λ e, with_registry
                     (set_world (meanwhile (world (registry e))) (registry e)) e);;
      ros2_poll fuel opts ros2_topics ros2_services_and_types
        count_publishers count_subscribers
  end.

(** The variables of [main] after the firings, one after the other; they
    are kept whatever way a callback ends. *)
Definition run_timers (opts : Options) (ticks : list Tick) (e : Engine) : Engine :=
  foldl (λ e tick, final (fire opts tick e)) e ticks.
End Timers.

(** ** The lines of [RCUTILS_LOG_WARN_ONCE_NAMED] *)

(** The format string at each call site. *)
Definition warn_once_format (site : warn_once_site) : string :=
  match site with
  | warn_ros1_service =>
      "Can't bridge service ROS1=>ROS2 Service: %s for ROS1 Type: %s/%s"
  | warn_ros2_service =>
      "Can't bridge service ROS2=>ROS1 Service: %s for ROS2 Type: %s/%s"
  end.

Definition warning_of (site : warn_once_site) (e : event) : bool :=
  match e with
  | log WARN format _ => bool_decide (format = warn_once_format site)
  | _ => false
  end.

(** The number of lines a call site has logged. *)
Definition warnings (site : warn_once_site) (ev : list event) : nat :=
  length (List.filter (warning_of site) ev).

Section PassLog.
Context {C : Collaborators}.

(** 1 when the flag of the call site was clear in [st] and is set in
    [st'], 0 otherwise. *)
Definition newly_warned (site : warn_once_site) (st st' : State) : nat :=
  if bool_decide ((site ∉ warned_once st) ∧ site ∈ warned_once st') then 1 else 0.

(** A computation never clears the flag of the call site, and logs the
    line of the site once if it sets the flag, not at all otherwise. *)
Definition tracks {A} (site : warn_once_site) (m : M State A) : Prop :=
  ∀ st, (site ∈ warned_once st → site ∈ warned_once (final (m st)))
        ∧ warnings site (emitted (m st)) = newly_warned site st (final (m st)).

(** What the passes of [run_passes] emit, one pass after the other. *)
Fixpoint passes_log (bridge_all_1to2_topics bridge_all_2to1_topics : bool)
    (passes : list Pass) (st : State) : list event :=
  match passes with
  | [] => []
  | p :: rest =>
      let r := update_bridge (pass_fuel p) (pass_inventory p)
                 bridge_all_1to2_topics bridge_all_2to1_topics
                 (set_world (meanwhile p (world st)) st) in
      emitted r ++ passes_log bridge_all_1to2_topics bridge_all_2to1_topics
                     rest (final r)
  end.
End PassLog.

(** ** The two halves of a service type *)

(** [details] holds under ["package"] and ["name"] the parts of
    [service_type] before and after its first ["/"]. *)
Definition splits (service_type : string) (details : gmap string string) : Prop :=
  ∃ package type_name,
    details !! "package" = Some package
    ∧ details !! "name" = Some type_name
    ∧ package +:+ "/" +:+ type_name = service_type
    ∧ String.index 0 "/" package = None.

(** What [ros2_poll] records for a service: the node reports the name with
    exactly one type, and the entry holds the halves of that type. *)
Definition recorded_from (ros2_services_and_types : gmap string (list string))
    (name : string) (details : gmap string string) : Prop :=
  ∃ service_type, ros2_services_and_types !! name = Some [service_type]
                  ∧ splits service_type details.

(** ** The command line (lines 83-170) *)

Module CommandLine.

(** [std::find(args.begin(), args.end(), flag)]: the position of the first
    argument equal to [flag], [None] for [args.end()]. *)
Fixpoint std_find (args : list string) (flag : string) : option nat :=
  match args with
  | [] => None
  | arg :: rest =>
      if bool_decide (arg = flag) then Some 0 else S <$> std_find rest flag
  end.

Definition find_command_option (args : list string) (flag : string) : bool :=
  bool_decide (std_find args flag ≠ None).

Definition get_flag_option (args : list string) (flag : string) : bool :=
  let it := std_find args flag in
  bool_decide (it ≠ None).

Definition get_flag_val (args : list string) (flag default_val : string) : string :=
  match std_find args flag with
  | None => default_val
  | Some it =>
      match args !! S it with
      | None => default_val
      | Some next => next
      end
  end.

(** What the function writes to [std::cout] and to [stdout]. *)
Inductive output :=
  | cout (text : string)
  | printf (format : string) (arguments : list string).

(** The variables [parse_command_options] assigns through its reference
    parameters. *)
Record Parsed := {
  output_topic_introspection : bool;
  bridge_all_1to2_topics : bool;
  bridge_all_2to1_topics : bool;
  topic_rgxp_list_param : string;
  srv_rgxp_list_param : string;
  node_suffix : string
}.

(** [std::endl], written as the escape it puts on the stream. *)
Definition endl : string := "\n".

(** The text of lines 115-132. *)
Definition usage : string :=
  String.concat ""
    [ "Usage:"; endl;
      " -h, --help: This message."; endl;
      " --show-introspection: Print output of introspection of both sides of the bridge.";
      endl;
      " --print-pairs: Print a list of the supported ROS 2 <=> ROS 1 conversion pairs.";
      endl;
      " --bridge-all-topics: Bridge all topics in both directions, whether or not there is ";
      "a matching subscriber."; endl;
      " --bridge-all-1to2-topics: Bridge all ROS 1 topics to ROS 2, whether or not there is ";
      "a matching subscriber."; endl;
      " --bridge-all-2to1-topics: Bridge all ROS 2 topics to ROS 1, whether or not there is ";
      "a matching subscriber."; endl;
      " --topic-regex-list: ROS1 param holding the list of whitelist topic regex (default: topics_re)";
      endl;
      " --service-regex-list: ROS1 param holding the list of whitelist service regex (default: services_re)";
      endl;
      " --node-suffix: Suffix used to uniquely identify this node ros12_bridge_<suffix> (default: default)";
      endl ].

(** Lines 139-146 and 148-155: one of the two lists of conversion pairs, in
    the order of the multimap. *)
Definition print_mappings (heading nothing : string)
    (mappings_2to1 : list (string * string)) : list output :=
  if bool_decide (0 < length mappings_2to1) then
    printf heading []
    :: ((λ pair : string * string,
           printf "  - '%s' (ROS 2) <=> '%s' (ROS 1)\n" [pair.1; pair.2])
        <$> mappings_2to1)
  else [printf nothing []].

(** [parse_command_options]: [args] is [argv[0]] to [argv[argc - 1]]; the
    two lists are what [get_all_message_mappings_2to1] and
    [get_all_service_mappings_2to1] return.  The result is what is written,
    and the variables assigned when the function returns true. *)
Definition parse_command_options
    (get_all_message_mappings_2to1 get_all_service_mappings_2to1 :
       list (string * string))
    (args : list string) : list output * option Parsed :=
  if find_command_option args "-h" || find_command_option args "--help" then
    ([cout usage], None)
  else if get_flag_option args "--print-pairs" then
    (print_mappings
       "Supported ROS 2 <=> ROS 1 message type conversion pairs:\n"
       "No message type conversion pairs supported.\n"
       get_all_message_mappings_2to1
     ++ print_mappings
          "Supported ROS 2 <=> ROS 1 service type conversion pairs:\n"
          "No service type conversion pairs supported.\n"
          get_all_service_mappings_2to1,
     None)
  else
    let bridge_all_topics := get_flag_option args "--bridge-all-topics" in
    ([],
     Some {| output_topic_introspection :=
               get_flag_option args "--show-introspection";
             bridge_all_1to2_topics :=
               bridge_all_topics || get_flag_option args "--bridge-all-1to2-topics";
             bridge_all_2to1_topics :=
               bridge_all_topics || get_flag_option args "--bridge-all-2to1-topics";
             topic_rgxp_list_param :=
               get_flag_val args "--topic-regex-list" "topics_re";
             srv_rgxp_list_param :=
               get_flag_val args "--service-regex-list" "services_re";
             node_suffix := get_flag_val args "--node-suffix" "default" |}).
End CommandLine.

(** ** The whitelists of [main] (lines 537-557) *)

(** What the loop calls outside the file: the parameter server of the
    ROS 1 node, [XmlRpc::XmlRpcValue] and the constructor of [std::regex].
    A call that can throw returns [inl what] when it does. *)
Class ParameterServer {RE : RegexEngine} := {
  XmlRpcValue : Type;
  (** [ros1_node.getParam(name, rgxps)]: [None] when the call returns
      false *)
  getParam : string → option XmlRpcValue;
  (** the elements [rgxps[0]] to [rgxps[rgxps.size() - 1]] when
      [rgxps.getType()] is [TypeArray] *)
  as_array : XmlRpcValue → option (list XmlRpcValue);
  (** [static_cast<std::string>(rgxps[i])], which throws
      [XmlRpc::XmlRpcException] for an element that is not a string *)
  as_string : XmlRpcValue → string + string;
  (** [std::regex(rgxp_str)], which throws [std::regex_error] *)
  compile : string → string + regex
}.

Section Whitelists.
Context {RE : RegexEngine} {PS : ParameterServer}.

(** [WhiteListMap] is [gmap string (list regex)]. *)

(** Lines 550-551, the body of the loop over the elements of the array. *)
Definition emplace_back (name : string) (element : XmlRpcValue) :
    M (gmap string (list regex)) unit :=
  match as_string element with
  | inl what => halt (exception "XmlRpc::XmlRpcException" what)
  | inr rgxp_str =>
      match compile rgxp_str with
      | inl what => halt (exception "std::regex_error" what)
      | inr rgxp =>
          modify (λ whitelist_map : gmap string (list regex),
                    <[name := default [] (whitelist_map !! name) ++ [rgxp]]>
                      whitelist_map)
      end
  end.

(** Lines 545-556, the body of the loop over [whitelist_map]. *)
Definition resolve (name : string) : M (gmap string (list regex)) unit :=
  match getParam name ≫= as_array with
  | Some rgxps => for_each (emplace_back name) rgxps
  | None =>
      emit (log ERROR
        "The parameter '%s' either doesn't exist or isn't an array. Ignoring regex list \n"
        [name])
  end.

(** Lines 537-557: the map starts with an empty list under each of the two
    parameter names, one entry when the names are the same, and its
    elements are visited in the order of their keys. *)
Definition load_whitelist_map (topic_rgxp_list_param srv_rgxp_list_param : string) :
    M (gmap string (list regex)) unit :=
  modify (λ _, <[srv_rgxp_list_param := []]> (<[topic_rgxp_list_param := []]> ∅));;
  whitelist_map ← get;
  for_each resolve (in_key_order whitelist_map).*1.

(** [whitelist_map[name]] as the pollers read it. *)
Definition whitelist (whitelist_map : gmap string (list regex)) (name : string) : list regex :=
  default [] (whitelist_map !! name).

(** The patterns of an array all of whose elements are strings that
    compile. *)
Definition compile_all (rgxps : list XmlRpcValue) : option (list regex) :=
  mapM (λ element,
          match as_string element with
          | inl _ => None
          | inr rgxp_str =>
              match compile rgxp_str with
              | inl _ => None
              | inr rgxp => Some rgxp
              end
          end) rgxps.

(** The list a parameter stands for: none when it is missing or not an
    array. *)
Definition patterns_of (name : string) : option (list regex) :=
  match getParam name ≫= as_array with
  | Some rgxps => compile_all rgxps
  | None => Some []
  end.
End Whitelists.

(** ** Test doubles for the scenarios *)

(** Patterns without metacharacters: a name matches when it is the
    pattern. *)
Definition literal_patterns : RegexEngine :=
  {| regex := string;
     regex_match name rgxp := bool_decide (name = rgxp) |}.

(** A factory that serves every request but those for the ROS 2 type
    ["Unknown"] and the service package ["unknown_srvs"]; handles are
    numbered in the order they are handed out.  [stuck] says whether
    [server.shutdown()] throws for the service bridge with handle 0. *)
Definition scripted (stuck : bool) : Collaborators :=
  {| World := nat;
     Bridge1to2Handles := nat;
     Bridge2to1Handles := nat;
     ServiceBridge1to2 := nat;
     ServiceBridge2to1 := nat;
     ServiceFactoryInterface := unit;
     get_1to2_mapping ros1_type :=
       if bool_decide (ros1_type = "std_msgs/String")
       then Some "std_msgs/msg/String" else None;
     get_2to1_mapping ros2_type :=
       if bool_decide (ros2_type = "std_msgs/msg/String")
       then Some "std_msgs/String" else None;
     create_bridge_from_1_to_2 ros1_type topic_name ros2_type w :=
       if bool_decide (ros2_type = "Unknown")
       then (w, inl "No template specialization for the pair")
       else (S w, inr w);
     create_bridge_from_2_to_1 ros2_type topic_name ros1_type w :=
       if bool_decide (ros2_type = "Unknown")
       then (w, inl "No template specialization for the pair")
       else (S w, inr w);
     get_service_factory domain package name :=
       if bool_decide (package = "unknown_srvs") then None else Some ();
     service_bridge_2_to_1 factory name w := (S w, inr w);
     service_bridge_1_to_2 factory name w := (S w, inr w);
     server_shutdown bridge w :=
       (w, if stuck && bool_decide (bridge = 0)
           then Some "shutdown failed" else None) |}.

(** The scenario of the specification: ["/scan"] is published on ROS 1 with
    type ["LaserScan"] and subscribed on ROS 2 with type [ros2_type]. *)
Definition scan_inventory (ros2_type : string) : Inventory :=
  {| ros1_publishers := {["/scan" := "LaserScan"]};
     ros1_subscribers := ∅;
     ros2_publishers := ∅;
     ros2_subscribers := {["/scan" := ros2_type]};
     ros1_services := ∅;
     ros2_services := ∅ |}.

Definition no_inventory : Inventory :=
  {| ros1_publishers := ∅; ros1_subscribers := ∅;
     ros2_publishers := ∅; ros2_subscribers := ∅;
     ros1_services := ∅; ros2_services := ∅ |}.

Definition scan_bridge : HandlesAndMessageTypes nat :=
  {| bridge_handles := 0;
     ros1_type_name := "LaserScan";
     ros2_type_name := "LaserScanB" |}.

(** The registry once the bridge for ["/scan"] exists. *)
Definition scan_registry : State (C:=scripted false) :=
  {| world := (1 : @World (scripted false));
     bridges_1to2 := {["/scan" := scan_bridge]};
     bridges_2to1 := ∅;
     service_bridges_1_to_2 := ∅;
     service_bridges_2_to_1 := ∅;
     warned_once := [] |}.

(** ["/cmd_vel"] is published on ROS 2; the ROS 1 subscriber was first seen
    without a type, and the bridge was created against the empty type. *)
Definition cmd_vel_inventory : Inventory :=
  {| ros1_publishers := ∅;
     ros1_subscribers := {["/cmd_vel" := "geometry_msgs/Twist"]};
     ros2_publishers := {["/cmd_vel" := "geometry_msgs/msg/Twist"]};
     ros2_subscribers := ∅;
     ros1_services := ∅;
     ros2_services := ∅ |}.

Definition cmd_vel_bridge : HandlesAndMessageTypes nat :=
  {| bridge_handles := 0;
     ros1_type_name := "";
     ros2_type_name := "geometry_msgs/msg/Twist" |}.

Definition cmd_vel_registry : State (C:=scripted false) :=
  {| world := (1 : @World (scripted false));
     bridges_1to2 := ∅;
     bridges_2to1 := {["/cmd_vel" := cmd_vel_bridge]};
     service_bridges_1_to_2 := ∅;
     service_bridges_2_to_1 := ∅;
     warned_once := [] |}.

(** Two passes during which ["/scan"] is in no snapshot; other nodes use
    the middleware in between. *)
Definition passes_without_scan : list (Pass (C:=scripted false)) :=
  [ {| pass_fuel := 1; pass_inventory := no_inventory;
       meanwhile := (id : @World (scripted false) → @World (scripted false)) |};
    {| pass_fuel := 1; pass_inventory := cmd_vel_inventory;
       meanwhile := (S : @World (scripted false) → @World (scripted false)) |} ].

(** ["/scan"] as above, and a ROS 1 service the factory can bridge. *)
Definition settled_inventory : Inventory :=
  {| ros1_publishers := {["/scan" := "LaserScan"]};
     ros1_subscribers := ∅;
     ros2_publishers := ∅;
     ros2_subscribers := {["/scan" := "LaserScanB"]};
     ros1_services :=
       {["/add_two_ints" := {["package" := "example_srvs"; "name" := "AddTwoInts"]}]};
     ros2_services := ∅ |}.

(** What the first pass over [settled_inventory] leaves in a registry that
    was empty. *)
Definition settled_registry : State (C:=scripted false) :=
  {| world := (2 : @World (scripted false));
     bridges_1to2 := {["/scan" := scan_bridge]};
     bridges_2to1 := ∅;
     service_bridges_1_to_2 := ∅;
     service_bridges_2_to_1 := {["/add_two_ints" := (1 : @ServiceBridge2to1 (scripted false))]};
     warned_once := [] |}.

(** Two ROS 2 services were bridged; both are gone from the ROS 2 snapshot.
    The ROS 1 server of ["/a"] is the one whose shutdown throws when the
    factory is [scripted true]. *)
Definition two_services_registry (stuck : bool) : State (C:=scripted stuck) :=
  {| world := (2 : @World (scripted stuck));
     bridges_1to2 := ∅;
     bridges_2to1 := ∅;
     service_bridges_1_to_2 :=
       {["/a" := (0 : @ServiceBridge1to2 (scripted stuck));
         "/b" := (1 : @ServiceBridge1to2 (scripted stuck))]};
     service_bridges_2_to_1 := ∅;
     warned_once := [] |}.

(** The factory of [scripted false] with ROS 1 servers that are busy every
    other time: [server.shutdown()] throws in a world with an even number
    and returns in the next one. *)
Definition busy_servers : Collaborators :=
  {| World := nat;
     Bridge1to2Handles := nat;
     Bridge2to1Handles := nat;
     ServiceBridge1to2 := nat;
     ServiceBridge2to1 := nat;
     ServiceFactoryInterface := unit;
     get_1to2_mapping := get_1to2_mapping (Collaborators:=scripted false);
     get_2to1_mapping := get_2to1_mapping (Collaborators:=scripted false);
     create_bridge_from_1_to_2 :=
       create_bridge_from_1_to_2 (Collaborators:=scripted false);
     create_bridge_from_2_to_1 :=
       create_bridge_from_2_to_1 (Collaborators:=scripted false);
     get_service_factory := get_service_factory (Collaborators:=scripted false);
     service_bridge_2_to_1 := service_bridge_2_to_1 (Collaborators:=scripted false);
     service_bridge_1_to_2 := service_bridge_1_to_2 (Collaborators:=scripted false);
     server_shutdown bridge w :=
       (S w, if Nat.even w then Some "shutdown failed" else None) |}.

(** The two bridged ROS 2 services of [two_services_registry], with busy
    servers. *)
Definition busy_registry : State (C:=busy_servers) :=
  {| world := (2 : @World busy_servers);
     bridges_1to2 := ∅;
     bridges_2to1 := ∅;
     service_bridges_1_to_2 :=
       {["/a" := (0 : @ServiceBridge1to2 busy_servers);
         "/b" := (1 : @ServiceBridge1to2 busy_servers)]};
     service_bridges_2_to_1 := ∅;
     warned_once := [] |}.

(** A ROS 1 master that reports one publisher of ["/chatter"], the node
    ["/talker"], and the service ["/spawn"] of the node ["/sim"]. *)
Definition chatter_payload : list (list (string * list string)) :=
  [[("/chatter", ["/talker"])]; []; [("/spawn", ["/sim"])]].

(** What the ROS 2 node reports: the same topic and the same service. *)
Definition chatter_ros2_topics : gmap string (list string) :=
  {["/chatter" := ["std_msgs/msg/String"]]}.

Definition spawn_ros2_services : gmap string (list string) :=
  {["/spawn" := ["sim_srvs/srv/Spawn"]]}.

(** A service server nobody can look up. *)
Definition no_server : ServiceServer :=
  {| lookupService := None; connect := false; read_length := (0, 0)%Z;
     read_response := 0%Z; parse := inl "" |}.

(** The sets of the two pollers before the first poll. *)
Definition fresh_ros1_poll : Ros1Poll :=
  {| already_ignored_ros1_topics := ∅; already_ignored_ros1_services := ∅;
     valid_ros1_topics := ∅; valid_ros1_services := ∅;
     active_publishers := ∅; active_subscribers := ∅;
     active_ros1_services := ∅ |}.

Definition fresh_ros2_poll : Ros2Poll :=
  {| already_ignored_topics := ∅; already_ignored_services := ∅;
     valid_ros2_topics := ∅; valid_ros2_services := ∅;
     current_ros2_publishers := ∅; current_ros2_subscribers := ∅;
     active_ros2_services := ∅ |}.

(** The first poll of each domain against whitelists that hold only
    ["/odom"] and ["/reset"]: ["/chatter"] and ["/spawn"] fail the match. *)
Definition ros1_after_first_poll : Ros1Poll :=
  final (collect_ros1_names (RE:=literal_patterns) "/ros12_bridge_default"
           ["/odom"] ["/reset"] chatter_payload (λ _, no_server) fresh_ros1_poll).

Definition ros2_after_first_poll : Ros2Poll :=
  final (collect_ros2_names (RE:=literal_patterns) ["/odom"] ["/reset"]
           chatter_ros2_topics spawn_ros2_services (λ _, 1) (λ _, 0)
           (λ _, false) (λ _, false) fresh_ros2_poll).

(** A service server that answers the probe with bytes [ros::Header::parse]
    rejects. *)
Definition garbled_server : ServiceServer :=
  {| lookupService := Some ("localhost", "40123");
     connect := true;
     read_length := (4, 16)%Z;
     read_response := 16%Z;
     parse := inl "Incomplete header" |}.

(** A service server whose header gives a type without a package. *)
Definition bare_type_server : ServiceServer :=
  {| lookupService := Some ("localhost", "40123");
     connect := true;
     read_length := (4, 16)%Z;
     read_response := 16%Z;
     parse := inr {["type" := "Empty"]} |}.

(** The master lists the service ["/reset"], offered by the node
    ["/server"]; the whitelist lets it through. *)
Definition reset_payload : list (list (string * list string)) :=
  [[]; []; [("/reset", ["/server"])]].

Definition reset_options : Options (RE:=literal_patterns) :=
  {| bridge_all_1to2_topics := false;
     bridge_all_2to1_topics := false;
     topic_regex_list := ([] : list (@regex literal_patterns));
     srv_regex_list := (["/reset"] : list (@regex literal_patterns));
     this_node := "/ros12_bridge_default" |}.

(** Two ROS 2 services the factory can bridge. *)
Definition two_services_inventory : Inventory :=
  {| ros1_publishers := ∅; ros1_subscribers := ∅;
     ros2_publishers := ∅; ros2_subscribers := ∅;
     ros1_services := ∅;
     ros2_services :=
       {["/a" := {["package" := "example_srvs"; "name" := "A"]};
         "/b" := {["package" := "example_srvs"; "name" := "B"]}]} |}.

(** A parameter server that holds the array ["topics_re"] and the integer
    ["rate"], with a [std::regex] that accepts every pattern. *)
Inductive xml_scalar :=
  | xml_string (s : string)
  | xml_int (i : Z).

Inductive xml_value :=
  | xml_scalar_value (value : xml_scalar)
  | xml_array (elements : list xml_scalar).

Definition scripted_parameters : ParameterServer (RE:=literal_patterns) :=
  {| XmlRpcValue := xml_value;
     getParam name :=
       if bool_decide (name = "topics_re")
       then Some (xml_array [xml_string "/chatter"; xml_string "/scan"])
       else if bool_decide (name = "rate")
            then Some (xml_scalar_value (xml_int 10))
            else None;
     as_array value :=
       match value with
       | xml_array elements => Some (xml_scalar_value <$> elements)
       | _ => None
       end;
     as_string value :=
       match value with
       | xml_scalar_value (xml_string s) => inr s
       | _ => inl "type error"
       end;
     compile rgxp_str := inr (rgxp_str : @regex literal_patterns) |}.

(** The command line and the whitelists of a bridge for ["/chatter"] and
    ["/scan"]. *)
Definition chatter_options : Options (RE:=literal_patterns) :=
  {| bridge_all_1to2_topics := false;
     bridge_all_2to1_topics := false;
     topic_regex_list := (["/chatter"; "/scan"] : list (@regex literal_patterns));
     srv_regex_list := ([] : list (@regex literal_patterns));
     this_node := "/ros12_bridge_default" |}.

(** The master and the ROS 2 node both know ["/chatter"]: it is published
    on ROS 1 by ["/talker"] and has one subscriber on ROS 2. *)
Definition chatter_ticks : list (Tick (C:=scripted false)) :=
  [ ros1_poll_timer 1 (id : @World (scripted false) → @World (scripted false))
      (Some chatter_payload) (λ _, no_server)
      (Some [("/chatter", "std_msgs/String")]);
    ros2_poll_timer 1 (id : @World (scripted false) → @World (scripted false))
      chatter_ros2_topics ∅ (λ _, 0) (λ _, 1) ].

(** A service server whose header gives a type with its package. *)
Definition typed_server : ServiceServer :=
  {| lookupService := Some ("localhost", "40123");
     connect := true;
     read_length := (4, 16)%Z;
     read_response := 16%Z;
     parse := inr {["type" := "std_srvs/Empty"]} |}.

(** A service server whose header has no ["type"] field. *)
Definition untyped_server : ServiceServer :=
  {| lookupService := Some ("localhost", "40123");
     connect := true;
     read_length := (4, 16)%Z;
     read_response := 16%Z;
     parse := inr {["callerid" := "/server"]} |}.

(** The master lists ["/chatter"] with the bridge itself as its only
    publisher. *)
Definition echo_payload : list (list (string * list string)) :=
  [[("/chatter", ["/ros12_bridge_default"])]; []; []].

(** A topic the ROS 2 node reports with two types. *)
Definition mixed_ros2_topics : gmap string (list string) :=
  {["/tf" := ["tf2_msgs/msg/TFMessage"; "custom_msgs/msg/TF"]]}.

(** * Properties *)

(** ** The monad *)

Section MonadFacts.
Context {S : Type}.

Lemma bind_run {A B} (m : M S A) (k : A → M S B) (st : S) :
  (m ≫= k) st =
  match m st with
  | Res (Normal a) st1 ev1 =>
      match k a st1 with Res o st2 ev2 => Res o st2 (ev1 ++ ev2) end
  | Res (Stops why) st1 ev1 => Res (Stops why) st1 ev1
  end.
Proof. reflexivity. Qed.

Lemma bind_normal {A B} (m : M S A) (k : A → M S B) st a :
  ended (m st) = Normal a →
  (m ≫= k) st =
  Res (ended (k a (final (m st)))) (final (k a (final (m st))))
      (emitted (m st) ++ emitted (k a (final (m st)))).
Proof.
  rewrite bind_run. destruct (m st) as [o st1 ev1]; simpl. intros ->.
  by destruct (k a st1).
Qed.

Lemma bind_stops {A B} (m : M S A) (k : A → M S B) st why :
  ended (m st) = Stops why →
  (m ≫= k) st = Res (Stops why) (final (m st)) (emitted (m st)).
Proof.
  rewrite bind_run. destruct (m st) as [o st1 ev1]; simpl. by intros ->.
Qed.

Lemma bind_skip {A B} (m : M S A) (k : A → M S B) st a :
  m st = Res (Normal a) st [] → (m ≫= k) st = k a st.
Proof. rewrite bind_run. intros ->. by destruct (k a st). Qed.

(** How the primitives run. *)
Lemma run_bind_ret {A B} (a : A) (k : A → M S B) st : (mret a ≫= k) st = k a st.
Proof. rewrite bind_run. simpl. by destruct (k a st). Qed.

Lemma run_bind_get {B} (k : S → M S B) st : (get ≫= k) st = k st st.
Proof. rewrite bind_run. simpl. by destruct (k st st). Qed.

Lemma run_bind_modify {B} (f : S → S) (k : unit → M S B) st :
  (modify f ≫= k) st = k tt (f st).
Proof. rewrite bind_run. simpl. by destruct (k tt (f st)). Qed.

Lemma run_bind_emit {B} e (k : unit → M S B) st :
  (emit e ≫= k) st = prepend [e] (k tt st).
Proof. rewrite bind_run. simpl. by destruct (k tt st). Qed.

Lemma run_bind_halt {A B} why (k : A → M S B) st :
  (halt why ≫= k) st = Res (Stops why) st [].
Proof. reflexivity. Qed.

Lemma run_bind_assoc {A B D} (m : M S A) (k : A → M S B) (h : B → M S D) st :
  ((m ≫= k) ≫= h) st = (m ≫= λ a, k a ≫= h) st.
Proof.
  rewrite !bind_run. destruct (m st) as [[a|why] st1 ev1]; [|done].
  rewrite !bind_run. destruct (k a st1) as [[b|why] st2 ev2]; [|done].
  destruct (h b st2) as [o st3 ev3]. by rewrite app_assoc.
Qed.

Lemma prepend_nil {A} (r : result S A) : prepend [] r = r.
Proof. by destruct r. Qed.

Lemma prepend_prepend {A} ev1 ev2 (r : result S A) :
  prepend ev1 (prepend ev2 r) = prepend (ev1 ++ ev2) r.
Proof. unfold prepend; simpl. by rewrite app_assoc. Qed.

Lemma bind_prepend {A B} (m : M S A) (k : A → M S B) st a :
  ended (m st) = Normal a →
  (m ≫= k) st = prepend (emitted (m st)) (k a (final (m st))).
Proof. apply bind_normal. Qed.

Lemma bind_normal_inv {A B} (m : M S A) (k : A → M S B) st b :
  ended ((m ≫= k) st) = Normal b →
  ∃ a, ended (m st) = Normal a
       ∧ (m ≫= k) st = prepend (emitted (m st)) (k a (final (m st)))
       ∧ ended (k a (final (m st))) = Normal b.
Proof.
  destruct (ended (m st)) as [a|why] eqn:Hm.
  - rewrite (bind_prepend _ _ _ _ Hm). intros Hk. by exists a.
  - by rewrite (bind_stops _ _ _ _ Hm).
Qed.

Lemma for_each_cons {A} (body : A → M S unit) x l st :
  for_each body (x :: l) st = (body x ≫= λ _, for_each body l) st.
Proof. reflexivity. Qed.

Lemma for_each_app {A} (body : A → M S unit) l1 l2 st :
  for_each body (l1 ++ l2) st = (for_each body l1 ≫= λ _, for_each body l2) st.
Proof.
  revert st. induction l1 as [|x l1 IH]; intros st; simpl.
  - rewrite bind_run. simpl. by destruct (for_each body l2 st).
  - rewrite !bind_run. destruct (body x st) as [[[]|why] st1 ev1]; [|done].
    rewrite IH, bind_run.
    destruct (for_each body l1 st1) as [[[]|why] st2 ev2]; [|done].
    destruct (for_each body l2 st2) as [o st3 ev3]. by rewrite app_assoc.
Qed.

(** A loop whose every visit is a no-op is a no-op. *)
Lemma for_each_skip {A} (body : A → M S unit) l st :
  (∀ x, x ∈ l → body x st = Res (Normal tt) st []) →
  for_each body l st = Res (Normal tt) st [].
Proof.
  induction l as [|x l IH]; intros Hskip; [done|].
  rewrite for_each_cons, (bind_skip _ _ _ tt).
  - apply IH. intros y Hy. apply Hskip. by right.
  - apply Hskip. by left.
Qed.

Lemma preserves_ret {A} (Inv : S → Prop) P (a : A) : preserves Inv P (mret a).
Proof. intros st HI. split; [done | constructor]. Qed.

Lemma preserves_bind {A B} (Inv : S → Prop) P (m : M S A) (k : A → M S B) :
  preserves Inv P m → (∀ a, preserves Inv P (k a)) → preserves Inv P (m ≫= k).
Proof.
  intros Hm Hk st HI. destruct (Hm st HI) as [HI1 HP1].
  rewrite bind_run. destruct (m st) as [[a|why] st1 ev1]; simpl in *; [|done].
  destruct (Hk a st1 HI1) as [HI2 HP2].
  destruct (k a st1) as [o st2 ev2]; simpl in *.
  split; [done | by apply Forall_app].
Qed.

Lemma preserves_for_each {A} (Inv : S → Prop) P (body : A → M S unit) l :
  (∀ x, x ∈ l → preserves Inv P (body x)) → preserves Inv P (for_each body l).
Proof.
  induction l as [|x l IH]; intros Hbody.
  - apply preserves_ret.
  - apply preserves_bind.
    + apply Hbody. by left.
    + intros _. apply IH. intros y Hy. apply Hbody. by right.
Qed.

Lemma preserves_get (Inv : S → Prop) P : preserves Inv P get.
Proof. intros st HI. split; [done | constructor]. Qed.

Lemma preserves_halt {A} (Inv : S → Prop) P why : preserves Inv P (halt (A:=A) why).
Proof. intros st HI. split; [done | constructor]. Qed.

Lemma preserves_element_0 (Inv : S → Prop) P types :
  preserves Inv P (element_0 types).
Proof. destruct types; [apply preserves_halt | apply preserves_ret]. Qed.

Lemma preserves_emit (Inv : S → Prop) (P : event → Prop) e :
  P e → preserves Inv P (emit e).
Proof. intros HP st HI. split; [done | by repeat constructor]. Qed.

Lemma preserves_modify (Inv : S → Prop) P (f : S → S) :
  (∀ st, Inv st → Inv (f st)) → preserves Inv P (modify f).
Proof. intros Hf st HI. split; [by apply Hf | constructor]. Qed.

(** A computation that emits no event of [E] marks nothing. *)
Lemma marks_quiet {A} (Inv Q : S → Prop) (E : event → bool) (m : M S A) :
  preserves Inv (λ e, E e = false) m → preserves Q (λ _, True) m →
  marks Inv Q E m.
Proof.
  intros HInv HQ st HI. destruct (HInv st HI) as [HI' Hquiet].
  split; [done|]. split; [intros Hq; by apply HQ|].
  intros Hev. contradict Hev.
  induction Hquiet as [|e ev He _ IH]; simpl; [done|]. by rewrite He.
Qed.

Lemma marks_bind {A B} (Inv Q : S → Prop) E (m : M S A) (k : A → M S B) :
  marks Inv Q E m → (∀ a, marks Inv Q E (k a)) → marks Inv Q E (m ≫= k).
Proof.
  intros Hm Hk st HI. destruct (Hm st HI) as (HI1 & HQ1 & HE1).
  rewrite bind_run. destruct (m st) as [[a|why] st1 ev1]; simpl in *; [|done].
  destruct (Hk a st1 HI1) as (HI2 & HQ2 & HE2).
  destruct (k a st1) as [o st2 ev2]; simpl in *.
  split; [done|]. split; [auto|].
  rewrite List.filter_app. intros Hev.
  destruct (List.filter E ev1) eqn:H1; [apply HE2; by simpl in Hev|].
  apply HQ2, HE1. done.
Qed.

Lemma marks_for_each {A} (Inv Q : S → Prop) E (body : A → M S unit) l :
  (∀ x, x ∈ l → marks Inv Q E (body x)) → marks Inv Q E (for_each body l).
Proof.
  induction l as [|x l IH]; intros Hbody.
  - intros st HI. by split_and!.
  - apply marks_bind.
    + apply Hbody. by left.
    + intros _. apply IH. intros y Hy. apply Hbody. by right.
Qed.

Lemma returns_ret {A} (a : A) : returns (S:=S) (mret a).
Proof. intros st. by exists a. Qed.

Lemma returns_bind {A B} (m : M S A) (k : A → M S B) :
  returns m → (∀ a, returns (k a)) → returns (m ≫= k).
Proof.
  intros Hm Hk st. destruct (Hm st) as [a Ha].
  rewrite (bind_normal _ _ _ _ Ha). simpl. apply Hk.
Qed.

Lemma returns_for_each {A} (body : A → M S unit) l :
  (∀ x, x ∈ l → returns (body x)) → returns (for_each body l).
Proof.
  induction l as [|x l IH]; intros Hbody.
  - apply returns_ret.
  - apply returns_bind.
    + apply Hbody. by left.
    + intros _. apply IH. intros y Hy. apply Hbody. by right.
Qed.
End MonadFacts.

(** ** Iteration order *)

Lemma in_key_order_Permutation {V} (m : gmap string V) :
  in_key_order m ≡ₚ map_to_list m.
Proof. apply merge_sort_Permutation. Qed.

Lemma elem_of_in_key_order {V} (m : gmap string V) k v :
  (k, v) ∈ in_key_order m ↔ m !! k = Some v.
Proof. by rewrite in_key_order_Permutation, elem_of_map_to_list. Qed.

Lemma NoDup_in_key_order {V} (m : gmap string V) : NoDup (in_key_order m).*1.
Proof. rewrite in_key_order_Permutation. apply NoDup_fst_map_to_list. Qed.

Lemma key_le_total {V} : Total (key_le (V:=V)).
Proof.
  intros [a x] [b y]. unfold key_le, String.leb; simpl.
  rewrite (String.compare_antisym b a).
  destruct (String.compare a b); simpl; auto.
Qed.

(** The visits are in ascending order of the keys. *)
Lemma in_key_order_sorted {V} (m : gmap string V) :
  Sorted key_le (in_key_order m).
Proof. apply Sorted_merge_sort, key_le_total. Qed.

(** A key of the map splits the visits into those before it and those after
    it, and it is not visited twice. *)
Lemma in_key_order_split {V} (m : gmap string V) k v :
  m !! k = Some v →
  ∃ before after,
    in_key_order m = before ++ (k, v) :: after
    ∧ (k ∉ before.*1) ∧ (k ∉ after.*1).
Proof.
  intros Hk. apply elem_of_in_key_order, list_elem_of_split in Hk
    as (before & after & Heq).
  exists before, after. split; [done|].
  pose proof (NoDup_in_key_order m) as Hnd. rewrite Heq in Hnd.
  rewrite fmap_app, fmap_cons in Hnd. simpl in Hnd.
  apply NoDup_app in Hnd as (_ & Hdisj & Hnd).
  apply NoDup_cons in Hnd as [Hnotin _].
  split; [|done]. intros Hin. apply (Hdisj _ Hin). by left.
Qed.

(** ** The whitelist matcher *)

Section MatcherFacts.
Context {RE : RegexEngine}.

Lemma match_in_order_found regex_list name (evaluated : nat) :
  (match_in_order regex_list name evaluated).1 = true
  ↔ ∃ rgxp, rgxp ∈ regex_list ∧ regex_match name rgxp = true.
Proof.
  revert evaluated. induction regex_list as [|rgxp rest IH]; intros evaluated; simpl.
  - split; [done|]. intros (rgxp & Hin & _). by apply elem_of_nil in Hin.
  - destruct (regex_match name rgxp) eqn:Hm; simpl.
    + split; [|done]. intros _. exists rgxp. split; [by left | done].
    + rewrite IH. split.
      * intros (r & Hin & Hr). exists r. split; [by right | done].
      * intros (r & Hin & Hr). apply elem_of_cons in Hin as [->|Hin]; [congruence|].
        by exists r.
Qed.

(** The loop stops at the first match: it evaluates no more patterns than
    the list holds. *)
Lemma match_in_order_evaluated regex_list name (evaluated : nat) :
  evaluated ≤ (match_in_order regex_list name evaluated).2
  ∧ (match_in_order regex_list name evaluated).2 ≤ evaluated + length regex_list.
Proof.
  revert evaluated. induction regex_list as [|rgxp rest IH]; intros evaluated; simpl.
  - lia.
  - destruct (regex_match name rgxp); simpl; [lia|].
    specialize (IH (S evaluated)). lia.
Qed.

(** A cached name is answered without looking at the patterns. *)
Lemma check_inregex_list_known regex_list name known_set :
  name ∈ known_set →
  check_inregex_list regex_list name known_set = (true, known_set, 0).
Proof. intros Hin. unfold check_inregex_list. by rewrite bool_decide_eq_true_2. Qed.

(** C7.  For a name that is not in the cache, [check_inregex_list] returns
    true exactly when some pattern of the list matches the name.  After a
    true result the name is in the cache, and every later call for the name,
    with any pattern list and any cache that has grown from this one,
    returns true and evaluates no pattern.  After a false result the cache
    is as it was. *)
Theorem check_inregex_list_contract regex_list name known_set :
  name ∉ known_set →
  let '(found, known_set', _) := check_inregex_list regex_list name known_set in
  (found = true ↔ ∃ rgxp, rgxp ∈ regex_list ∧ regex_match name rgxp = true)
  ∧ (if found
     then known_set' = {[name]} ∪ known_set
          ∧ ∀ later_list later_set,
              known_set' ⊆ later_set →
              check_inregex_list later_list name later_set = (true, later_set, 0)
     else known_set' = known_set).
Proof.
  intros Hnew. unfold check_inregex_list.
  rewrite bool_decide_eq_false_2 by done.
  destruct (match_in_order regex_list name 0) as [found evaluated] eqn:Hrun.
  assert (found = true
          ↔ ∃ rgxp, rgxp ∈ regex_list ∧ regex_match name rgxp = true) as Hfound.
  { rewrite <- (match_in_order_found regex_list name 0). by rewrite Hrun. }
  destruct found.
  - split; [done|]. split; [done|].
    intros later_list later_set Hsub. apply check_inregex_list_known, Hsub.
    apply elem_of_union. left. by apply elem_of_singleton.
  - by split.
Qed.
End MatcherFacts.

Lemma check_inregex_list_contract_witness :
  ("/scan" ∉ (∅ : gset string))
  ∧ let '(found, known_set', _) :=
      check_inregex_list (RE:=literal_patterns) ["/tf"; "/scan"] "/scan" ∅ in
    (found = true
     ↔ ∃ rgxp, rgxp ∈ ["/tf"; "/scan"]
               ∧ regex_match (RegexEngine:=literal_patterns) "/scan" rgxp = true)
    ∧ (if found
       then known_set' = {["/scan"]} ∪ ∅
            ∧ ∀ later_list later_set,
                known_set' ⊆ later_set →
                check_inregex_list (RE:=literal_patterns) later_list "/scan" later_set
                = (true, later_set, 0)
       else known_set' = ∅).
Proof.
  split; [set_solver|].
  apply (check_inregex_list_contract (RE:=literal_patterns)). set_solver.
Defined.

(** ** The reconciler: what each loop body may touch *)

Section ReconcilerFrames.
Context {C : Collaborators}.
Implicit Types (Inv : State → Prop) (P : event → Prop) (st : State).

Lemma preserves_call {A} Inv P (f : World → World * A) :
  ignores_world Inv → preserves Inv P (call f).
Proof.
  intros Hw st HI. unfold call. destruct (f (world st)) as [w a]; simpl.
  split; [by apply Hw | constructor].
Qed.

Lemma run_bind_call {A B} (f : World → World * A) (k : A → M State B) st :
  (call f ≫= k) st = k (f (world st)).2 (set_world (f (world st)).1 st).
Proof.
  rewrite bind_run. unfold call. destruct (f (world st)) as [w a]; simpl.
  by destruct (k a (set_world w st)).
Qed.

Lemma returns_call {A} (f : World → World * A) : returns (call f).
Proof. intros st. unfold call. destruct (f (world st)) as [w a]. by exists a. Qed.

Lemma preserves_at_key {S} (Inv : S → Prop) P details key :
  preserves Inv P (at_key details key).
Proof.
  unfold at_key. destruct (details !! key); [apply preserves_ret | apply preserves_halt].
Qed.

Lemma preserves_log_warn_once Inv P site format args :
  ignores_warned_once Inv → (∀ s f a, P (log s f a)) →
  preserves Inv P (log_warn_once site format args).
Proof.
  intros Hwo Hlog. unfold log_warn_once.
  apply preserves_bind; [apply preserves_get | intros st0].
  case_bool_decide; [apply preserves_ret|].
  apply preserves_bind; [|intros _; by apply preserves_emit].
  apply preserves_modify. intros st HI. by apply Hwo.
Qed.

Lemma create_1to2_preserves Inv P k t1 t2 :
  ignores_world Inv → ignores_1to2 k Inv →
  P (create_bridge_from_1_to_2_call t1 k t2) → (∀ s f a, P (log s f a)) →
  preserves Inv P (create_1to2 k t1 t2).
Proof.
  intros Hw Hk Hc Hlog. unfold create_1to2.
  apply preserves_bind; [by apply preserves_emit | intros _].
  apply preserves_bind; [by apply preserves_call | intros [what|handles]].
  - apply preserves_bind; [by apply preserves_emit | intros _].
    case_match; [by apply preserves_emit | apply preserves_ret].
  - apply preserves_bind; [|intros _; by apply preserves_emit].
    apply preserves_modify. intros st HI. apply Hk; [done|].
    intros n Hn. by rewrite lookup_insert_ne.
Qed.

(** A visit of the 1to2 pass touches the middleware and the entry of its own
    topic, nothing else. *)
Lemma update_1to2_preserves Inv P inv b k t1 :
  ignores_world Inv → ignores_1to2 k Inv →
  P (erase_1to2 k) → (∀ t2, P (create_bridge_from_1_to_2_call t1 k t2)) →
  (∀ s f a, P (log s f a)) →
  preserves Inv P (update_1to2 inv b (k, t1)).
Proof.
  intros Hw Hk He Hc Hlog. unfold update_1to2; simpl.
  destruct (wanted_1to2 inv b k t1) as [t2|]; [|apply preserves_ret].
  apply preserves_bind; [apply preserves_get | intros st0].
  destruct (bridges_1to2 st0 !! k) as [bridge|];
    [|by apply create_1to2_preserves].
  destruct (in_place_1to2 bridge t1 t2); [apply preserves_ret|].
  apply preserves_bind.
  { apply preserves_modify. intros st HI. apply Hk; [done|].
    intros n Hn. by rewrite lookup_delete_ne. }
  intros _. apply preserves_bind; [by apply preserves_emit | intros _].
  apply preserves_bind; [by apply preserves_emit | intros _].
  by apply create_1to2_preserves.
Qed.

Lemma create_2to1_preserves Inv P k t1 t2 :
  ignores_world Inv → ignores_2to1 k Inv →
  P (create_bridge_from_2_to_1_call t2 k t1) → (∀ s f a, P (log s f a)) →
  preserves Inv P (create_2to1 k t1 t2).
Proof.
  intros Hw Hk Hc Hlog. unfold create_2to1.
  apply preserves_bind; [by apply preserves_emit | intros _].
  apply preserves_bind; [by apply preserves_call | intros [what|handles]].
  - apply preserves_bind; [by apply preserves_emit | intros _].
    case_match; [by apply preserves_emit | apply preserves_ret].
  - apply preserves_bind; [|intros _; by apply preserves_emit].
    apply preserves_modify. intros st HI. apply Hk; [done|].
    intros n Hn. by rewrite lookup_insert_ne.
Qed.

Lemma update_2to1_preserves Inv P inv b k t2 :
  ignores_world Inv → ignores_2to1 k Inv →
  P (erase_2to1 k) → (∀ t1, P (create_bridge_from_2_to_1_call t2 k t1)) →
  (∀ s f a, P (log s f a)) →
  preserves Inv P (update_2to1 inv b (k, t2)).
Proof.
  intros Hw Hk He Hc Hlog. unfold update_2to1; simpl.
  destruct (wanted_2to1 inv b k t2) as [t1|]; [|apply preserves_ret].
  apply preserves_bind; [apply preserves_get | intros st0].
  destruct (bridges_2to1 st0 !! k) as [bridge|];
    [|by apply create_2to1_preserves].
  destruct (in_place_2to1 bridge t1 t2); [apply preserves_ret|].
  apply preserves_bind.
  { apply preserves_modify. intros st HI. apply Hk; [done|].
    intros n Hn. by rewrite lookup_delete_ne. }
  intros _. apply preserves_bind; [by apply preserves_emit | intros _].
  apply preserves_bind; [by apply preserves_emit | intros _].
  by apply create_2to1_preserves.
Qed.

(** The topic passes always run to their end. *)
Lemma create_1to2_returns k t1 t2 : returns (create_1to2 k t1 t2).
Proof.
  unfold create_1to2. apply returns_bind; [by eexists | intros _].
  apply returns_bind; [apply returns_call | intros [what|handles]].
  - apply returns_bind; [by eexists | intros _]. case_match; by eexists.
  - apply returns_bind; [by eexists | intros _; by eexists].
Qed.

Lemma update_1to2_returns inv b ros1_publisher :
  returns (update_1to2 inv b ros1_publisher).
Proof.
  unfold update_1to2. case_match; [|apply returns_ret].
  apply returns_bind; [by eexists | intros st0].
  case_match; [|apply create_1to2_returns].
  case_match; [apply returns_ret|].
  do 3 (apply returns_bind; [by eexists | intros _]).
  apply create_1to2_returns.
Qed.

Lemma create_2to1_returns k t1 t2 : returns (create_2to1 k t1 t2).
Proof.
  unfold create_2to1. apply returns_bind; [by eexists | intros _].
  apply returns_bind; [apply returns_call | intros [what|handles]].
  - apply returns_bind; [by eexists | intros _]. case_match; by eexists.
  - apply returns_bind; [by eexists | intros _; by eexists].
Qed.

Lemma update_2to1_returns inv b ros2_publisher :
  returns (update_2to1 inv b ros2_publisher).
Proof.
  unfold update_2to1. case_match; [|apply returns_ret].
  apply returns_bind; [by eexists | intros st0].
  case_match; [|apply create_2to1_returns].
  case_match; [apply returns_ret|].
  do 3 (apply returns_bind; [by eexists | intros _]).
  apply create_2to1_returns.
Qed.

(** The service loops touch the middleware, the warn-once flags and the
    service maps; they emit no topic event. *)
Lemma create_ros1_service_preserves Inv P service :
  ignores_world Inv → ignores_warned_once Inv → ignores_service_2_to_1 Inv →
  (∀ e, topic_event e = false → P e) →
  preserves Inv P (create_ros1_service service).
Proof.
  intros Hw Hwo Hs HP. unfold create_ros1_service.
  apply preserves_bind; [apply preserves_get | intros st0].
  destruct (service_bridges_2_to_1 st0 !! service.1); [apply preserves_ret|].
  destruct (service_bridges_1_to_2 st0 !! service.1); [apply preserves_ret|].
  apply preserves_bind; [apply preserves_at_key | intros package].
  apply preserves_bind; [apply preserves_at_key | intros type_name].
  apply preserves_bind; [by apply preserves_emit, HP | intros _].
  destruct (get_service_factory "ros1" package type_name) as [factory|].
  - apply preserves_bind; [by apply preserves_emit, HP | intros _].
    apply preserves_bind; [by apply preserves_call | intros [what|bridge]].
    + by apply preserves_emit, HP.
    + apply preserves_bind; [|intros _; by apply preserves_emit, HP].
      apply preserves_modify. intros st HI. by apply Hs.
  - apply preserves_log_warn_once; [done|]. intros s f a. by apply HP.
Qed.

Lemma create_ros2_service_preserves Inv P service :
  ignores_world Inv → ignores_warned_once Inv → ignores_service_1_to_2 Inv →
  (∀ e, topic_event e = false → P e) →
  preserves Inv P (create_ros2_service service).
Proof.
  intros Hw Hwo Hs HP. unfold create_ros2_service.
  apply preserves_bind; [apply preserves_get | intros st0].
  destruct (service_bridges_1_to_2 st0 !! service.1); [apply preserves_ret|].
  destruct (service_bridges_2_to_1 st0 !! service.1); [apply preserves_ret|].
  apply preserves_bind; [apply preserves_at_key | intros package].
  apply preserves_bind; [apply preserves_at_key | intros type_name].
  apply preserves_bind; [by apply preserves_emit, HP | intros _].
  destruct (get_service_factory "ros2" package type_name) as [factory|].
  - apply preserves_bind; [by apply preserves_emit, HP | intros _].
    apply preserves_bind; [by apply preserves_call | intros [what|bridge]].
    + by apply preserves_emit, HP.
    + apply preserves_bind; [|intros _; by apply preserves_emit, HP].
      apply preserves_modify. intros st HI. by apply Hs.
  - apply preserves_log_warn_once; [done|]. intros s f a. by apply HP.
Qed.

Lemma remove_obsolete_2_to_1_preserves Inv P inv entry :
  (∀ st name, Inv st →
     Inv (set_service_bridges_2_to_1 (delete name (service_bridges_2_to_1 st)) st)) →
  (∀ e, topic_event e = false → P e) →
  preserves Inv P (remove_obsolete_2_to_1 inv entry).
Proof.
  intros Hs HP. unfold remove_obsolete_2_to_1.
  destruct (ros1_services inv !! entry.1); [apply preserves_ret|].
  apply preserves_bind; [by apply preserves_emit, HP | intros _].
  apply preserves_bind; [by apply preserves_emit, HP | intros _].
  apply preserves_modify. intros st HI. by apply Hs.
Qed.

Lemma shutdown_and_erase_preserves Inv P fuel name bridge :
  ignores_world Inv →
  (∀ st name, Inv st →
     Inv (set_service_bridges_1_to_2 (delete name (service_bridges_1_to_2 st)) st)) →
  (∀ e, topic_event e = false → P e) →
  preserves Inv P (shutdown_and_erase fuel name bridge).
Proof.
  intros Hw Hs HP. induction fuel as [|fuel IH]; simpl; [apply preserves_halt|].
  apply preserves_bind; [by apply preserves_emit, HP | intros _].
  apply preserves_bind; [by apply preserves_emit, HP | intros _].
  apply preserves_bind; [by apply preserves_call | intros [what|]].
  - apply preserves_bind; [by apply preserves_emit, HP | intros _]. apply IH.
  - apply preserves_bind; [by apply preserves_emit, HP | intros _].
    apply preserves_modify. intros st HI. by apply Hs.
Qed.

Lemma remove_obsolete_1_to_2_preserves Inv P fuel inv entry :
  ignores_world Inv →
  (∀ st name, Inv st →
     Inv (set_service_bridges_1_to_2 (delete name (service_bridges_1_to_2 st)) st)) →
  (∀ e, topic_event e = false → P e) →
  preserves Inv P (remove_obsolete_1_to_2 fuel inv entry).
Proof.
  intros Hw Hs HP. unfold remove_obsolete_1_to_2.
  destruct (ros2_services inv !! entry.1); [apply preserves_ret|].
  by apply shutdown_and_erase_preserves.
Qed.

Lemma create_1to2_bridges_preserves Inv P inv b12 :
  (∀ k t1, ros1_publishers inv !! k = Some t1 →
           preserves Inv P (update_1to2 inv b12 (k, t1))) →
  preserves Inv P (create_1to2_bridges inv b12).
Proof.
  intros H1. apply preserves_for_each.
  intros [k t1] Hin. by apply H1, elem_of_in_key_order.
Qed.

Lemma create_2to1_bridges_preserves Inv P inv b21 :
  (∀ k t2, ros2_publishers inv !! k = Some t2 →
           preserves Inv P (update_2to1 inv b21 (k, t2))) →
  preserves Inv P (create_2to1_bridges inv b21).
Proof.
  intros H2. apply preserves_for_each.
  intros [k t2] Hin. by apply H2, elem_of_in_key_order.
Qed.

Lemma update_service_bridges_preserves Inv P fuel inv :
  (∀ service, preserves Inv P (create_ros1_service service)) →
  (∀ service, preserves Inv P (create_ros2_service service)) →
  (∀ entry, preserves Inv P (remove_obsolete_2_to_1 inv entry)) →
  (∀ entry, preserves Inv P (remove_obsolete_1_to_2 fuel inv entry)) →
  preserves Inv P (update_service_bridges fuel inv).
Proof.
  intros H3 H4 H5 H6. unfold update_service_bridges.
  apply preserves_bind; [by apply preserves_for_each | intros _].
  apply preserves_bind; [by apply preserves_for_each | intros _].
  apply preserves_bind; [apply preserves_get | intros st5].
  apply preserves_bind; [by apply preserves_for_each | intros _].
  apply preserves_bind; [apply preserves_get | intros st6].
  by apply preserves_for_each.
Qed.

(** [update_bridge] keeps what each of its six loops keeps. *)
Lemma update_bridge_preserves Inv P fuel inv b12 b21 :
  (∀ k t1, ros1_publishers inv !! k = Some t1 →
           preserves Inv P (update_1to2 inv b12 (k, t1))) →
  (∀ k t2, ros2_publishers inv !! k = Some t2 →
           preserves Inv P (update_2to1 inv b21 (k, t2))) →
  (∀ service, preserves Inv P (create_ros1_service service)) →
  (∀ service, preserves Inv P (create_ros2_service service)) →
  (∀ entry, preserves Inv P (remove_obsolete_2_to_1 inv entry)) →
  (∀ entry, preserves Inv P (remove_obsolete_1_to_2 fuel inv entry)) →
  preserves Inv P (update_bridge fuel inv b12 b21).
Proof.
  intros H1 H2 H3 H4 H5 H6. unfold update_bridge.
  apply preserves_bind; [by apply create_1to2_bridges_preserves | intros _].
  apply preserves_bind; [by apply create_2to1_bridges_preserves | intros _].
  by apply update_service_bridges_preserves.
Qed.

(** The service loops do not look at the topic maps and emit no topic
    event. *)
Lemma update_service_bridges_frame Inv P fuel inv :
  ignores_world Inv → ignores_warned_once Inv →
  ignores_service_1_to_2 Inv → ignores_service_2_to_1 Inv →
  (∀ e, topic_event e = false → P e) →
  preserves Inv P (update_service_bridges fuel inv).
Proof.
  intros Hw Hwo H12 H21 HP. apply update_service_bridges_preserves.
  - intros service. by apply create_ros1_service_preserves.
  - intros service. by apply create_ros2_service_preserves.
  - intros entry. apply remove_obsolete_2_to_1_preserves; [|done].
    intros st name. apply H21.
  - intros entry. apply remove_obsolete_1_to_2_preserves; [done| |done].
    intros st name. apply H12.
Qed.

Lemma create_1to2_bridges_returns inv b12 : returns (create_1to2_bridges inv b12).
Proof. apply returns_for_each. intros x _. apply update_1to2_returns. Qed.

Lemma create_2to1_bridges_returns inv b21 : returns (create_2to1_bridges inv b21).
Proof. apply returns_for_each. intros x _. apply update_2to1_returns. Qed.
End ReconcilerFrames.

(** ** Service bridges run in one direction at a time *)

Section Exclusion.
Context {C : Collaborators}.

Lemma exclusive_insert_2_to_1 st name bridge :
  exclusive st → service_bridges_1_to_2 st !! name = None →
  exclusive (set_service_bridges_2_to_1
               (<[name := bridge]> (service_bridges_2_to_1 st)) st).
Proof.
  intros Hex Hfree n [H12 H21]; simpl in *.
  destruct (decide (n = name)) as [->|Hne].
  - rewrite Hfree in H12. by destruct H12.
  - rewrite lookup_insert_ne in H21 by done. by apply (Hex n).
Qed.

Lemma exclusive_insert_1_to_2 st name bridge :
  exclusive st → service_bridges_2_to_1 st !! name = None →
  exclusive (set_service_bridges_1_to_2
               (<[name := bridge]> (service_bridges_1_to_2 st)) st).
Proof.
  intros Hex Hfree n [H12 H21]; simpl in *.
  destruct (decide (n = name)) as [->|Hne].
  - rewrite Hfree in H21. by destruct H21.
  - rewrite lookup_insert_ne in H12 by done. by apply (Hex n).
Qed.

Lemma exclusive_delete_2_to_1 st name :
  exclusive st →
  exclusive (set_service_bridges_2_to_1 (delete name (service_bridges_2_to_1 st)) st).
Proof.
  intros Hex n [H12 H21]; simpl in *. apply (Hex n). split; [done|].
  destruct H21 as [x Hx]. apply lookup_delete_Some in Hx as [_ Hx]. by exists x.
Qed.

Lemma exclusive_delete_1_to_2 st name :
  exclusive st →
  exclusive (set_service_bridges_1_to_2 (delete name (service_bridges_1_to_2 st)) st).
Proof.
  intros Hex n [H12 H21]; simpl in *. apply (Hex n). split; [|done].
  destruct H12 as [x Hx]. apply lookup_delete_Some in Hx as [_ Hx]. by exists x.
Qed.

(** The branch that creates a 2to1 service bridge is guarded by the test
    that the name is in neither map. *)
Lemma create_ros1_service_exclusive service :
  preserves exclusive (λ _, True) (create_ros1_service service).
Proof.
  intros st Hex. split; [|by apply Forall_forall].
  unfold create_ros1_service. rewrite run_bind_get.
  destruct (service_bridges_2_to_1 st !! service.1) eqn:H21; [done|].
  destruct (service_bridges_1_to_2 st !! service.1) eqn:H12; [done|].
  unfold at_key.
  destruct (service.2 !! "package") as [package|]; [rewrite run_bind_ret | done].
  destruct (service.2 !! "name") as [type_name|]; [rewrite run_bind_ret | done].
  rewrite run_bind_emit. cbn [prepend final].
  destruct (get_service_factory "ros1" package type_name) as [factory|].
  - rewrite run_bind_emit, run_bind_call. cbn [prepend final].
    destruct (service_bridge_2_to_1 factory service.1 (world st))
      as [w [what|bridge]]; cbn [fst snd]; [done|].
    rewrite run_bind_modify. cbn [emit final].
    by apply exclusive_insert_2_to_1.
  - unfold log_warn_once. rewrite run_bind_get. case_bool_decide; [done|].
    by rewrite run_bind_modify.
Qed.

Lemma create_ros2_service_exclusive service :
  preserves exclusive (λ _, True) (create_ros2_service service).
Proof.
  intros st Hex. split; [|by apply Forall_forall].
  unfold create_ros2_service. rewrite run_bind_get.
  destruct (service_bridges_1_to_2 st !! service.1) eqn:H12; [done|].
  destruct (service_bridges_2_to_1 st !! service.1) eqn:H21; [done|].
  unfold at_key.
  destruct (service.2 !! "package") as [package|]; [rewrite run_bind_ret | done].
  destruct (service.2 !! "name") as [type_name|]; [rewrite run_bind_ret | done].
  rewrite run_bind_emit. cbn [prepend final].
  destruct (get_service_factory "ros2" package type_name) as [factory|].
  - rewrite run_bind_emit, run_bind_call. cbn [prepend final].
    destruct (service_bridge_1_to_2 factory service.1 (world st))
      as [w [what|bridge]]; cbn [fst snd]; [done|].
    rewrite run_bind_modify. cbn [emit final].
    by apply exclusive_insert_1_to_2.
  - unfold log_warn_once. rewrite run_bind_get. case_bool_decide; [done|].
    by rewrite run_bind_modify.
Qed.

Lemma exclusive_frame st st' :
  service_bridges_1_to_2 st' = service_bridges_1_to_2 st →
  service_bridges_2_to_1 st' = service_bridges_2_to_1 st →
  exclusive st → exclusive st'.
Proof. intros H12 H21 Hex n. rewrite H12, H21. apply Hex. Qed.

Lemma update_bridge_exclusive fuel inv b12 b21 :
  preserves exclusive (λ _, True) (update_bridge fuel inv b12 b21).
Proof.
  assert (ignores_world exclusive) as Hw.
  { intros st w. by apply exclusive_frame. }
  apply update_bridge_preserves.
  - intros k t1 _. apply update_1to2_preserves; try done.
    intros st m Hex _. revert Hex. by apply exclusive_frame.
  - intros k t2 _. apply update_2to1_preserves; try done.
    intros st m Hex _. revert Hex. by apply exclusive_frame.
  - apply create_ros1_service_exclusive.
  - apply create_ros2_service_exclusive.
  - intros entry. apply remove_obsolete_2_to_1_preserves; [|done].
    intros st name. apply exclusive_delete_2_to_1.
  - intros entry. apply remove_obsolete_1_to_2_preserves; [done| |done].
    intros st name. apply exclusive_delete_1_to_2.
Qed.

Lemma run_passes_exclusive b12 b21 passes st :
  exclusive st → exclusive (run_passes b12 b21 passes st).
Proof.
  revert st. induction passes as [|p passes IH]; intros st Hex; [done|].
  simpl. apply IH. by apply update_bridge_exclusive.
Qed.

(** C4.  Starting from empty registries, after any sequence of
    [update_bridge] passes (whatever the snapshots, the behaviour of the
    factory and the way each pass ends) no service name has an entry in both
    [service_bridges_1_to_2] and [service_bridges_2_to_1]. *)
Theorem service_direction_mutual_exclusion b12 b21 passes w name :
  ¬ (is_Some (service_bridges_1_to_2
                (run_passes b12 b21 passes (empty_registry w)) !! name)
     ∧ is_Some (service_bridges_2_to_1
                  (run_passes b12 b21 passes (empty_registry w)) !! name)).
Proof.
  apply (run_passes_exclusive b12 b21 passes (empty_registry w)).
  intros n [[x Hx] _]. simpl in Hx. by rewrite lookup_empty in Hx.
Qed.
End Exclusion.

(** ** The topic passes, one topic at a time *)

Ltac run :=
  repeat (cbv beta;
          first [ rewrite run_bind_get | rewrite run_bind_modify
                | rewrite run_bind_emit | rewrite run_bind_ret
                | rewrite run_bind_halt | rewrite run_bind_call ]).

Ltac finish_run :=
  cbv beta; unfold emit, modify, halt, get, mret, M_ret;
  cbn [prepend final ended emitted app fst snd].

Lemma filter_none {A} (f : A → bool) (l : list A) :
  Forall (λ x, f x = false) l → List.filter f l = [].
Proof. induction 1 as [|x l Hx _ IH]; simpl; [done|]. by rewrite Hx. Qed.

Lemma filter_middle {A} (f : A → bool) (before middle after : list A) :
  Forall (λ x, f x = false) before → Forall (λ x, f x = false) after →
  List.filter f (before ++ middle ++ after) = List.filter f middle.
Proof.
  intros Hb Ha. rewrite !List.filter_app, (filter_none f before Hb),
    (filter_none f after Ha). simpl. apply app_nil_r.
Qed.

(** A loop cut at one of its visits, when the visits up to it return. *)
Lemma for_each_at_in {S A} (body : A → M S unit) before x after st :
  (∀ y, y ∈ before → returns (body y)) → returns (body x) →
  for_each body (before ++ x :: after) st =
  prepend (emitted (for_each body before st))
    (prepend (emitted (body x (final (for_each body before st))))
       (for_each body after
          (final (body x (final (for_each body before st)))))).
Proof.
  intros Hret Hx. rewrite for_each_app.
  destruct (returns_for_each body before Hret st) as [[] Hb].
  rewrite (bind_prepend _ _ _ _ Hb). f_equal.
  rewrite for_each_cons.
  destruct (Hx (final (for_each body before st))) as [[] Hx'].
  by rewrite (bind_prepend _ _ _ _ Hx').
Qed.

(** A loop whose visits all return, cut at one of its visits. *)
Lemma for_each_at {S A} (body : A → M S unit) before x after st :
  (∀ y, returns (body y)) →
  for_each body (before ++ x :: after) st =
  prepend (emitted (for_each body before st))
    (prepend (emitted (body x (final (for_each body before st))))
       (for_each body after
          (final (body x (final (for_each body before st)))))).
Proof.
  intros Hret. rewrite for_each_app.
  destruct (returns_for_each body before (λ y _, Hret y) st) as [[] Hb].
  rewrite (bind_prepend _ _ _ _ Hb). f_equal.
  rewrite for_each_cons.
  destruct (Hret x (final (for_each body before st))) as [[] Hx].
  by rewrite (bind_prepend _ _ _ _ Hx).
Qed.

Section TopicFacts.
Context {C : Collaborators}.
Implicit Types (st : State) (inv : Inventory).

(** *** One visit of the 1to2 loop *)

Lemma update_1to2_unwanted inv b n t1 st :
  wanted_1to2 inv b n t1 = None →
  update_1to2 inv b (n, t1) st = Res (Normal tt) st [].
Proof. intros Hw. unfold update_1to2. cbn [fst snd]. by rewrite Hw. Qed.

Lemma update_1to2_keep inv b n t1 t2 st bridge :
  wanted_1to2 inv b n t1 = Some t2 →
  bridges_1to2 st !! n = Some bridge →
  in_place_1to2 bridge t1 t2 = true →
  update_1to2 inv b (n, t1) st = Res (Normal tt) st [].
Proof.
  intros Hw He Hin. unfold update_1to2. cbn [fst snd]. rewrite Hw. run.
  by rewrite He, Hin.
Qed.

Lemma update_1to2_replace inv b n t1 t2 st bridge :
  wanted_1to2 inv b n t1 = Some t2 →
  bridges_1to2 st !! n = Some bridge →
  in_place_1to2 bridge t1 t2 = false →
  List.filter (about_1to2 n) (emitted (update_1to2 inv b (n, t1) st))
  = [erase_1to2 n; create_bridge_from_1_to_2_call t1 n t2]
  ∧ (bridges_1to2 (final (update_1to2 inv b (n, t1) st)) !! n = None
     ∨ ∃ handles,
         bridges_1to2 (final (update_1to2 inv b (n, t1) st)) !! n
         = Some {| bridge_handles := handles;
                   ros1_type_name := t1; ros2_type_name := t2 |}).
Proof.
  intros Hwanted Hentry Hstale. unfold update_1to2. cbn [fst snd].
  rewrite Hwanted. run. rewrite Hentry, Hstale. run.
  unfold create_1to2. run.
  destruct (create_bridge_from_1_to_2 t1 n t2 _) as [w [what|handles]]; cbn [fst snd].
  - run. case_match; finish_run; simpl; rewrite !bool_decide_eq_true_2 by done.
    all: split; [done | left; apply lookup_delete_eq].
  - run. finish_run. simpl; rewrite !bool_decide_eq_true_2 by done.
    split; [done|]. right. exists handles. apply lookup_insert_eq.
Qed.

Lemma update_1to2_create inv b n t1 t2 st :
  wanted_1to2 inv b n t1 = Some t2 →
  bridges_1to2 st !! n = None →
  List.filter (about_1to2 n) (emitted (update_1to2 inv b (n, t1) st))
  = [create_bridge_from_1_to_2_call t1 n t2]
  ∧ (bridges_1to2 (final (update_1to2 inv b (n, t1) st)) !! n = None
     ∨ ∃ handles,
         bridges_1to2 (final (update_1to2 inv b (n, t1) st)) !! n
         = Some {| bridge_handles := handles;
                   ros1_type_name := t1; ros2_type_name := t2 |}).
Proof.
  intros Hwanted Hentry. unfold update_1to2. cbn [fst snd].
  rewrite Hwanted. run. rewrite Hentry.
  unfold create_1to2. run.
  destruct (create_bridge_from_1_to_2 t1 n t2 _) as [w [what|handles]]; cbn [fst snd].
  - run. case_match; finish_run; simpl; rewrite !bool_decide_eq_true_2 by done.
    all: split; [done | by left].
  - run. finish_run. simpl; rewrite !bool_decide_eq_true_2 by done.
    split; [done|]. right. exists handles. apply lookup_insert_eq.
Qed.

(** *** One visit of the 2to1 loop *)

Lemma update_2to1_unwanted inv b n t2 st :
  wanted_2to1 inv b n t2 = None →
  update_2to1 inv b (n, t2) st = Res (Normal tt) st [].
Proof. intros Hw. unfold update_2to1. cbn [fst snd]. by rewrite Hw. Qed.

Lemma update_2to1_keep inv b n t1 t2 st bridge :
  wanted_2to1 inv b n t2 = Some t1 →
  bridges_2to1 st !! n = Some bridge →
  in_place_2to1 bridge t1 t2 = true →
  update_2to1 inv b (n, t2) st = Res (Normal tt) st [].
Proof.
  intros Hw He Hin. unfold update_2to1. cbn [fst snd]. rewrite Hw. run.
  by rewrite He, Hin.
Qed.

Lemma update_2to1_replace inv b n t1 t2 st bridge :
  wanted_2to1 inv b n t2 = Some t1 →
  bridges_2to1 st !! n = Some bridge →
  in_place_2to1 bridge t1 t2 = false →
  List.filter (about_2to1 n) (emitted (update_2to1 inv b (n, t2) st))
  = [erase_2to1 n; create_bridge_from_2_to_1_call t2 n t1]
  ∧ (bridges_2to1 (final (update_2to1 inv b (n, t2) st)) !! n = None
     ∨ ∃ handles,
         bridges_2to1 (final (update_2to1 inv b (n, t2) st)) !! n
         = Some {| bridge_handles := handles;
                   ros1_type_name := t1; ros2_type_name := t2 |}).
Proof.
  intros Hwanted Hentry Hstale. unfold update_2to1. cbn [fst snd].
  rewrite Hwanted. run. rewrite Hentry, Hstale. run.
  unfold create_2to1. run.
  destruct (create_bridge_from_2_to_1 t2 n t1 _) as [w [what|handles]]; cbn [fst snd].
  - run. case_match; finish_run; simpl; rewrite !bool_decide_eq_true_2 by done.
    all: split; [done | left; apply lookup_delete_eq].
  - run. finish_run. simpl; rewrite !bool_decide_eq_true_2 by done.
    split; [done|]. right. exists handles. apply lookup_insert_eq.
Qed.

Lemma update_2to1_create inv b n t1 t2 st :
  wanted_2to1 inv b n t2 = Some t1 →
  bridges_2to1 st !! n = None →
  List.filter (about_2to1 n) (emitted (update_2to1 inv b (n, t2) st))
  = [create_bridge_from_2_to_1_call t2 n t1]
  ∧ (bridges_2to1 (final (update_2to1 inv b (n, t2) st)) !! n = None
     ∨ ∃ handles,
         bridges_2to1 (final (update_2to1 inv b (n, t2) st)) !! n
         = Some {| bridge_handles := handles;
                   ros1_type_name := t1; ros2_type_name := t2 |}).
Proof.
  intros Hwanted Hentry. unfold update_2to1. cbn [fst snd].
  rewrite Hwanted. run. rewrite Hentry.
  unfold create_2to1. run.
  destruct (create_bridge_from_2_to_1 t2 n t1 _) as [w [what|handles]]; cbn [fst snd].
  - run. case_match; finish_run; simpl; rewrite !bool_decide_eq_true_2 by done.
    all: split; [done | by left].
  - run. finish_run. simpl; rewrite !bool_decide_eq_true_2 by done.
    split; [done|]. right. exists handles. apply lookup_insert_eq.
Qed.

(** *** Visits of other topics *)

Lemma update_1to2_other inv b k t1 n v :
  k ≠ n →
  preserves (λ st, bridges_1to2 st !! n = v) (λ e, about_1to2 n e = false)
    (update_1to2 inv b (k, t1)).
Proof.
  intros Hne. apply update_1to2_preserves.
  - by intros st w Hv.
  - intros st m Hv Hm. simpl. by rewrite Hm.
  - simpl. by apply bool_decide_eq_false_2.
  - intros t2. simpl. by apply bool_decide_eq_false_2.
  - done.
Qed.

Lemma update_2to1_other inv b k t2 n v :
  k ≠ n →
  preserves (λ st, bridges_2to1 st !! n = v) (λ e, about_2to1 n e = false)
    (update_2to1 inv b (k, t2)).
Proof.
  intros Hne. apply update_2to1_preserves.
  - by intros st w Hv.
  - intros st m Hv Hm. simpl. by rewrite Hm.
  - simpl. by apply bool_decide_eq_false_2.
  - intros t1. simpl. by apply bool_decide_eq_false_2.
  - done.
Qed.

Lemma for_each_update_1to2_other inv b l n v :
  n ∉ l.*1 →
  preserves (λ st, bridges_1to2 st !! n = v) (λ e, about_1to2 n e = false)
    (for_each (update_1to2 inv b) l).
Proof.
  intros Hn. apply preserves_for_each. intros [k t1] Hin.
  apply update_1to2_other. intros ->. apply Hn.
  apply list_elem_of_fmap. by exists (n, t1).
Qed.

Lemma for_each_update_2to1_other inv b l n v :
  n ∉ l.*1 →
  preserves (λ st, bridges_2to1 st !! n = v) (λ e, about_2to1 n e = false)
    (for_each (update_2to1 inv b) l).
Proof.
  intros Hn. apply preserves_for_each. intros [k t2] Hin.
  apply update_2to1_other. intros ->. apply Hn.
  apply list_elem_of_fmap. by exists (n, t2).
Qed.
End TopicFacts.

(** ** A whole pass, seen from one topic *)

Section PassFacts.
Context {C : Collaborators}.
Implicit Types (st : State) (inv : Inventory).

Lemma not_topic_event_about_1to2 n e : topic_event e = false → about_1to2 n e = false.
Proof. by destruct e. Qed.

Lemma not_topic_event_about_2to1 n e : topic_event e = false → about_2to1 n e = false.
Proof. by destruct e. Qed.

Lemma create_1to2_bridges_at inv b n t1 st :
  ros1_publishers inv !! n = Some t1 →
  ∃ st1,
    bridges_1to2 st1 !! n = bridges_1to2 st !! n
    ∧ List.filter (about_1to2 n) (emitted (create_1to2_bridges inv b st))
      = List.filter (about_1to2 n) (emitted (update_1to2 inv b (n, t1) st1))
    ∧ bridges_1to2 (final (create_1to2_bridges inv b st)) !! n
      = bridges_1to2 (final (update_1to2 inv b (n, t1) st1)) !! n.
Proof.
  intros Hn.
  destruct (in_key_order_split _ _ _ Hn) as (before & after & Heq & Hb & Ha).
  unfold create_1to2_bridges.
  rewrite Heq, for_each_at by apply update_1to2_returns.
  set (st1 := final (for_each (update_1to2 inv b) before st)).
  set (r := update_1to2 inv b (n, t1) st1).
  destruct (for_each_update_1to2_other inv b before n
              (bridges_1to2 st !! n) Hb st eq_refl) as [H1 HP1].
  destruct (for_each_update_1to2_other inv b after n
              (bridges_1to2 (final r) !! n) Ha (final r) eq_refl) as [H2 HP2].
  exists st1. split; [done|]. split; [|done].
  cbn [prepend emitted]. by apply filter_middle.
Qed.

Lemma create_2to1_bridges_at inv b n t2 st :
  ros2_publishers inv !! n = Some t2 →
  ∃ st1,
    bridges_2to1 st1 !! n = bridges_2to1 st !! n
    ∧ List.filter (about_2to1 n) (emitted (create_2to1_bridges inv b st))
      = List.filter (about_2to1 n) (emitted (update_2to1 inv b (n, t2) st1))
    ∧ bridges_2to1 (final (create_2to1_bridges inv b st)) !! n
      = bridges_2to1 (final (update_2to1 inv b (n, t2) st1)) !! n.
Proof.
  intros Hn.
  destruct (in_key_order_split _ _ _ Hn) as (before & after & Heq & Hb & Ha).
  unfold create_2to1_bridges.
  rewrite Heq, for_each_at by apply update_2to1_returns.
  set (st1 := final (for_each (update_2to1 inv b) before st)).
  set (r := update_2to1 inv b (n, t2) st1).
  destruct (for_each_update_2to1_other inv b before n
              (bridges_2to1 st !! n) Hb st eq_refl) as [H1 HP1].
  destruct (for_each_update_2to1_other inv b after n
              (bridges_2to1 (final r) !! n) Ha (final r) eq_refl) as [H2 HP2].
  exists st1. split; [done|]. split; [|done].
  cbn [prepend emitted]. by apply filter_middle.
Qed.

(** The 1to2 pass leaves [bridges_2to1] alone, and the other way round; the
    service loops leave both alone. *)
Lemma create_1to2_bridges_keeps_2to1 inv b m n :
  preserves (λ st, bridges_2to1 st = m) (λ e, about_2to1 n e = false)
    (create_1to2_bridges inv b).
Proof.
  apply create_1to2_bridges_preserves. intros k t1 _.
  apply update_1to2_preserves; try done; by intros ???.
Qed.

Lemma create_2to1_bridges_keeps_1to2 inv b m n :
  preserves (λ st, bridges_1to2 st = m) (λ e, about_1to2 n e = false)
    (create_2to1_bridges inv b).
Proof.
  apply create_2to1_bridges_preserves. intros k t2 _.
  apply update_2to1_preserves; try done; by intros ???.
Qed.

Lemma update_service_bridges_keeps_topics fuel inv m12 m21 :
  preserves (λ st, bridges_1to2 st = m12 ∧ bridges_2to1 st = m21)
    (λ e, topic_event e = false) (update_service_bridges fuel inv).
Proof. apply update_service_bridges_frame; try done; by intros ???. Qed.

Lemma update_bridge_1to2_at fuel inv b12 b21 n t1 st :
  ros1_publishers inv !! n = Some t1 →
  ∃ st1,
    bridges_1to2 st1 !! n = bridges_1to2 st !! n
    ∧ List.filter (about_1to2 n) (emitted (update_bridge fuel inv b12 b21 st))
      = List.filter (about_1to2 n) (emitted (update_1to2 inv b12 (n, t1) st1))
    ∧ bridges_1to2 (final (update_bridge fuel inv b12 b21 st)) !! n
      = bridges_1to2 (final (update_1to2 inv b12 (n, t1) st1)) !! n.
Proof.
  intros Hn.
  destruct (create_1to2_bridges_at inv b12 n t1 st Hn) as (st1 & Hst1 & Hev & Hfin).
  exists st1. split; [done|].
  unfold update_bridge.
  destruct (create_1to2_bridges_returns inv b12 st) as [[] Hret].
  rewrite (bind_prepend _ _ _ _ Hret).
  set (st2 := final (create_1to2_bridges inv b12 st)) in *.
  assert (preserves (λ st, bridges_1to2 st = bridges_1to2 st2)
            (λ e, about_1to2 n e = false)
            (create_2to1_bridges inv b21 ≫= λ _, update_service_bridges fuel inv))
    as Hrest.
  { apply preserves_bind; [apply create_2to1_bridges_keeps_1to2 | intros _].
    apply update_service_bridges_frame; try done; try by intros ???.
    apply not_topic_event_about_1to2. }
  destruct (Hrest st2 eq_refl) as [Hkeep Hquiet].
  cbn [prepend emitted final]. split.
  - rewrite List.filter_app, (filter_none _ _ Hquiet), app_nil_r. done.
  - by rewrite Hkeep.
Qed.

Lemma update_bridge_2to1_at fuel inv b12 b21 n t2 st :
  ros2_publishers inv !! n = Some t2 →
  ∃ st1,
    bridges_2to1 st1 !! n = bridges_2to1 st !! n
    ∧ List.filter (about_2to1 n) (emitted (update_bridge fuel inv b12 b21 st))
      = List.filter (about_2to1 n) (emitted (update_2to1 inv b21 (n, t2) st1))
    ∧ bridges_2to1 (final (update_bridge fuel inv b12 b21 st)) !! n
      = bridges_2to1 (final (update_2to1 inv b21 (n, t2) st1)) !! n.
Proof.
  intros Hn. unfold update_bridge.
  destruct (create_1to2_bridges_returns inv b12 st) as [[] Hret1].
  rewrite (bind_prepend _ _ _ _ Hret1).
  destruct (create_1to2_bridges_keeps_2to1 inv b12 (bridges_2to1 st) n st eq_refl)
    as [Hkeep1 Hquiet1].
  set (st2 := final (create_1to2_bridges inv b12 st)) in *.
  destruct (create_2to1_bridges_at inv b21 n t2 st2 Hn) as (st1 & Hst1 & Hev & Hfin).
  exists st1. split; [by rewrite Hst1, Hkeep1|].
  destruct (create_2to1_bridges_returns inv b21 st2) as [[] Hret2].
  rewrite (bind_prepend _ _ _ _ Hret2).
  set (st3 := final (create_2to1_bridges inv b21 st2)) in *.
  destruct (update_service_bridges_keeps_topics fuel inv
              (bridges_1to2 st3) (bridges_2to1 st3) st3 (conj eq_refl eq_refl))
    as [[_ Hkeep3] Hquiet3].
  cbn [prepend emitted final]. split.
  - rewrite !List.filter_app, (filter_none _ _ Hquiet1), Hev.
    rewrite (filter_none (about_2to1 n) (emitted (update_service_bridges fuel inv st3))).
    + by rewrite app_nil_r.
    + eapply Forall_impl; [exact Hquiet3|]. intros e. apply not_topic_event_about_2to1.
  - by rewrite Hkeep3.
Qed.

(** A topic without a publisher on the source side is not looked at. *)
Lemma update_bridge_1to2_absent fuel inv b12 b21 n st :
  ros1_publishers inv !! n = None →
  bridges_1to2 (final (update_bridge fuel inv b12 b21 st)) !! n = bridges_1to2 st !! n
  ∧ List.filter (about_1to2 n) (emitted (update_bridge fuel inv b12 b21 st)) = [].
Proof.
  intros Hn.
  assert (preserves (λ st', bridges_1to2 st' !! n = bridges_1to2 st !! n)
            (λ e, about_1to2 n e = false) (update_bridge fuel inv b12 b21)) as Hp.
  { unfold update_bridge. apply preserves_bind.
    { apply create_1to2_bridges_preserves. intros k t1 Hk.
      apply update_1to2_other. intros ->. congruence. }
    intros _. apply preserves_bind.
    { apply create_2to1_bridges_preserves. intros k t2 _.
      apply update_2to1_preserves; try done; by intros ???. }
    intros _. apply update_service_bridges_frame; try done; try by intros ???.
    apply not_topic_event_about_1to2. }
  destruct (Hp st eq_refl) as [Hkeep Hquiet].
  split; [done | by apply filter_none].
Qed.

Lemma update_bridge_2to1_absent fuel inv b12 b21 n st :
  ros2_publishers inv !! n = None →
  bridges_2to1 (final (update_bridge fuel inv b12 b21 st)) !! n = bridges_2to1 st !! n
  ∧ List.filter (about_2to1 n) (emitted (update_bridge fuel inv b12 b21 st)) = [].
Proof.
  intros Hn.
  assert (preserves (λ st', bridges_2to1 st' !! n = bridges_2to1 st !! n)
            (λ e, about_2to1 n e = false) (update_bridge fuel inv b12 b21)) as Hp.
  { unfold update_bridge. apply preserves_bind.
    { apply create_1to2_bridges_preserves. intros k t1 _.
      apply update_1to2_preserves; try done; by intros ???. }
    intros _. apply preserves_bind.
    { apply create_2to1_bridges_preserves. intros k t2 Hk.
      apply update_2to1_other. intros ->. congruence. }
    intros _. apply update_service_bridges_frame; try done; try by intros ???.
    apply not_topic_event_about_2to1. }
  destruct (Hp st eq_refl) as [Hkeep Hquiet].
  split; [done | by apply filter_none].
Qed.
End PassFacts.

(** ** What one pass does for one topic *)

Section TopicSummary.
Context {C : Collaborators}.
Implicit Types (st : State) (inv : Inventory).

(** The erasures and factory requests of a pass for the 1to2 bridge of a
    topic, read off the snapshots and the entry the pass finds. *)
Lemma update_bridge_1to2_events fuel inv b12 b21 n st :
  List.filter (about_1to2 n) (emitted (update_bridge fuel inv b12 b21 st)) =
  match ros1_publishers inv !! n with
  | None => []
  | Some t1 =>
      match wanted_1to2 inv b12 n t1 with
      | None => []
      | Some t2 =>
          match bridges_1to2 st !! n with
          | None => [create_bridge_from_1_to_2_call t1 n t2]
          | Some bridge =>
              if in_place_1to2 bridge t1 t2 then []
              else [erase_1to2 n; create_bridge_from_1_to_2_call t1 n t2]
          end
      end
  end.
Proof.
  destruct (ros1_publishers inv !! n) as [t1|] eqn:Hn;
    [|by apply update_bridge_1to2_absent].
  destruct (update_bridge_1to2_at fuel inv b12 b21 n t1 st Hn)
    as (st1 & Hst1 & -> & _).
  destruct (wanted_1to2 inv b12 n t1) as [t2|] eqn:Hw;
    [|by rewrite update_1to2_unwanted].
  rewrite <- Hst1.
  destruct (bridges_1to2 st1 !! n) as [bridge|] eqn:He.
  - destruct (in_place_1to2 bridge t1 t2) eqn:Hin.
    + by rewrite (update_1to2_keep _ _ _ _ _ _ _ Hw He Hin).
    + by apply (update_1to2_replace _ _ _ _ _ _ _ Hw He Hin).
  - by apply update_1to2_create.
Qed.

(** The entry of the topic after the pass. *)
Lemma update_bridge_1to2_entry fuel inv b12 b21 n st :
  let entry := bridges_1to2 (final (update_bridge fuel inv b12 b21 st)) !! n in
  match ros1_publishers inv !! n with
  | None => entry = bridges_1to2 st !! n
  | Some t1 =>
      match wanted_1to2 inv b12 n t1 with
      | None => entry = bridges_1to2 st !! n
      | Some t2 =>
          match bridges_1to2 st !! n with
          | Some bridge =>
              if in_place_1to2 bridge t1 t2 then entry = Some bridge
              else entry = None
                   ∨ ∃ handles, entry = Some {| bridge_handles := handles;
                                                ros1_type_name := t1;
                                                ros2_type_name := t2 |}
          | None =>
              entry = None
              ∨ ∃ handles, entry = Some {| bridge_handles := handles;
                                           ros1_type_name := t1;
                                           ros2_type_name := t2 |}
          end
      end
  end.
Proof.
  intros entry. subst entry.
  destruct (ros1_publishers inv !! n) as [t1|] eqn:Hn;
    [|by apply update_bridge_1to2_absent].
  destruct (update_bridge_1to2_at fuel inv b12 b21 n t1 st Hn)
    as (st1 & Hst1 & _ & ->).
  destruct (wanted_1to2 inv b12 n t1) as [t2|] eqn:Hw;
    [|by rewrite update_1to2_unwanted].
  rewrite <- Hst1.
  destruct (bridges_1to2 st1 !! n) as [bridge|] eqn:He.
  - destruct (in_place_1to2 bridge t1 t2) eqn:Hin.
    + by rewrite (update_1to2_keep _ _ _ _ _ _ _ Hw He Hin).
    + by apply (update_1to2_replace _ _ _ _ _ _ _ Hw He Hin).
  - by apply update_1to2_create.
Qed.

Lemma update_bridge_2to1_events fuel inv b12 b21 n st :
  List.filter (about_2to1 n) (emitted (update_bridge fuel inv b12 b21 st)) =
  match ros2_publishers inv !! n with
  | None => []
  | Some t2 =>
      match wanted_2to1 inv b21 n t2 with
      | None => []
      | Some t1 =>
          match bridges_2to1 st !! n with
          | None => [create_bridge_from_2_to_1_call t2 n t1]
          | Some bridge =>
              if in_place_2to1 bridge t1 t2 then []
              else [erase_2to1 n; create_bridge_from_2_to_1_call t2 n t1]
          end
      end
  end.
Proof.
  destruct (ros2_publishers inv !! n) as [t2|] eqn:Hn;
    [|by apply update_bridge_2to1_absent].
  destruct (update_bridge_2to1_at fuel inv b12 b21 n t2 st Hn)
    as (st1 & Hst1 & -> & _).
  destruct (wanted_2to1 inv b21 n t2) as [t1|] eqn:Hw;
    [|by rewrite update_2to1_unwanted].
  rewrite <- Hst1.
  destruct (bridges_2to1 st1 !! n) as [bridge|] eqn:He.
  - destruct (in_place_2to1 bridge t1 t2) eqn:Hin.
    + by rewrite (update_2to1_keep _ _ _ _ _ _ _ Hw He Hin).
    + by apply (update_2to1_replace _ _ _ _ _ _ _ Hw He Hin).
  - by apply update_2to1_create.
Qed.

Lemma update_bridge_2to1_entry fuel inv b12 b21 n st :
  let entry := bridges_2to1 (final (update_bridge fuel inv b12 b21 st)) !! n in
  match ros2_publishers inv !! n with
  | None => entry = bridges_2to1 st !! n
  | Some t2 =>
      match wanted_2to1 inv b21 n t2 with
      | None => entry = bridges_2to1 st !! n
      | Some t1 =>
          match bridges_2to1 st !! n with
          | Some bridge =>
              if in_place_2to1 bridge t1 t2 then entry = Some bridge
              else entry = None
                   ∨ ∃ handles, entry = Some {| bridge_handles := handles;
                                                ros1_type_name := t1;
                                                ros2_type_name := t2 |}
          | None =>
              entry = None
              ∨ ∃ handles, entry = Some {| bridge_handles := handles;
                                           ros1_type_name := t1;
                                           ros2_type_name := t2 |}
          end
      end
  end.
Proof.
  intros entry. subst entry.
  destruct (ros2_publishers inv !! n) as [t2|] eqn:Hn;
    [|by apply update_bridge_2to1_absent].
  destruct (update_bridge_2to1_at fuel inv b12 b21 n t2 st Hn)
    as (st1 & Hst1 & _ & ->).
  destruct (wanted_2to1 inv b21 n t2) as [t1|] eqn:Hw;
    [|by rewrite update_2to1_unwanted].
  rewrite <- Hst1.
  destruct (bridges_2to1 st1 !! n) as [bridge|] eqn:He.
  - destruct (in_place_2to1 bridge t1 t2) eqn:Hin.
    + by rewrite (update_2to1_keep _ _ _ _ _ _ _ Hw He Hin).
    + by apply (update_2to1_replace _ _ _ _ _ _ _ Hw He Hin).
  - by apply update_2to1_create.
Qed.

Lemma in_place_1to2_true {Handles} (bridge : HandlesAndMessageTypes Handles) t1 t2 :
  in_place_1to2 bridge t1 t2 = true
  ↔ ros1_type_name bridge = t1 ∧ ros2_type_name bridge = t2.
Proof.
  unfold in_place_1to2. rewrite andb_true_iff, !bool_decide_eq_true. done.
Qed.

Lemma in_place_2to1_true {Handles} (bridge : HandlesAndMessageTypes Handles) t1 t2 :
  in_place_2to1 bridge t1 t2 = true
  ↔ (ros1_type_name bridge = t1 ∨ ros1_type_name bridge = "")
    ∧ ros2_type_name bridge = t2.
Proof.
  unfold in_place_2to1.
  rewrite andb_true_iff, orb_true_iff, !bool_decide_eq_true. done.
Qed.
End TopicSummary.

(** ** Replacement, tolerance and persistence of topic bridges *)

Section TopicClaims.
Context {C : Collaborators}.
Implicit Types (st : State) (inv : Inventory).

(** The entry a replacing visit leaves is what the factory answered in the
    world of the visit. *)
Lemma update_1to2_replace_entry inv b n t1 t2 st bridge :
  wanted_1to2 inv b n t1 = Some t2 →
  bridges_1to2 st !! n = Some bridge →
  in_place_1to2 bridge t1 t2 = false →
  bridges_1to2 (final (update_1to2 inv b (n, t1) st)) !! n
  = match (create_bridge_from_1_to_2 t1 n t2 (world st)).2 with
    | inr handles => Some {| bridge_handles := handles;
                             ros1_type_name := t1; ros2_type_name := t2 |}
    | inl _ => None
    end.
Proof.
  intros Hwanted Hentry Hstale. unfold update_1to2. cbn [fst snd].
  rewrite Hwanted. run. rewrite Hentry, Hstale. run.
  unfold create_1to2. run. cbn [set_bridges_1to2 world].
  destruct (create_bridge_from_1_to_2 t1 n t2 (world st)) as [w [what|handles]];
    cbn [fst snd].
  - run. case_match; finish_run; simpl; apply lookup_delete_eq.
  - run. finish_run. simpl. apply lookup_insert_eq.
Qed.

(** The entry of a topic after a pass is the one its visit in the 1to2 loop
    leaves; the visit finds the state the visits before it have left. *)
Lemma update_bridge_1to2_visit fuel inv b12 b21 n t1 st before after :
  in_key_order (ros1_publishers inv) = before ++ (n, t1) :: after →
  let st1 := final (for_each (update_1to2 inv b12) before st) in
  bridges_1to2 st1 !! n = bridges_1to2 st !! n
  ∧ bridges_1to2 (final (update_bridge fuel inv b12 b21 st)) !! n
    = bridges_1to2 (final (update_1to2 inv b12 (n, t1) st1)) !! n.
Proof.
  intros Heq st1.
  pose proof (NoDup_in_key_order (ros1_publishers inv)) as Hnodup.
  rewrite Heq, fmap_app, fmap_cons in Hnodup. cbn [fst] in Hnodup.
  apply NoDup_app in Hnodup as (_ & Hb & Hafter).
  apply NoDup_cons in Hafter as [Ha _].
  assert (n ∉ before.*1) as Hb'.
  { intros Hin. apply (Hb n Hin). by left. }
  destruct (for_each_update_1to2_other inv b12 before n
              (bridges_1to2 st !! n) Hb' st eq_refl) as [H1 _].
  split; [done|].
  unfold update_bridge, create_1to2_bridges.
  destruct (create_1to2_bridges_returns inv b12 st) as [[] Hret].
  unfold create_1to2_bridges in Hret.
  rewrite (bind_prepend _ _ _ _ Hret). cbn [prepend final].
  set (st2 := final (for_each (update_1to2 inv b12)
                       (in_key_order (ros1_publishers inv)) st)).
  assert (preserves (λ st, bridges_1to2 st = bridges_1to2 st2)
            (λ e, about_1to2 n e = false)
            (create_2to1_bridges inv b21 ≫= λ _, update_service_bridges fuel inv))
    as Hrest.
  { apply preserves_bind; [apply create_2to1_bridges_keeps_1to2 | intros _].
    apply update_service_bridges_frame; try done; try by intros ???.
    apply not_topic_event_about_1to2. }
  destruct (Hrest st2 eq_refl) as [-> _].
  subst st2. rewrite Heq, for_each_at by apply update_1to2_returns.
  cbn [prepend final]. fold st1.
  by destruct (for_each_update_1to2_other inv b12 after n
                 (bridges_1to2 (final (update_1to2 inv b12 (n, t1) st1)) !! n)
                 Ha (final (update_1to2 inv b12 (n, t1) st1)) eq_refl) as [-> _].
Qed.

(** C5.  If [bridges_1to2] holds an entry for the topic [n] recorded with
    the types [(Ta, Tb)], and the snapshots ask for [(Ta, Tb')] with
    [Tb' ≠ Tb], then the erasures and factory requests of one pass that
    concern the 1to2 bridge of [n] are exactly one erasure followed by one
    request for [(Ta, Tb')].  The request is the call of
    [create_bridge_from_1_to_2] in the world the visits of the topics
    before [n] have left, and the entry after the pass is what the call
    answers: the handles it returns, recorded with [(Ta, Tb')], or no entry
    when it throws. *)
Theorem type_change_replacement fuel inv b12 b21 st n Ta Tb Tb' bridge
    before after :
  bridges_1to2 st !! n = Some bridge →
  ros1_type_name bridge = Ta →
  ros2_type_name bridge = Tb →
  in_key_order (ros1_publishers inv) = before ++ (n, Ta) :: after →
  wanted_1to2 inv b12 n Ta = Some Tb' →
  Tb' ≠ Tb →
  let r := update_bridge fuel inv b12 b21 st in
  let asked_in := world (final (for_each (update_1to2 inv b12) before st)) in
  List.filter (about_1to2 n) (emitted r)
  = [erase_1to2 n; create_bridge_from_1_to_2_call Ta n Tb']
  ∧ bridges_1to2 (final r) !! n
    = match (create_bridge_from_1_to_2 Ta n Tb' asked_in).2 with
      | inr handles => Some {| bridge_handles := handles;
                               ros1_type_name := Ta; ros2_type_name := Tb' |}
      | inl _ => None
      end.
Proof.
  intros He H1 H2 Hsplit Hw Hne r asked_in. subst r asked_in.
  assert (in_place_1to2 bridge Ta Tb' = false) as Hstale.
  { apply not_true_is_false. rewrite in_place_1to2_true. intros [_ Heq]. congruence. }
  assert (ros1_publishers inv !! n = Some Ta) as Hn.
  { apply elem_of_in_key_order. rewrite Hsplit. apply elem_of_app. right. by left. }
  split.
  - pose proof (update_bridge_1to2_events fuel inv b12 b21 n st) as Hev.
    by rewrite Hn, Hw, He, Hstale in Hev.
  - destruct (update_bridge_1to2_visit fuel inv b12 b21 n Ta st before after Hsplit)
      as [Hfound ->].
    apply (update_1to2_replace_entry inv b12 n Ta Tb' _ bridge); [done| |done].
    by rewrite Hfound.
Qed.

(** C6.  In the 2to1 pass an entry of [bridges_2to1] for a wanted topic is
    kept, with no erasure and no request to the factory, exactly when its
    recorded ROS 2 type is the wanted one and its recorded ROS 1 type is
    the wanted one or the empty string.  In the 1to2 pass an entry of
    [bridges_1to2] for a wanted topic is kept exactly when both recorded
    types are the wanted ones. *)
Theorem loose_type_equality_2to1 fuel inv b12 b21 :
  (∀ st n t1 t2 bridge,
     ros2_publishers inv !! n = Some t2 →
     wanted_2to1 inv b21 n t2 = Some t1 →
     bridges_2to1 st !! n = Some bridge →
     (bridges_2to1 (final (update_bridge fuel inv b12 b21 st)) !! n = Some bridge
      ∧ List.filter (about_2to1 n) (emitted (update_bridge fuel inv b12 b21 st)) = [])
     ↔ (ros1_type_name bridge = t1 ∨ ros1_type_name bridge = "")
       ∧ ros2_type_name bridge = t2)
  ∧ (∀ st n t1 t2 bridge,
       ros1_publishers inv !! n = Some t1 →
       wanted_1to2 inv b12 n t1 = Some t2 →
       bridges_1to2 st !! n = Some bridge →
       (bridges_1to2 (final (update_bridge fuel inv b12 b21 st)) !! n = Some bridge
        ∧ List.filter (about_1to2 n) (emitted (update_bridge fuel inv b12 b21 st)) = [])
       ↔ ros1_type_name bridge = t1 ∧ ros2_type_name bridge = t2).
Proof.
  split.
  - intros st n t1 t2 bridge Hn Hw He.
    pose proof (update_bridge_2to1_events fuel inv b12 b21 n st) as Hev.
    pose proof (update_bridge_2to1_entry fuel inv b12 b21 n st) as Hen.
    cbv zeta in Hen. rewrite Hn, Hw, He in Hev, Hen.
    rewrite <- in_place_2to1_true.
    destruct (in_place_2to1 bridge t1 t2).
    + done.
    + rewrite Hev. split; [|done]. by intros [_ ?].
  - intros st n t1 t2 bridge Hn Hw He.
    pose proof (update_bridge_1to2_events fuel inv b12 b21 n st) as Hev.
    pose proof (update_bridge_1to2_entry fuel inv b12 b21 n st) as Hen.
    cbv zeta in Hen. rewrite Hn, Hw, He in Hev, Hen.
    rewrite <- in_place_1to2_true.
    destruct (in_place_1to2 bridge t1 t2).
    + done.
    + rewrite Hev. split; [|done]. by intros [_ ?].
Qed.

Lemma update_bridge_no_topic fuel inv b12 b21 st n :
  no_topic n inv →
  bridges_1to2 (final (update_bridge fuel inv b12 b21 st)) !! n = bridges_1to2 st !! n
  ∧ bridges_2to1 (final (update_bridge fuel inv b12 b21 st)) !! n = bridges_2to1 st !! n.
Proof.
  intros (H1 & _ & H2 & _). split.
  - by apply update_bridge_1to2_absent.
  - by apply update_bridge_2to1_absent.
Qed.

Lemma erase_1to2_emitted fuel inv b12 b21 st n :
  erase_1to2 n ∈ emitted (update_bridge fuel inv b12 b21 st)
  ↔ ∃ bridge t1 t2,
      bridges_1to2 st !! n = Some bridge
      ∧ ros1_publishers inv !! n = Some t1
      ∧ wanted_1to2 inv b12 n t1 = Some t2
      ∧ ¬ (ros1_type_name bridge = t1 ∧ ros2_type_name bridge = t2).
Proof.
  assert (erase_1to2 n ∈ emitted (update_bridge fuel inv b12 b21 st)
          ↔ erase_1to2 n
            ∈ List.filter (about_1to2 n) (emitted (update_bridge fuel inv b12 b21 st)))
    as ->.
  { rewrite !list_elem_of_In, List.filter_In. simpl.
    rewrite bool_decide_eq_true_2 by done. tauto. }
  rewrite update_bridge_1to2_events.
  split.
  - destruct (ros1_publishers inv !! n) as [t1|] eqn:Hn;
      [|by intros ?%elem_of_nil].
    destruct (wanted_1to2 inv b12 n t1) as [t2|] eqn:Hw;
      [|by intros ?%elem_of_nil].
    destruct (bridges_1to2 st !! n) as [bridge|] eqn:He.
    2: { intros Hin. apply list_elem_of_singleton in Hin. done. }
    destruct (in_place_1to2 bridge t1 t2) eqn:Hin; [by intros ?%elem_of_nil|].
    intros _. exists bridge, t1, t2. split_and!; try done.
    intros Hok. apply in_place_1to2_true in Hok. congruence.
  - intros (b & u1 & u2 & Hb & Hu1 & Hu2 & Hne).
    rewrite Hu1, Hu2, Hb.
    destruct (in_place_1to2 b u1 u2) eqn:Hin; [|by left].
    by apply in_place_1to2_true in Hin.
Qed.

Lemma erase_2to1_emitted fuel inv b12 b21 st n :
  erase_2to1 n ∈ emitted (update_bridge fuel inv b12 b21 st)
  ↔ ∃ bridge t1 t2,
      bridges_2to1 st !! n = Some bridge
      ∧ ros2_publishers inv !! n = Some t2
      ∧ wanted_2to1 inv b21 n t2 = Some t1
      ∧ ¬ ((ros1_type_name bridge = t1 ∨ ros1_type_name bridge = "")
           ∧ ros2_type_name bridge = t2).
Proof.
  assert (erase_2to1 n ∈ emitted (update_bridge fuel inv b12 b21 st)
          ↔ erase_2to1 n
            ∈ List.filter (about_2to1 n) (emitted (update_bridge fuel inv b12 b21 st)))
    as ->.
  { rewrite !list_elem_of_In, List.filter_In. simpl.
    rewrite bool_decide_eq_true_2 by done. tauto. }
  rewrite update_bridge_2to1_events.
  split.
  - destruct (ros2_publishers inv !! n) as [t2|] eqn:Hn;
      [|by intros ?%elem_of_nil].
    destruct (wanted_2to1 inv b21 n t2) as [t1|] eqn:Hw;
      [|by intros ?%elem_of_nil].
    destruct (bridges_2to1 st !! n) as [bridge|] eqn:He.
    2: { intros Hin. apply list_elem_of_singleton in Hin. done. }
    destruct (in_place_2to1 bridge t1 t2) eqn:Hin; [by intros ?%elem_of_nil|].
    intros _. exists bridge, t1, t2. split_and!; try done.
    intros Hok. apply in_place_2to1_true in Hok. congruence.
  - intros (b & u1 & u2 & Hb & Hu2 & Hu1 & Hne).
    rewrite Hu2, Hu1, Hb.
    destruct (in_place_2to1 b u1 u2) eqn:Hin; [|by left].
    by apply in_place_2to1_true in Hin.
Qed.

(** C2.  Once a topic is gone from the snapshots of both domains, no
    number of further passes touches its entries in [bridges_1to2] and
    [bridges_2to1].  A pass erases a topic entry only on the replacement
    path: the topic is published on the source side, a target type is
    wanted, and the recorded types are not the wanted ones. *)
Theorem topic_bridges_persist b12 b21 passes st n :
  Forall (λ p, no_topic n (pass_inventory p)) passes →
  (bridges_1to2 (run_passes b12 b21 passes st) !! n = bridges_1to2 st !! n
   ∧ bridges_2to1 (run_passes b12 b21 passes st) !! n = bridges_2to1 st !! n)
  ∧ (∀ fuel inv st',
       erase_1to2 n ∈ emitted (update_bridge fuel inv b12 b21 st')
       ↔ ∃ bridge t1 t2,
           bridges_1to2 st' !! n = Some bridge
           ∧ ros1_publishers inv !! n = Some t1
           ∧ wanted_1to2 inv b12 n t1 = Some t2
           ∧ ¬ (ros1_type_name bridge = t1 ∧ ros2_type_name bridge = t2))
  ∧ (∀ fuel inv st',
       erase_2to1 n ∈ emitted (update_bridge fuel inv b12 b21 st')
       ↔ ∃ bridge t1 t2,
           bridges_2to1 st' !! n = Some bridge
           ∧ ros2_publishers inv !! n = Some t2
           ∧ wanted_2to1 inv b21 n t2 = Some t1
           ∧ ¬ ((ros1_type_name bridge = t1 ∨ ros1_type_name bridge = "")
                ∧ ros2_type_name bridge = t2)).
Proof.
  intros Hgone. split; [|split].
  - revert st. induction Hgone as [|p passes Hp _ IH]; intros st; [done|].
    simpl.
    destruct (IH (final (update_bridge (pass_fuel p) (pass_inventory p) b12 b21
                           (set_world (meanwhile p (world st)) st)))) as [-> ->].
    by apply (update_bridge_no_topic (pass_fuel p) (pass_inventory p) b12 b21
                (set_world (meanwhile p (world st)) st) n).
  - intros fuel inv st'. apply erase_1to2_emitted.
  - intros fuel inv st'. apply erase_2to1_emitted.
Qed.
End TopicClaims.

Lemma type_change_replacement_witness :
  List.filter (about_1to2 "/scan")
    (emitted (update_bridge 1 (scan_inventory "LaserScanB2") false false
                scan_registry))
  = [erase_1to2 "/scan";
     create_bridge_from_1_to_2_call "LaserScan" "/scan" "LaserScanB2"]
  ∧ bridges_1to2
      (final (update_bridge 1 (scan_inventory "LaserScanB2") false false
                scan_registry))
    !! "/scan"
    = Some {| bridge_handles := (1 : @Bridge1to2Handles (scripted false));
              ros1_type_name := "LaserScan";
              ros2_type_name := "LaserScanB2" |}.
Proof.
  refine (type_change_replacement (C:=scripted false) 1
            (scan_inventory "LaserScanB2") false false scan_registry "/scan"
            "LaserScan" "LaserScanB" "LaserScanB2" scan_bridge [] [] _ _ _ _ _ _);
    try reflexivity.
  discriminate.
Defined.

(** The same change of type with a pair the factory does not serve: the
    old entry is erased and none is recorded. *)
Example replacement_without_a_bridge :
  List.filter (about_1to2 "/scan")
    (emitted (update_bridge 1 (scan_inventory "Unknown") false false
                scan_registry))
  = [erase_1to2 "/scan";
     create_bridge_from_1_to_2_call "LaserScan" "/scan" "Unknown"]
  ∧ bridges_1to2
      (final (update_bridge 1 (scan_inventory "Unknown") false false
                scan_registry))
    !! "/scan" = None.
Proof. split; vm_compute; reflexivity. Qed.

Lemma loose_type_equality_2to1_witness :
  (bridges_2to1
     (final (update_bridge 1 cmd_vel_inventory false false cmd_vel_registry))
   !! "/cmd_vel" = Some cmd_vel_bridge
   ∧ List.filter (about_2to1 "/cmd_vel")
       (emitted (update_bridge 1 cmd_vel_inventory false false cmd_vel_registry))
     = [])
  ∧ ¬ (bridges_1to2
         (final (update_bridge 1 (scan_inventory "LaserScanB2") false false
                   scan_registry))
       !! "/scan" = Some scan_bridge
       ∧ List.filter (about_1to2 "/scan")
           (emitted (update_bridge 1 (scan_inventory "LaserScanB2") false false
                       scan_registry))
         = []).
Proof.
  pose proof (loose_type_equality_2to1 (C:=scripted false) 1 cmd_vel_inventory
                false false) as [Hloose _].
  pose proof (loose_type_equality_2to1 (C:=scripted false) 1
                (scan_inventory "LaserScanB2") false false) as [_ Hexact].
  split.
  - apply (Hloose cmd_vel_registry "/cmd_vel" "geometry_msgs/Twist"
             "geometry_msgs/msg/Twist" cmd_vel_bridge);
      [reflexivity | reflexivity | reflexivity |].
    split; [by right | reflexivity].
  - intros Hkept.
    apply (Hexact scan_registry "/scan" "LaserScan" "LaserScanB2" scan_bridge)
      in Hkept; [|reflexivity..].
    destruct Hkept as [_ Hsame]. discriminate.
Defined.

Lemma topic_bridges_persist_witness :
  Forall (λ p, no_topic "/scan" (pass_inventory p)) passes_without_scan
  ∧ bridges_1to2 (run_passes false false passes_without_scan scan_registry)
      !! "/scan"
    = Some scan_bridge.
Proof.
  assert (Forall (λ p, no_topic "/scan" (pass_inventory p)) passes_without_scan)
    as Hgone by repeat constructor.
  split; [exact Hgone|].
  exact (proj1 (proj1 (topic_bridges_persist (C:=scripted false) false false
                         passes_without_scan scan_registry "/scan" Hgone))).
Defined.

(** ** Idempotence *)

Section Idempotence.
Context {C : Collaborators}.
Implicit Types (st : State) (inv : Inventory).

Lemma create_ros1_service_registered service st :
  is_Some (service_bridges_2_to_1 st !! service.1)
  ∨ is_Some (service_bridges_1_to_2 st !! service.1) →
  create_ros1_service service st = Res (Normal tt) st [].
Proof.
  intros Hreg. unfold create_ros1_service. run.
  destruct (service_bridges_2_to_1 st !! service.1); [done|].
  destruct (service_bridges_1_to_2 st !! service.1); [done|].
  by destruct Hreg as [[? ?]|[? ?]].
Qed.

Lemma create_ros2_service_registered service st :
  is_Some (service_bridges_1_to_2 st !! service.1)
  ∨ is_Some (service_bridges_2_to_1 st !! service.1) →
  create_ros2_service service st = Res (Normal tt) st [].
Proof.
  intros Hreg. unfold create_ros2_service. run.
  destruct (service_bridges_1_to_2 st !! service.1); [done|].
  destruct (service_bridges_2_to_1 st !! service.1); [done|].
  by destruct Hreg as [[? ?]|[? ?]].
Qed.

Lemma remove_obsolete_2_to_1_listed inv entry st :
  is_Some (ros1_services inv !! entry.1) →
  remove_obsolete_2_to_1 inv entry st = Res (Normal tt) st [].
Proof. intros [x Hx]. unfold remove_obsolete_2_to_1. by rewrite Hx. Qed.

Lemma remove_obsolete_1_to_2_listed fuel inv entry st :
  is_Some (ros2_services inv !! entry.1) →
  remove_obsolete_1_to_2 fuel inv entry st = Res (Normal tt) st [].
Proof. intros [x Hx]. unfold remove_obsolete_1_to_2. by rewrite Hx. Qed.

(** C1.  When the registry already reflects the snapshots (every bridge
    they call for is recorded with the wanted types, every listed service
    is registered in one of the two service maps, and every registered
    service is still listed by its origin), a pass of [update_bridge]
    returns without having emitted anything, so with no call of the bridge
    factory, and leaves the state, so all four bridge-entry maps,
    unchanged.  (The type mapping tables of the bridge-all mode are read on
    every pass; they are lookups, not factory calls.) *)
Theorem update_bridge_idempotent fuel inv b12 b21 st :
  reflects inv b12 b21 st →
  update_bridge fuel inv b12 b21 st = Res (Normal tt) st [].
Proof.
  intros (Ht12 & Ht21 & Hs1 & Hs2 & Hr21 & Hr12).
  unfold update_bridge.
  rewrite (bind_skip _ _ _ tt).
  2: { apply for_each_skip. intros [k t1] Hin%elem_of_in_key_order.
       destruct (wanted_1to2 inv b12 k t1) as [t2|] eqn:Hw;
         [|by apply update_1to2_unwanted].
       destruct (Ht12 k t1 Hin t2 Hw) as (bridge & He & H1 & H2).
       apply (update_1to2_keep _ _ _ _ _ _ _ Hw He).
       by apply in_place_1to2_true. }
  rewrite (bind_skip _ _ _ tt).
  2: { apply for_each_skip. intros [k t2] Hin%elem_of_in_key_order.
       destruct (wanted_2to1 inv b21 k t2) as [t1|] eqn:Hw;
         [|by apply update_2to1_unwanted].
       destruct (Ht21 k t2 Hin t1 Hw) as (bridge & He & H1 & H2).
       apply (update_2to1_keep _ _ _ _ _ _ _ Hw He).
       by apply in_place_2to1_true. }
  unfold update_service_bridges.
  rewrite (bind_skip _ _ _ tt).
  2: { apply for_each_skip. intros [name details] Hin%elem_of_in_key_order.
       apply create_ros1_service_registered, Hs1. by exists details. }
  rewrite (bind_skip _ _ _ tt).
  2: { apply for_each_skip. intros [name details] Hin%elem_of_in_key_order.
       apply create_ros2_service_registered, Hs2. by exists details. }
  run. rewrite (bind_skip _ _ _ tt).
  2: { apply for_each_skip. intros [name bridge] Hin%elem_of_in_key_order.
       apply remove_obsolete_2_to_1_listed, Hr21. by exists bridge. }
  run. apply for_each_skip. intros [name bridge] Hin%elem_of_in_key_order.
  apply remove_obsolete_1_to_2_listed, Hr12. by exists bridge.
Qed.
End Idempotence.

(** [settled_registry] is the registry a first pass builds. *)
Example first_pass_settles :
  final (update_bridge 1 settled_inventory false false
           (empty_registry (C:=scripted false) 0))
  = settled_registry.
Proof. vm_compute. reflexivity. Qed.

Lemma update_bridge_idempotent_witness :
  reflects settled_inventory false false settled_registry
  ∧ update_bridge 1 settled_inventory false false settled_registry
    = Res (Normal tt) settled_registry [].
Proof.
  assert (reflects settled_inventory false false settled_registry) as Hreflects.
  { split_and!.
    - apply map_Forall_singleton. intros ros2_type Hw. exists scan_bridge.
      split; [reflexivity|]. split; [reflexivity|].
      vm_compute in Hw. by injection Hw.
    - apply map_Forall_empty.
    - intros name [details Hd]. left. cbn [settled_inventory ros1_services] in Hd.
      apply lookup_singleton_Some in Hd as [<- _]. by eexists.
    - intros name [details Hd]. cbn [settled_inventory ros2_services] in Hd.
      by rewrite lookup_empty in Hd.
    - intros name [bridge Hb]. cbn [settled_registry service_bridges_2_to_1] in Hb.
      apply lookup_singleton_Some in Hb as [<- _]. by eexists.
    - intros name [bridge Hb]. cbn [settled_registry service_bridges_1_to_2] in Hb.
      by rewrite lookup_empty in Hb. }
  split; [exact Hreflects|].
  exact (update_bridge_idempotent (C:=scripted false) 1 settled_inventory
           false false settled_registry Hreflects).
Defined.

(** A registry that does not reflect the snapshots: the factory refuses the
    pair, no entry is recorded, and the next pass asks the factory again. *)
Example failed_creation_is_retried :
  final (update_bridge 1 (scan_inventory "Unknown") false false
           (empty_registry (C:=scripted false) 0))
  = empty_registry (C:=scripted false) 0
  ∧ List.filter (about_1to2 "/scan")
      (emitted (update_bridge 1 (scan_inventory "Unknown") false false
                  (empty_registry (C:=scripted false) 0)))
    = [create_bridge_from_1_to_2_call "LaserScan" "/scan" "Unknown"].
Proof. split; vm_compute; reflexivity. Qed.

(** ** Removal of obsolete service bridges *)

Section ServiceRemoval.
Context {C : Collaborators}.
Implicit Types (st : State) (inv : Inventory).

(** While the shutdown of a server keeps throwing, the loop stays at its
    entry, whatever the number of attempts. *)
Lemma shutdown_and_erase_stuck fuel name bridge st :
  (∀ w, (server_shutdown bridge w).2 ≠ None) →
  ended (shutdown_and_erase fuel name bridge st) = Stops out_of_fuel
  ∧ service_bridges_1_to_2 (final (shutdown_and_erase fuel name bridge st))
    = service_bridges_1_to_2 st.
Proof.
  intros Hstuck. revert st. induction fuel as [|fuel IH]; intros st; [done|].
  cbn [shutdown_and_erase]. run. cbn [prepend ended final].
  specialize (Hstuck (world st)).
  destruct (server_shutdown bridge (world st)) as [w [what|]]; [|done].
  cbn [fst snd]. run. cbn [prepend ended final].
  apply (IH (set_world w st)).
Qed.

(** When the visits to an obsolete entry end, the entry is gone. *)
Lemma shutdown_and_erase_normal fuel name bridge st :
  ended (shutdown_and_erase fuel name bridge st) = Normal tt →
  service_bridges_1_to_2 (final (shutdown_and_erase fuel name bridge st)) !! name
  = None.
Proof.
  revert st. induction fuel as [|fuel IH]; intros st; [done|].
  cbn [shutdown_and_erase]. run. cbn [prepend ended final].
  destruct (server_shutdown bridge (world st)) as [w [what|]]; cbn [fst snd]; run.
  - cbn [prepend ended final]. apply IH.
  - intros _. finish_run. simpl. apply lookup_delete_eq.
Qed.

(** With a server that shuts down at once, one attempt is enough. *)
Lemma shutdown_and_erase_returns fuel name bridge :
  0 < fuel → (∀ w, (server_shutdown bridge w).2 = None) →
  returns (shutdown_and_erase fuel name bridge).
Proof.
  intros Hfuel Hok st. destruct fuel as [|fuel]; [lia|].
  cbn [shutdown_and_erase]. run. cbn [prepend ended].
  rewrite Hok. run. finish_run. by eexists.
Qed.


Lemma gone_stays_gone_2_to_1 inv l n :
  preserves (λ st, service_bridges_2_to_1 st !! n = None) (λ _, True)
    (for_each (remove_obsolete_2_to_1 inv) l).
Proof.
  apply preserves_for_each. intros entry _.
  apply remove_obsolete_2_to_1_preserves; [|done].
  intros st name Hn. simpl. rewrite lookup_delete_None. by right.
Qed.

Lemma gone_stays_gone_1_to_2 fuel inv l n :
  preserves (λ st, service_bridges_1_to_2 st !! n = None) (λ _, True)
    (for_each (remove_obsolete_1_to_2 fuel inv) l).
Proof.
  apply preserves_for_each. intros entry _.
  apply remove_obsolete_1_to_2_preserves; [by intros ??? | | done].
  intros st name Hn. simpl. rewrite lookup_delete_None. by right.
Qed.

Lemma remove_obsolete_2_to_1_returns inv entry :
  returns (remove_obsolete_2_to_1 inv entry).
Proof.
  intros st. unfold remove_obsolete_2_to_1.
  destruct (ros1_services inv !! entry.1); [by eexists|].
  run. finish_run. by eexists.
Qed.

(** The loop over [service_bridges_2_to_1] erases every entry it visits
    whose name [ros1_services] does not list. *)
Lemma remove_loop_2_to_1 inv l n st :
  n ∈ l.*1 → ros1_services inv !! n = None →
  service_bridges_2_to_1 (final (for_each (remove_obsolete_2_to_1 inv) l st)) !! n
  = None.
Proof.
  intros Hin Hgone. revert st.
  induction l as [|[k bridge] l IH]; intros st; [by apply elem_of_nil in Hin|].
  rewrite for_each_cons.
  destruct (remove_obsolete_2_to_1_returns inv (k, bridge) st) as [[] Hret].
  rewrite (bind_prepend _ _ _ _ Hret). cbn [prepend final].
  rewrite fmap_cons in Hin. cbn [fst] in Hin.
  apply elem_of_cons in Hin as [->|Hin]; [|by apply IH].
  apply gone_stays_gone_2_to_1.
  unfold remove_obsolete_2_to_1. cbn [fst]. rewrite Hgone. run. finish_run.
  simpl. apply lookup_delete_eq.
Qed.

Lemma remove_loop_1_to_2 fuel inv l n st :
  ended (for_each (remove_obsolete_1_to_2 fuel inv) l st) = Normal tt →
  n ∈ l.*1 → ros2_services inv !! n = None →
  service_bridges_1_to_2 (final (for_each (remove_obsolete_1_to_2 fuel inv) l st)) !! n
  = None.
Proof.
  intros Hend Hin Hgone. revert st Hend.
  induction l as [|[k bridge] l IH]; intros st Hend; [by apply elem_of_nil in Hin|].
  rewrite for_each_cons in Hend |- *.
  apply bind_normal_inv in Hend as ([] & Hbody & -> & Hrest).
  cbn [prepend final].
  rewrite fmap_cons in Hin. cbn [fst] in Hin.
  apply elem_of_cons in Hin as [->|Hin]; [|by apply IH].
  apply gone_stays_gone_1_to_2.
  unfold remove_obsolete_1_to_2 in *. cbn [fst snd] in *. rewrite Hgone in *.
  by apply shutdown_and_erase_normal.
Qed.

Lemma registered_is_visited {V} (m : gmap string V) n :
  is_Some (m !! n) → n ∈ (in_key_order m).*1.
Proof.
  intros [x Hx]. apply list_elem_of_fmap. exists (n, x).
  split; [done | by apply elem_of_in_key_order].
Qed.

(** A pass that returns leaves no service bridge whose origin is gone. *)
Lemma update_service_bridges_removes fuel inv st n :
  ended (update_service_bridges fuel inv st) = Normal tt →
  (ros1_services inv !! n = None →
   service_bridges_2_to_1 (final (update_service_bridges fuel inv st)) !! n = None)
  ∧ (ros2_services inv !! n = None →
     service_bridges_1_to_2 (final (update_service_bridges fuel inv st)) !! n = None).
Proof.
  unfold update_service_bridges. intros Hend.
  apply bind_normal_inv in Hend as ([] & _ & -> & Hend). cbn [prepend final].
  set (st1 := final (for_each create_ros1_service _ st)) in *.
  apply bind_normal_inv in Hend as ([] & _ & -> & Hend). cbn [prepend final].
  set (st2 := final (for_each create_ros2_service _ st1)) in *.
  rewrite run_bind_get in Hend |- *.
  apply bind_normal_inv in Hend as ([] & _ & -> & Hend). cbn [prepend final].
  set (st3 := final (for_each (remove_obsolete_2_to_1 inv) _ st2)) in *.
  rewrite run_bind_get in Hend |- *.
  split.
  - intros Hgone.
    assert (service_bridges_2_to_1 st3 !! n = None) as H3.
    { destruct (service_bridges_2_to_1 st2 !! n) as [x|] eqn:Hx.
      - apply remove_loop_2_to_1; [|done]. by apply registered_is_visited.
      - by apply gone_stays_gone_2_to_1. }
    assert (preserves (λ st, service_bridges_2_to_1 st !! n = None) (λ _, True)
              (for_each (remove_obsolete_1_to_2 fuel inv)
                 (in_key_order (service_bridges_1_to_2 st3)))) as Hp.
    { apply preserves_for_each. intros entry _.
      apply remove_obsolete_1_to_2_preserves; [by intros ??? | by intros ??? | done]. }
    by apply Hp.
  - intros Hgone.
    destruct (service_bridges_1_to_2 st3 !! n) as [x|] eqn:Hx.
    + apply remove_loop_1_to_2; [done | | done]. by apply registered_is_visited.
    + by apply gone_stays_gone_1_to_2.
Qed.

Lemma update_bridge_removes fuel inv b12 b21 st n :
  ended (update_bridge fuel inv b12 b21 st) = Normal tt →
  (ros1_services inv !! n = None →
   service_bridges_2_to_1 (final (update_bridge fuel inv b12 b21 st)) !! n = None)
  ∧ (ros2_services inv !! n = None →
     service_bridges_1_to_2 (final (update_bridge fuel inv b12 b21 st)) !! n = None).
Proof.
  unfold update_bridge. intros Hend.
  apply bind_normal_inv in Hend as ([] & _ & -> & Hend). cbn [prepend final].
  apply bind_normal_inv in Hend as ([] & _ & -> & Hend). cbn [prepend final].
  by apply update_service_bridges_removes.
Qed.
End ServiceRemoval.

(** ** When a pass returns *)

Section PassReturns.
Context {C : Collaborators}.
Implicit Types (st : State) (inv : Inventory).

Lemma in_key_order_empty {V} : in_key_order (∅ : gmap string V) = [].
Proof. unfold in_key_order. by rewrite map_to_list_empty. Qed.

Lemma create_ros1_service_returns service :
  is_Some (service.2 !! "package") → is_Some (service.2 !! "name") →
  returns (create_ros1_service service).
Proof.
  intros [package Hp] [type_name Ht] st. unfold create_ros1_service. run.
  destruct (service_bridges_2_to_1 st !! service.1); [by eexists|].
  destruct (service_bridges_1_to_2 st !! service.1); [by eexists|].
  unfold at_key. rewrite Hp, Ht. run. cbn [prepend ended].
  destruct (get_service_factory "ros1" package type_name) as [factory|].
  - run. cbn [prepend ended].
    destruct (service_bridge_2_to_1 factory service.1 (world st)) as [w [what|bridge]];
      cbn [fst snd]; run; finish_run; by eexists.
  - unfold log_warn_once. run. case_bool_decide; run; finish_run; by eexists.
Qed.

Lemma create_ros2_service_returns service :
  is_Some (service.2 !! "package") → is_Some (service.2 !! "name") →
  returns (create_ros2_service service).
Proof.
  intros [package Hp] [type_name Ht] st. unfold create_ros2_service. run.
  destruct (service_bridges_1_to_2 st !! service.1); [by eexists|].
  destruct (service_bridges_2_to_1 st !! service.1); [by eexists|].
  unfold at_key. rewrite Hp, Ht. run. cbn [prepend ended].
  destruct (get_service_factory "ros2" package type_name) as [factory|].
  - run. cbn [prepend ended].
    destruct (service_bridge_1_to_2 factory service.1 (world st)) as [w [what|bridge]];
      cbn [fst snd]; run; finish_run; by eexists.
  - unfold log_warn_once. run. case_bool_decide; run; finish_run; by eexists.
Qed.

Lemma returns_get {S} : returns (get (S:=S)).
Proof. intros st. by eexists. Qed.


(** With well-formed snapshots and servers that shut down, a pass runs to
    its end. *)
Lemma update_bridge_returns fuel inv b12 b21 :
  well_formed (ros1_services inv) → well_formed (ros2_services inv) →
  0 < fuel → (∀ bridge w, (server_shutdown bridge w).2 = None) →
  returns (update_bridge fuel inv b12 b21).
Proof.
  intros Hwf1 Hwf2 Hfuel Hok. unfold update_bridge.
  apply returns_bind; [apply create_1to2_bridges_returns | intros _].
  apply returns_bind; [apply create_2to1_bridges_returns | intros _].
  unfold update_service_bridges.
  apply returns_bind.
  { apply returns_for_each. intros [name details] Hin%elem_of_in_key_order.
    destruct (Hwf1 name details Hin). by apply create_ros1_service_returns. }
  intros _. apply returns_bind.
  { apply returns_for_each. intros [name details] Hin%elem_of_in_key_order.
    destruct (Hwf2 name details Hin). by apply create_ros2_service_returns. }
  intros _. apply returns_bind; [apply returns_get | intros st5].
  apply returns_bind.
  { apply returns_for_each. intros entry _. apply remove_obsolete_2_to_1_returns. }
  intros _. apply returns_bind; [apply returns_get | intros st6].
  apply returns_for_each. intros entry _. unfold remove_obsolete_1_to_2.
  destruct (ros2_services inv !! entry.1); [apply returns_ret|].
  by apply shutdown_and_erase_returns.
Qed.

(** X1, service volatility.  With well-formed service snapshots and ROS 1
    servers whose shutdown does not throw, a pass returns, and afterwards
    [service_bridges_2_to_1] holds no name that [ros1_services] does not
    list and [service_bridges_1_to_2] no name that [ros2_services] does not
    list. *)
Theorem service_volatility fuel inv b12 b21 st :
  well_formed (ros1_services inv) → well_formed (ros2_services inv) →
  0 < fuel → (∀ bridge w, (server_shutdown bridge w).2 = None) →
  ended (update_bridge fuel inv b12 b21 st) = Normal tt
  ∧ (∀ n, ros1_services inv !! n = None →
          service_bridges_2_to_1 (final (update_bridge fuel inv b12 b21 st)) !! n
          = None)
  ∧ (∀ n, ros2_services inv !! n = None →
          service_bridges_1_to_2 (final (update_bridge fuel inv b12 b21 st)) !! n
          = None).
Proof.
  intros Hwf1 Hwf2 Hfuel Hok.
  destruct (update_bridge_returns fuel inv b12 b21 Hwf1 Hwf2 Hfuel Hok st)
    as [[] Hend].
  split; [done|]. split; intros n Hgone.
  - by apply update_bridge_removes.
  - by apply update_bridge_removes.
Qed.
End PassReturns.

Lemma service_volatility_witness :
  is_Some (service_bridges_1_to_2 (two_services_registry false) !! "/b")
  ∧ ros2_services no_inventory !! "/b" = None
  ∧ service_bridges_1_to_2
      (final (update_bridge 1 no_inventory false false (two_services_registry false)))
    !! "/b" = None.
Proof.
  split; [by eexists|]. split; [reflexivity|].
  refine (proj2 (proj2 (service_volatility (C:=scripted false) 1 no_inventory
                          false false (two_services_registry false) _ _ _ _))
            "/b" _).
  - apply map_Forall_empty.
  - apply map_Forall_empty.
  - lia.
  - reflexivity.
  - reflexivity.
Defined.



(** The removal of the two entries of [busy_registry]: each shutdown throws
    once, the loop logs, tries the same entry again and erases it, then
    goes on to the next entry. *)
Example removal_is_retried :
  emitted (update_bridge (C:=busy_servers) 2 no_inventory false false
             busy_registry)
  = [log INFO "Removed 1 to 2 bridge for service %s\n" ["/a"];
     server_shutdown_call "/a";
     log ERROR "There was an error while removing 1 to 2 bridge: %s\n"
       ["shutdown failed"];
     log INFO "Removed 1 to 2 bridge for service %s\n" ["/a"];
     server_shutdown_call "/a";
     erase_service_1_to_2 "/a";
     log INFO "Removed 1 to 2 bridge for service %s\n" ["/b"];
     server_shutdown_call "/b";
     log ERROR "There was an error while removing 1 to 2 bridge: %s\n"
       ["shutdown failed"];
     log INFO "Removed 1 to 2 bridge for service %s\n" ["/b"];
     server_shutdown_call "/b";
     erase_service_1_to_2 "/b"].
Proof. vm_compute. reflexivity. Qed.

(** The bound on the attempts cannot be dropped.  Two obsolete entries,
    ["/a"] before ["/b"]; with [scripted true] the shutdown of the server
    of ["/a"] throws each time.  However many attempts the model follows,
    the pass has not returned and ["/b"] is still registered: the handler
    does not advance the iterator, so the loop tries ["/a"] again. *)
Example unbounded_retries_do_not_return (fuel : nat) :
  ended (update_bridge fuel no_inventory false false (two_services_registry true))
  = Stops out_of_fuel
  ∧ service_bridges_1_to_2
      (final (update_bridge fuel no_inventory false false
                (two_services_registry true)))
    !! "/b" = Some 1.
Proof.
  unfold update_bridge, create_1to2_bridges, create_2to1_bridges,
    update_service_bridges.
  cbn [no_inventory ros1_publishers ros2_publishers ros1_services ros2_services].
  rewrite !in_key_order_empty. cbn [for_each]. run.
  cbn [two_services_registry service_bridges_2_to_1].
  rewrite in_key_order_empty. cbn [for_each]. run.
  assert (in_key_order (service_bridges_1_to_2 (two_services_registry true))
          = [("/a", 0); ("/b", 1)]) as -> by (vm_compute; reflexivity).
  rewrite for_each_cons.
  destruct (shutdown_and_erase_stuck (C:=scripted true) fuel "/a" 0
              (two_services_registry true)) as [Hstuck Hkept]; [done|].
  rewrite (bind_stops _ _ _ out_of_fuel).
  - cbn [ended final]. split; [done|].
    unfold remove_obsolete_1_to_2. cbn [fst snd no_inventory ros2_services].
    rewrite lookup_empty, Hkept. reflexivity.
  - unfold remove_obsolete_1_to_2. cbn [fst snd no_inventory ros2_services].
    by rewrite lookup_empty.
Qed.

(** [two_services_registry] is the registry a pass over
    [two_services_inventory] builds from the empty registry. *)
Example two_services_registry_is_reachable :
  final (update_bridge 1 two_services_inventory false false
           (empty_registry (C:=scripted true) 0))
  = two_services_registry true.
Proof. vm_compute. reflexivity. Qed.

(** The same registry with servers that shut down: one pass removes both
    entries. *)
Example both_removed_when_shutdown_succeeds :
  service_bridges_1_to_2
    (final (update_bridge 1 no_inventory false false (two_services_registry false)))
  = ∅.
Proof. vm_compute. reflexivity. Qed.

(** ** The pollers: names that failed the whitelist *)

Section PollerFacts.
Context {RE : RegexEngine}.

Lemma elem_of_add (n k : string) (X : gset string) : n ∈ X → n ∈ {[k]} ∪ X.
Proof. intros Hin. apply elem_of_union. by right. Qed.

Lemma not_elem_of_add (n k : string) (X : gset string) :
  k ≠ n → n ∉ X → n ∉ {[k]} ∪ X.
Proof.
  intros Hne Hnot [Hk%elem_of_singleton|Hin]%elem_of_union; [congruence | done].
Qed.

Lemma first_other_node_preserves {S} (Inv : S → Prop) P this_node body nodes :
  preserves Inv P body → preserves Inv P (first_other_node this_node body nodes).
Proof.
  intros Hbody. induction nodes as [|node_name rest IH]; simpl.
  - apply preserves_ret.
  - by case_bool_decide.
Qed.

Lemma preserves_zoom {S T A} (Inv : S → Prop) P (part : S → T)
    (update : T → S → S) (m : M T A) :
  (∀ st t, Inv st → Inv (update t st)) →
  preserves (λ _, True) P m → preserves Inv P (zoom part update m).
Proof.
  intros Hupd Hm st HI. unfold zoom.
  destruct (Hm (part st) I) as [_ HP].
  destruct (m (part st)) as [o t ev]; simpl in *. split; [by apply Hupd | done].
Qed.

(** The probe calls no whitelist matcher. *)
Lemma get_ros1_service_info_quiet n server name :
  preserves (λ _, True) (λ e, offered_topic n e = false)
    (get_ros1_service_info server name).
Proof.
  unfold get_ros1_service_info.
  apply preserves_bind; [by apply preserves_emit | intros _].
  destruct (lookupService server) as [[host port]|]; [|by apply preserves_emit].
  destruct (connect server); cbn [negb]; [|by apply preserves_emit].
  destruct (read_length server) as [read length].
  case_bool_decide; [by apply preserves_emit|].
  destruct (_ || _); [by apply preserves_emit|].
  apply preserves_bind; [by apply preserves_modify | intros _].
  destruct (parse server) as [error|header_in]; [by apply preserves_emit|].
  destruct (header_in !! "type") as [value|].
  - apply preserves_bind; [by apply preserves_modify | intros _].
    unfold split_type.
    apply preserves_bind; [apply preserves_get | intros ros1_services].
    case_match; [|apply preserves_halt].
    apply preserves_bind; [by apply preserves_modify | intros _].
    case_match; [by apply preserves_modify | apply preserves_halt].
  - apply preserves_bind; [by apply preserves_emit | intros _].
    by apply preserves_modify.
Qed.

(** The test of lines 596 and 621: a topic in the already-ignored set is
    skipped before [check_inregex_list] is called. *)
Lemma whitelist_ros1_topic_put_aside n regex_list topic_name activate :
  (topic_name ≠ n →
   preserves (put_aside_ros1 n) (λ e, offered_topic n e = false) activate) →
  preserves (put_aside_ros1 n) (λ e, offered_topic n e = false)
    (whitelist_ros1_topic regex_list topic_name activate).
Proof.
  intros Hact st Hside. unfold whitelist_ros1_topic. run.
  case_bool_decide as Hskip; [split; [done | constructor]|].
  assert (topic_name ≠ n) as Hne.
  { intros ->. by destruct Hside. }
  destruct (check_inregex_list regex_list topic_name (valid_ros1_topics st))
    as [[found known_set] evaluated].
  run. cbn [prepend final emitted].
  assert (offered_topic n
            (check_inregex_list_call topic_rgxp_list_param topic_name evaluated)
          = false) as Hev.
  { simpl. by apply bool_decide_eq_false_2. }
  destruct found.
  - destruct (Hact Hne (with_valid_ros1_topics known_set st)) as [HI HP]; [done|].
    split; [done|]. by constructor.
  - run. finish_run. split.
    + destruct Hside as (H1 & H2 & H3).
      split_and!; simpl; [by apply elem_of_add | done | done].
    + by repeat constructor.
Qed.

Lemma check_publisher_put_aside n this_node regex_list entry :
  preserves (put_aside_ros1 n) (λ e, offered_topic n e = false)
    (check_publisher this_node regex_list entry).
Proof.
  unfold check_publisher.
  apply first_other_node_preserves, whitelist_ros1_topic_put_aside.
  intros Hne. apply preserves_modify. intros st (H1 & H2 & H3).
  split_and!; simpl; [done | by apply not_elem_of_add | done].
Qed.

Lemma check_subscriber_put_aside n this_node regex_list entry :
  preserves (put_aside_ros1 n) (λ e, offered_topic n e = false)
    (check_subscriber this_node regex_list entry).
Proof.
  unfold check_subscriber.
  apply first_other_node_preserves, whitelist_ros1_topic_put_aside.
  intros Hne. apply preserves_modify. intros st (H1 & H2 & H3).
  split_and!; simpl; [done | done | by apply not_elem_of_add].
Qed.

Lemma check_service_put_aside n network regex_list entry :
  preserves (put_aside_ros1 n) (λ e, offered_topic n e = false)
    (check_service network regex_list entry).
Proof.
  unfold check_service.
  apply preserves_bind; [apply preserves_get | intros st0].
  case_bool_decide; [apply preserves_ret|].
  destruct (check_inregex_list regex_list entry.1 (valid_ros1_services st0))
    as [[found known_set] evaluated].
  apply preserves_bind; [by apply preserves_emit | intros _].
  apply preserves_bind; [by apply preserves_modify | intros _].
  destruct found.
  - apply preserves_zoom; [done|]. apply get_ros1_service_info_quiet.
  - apply preserves_bind; [by apply preserves_emit | intros _].
    by apply preserves_modify.
Qed.

Lemma collect_ros1_names_put_aside n this_node topic_regex_list srv_regex_list
    payload network st :
  n ∈ already_ignored_ros1_topics st →
  put_aside_ros1 n
    (final (collect_ros1_names this_node topic_regex_list srv_regex_list
              payload network st))
  ∧ Forall (λ e, offered_topic n e = false)
      (emitted (collect_ros1_names this_node topic_regex_list srv_regex_list
                  payload network st)).
Proof.
  intros Hin. unfold collect_ros1_names. run.
  match goal with
  | |- context [(?m ≫= ?k) ?s] =>
      assert (preserves (put_aside_ros1 n) (λ e, offered_topic n e = false)
                (m ≫= k)) as Hp
  end.
  { apply preserves_bind.
    { apply preserves_for_each. intros entry _. apply check_publisher_put_aside. }
    intros _. apply preserves_bind.
    { apply preserves_for_each. intros entry _. apply check_subscriber_put_aside. }
    intros _. apply preserves_bind; [by apply preserves_modify | intros _].
    apply preserves_for_each. intros entry _. apply check_service_put_aside. }
  apply Hp. split_and!; simpl; [done | apply not_elem_of_empty | apply not_elem_of_empty].
Qed.

(** The [else { continue; }] of lines 787 and 852. *)
Lemma check_ros2_topic_put_aside n regex_list count_publishers count_subscribers
    bridged_1to2 bridged_2to1 topic_and_types :
  preserves (put_aside_ros2 n) (λ e, offered_topic n e = false)
    (check_ros2_topic regex_list count_publishers count_subscribers
       bridged_1to2 bridged_2to1 topic_and_types).
Proof.
  intros st Hside. unfold check_ros2_topic.
  destruct topic_and_types as [topic_name types]. cbn [fst snd].
  case_bool_decide; [split; [done | constructor]|].
  destruct types as [|topic_type types]; cbn [element_0]; run;
    [split; [done | constructor]|].
  assert (topic_name ∉ already_ignored_topics st → topic_name ≠ n) as Hne.
  { intros Hnot ->. by destruct Hside. }
  destruct Hside as (H1 & H2 & H3).
  case_bool_decide.
  { case_bool_decide; [split; [done | constructor]|].
    run. finish_run. split; [|by repeat constructor].
    split_and!; simpl; [by apply elem_of_add | done | done]. }
  case_bool_decide as Hskip; [split; [split_and!; done | constructor]|].
  specialize (Hne Hskip).
  destruct (check_inregex_list regex_list topic_name (valid_ros2_topics st))
    as [[found known_set] evaluated].
  run. cbn [prepend final emitted].
  assert (offered_topic n
            (check_inregex_list_call topic_rgxp_list_param topic_name evaluated)
          = false) as Hev.
  { simpl. by apply bool_decide_eq_false_2. }
  destruct found; cbn [negb].
  - repeat case_bool_decide; run; finish_run.
    all: split; [|by repeat constructor].
    all: split_and!; simpl; rewrite ?lookup_insert_ne by done; done.
  - run. finish_run. split; [|by repeat constructor].
    split_and!; simpl; [by apply elem_of_add | done | done].
Qed.

Lemma check_ros2_service_put_aside n regex_list service_and_types :
  preserves (put_aside_ros2 n) (λ e, offered_topic n e = false)
    (check_ros2_service regex_list service_and_types).
Proof.
  unfold check_ros2_service.
  apply preserves_bind; [apply preserves_element_0 | intros service_type].
  apply preserves_bind; [apply preserves_get | intros st0].
  case_bool_decide.
  { case_bool_decide; [apply preserves_ret|].
    apply preserves_bind; [by apply preserves_emit | intros _].
    by apply preserves_modify. }
  case_bool_decide; [apply preserves_ret|].
  destruct (check_inregex_list regex_list service_and_types.1
              (valid_ros2_services st0)) as [[found known_set] evaluated].
  apply preserves_bind; [by apply preserves_emit | intros _].
  apply preserves_bind; [by apply preserves_modify | intros _].
  destruct found; cbn [negb].
  - case_bool_decide; [by apply preserves_emit|].
    apply preserves_bind; [by apply preserves_modify | intros _].
    by apply preserves_modify.
  - apply preserves_bind; [by apply preserves_emit | intros _].
    by apply preserves_modify.
Qed.

Lemma collect_ros2_names_put_aside n topic_regex_list srv_regex_list
    ros2_topics ros2_services_and_types count_publishers count_subscribers
    bridged_1to2 bridged_2to1 st :
  n ∈ already_ignored_topics st →
  put_aside_ros2 n
    (final (collect_ros2_names topic_regex_list srv_regex_list ros2_topics
              ros2_services_and_types count_publishers count_subscribers
              bridged_1to2 bridged_2to1 st))
  ∧ Forall (λ e, offered_topic n e = false)
      (emitted (collect_ros2_names topic_regex_list srv_regex_list ros2_topics
                  ros2_services_and_types count_publishers count_subscribers
                  bridged_1to2 bridged_2to1 st)).
Proof.
  intros Hin. unfold collect_ros2_names. run.
  match goal with
  | |- context [(?m ≫= ?k) ?s] =>
      assert (preserves (put_aside_ros2 n) (λ e, offered_topic n e = false)
                (m ≫= k)) as Hp
  end.
  { apply preserves_bind.
    { apply preserves_for_each. intros entry _. apply check_ros2_topic_put_aside. }
    intros _. apply preserves_bind; [by apply preserves_modify | intros _].
    apply preserves_for_each. intros entry _. apply check_ros2_service_put_aside. }
  apply Hp. split_and!; simpl; [done | apply lookup_empty | apply lookup_empty].
Qed.

(** *** Service names *)

Lemma preserves_zoom_part {S T A} (Inv : S → Prop) (InvT : T → Prop) P
    (part : S → T) (update : T → S → S) (m : M T A) :
  (∀ st, Inv st → InvT (part st)) →
  (∀ st t, Inv st → InvT t → Inv (update t st)) →
  preserves InvT P m → preserves Inv P (zoom part update m).
Proof.
  intros Hpart Hupd Hm st HI. unfold zoom.
  destruct (Hm (part st) (Hpart st HI)) as [HT HP].
  destruct (m (part st)) as [o t ev]; simpl in *. split; [by apply Hupd | done].
Qed.

Lemma first_other_node_returns {S} this_node (body : M S unit) nodes :
  returns body → returns (first_other_node this_node body nodes).
Proof.
  intros Hbody. induction nodes as [|node_name rest IH]; simpl.
  - apply returns_ret.
  - by case_bool_decide.
Qed.

Lemma whitelist_ros1_topic_returns regex_list topic_name activate :
  returns activate → returns (whitelist_ros1_topic regex_list topic_name activate).
Proof.
  intros Hact st. unfold whitelist_ros1_topic. run.
  case_bool_decide; [by eexists|].
  destruct (check_inregex_list regex_list topic_name (valid_ros1_topics st))
    as [[found known_set] evaluated].
  run. cbn [prepend ended]. destruct found.
  - apply Hact.
  - run. finish_run. by eexists.
Qed.

Lemma check_publisher_returns this_node regex_list entry :
  returns (check_publisher this_node regex_list entry).
Proof.
  apply first_other_node_returns, whitelist_ros1_topic_returns.
  intros st. by eexists.
Qed.

Lemma check_subscriber_returns this_node regex_list entry :
  returns (check_subscriber this_node regex_list entry).
Proof.
  apply first_other_node_returns, whitelist_ros1_topic_returns.
  intros st. by eexists.
Qed.

Lemma check_ros2_topic_returns regex_list count_publishers count_subscribers
    bridged_1to2 bridged_2to1 topic_and_types :
  topic_and_types.2 ≠ [] →
  returns (check_ros2_topic regex_list count_publishers count_subscribers
             bridged_1to2 bridged_2to1 topic_and_types).
Proof.
  intros Htyped st. unfold check_ros2_topic.
  case_bool_decide; [by eexists|].
  destruct (topic_and_types.2) as [|topic_type types]; [done|].
  cbn [element_0]. run.
  case_bool_decide.
  { case_bool_decide; [by eexists|]. run. finish_run. by eexists. }
  case_bool_decide; [by eexists|].
  destruct (check_inregex_list regex_list topic_and_types.1 (valid_ros2_topics st))
    as [[found known_set] evaluated].
  run. cbn [prepend ended]. destruct found; cbn [negb].
  - repeat case_bool_decide; run; finish_run; by eexists.
  - run. finish_run. by eexists.
Qed.

(** The topic loops of [ros1_poll] do not look at the service sets. *)
Lemma whitelist_ros1_topic_keeps_services n regex_list topic_name activate :
  preserves (λ st, n ∈ already_ignored_ros1_services st)
    (λ e, offered_service n e = false) activate →
  preserves (λ st, n ∈ already_ignored_ros1_services st)
    (λ e, offered_service n e = false)
    (whitelist_ros1_topic regex_list topic_name activate).
Proof.
  intros Hact. unfold whitelist_ros1_topic.
  apply preserves_bind; [apply preserves_get | intros st0].
  case_bool_decide; [apply preserves_ret|].
  destruct (check_inregex_list regex_list topic_name (valid_ros1_topics st0))
    as [[found known_set] evaluated].
  apply preserves_bind; [by apply preserves_emit | intros _].
  apply preserves_bind; [by apply preserves_modify | intros _].
  destruct found; [done|].
  apply preserves_bind; [by apply preserves_emit | intros _].
  by apply preserves_modify.
Qed.

(** The probe of another name leaves the entry of [n] absent. *)
Lemma get_ros1_service_info_other n server name :
  name ≠ n →
  preserves (λ ros1_services : gmap string (gmap string string),
               ros1_services !! n = None)
    (λ e, offered_service n e = false)
    (get_ros1_service_info server name).
Proof.
  intros Hne.
  assert (∀ field value (m : gmap string (gmap string string)),
            m !! n = None → assign_field name field value m !! n = None) as Hassign.
  { intros field value m Hm. unfold assign_field. by rewrite lookup_insert_ne. }
  unfold get_ros1_service_info.
  apply preserves_bind; [by apply preserves_emit | intros _].
  destruct (lookupService server) as [[host port]|]; [|by apply preserves_emit].
  destruct (connect server); cbn [negb]; [|by apply preserves_emit].
  destruct (read_length server) as [read length].
  case_bool_decide; [by apply preserves_emit|].
  destruct (_ || _); [by apply preserves_emit|].
  apply preserves_bind.
  { apply preserves_modify. intros m Hm. by rewrite lookup_insert_ne. }
  intros _.
  destruct (parse server) as [error|header_in]; [by apply preserves_emit|].
  destruct (header_in !! "type") as [value|].
  - apply preserves_bind; [apply preserves_modify, Hassign | intros _].
    unfold split_type.
    apply preserves_bind; [apply preserves_get | intros ros1_services].
    case_match; [|apply preserves_halt].
    apply preserves_bind; [apply preserves_modify, Hassign | intros _].
    case_match; [apply preserves_modify, Hassign | apply preserves_halt].
  - apply preserves_bind; [by apply preserves_emit | intros _].
    apply preserves_modify. intros m Hm. by rewrite lookup_delete_ne.
Qed.

(** The test of line 643. *)
Lemma check_service_put_aside_service n network regex_list entry :
  preserves (service_put_aside_ros1 n) (λ e, offered_service n e = false)
    (check_service network regex_list entry).
Proof.
  intros st Hside. unfold check_service. run.
  case_bool_decide as Hskip; [split; [done | constructor]|].
  assert (entry.1 ≠ n) as Hne.
  { intros Heq. rewrite Heq in Hskip. by destruct Hside. }
  destruct (check_inregex_list regex_list entry.1 (valid_ros1_services st))
    as [[found known_set] evaluated].
  run. cbn [prepend final emitted].
  assert (offered_service n
            (check_inregex_list_call srv_rgxp_list_param entry.1 evaluated)
          = false) as Hev.
  { simpl. by apply bool_decide_eq_false_2. }
  destruct Hside as [H1 H2].
  destruct found.
  - destruct (preserves_zoom_part (service_put_aside_ros1 n)
                (λ m : gmap string (gmap string string), m !! n = None)
                (λ e, offered_service n e = false)
                active_ros1_services with_active_ros1_services
                (get_ros1_service_info (network entry.1) entry.1))
      with (st := with_valid_ros1_services known_set st) as [HI HP].
    + by intros st' [_ ?].
    + by intros st' t [? _] ?.
    + by apply get_ros1_service_info_other.
    + done.
    + split; [done | by constructor].
  - run. finish_run. split; [|by repeat constructor].
    split; simpl; [by apply elem_of_add | done].
Qed.

Lemma collect_ros1_names_put_aside_service n this_node topic_regex_list
    srv_regex_list payload network st :
  n ∈ already_ignored_ros1_services st →
  service_put_aside_ros1 n
    (final (collect_ros1_names this_node topic_regex_list srv_regex_list
              payload network st))
  ∧ Forall (λ e, offered_service n e = false)
      (emitted (collect_ros1_names this_node topic_regex_list srv_regex_list
                  payload network st)).
Proof.
  intros Hin. unfold collect_ros1_names. run.
  set (st0 := with_active_subscribers ∅ (with_active_publishers ∅ st)).
  set (publishers :=
         for_each (check_publisher this_node topic_regex_list)
           (default [] (payload !! 0))).
  set (subscribers :=
         for_each (check_subscriber this_node topic_regex_list)
           (default [] (payload !! 1))).
  assert (∀ activate,
            preserves (λ st, n ∈ already_ignored_ros1_services st)
              (λ e, offered_service n e = false) (modify activate)
            → ∀ topic_name nodes,
                preserves (λ st, n ∈ already_ignored_ros1_services st)
                  (λ e, offered_service n e = false)
                  (first_other_node this_node
                     (whitelist_ros1_topic topic_regex_list topic_name
                        (modify activate)) nodes)) as Hvisit.
  { intros activate Hact topic_name nodes.
    by apply first_other_node_preserves, whitelist_ros1_topic_keeps_services. }
  assert (preserves (λ st, n ∈ already_ignored_ros1_services st)
            (λ e, offered_service n e = false) publishers) as Hpub.
  { apply preserves_for_each. intros entry _. apply Hvisit.
    by apply preserves_modify. }
  assert (preserves (λ st, n ∈ already_ignored_ros1_services st)
            (λ e, offered_service n e = false) subscribers) as Hsub.
  { apply preserves_for_each. intros entry _. apply Hvisit.
    by apply preserves_modify. }
  destruct (returns_for_each (check_publisher this_node topic_regex_list)
              (default [] (payload !! 0))
              (λ y _, check_publisher_returns this_node topic_regex_list y) st0)
    as [[] Hret1].
  rewrite (bind_prepend _ _ _ _ Hret1). fold publishers.
  destruct (Hpub st0 Hin) as [Hin1 Hquiet1].
  set (st1 := final (publishers st0)) in *.
  destruct (returns_for_each (check_subscriber this_node topic_regex_list)
              (default [] (payload !! 1))
              (λ y _, check_subscriber_returns this_node topic_regex_list y) st1)
    as [[] Hret2].
  rewrite (bind_prepend _ _ _ _ Hret2). fold subscribers.
  destruct (Hsub st1 Hin1) as [Hin2 Hquiet2].
  set (st2 := final (subscribers st1)) in *.
  run.
  destruct (preserves_for_each (service_put_aside_ros1 n)
              (λ e, offered_service n e = false)
              (check_service network srv_regex_list) (default [] (payload !! 2))
              (λ entry _, check_service_put_aside_service n network
                            srv_regex_list entry)
              (with_active_ros1_services ∅ st2)) as [HI HP].
  { split; [done | apply lookup_empty]. }
  cbn [prepend final emitted]. split; [done|].
  by repeat apply Forall_app_2.
Qed.

Lemma check_ros2_topic_keeps_services n regex_list count_publishers
    count_subscribers bridged_1to2 bridged_2to1 topic_and_types :
  preserves (λ st, n ∈ already_ignored_services st)
    (λ e, offered_service n e = false)
    (check_ros2_topic regex_list count_publishers count_subscribers
       bridged_1to2 bridged_2to1 topic_and_types).
Proof.
  unfold check_ros2_topic.
  case_bool_decide; [apply preserves_ret|].
  apply preserves_bind; [apply preserves_element_0 | intros topic_type].
  apply preserves_bind; [apply preserves_get | intros st0].
  case_bool_decide.
  { case_bool_decide; [apply preserves_ret|].
    apply preserves_bind; [by apply preserves_emit | intros _].
    by apply preserves_modify. }
  case_bool_decide; [apply preserves_ret|].
  destruct (check_inregex_list regex_list topic_and_types.1 (valid_ros2_topics st0))
    as [[found known_set] evaluated].
  apply preserves_bind; [by apply preserves_emit | intros _].
  apply preserves_bind; [by apply preserves_modify | intros _].
  destruct found; cbn [negb].
  - apply preserves_bind.
    + case_bool_decide; [by apply preserves_modify | apply preserves_ret].
    + intros _. case_bool_decide; [by apply preserves_modify | apply preserves_ret].
  - apply preserves_bind; [by apply preserves_emit | intros _].
    by apply preserves_modify.
Qed.

(** The [else { continue; }] of line 852. *)
Lemma check_ros2_service_put_aside_service n regex_list service_and_types :
  preserves (service_put_aside_ros2 n) (λ e, offered_service n e = false)
    (check_ros2_service regex_list service_and_types).
Proof.
  intros st Hside. unfold check_ros2_service.
  destruct service_and_types as [service_name types]. cbn [fst snd].
  destruct types as [|service_type types]; cbn [element_0]; run;
    [split; [done | constructor]|].
  assert (service_name ∉ already_ignored_services st → service_name ≠ n) as Hne.
  { intros Hnot ->. by destruct Hside. }
  destruct Hside as [H1 H2].
  case_bool_decide.
  { case_bool_decide; [split; [done | constructor]|].
    run. finish_run. split; [|by repeat constructor].
    split; simpl; [by apply elem_of_add | done]. }
  case_bool_decide as Hskip; [split; [done | constructor]|].
  specialize (Hne Hskip).
  destruct (check_inregex_list regex_list service_name (valid_ros2_services st))
    as [[found known_set] evaluated].
  run. cbn [prepend final emitted].
  assert (offered_service n
            (check_inregex_list_call srv_rgxp_list_param service_name evaluated)
          = false) as Hev.
  { simpl. by apply bool_decide_eq_false_2. }
  destruct found; cbn [negb].
  - case_bool_decide; run; finish_run.
    + split; [done | by repeat constructor].
    + split; [|by repeat constructor].
      split; simpl; [done|]. unfold assign_field.
      by rewrite !lookup_insert_ne.
  - run. finish_run. split; [|by repeat constructor].
    split; simpl; [by apply elem_of_add | done].
Qed.

(** A service name in the already-ignored set stays there and is not
    offered to the matcher, however the poll ends. *)
Lemma check_ros2_service_keeps_ignored n regex_list service_and_types :
  preserves (λ st, n ∈ already_ignored_services st)
    (λ e, offered_service n e = false)
    (check_ros2_service regex_list service_and_types).
Proof.
  intros st Hin. unfold check_ros2_service.
  destruct service_and_types as [service_name types]. cbn [fst snd].
  destruct types as [|service_type types]; cbn [element_0]; run;
    [split; [done | constructor]|].
  case_bool_decide.
  { case_bool_decide; [split; [done | constructor]|].
    run. finish_run. split; [by apply elem_of_add | by repeat constructor]. }
  case_bool_decide as Hskip; [split; [done | constructor]|].
  assert (service_name ≠ n) as Hne by congruence.
  destruct (check_inregex_list regex_list service_name (valid_ros2_services st))
    as [[found known_set] evaluated].
  run. cbn [prepend final emitted].
  assert (offered_service n
            (check_inregex_list_call srv_rgxp_list_param service_name evaluated)
          = false) as Hev.
  { simpl. by apply bool_decide_eq_false_2. }
  destruct found; cbn [negb].
  - case_bool_decide; run; finish_run; (split; [done | by repeat constructor]).
  - run. finish_run. split; [by apply elem_of_add | by repeat constructor].
Qed.

Lemma collect_ros2_names_keeps_ignored_service n topic_regex_list srv_regex_list
    ros2_topics ros2_services_and_types count_publishers count_subscribers
    bridged_1to2 bridged_2to1 :
  preserves (λ st, n ∈ already_ignored_services st)
    (λ e, offered_service n e = false)
    (collect_ros2_names topic_regex_list srv_regex_list ros2_topics
       ros2_services_and_types count_publishers count_subscribers
       bridged_1to2 bridged_2to1).
Proof.
  unfold collect_ros2_names.
  apply preserves_bind; [by apply preserves_modify | intros _].
  apply preserves_bind; [by apply preserves_modify | intros _].
  apply preserves_bind.
  { apply preserves_for_each. intros entry _.
    apply check_ros2_topic_keeps_services. }
  intros _. apply preserves_bind; [by apply preserves_modify | intros _].
  apply preserves_for_each. intros entry _.
  apply check_ros2_service_keeps_ignored.
Qed.

(** The loop over [ros2_topics] comes to its end when every topic is
    reported with a type. *)
Lemma ros2_topic_loop_returns regex_list ros2_topics count_publishers
    count_subscribers bridged_1to2 bridged_2to1 :
  reported_with_a_type ros2_topics →
  returns (for_each (check_ros2_topic regex_list count_publishers
                       count_subscribers bridged_1to2 bridged_2to1)
             (in_key_order ros2_topics)).
Proof.
  intros Htyped. apply returns_for_each.
  intros [topic_name types] Hin%elem_of_in_key_order.
  apply check_ros2_topic_returns. exact (Htyped topic_name types Hin).
Qed.

Lemma collect_ros2_names_put_aside_service n topic_regex_list srv_regex_list
    ros2_topics ros2_services_and_types count_publishers count_subscribers
    bridged_1to2 bridged_2to1 st :
  reported_with_a_type ros2_topics →
  n ∈ already_ignored_services st →
  service_put_aside_ros2 n
    (final (collect_ros2_names topic_regex_list srv_regex_list ros2_topics
              ros2_services_and_types count_publishers count_subscribers
              bridged_1to2 bridged_2to1 st)).
Proof.
  intros Htyped Hin. unfold collect_ros2_names. run.
  set (st0 := with_current_ros2_subscribers ∅ (with_current_ros2_publishers ∅ st)).
  set (body := check_ros2_topic topic_regex_list count_publishers
                 count_subscribers bridged_1to2 bridged_2to1).
  destruct (ros2_topic_loop_returns topic_regex_list ros2_topics count_publishers
              count_subscribers bridged_1to2 bridged_2to1 Htyped st0)
    as [[] Hret].
  fold body in Hret. rewrite (bind_prepend _ _ _ _ Hret).
  destruct (preserves_for_each (λ st, n ∈ already_ignored_services st)
              (λ e, offered_service n e = false) body (in_key_order ros2_topics)
              (λ y _, check_ros2_topic_keeps_services n topic_regex_list
                        count_publishers count_subscribers bridged_1to2
                        bridged_2to1 y) st0 Hin) as [Hin1 Hquiet1].
  set (st1 := final (for_each body (in_key_order ros2_topics) st0)) in *.
  run.
  destruct (preserves_for_each (service_put_aside_ros2 n)
              (λ e, offered_service n e = false)
              (check_ros2_service srv_regex_list)
              (in_key_order ros2_services_and_types)
              (λ entry _, check_ros2_service_put_aside_service n srv_regex_list entry)
              (with_active_ros2_services ∅ st1)) as [HI HP].
  { split; [done | apply lookup_empty]. }
  done.
Qed.
(** *** Names that fail the match *)

Lemma marks_modify {S} (Inv Q : S → Prop) E (f : S → S) :
  (∀ st, Inv st → Inv (f st)) → (∀ st, Q st → Q (f st)) →
  marks Inv Q E (modify f).
Proof. intros HI HQ. apply marks_quiet; by apply preserves_modify. Qed.

Lemma first_other_node_marks {S} (Inv Q : S → Prop) E this_node body nodes :
  marks Inv Q E body → marks Inv Q E (first_other_node this_node body nodes).
Proof.
  intros Hbody. induction nodes as [|node_name rest IH]; simpl.
  - intros st HI. by split_and!.
  - by case_bool_decide.
Qed.

(** A name that no pattern matches and that is not in the cache does not
    get into the cache, and the call for it returns false. *)
Lemma check_inregex_list_fails regex_list n name known_set :
  ¬ whitelisted regex_list n → n ∉ known_set →
  (n ∉ (check_inregex_list regex_list name known_set).1.2)
  ∧ (name = n → (check_inregex_list regex_list name known_set).1.1 = false).
Proof.
  intros Hw Hnew. unfold check_inregex_list.
  case_bool_decide as Hin; [split; [done | by intros ->]|].
  pose proof (match_in_order_found regex_list name 0) as Hfound.
  destruct (match_in_order regex_list name 0) as [[] evaluated]; simpl in *.
  - assert (name ≠ n) as Hne.
    { intros ->. apply Hw. by apply Hfound. }
    split; [by apply not_elem_of_add | done].
  - by split.
Qed.

(** The events of the probe are its log lines and its call of
    [lookupService]. *)
Lemma get_ros1_service_info_emits (P : event → Prop) server name :
  (∀ s format args, P (log s format args)) →
  (∀ n, P (lookupService_call n)) →
  preserves (λ _, True) P (get_ros1_service_info server name).
Proof.
  intros Hlog Hlookup. unfold get_ros1_service_info.
  apply preserves_bind; [by apply preserves_emit | intros _].
  destruct (lookupService server) as [[host port]|]; [|by apply preserves_emit].
  destruct (connect server); cbn [negb]; [|by apply preserves_emit].
  destruct (read_length server) as [read length].
  case_bool_decide; [by apply preserves_emit|].
  destruct (_ || _); [by apply preserves_emit|].
  apply preserves_bind; [by apply preserves_modify | intros _].
  destruct (parse server) as [error|header_in]; [by apply preserves_emit|].
  destruct (header_in !! "type") as [value|].
  - apply preserves_bind; [by apply preserves_modify | intros _].
    unfold split_type.
    apply preserves_bind; [apply preserves_get | intros ros1_services].
    case_match; [|apply preserves_halt].
    apply preserves_bind; [by apply preserves_modify | intros _].
    case_match; [by apply preserves_modify | apply preserves_halt].
  - apply preserves_bind; [by apply preserves_emit | intros _].
    by apply preserves_modify.
Qed.

(** What a visit of each loop touches, and what it emits. *)
Lemma whitelist_ros1_topic_touches (Inv : Ros1Poll → Prop) (P : event → Prop)
    regex_list topic_name activate :
  (∀ st X, Inv st → Inv (with_valid_ros1_topics X st)) →
  (∀ st X, Inv st → Inv (with_already_ignored_ros1_topics X st)) →
  (∀ name evaluated,
     P (check_inregex_list_call topic_rgxp_list_param name evaluated)) →
  (∀ s format args, P (log s format args)) →
  preserves Inv P activate →
  preserves Inv P (whitelist_ros1_topic regex_list topic_name activate).
Proof.
  intros Hvalid Hignored Hcall Hlog Hact. unfold whitelist_ros1_topic.
  apply preserves_bind; [apply preserves_get | intros st0].
  case_bool_decide; [apply preserves_ret|].
  destruct (check_inregex_list regex_list topic_name (valid_ros1_topics st0))
    as [[found known_set] evaluated].
  apply preserves_bind; [by apply preserves_emit | intros _].
  apply preserves_bind; [apply preserves_modify; auto | intros _].
  destruct found; [done|].
  apply preserves_bind; [by apply preserves_emit | intros _].
  apply preserves_modify. auto.
Qed.

Lemma check_service_touches (Inv : Ros1Poll → Prop) (P : event → Prop)
    network regex_list entry :
  (∀ st X, Inv st → Inv (with_valid_ros1_services X st)) →
  (∀ st X, Inv st → Inv (with_already_ignored_ros1_services X st)) →
  (∀ st m, Inv st → Inv (with_active_ros1_services m st)) →
  (∀ name evaluated,
     P (check_inregex_list_call srv_rgxp_list_param name evaluated)) →
  (∀ s format args, P (log s format args)) →
  (∀ name, P (lookupService_call name)) →
  preserves Inv P (check_service network regex_list entry).
Proof.
  intros Hvalid Hignored Hactive Hcall Hlog Hlookup. unfold check_service.
  apply preserves_bind; [apply preserves_get | intros st0].
  case_bool_decide; [apply preserves_ret|].
  destruct (check_inregex_list regex_list entry.1 (valid_ros1_services st0))
    as [[found known_set] evaluated].
  apply preserves_bind; [by apply preserves_emit | intros _].
  apply preserves_bind; [apply preserves_modify; auto | intros _].
  destruct found.
  - apply preserves_zoom; [auto|]. by apply get_ros1_service_info_emits.
  - apply preserves_bind; [by apply preserves_emit | intros _].
    apply preserves_modify. auto.
Qed.

Lemma check_ros2_topic_touches (Inv : Ros2Poll → Prop) (P : event → Prop)
    regex_list count_publishers count_subscribers bridged_1to2 bridged_2to1
    topic_and_types :
  (∀ st X, Inv st → Inv (with_valid_ros2_topics X st)) →
  (∀ st X, Inv st → Inv (with_already_ignored_topics X st)) →
  (∀ st m, Inv st → Inv (with_current_ros2_publishers m st)) →
  (∀ st m, Inv st → Inv (with_current_ros2_subscribers m st)) →
  (∀ name evaluated,
     P (check_inregex_list_call topic_rgxp_list_param name evaluated)) →
  (∀ s format args, P (log s format args)) →
  preserves Inv P
    (check_ros2_topic regex_list count_publishers count_subscribers
       bridged_1to2 bridged_2to1 topic_and_types).
Proof.
  intros Hvalid Hignored Hpub Hsub Hcall Hlog. unfold check_ros2_topic.
  case_bool_decide; [apply preserves_ret|].
  apply preserves_bind; [apply preserves_element_0 | intros topic_type].
  apply preserves_bind; [apply preserves_get | intros st0].
  case_bool_decide.
  { case_bool_decide; [apply preserves_ret|].
    apply preserves_bind; [by apply preserves_emit | intros _].
    apply preserves_modify. auto. }
  case_bool_decide; [apply preserves_ret|].
  destruct (check_inregex_list regex_list topic_and_types.1 (valid_ros2_topics st0))
    as [[found known_set] evaluated].
  apply preserves_bind; [by apply preserves_emit | intros _].
  apply preserves_bind; [apply preserves_modify; auto | intros _].
  destruct found; cbn [negb].
  - apply preserves_bind.
    + case_bool_decide; [apply preserves_modify; auto | apply preserves_ret].
    + intros _. case_bool_decide; [apply preserves_modify; auto | apply preserves_ret].
  - apply preserves_bind; [by apply preserves_emit | intros _].
    apply preserves_modify. auto.
Qed.

Lemma check_ros2_service_touches (Inv : Ros2Poll → Prop) (P : event → Prop)
    regex_list service_and_types :
  (∀ st X, Inv st → Inv (with_valid_ros2_services X st)) →
  (∀ st X, Inv st → Inv (with_already_ignored_services X st)) →
  (∀ st m, Inv st → Inv (with_active_ros2_services m st)) →
  (∀ name evaluated,
     P (check_inregex_list_call srv_rgxp_list_param name evaluated)) →
  (∀ s format args, P (log s format args)) →
  preserves Inv P (check_ros2_service regex_list service_and_types).
Proof.
  intros Hvalid Hignored Hactive Hcall Hlog. unfold check_ros2_service.
  apply preserves_bind; [apply preserves_element_0 | intros service_type].
  apply preserves_bind; [apply preserves_get | intros st0].
  case_bool_decide.
  { case_bool_decide; [apply preserves_ret|].
    apply preserves_bind; [by apply preserves_emit | intros _].
    apply preserves_modify. auto. }
  case_bool_decide; [apply preserves_ret|].
  destruct (check_inregex_list regex_list service_and_types.1
              (valid_ros2_services st0)) as [[found known_set] evaluated].
  apply preserves_bind; [by apply preserves_emit | intros _].
  apply preserves_bind; [apply preserves_modify; auto | intros _].
  destruct found; cbn [negb].
  - case_bool_decide; [by apply preserves_emit|].
    apply preserves_bind; apply preserves_modify || intros _.
    + intros st HI. by apply Hactive.
    + apply preserves_modify. intros st HI. by apply Hactive.
  - apply preserves_bind; [by apply preserves_emit | intros _].
    apply preserves_modify. auto.
Qed.

(** The visit that calls the matcher for a failing name puts the name into
    the already-ignored set. *)
Lemma whitelist_ros1_topic_marks n regex_list topic_name activate :
  ¬ whitelisted regex_list n →
  marks (λ st, n ∉ valid_ros1_topics st)
    (λ st, n ∈ already_ignored_ros1_topics st) (offered_topic n) activate →
  marks (λ st, n ∉ valid_ros1_topics st)
    (λ st, n ∈ already_ignored_ros1_topics st) (offered_topic n)
    (whitelist_ros1_topic regex_list topic_name activate).
Proof.
  intros Hw Hact st HI. unfold whitelist_ros1_topic. run.
  case_bool_decide as Hskip; [by split_and!|].
  destruct (check_inregex_list_fails regex_list n topic_name (valid_ros1_topics st)
              Hw HI) as [Hcache Hfail].
  destruct (check_inregex_list regex_list topic_name (valid_ros1_topics st))
    as [[found known_set] evaluated]. cbn [fst snd] in Hcache, Hfail.
  run. cbn [prepend final emitted].
  destruct found.
  - assert (topic_name ≠ n) as Hne by (intros ->; by specialize (Hfail eq_refl)).
    destruct (Hact (with_valid_ros1_topics known_set st)) as (H1 & H2 & H3); [done|].
    split; [done|]. split; [done|].
    simpl. by rewrite bool_decide_eq_false_2.
  - run. finish_run. split; [done|]. split.
    + intros HQ. simpl. by apply elem_of_add.
    + simpl. case_bool_decide as Hn; [|done]. intros _. subst topic_name.
      apply elem_of_union. left. by apply elem_of_singleton.
Qed.

Lemma check_service_marks n network regex_list entry :
  ¬ whitelisted regex_list n →
  marks (λ st, n ∉ valid_ros1_services st)
    (λ st, n ∈ already_ignored_ros1_services st) (offered_service n)
    (check_service network regex_list entry).
Proof.
  intros Hw st HI. unfold check_service. run.
  case_bool_decide as Hskip; [by split_and!|].
  destruct (check_inregex_list_fails regex_list n entry.1 (valid_ros1_services st)
              Hw HI) as [Hcache Hfail].
  destruct (check_inregex_list regex_list entry.1 (valid_ros1_services st))
    as [[found known_set] evaluated]. cbn [fst snd] in Hcache, Hfail.
  run. cbn [prepend final emitted].
  destruct found.
  - assert (entry.1 ≠ n) as Hne by (intros Heq; by specialize (Hfail Heq)).
    destruct (marks_quiet (λ st, n ∉ valid_ros1_services st)
                (λ st, n ∈ already_ignored_ros1_services st) (offered_service n)
                (zoom active_ros1_services with_active_ros1_services
                   (get_ros1_service_info (network entry.1) entry.1)))
      with (st := with_valid_ros1_services known_set st) as (H1 & H2 & H3).
    + apply preserves_zoom; [done|]. by apply get_ros1_service_info_emits.
    + apply preserves_zoom; [done | apply get_ros1_service_info_emits; done].
    + done.
    + split; [done|]. split; [done|].
      simpl. by rewrite bool_decide_eq_false_2.
  - run. finish_run. split; [done|]. split.
    + intros HQ. simpl. by apply elem_of_add.
    + simpl. case_bool_decide as Hn; [|done]. intros _. rewrite Hn.
      apply elem_of_union. left. by apply elem_of_singleton.
Qed.

Lemma check_ros2_topic_marks n regex_list count_publishers count_subscribers
    bridged_1to2 bridged_2to1 topic_and_types :
  ¬ whitelisted regex_list n →
  marks (λ st, n ∉ valid_ros2_topics st)
    (λ st, n ∈ already_ignored_topics st) (offered_topic n)
    (check_ros2_topic regex_list count_publishers count_subscribers
       bridged_1to2 bridged_2to1 topic_and_types).
Proof.
  intros Hw st HI. unfold check_ros2_topic.
  destruct topic_and_types as [topic_name types]. cbn [fst snd].
  case_bool_decide; [by split_and!|].
  destruct types as [|topic_type types]; cbn [element_0]; run; [by split_and!|].
  case_bool_decide.
  { case_bool_decide; [by split_and!|]. run. finish_run.
    split; [done|]. split; [|done]. intros HQ. simpl. by apply elem_of_add. }
  case_bool_decide as Hskip; [by split_and!|].
  destruct (check_inregex_list_fails regex_list n topic_name (valid_ros2_topics st)
              Hw HI) as [Hcache Hfail].
  destruct (check_inregex_list regex_list topic_name (valid_ros2_topics st))
    as [[found known_set] evaluated]. cbn [fst snd] in Hcache, Hfail.
  run. cbn [prepend final emitted].
  destruct found; cbn [negb].
  - assert (topic_name ≠ n) as Hne by (intros ->; by specialize (Hfail eq_refl)).
    repeat case_bool_decide; run; finish_run.
    all: split; [done|]; split; [done|].
    all: simpl; by rewrite bool_decide_eq_false_2.
  - run. finish_run. split; [done|]. split.
    + intros HQ. simpl. by apply elem_of_add.
    + simpl. case_bool_decide as Hn; [|done]. intros _. subst topic_name.
      apply elem_of_union. left. by apply elem_of_singleton.
Qed.

Lemma check_ros2_service_marks n regex_list service_and_types :
  ¬ whitelisted regex_list n →
  marks (λ st, n ∉ valid_ros2_services st)
    (λ st, n ∈ already_ignored_services st) (offered_service n)
    (check_ros2_service regex_list service_and_types).
Proof.
  intros Hw st HI. unfold check_ros2_service.
  destruct service_and_types as [service_name types]. cbn [fst snd].
  destruct types as [|service_type types]; cbn [element_0]; run; [by split_and!|].
  case_bool_decide.
  { case_bool_decide; [by split_and!|]. run. finish_run.
    split; [done|]. split; [|done]. intros HQ. simpl. by apply elem_of_add. }
  case_bool_decide as Hskip; [by split_and!|].
  destruct (check_inregex_list_fails regex_list n service_name
              (valid_ros2_services st) Hw HI) as [Hcache Hfail].
  destruct (check_inregex_list regex_list service_name (valid_ros2_services st))
    as [[found known_set] evaluated]. cbn [fst snd] in Hcache, Hfail.
  run. cbn [prepend final emitted].
  destruct found; cbn [negb].
  - assert (service_name ≠ n) as Hne by (intros ->; by specialize (Hfail eq_refl)).
    case_bool_decide; run; finish_run.
    all: split; [done|]; split; [done|].
    all: simpl; by rewrite bool_decide_eq_false_2.
  - run. finish_run. split; [done|]. split.
    + intros HQ. simpl. by apply elem_of_add.
    + simpl. case_bool_decide as Hn; [|done]. intros _. subst service_name.
      apply elem_of_union. left. by apply elem_of_singleton.
Qed.

(** A whole poll. *)
Lemma collect_ros1_names_marks_topic n this_node topic_regex_list srv_regex_list
    payload network :
  ¬ whitelisted topic_regex_list n →
  marks (λ st, n ∉ valid_ros1_topics st)
    (λ st, n ∈ already_ignored_ros1_topics st) (offered_topic n)
    (collect_ros1_names this_node topic_regex_list srv_regex_list payload network).
Proof.
  intros Hw. unfold collect_ros1_names.
  apply marks_bind; [by apply marks_modify | intros _].
  apply marks_bind; [by apply marks_modify | intros _].
  apply marks_bind.
  { apply marks_for_each. intros entry _. unfold check_publisher.
    apply first_other_node_marks, whitelist_ros1_topic_marks; [done|].
    by apply marks_modify. }
  intros _. apply marks_bind.
  { apply marks_for_each. intros entry _. unfold check_subscriber.
    apply first_other_node_marks, whitelist_ros1_topic_marks; [done|].
    by apply marks_modify. }
  intros _. apply marks_bind; [by apply marks_modify | intros _].
  apply marks_for_each. intros entry _.
  apply marks_quiet; by apply check_service_touches.
Qed.

Lemma collect_ros1_names_marks_service n this_node topic_regex_list srv_regex_list
    payload network :
  ¬ whitelisted srv_regex_list n →
  marks (λ st, n ∉ valid_ros1_services st)
    (λ st, n ∈ already_ignored_ros1_services st) (offered_service n)
    (collect_ros1_names this_node topic_regex_list srv_regex_list payload network).
Proof.
  intros Hw. unfold collect_ros1_names.
  assert (∀ topic_name (activate : Ros1Poll → Ros1Poll) nodes,
            (∀ st, valid_ros1_services (activate st) = valid_ros1_services st) →
            (∀ st, already_ignored_ros1_services (activate st)
                   = already_ignored_ros1_services st) →
            marks (λ st, n ∉ valid_ros1_services st)
              (λ st, n ∈ already_ignored_ros1_services st) (offered_service n)
              (first_other_node this_node
                 (whitelist_ros1_topic topic_regex_list topic_name
                    (modify activate)) nodes)) as Hvisit.
  { intros topic_name activate nodes Hv Hi.
    apply first_other_node_marks, marks_quiet.
    - apply whitelist_ros1_topic_touches; try done.
      apply preserves_modify. intros st. by rewrite Hv.
    - apply whitelist_ros1_topic_touches; try done.
      apply preserves_modify. intros st. by rewrite Hi. }
  apply marks_bind; [by apply marks_modify | intros _].
  apply marks_bind; [by apply marks_modify | intros _].
  apply marks_bind.
  { apply marks_for_each. intros entry _. by apply Hvisit. }
  intros _. apply marks_bind.
  { apply marks_for_each. intros entry _. by apply Hvisit. }
  intros _. apply marks_bind; [by apply marks_modify | intros _].
  apply marks_for_each. intros entry _. by apply check_service_marks.
Qed.

Lemma collect_ros2_names_marks_topic n topic_regex_list srv_regex_list
    ros2_topics ros2_services_and_types count_publishers count_subscribers
    bridged_1to2 bridged_2to1 :
  ¬ whitelisted topic_regex_list n →
  marks (λ st, n ∉ valid_ros2_topics st)
    (λ st, n ∈ already_ignored_topics st) (offered_topic n)
    (collect_ros2_names topic_regex_list srv_regex_list ros2_topics
       ros2_services_and_types count_publishers count_subscribers
       bridged_1to2 bridged_2to1).
Proof.
  intros Hw. unfold collect_ros2_names.
  apply marks_bind; [by apply marks_modify | intros _].
  apply marks_bind; [by apply marks_modify | intros _].
  apply marks_bind.
  { apply marks_for_each. intros entry _. by apply check_ros2_topic_marks. }
  intros _. apply marks_bind; [by apply marks_modify | intros _].
  apply marks_for_each. intros entry _.
  apply marks_quiet; by apply check_ros2_service_touches.
Qed.

Lemma collect_ros2_names_marks_service n topic_regex_list srv_regex_list
    ros2_topics ros2_services_and_types count_publishers count_subscribers
    bridged_1to2 bridged_2to1 :
  ¬ whitelisted srv_regex_list n →
  marks (λ st, n ∉ valid_ros2_services st)
    (λ st, n ∈ already_ignored_services st) (offered_service n)
    (collect_ros2_names topic_regex_list srv_regex_list ros2_topics
       ros2_services_and_types count_publishers count_subscribers
       bridged_1to2 bridged_2to1).
Proof.
  intros Hw. unfold collect_ros2_names.
  apply marks_bind; [by apply marks_modify | intros _].
  apply marks_bind; [by apply marks_modify | intros _].
  apply marks_bind.
  { apply marks_for_each. intros entry _.
    apply marks_quiet; by apply check_ros2_topic_touches. }
  intros _. apply marks_bind; [by apply marks_modify | intros _].
  apply marks_for_each. intros entry _. by apply check_ros2_service_marks.
Qed.
End PollerFacts.

Section IgnoredNames.
Context {RE : RegexEngine}.

(** X3.  A name that is offered to the matcher and fails is put into the
    already-ignored set. *)
Lemma failed_topic_is_put_aside regex_list topic_name activate st :
  topic_name ∉ already_ignored_ros1_topics st →
  (check_inregex_list regex_list topic_name (valid_ros1_topics st)).1.1 = false →
  topic_name
  ∈ already_ignored_ros1_topics
      (final (whitelist_ros1_topic regex_list topic_name activate st)).
Proof.
  intros Hnew Hfail. unfold whitelist_ros1_topic. run.
  rewrite bool_decide_eq_false_2 by done.
  destruct (check_inregex_list regex_list topic_name (valid_ros1_topics st))
    as [[found known_set] evaluated]. simpl in Hfail. subst found.
  run. finish_run. simpl. apply elem_of_union. left. by apply elem_of_singleton.
Qed.

(** C8, as the code has it.  A name fails the whitelist match when the
    matcher is called for it, it is not in the poller's set of valid names,
    and no pattern of the list matches it.  In each poller, a topic name
    that fails the match is in the already-ignored topic set when the poll
    ends, and a service name that fails it is in the already-ignored
    service set, however the poll ends.  A topic name in the already-ignored
    topic set of a poller, and a service name in its already-ignored
    service set, is skipped by every later poll of that poller before the
    whitelist matcher is called: [check_inregex_list] is not called for it,
    it stays in the set, and it is not among the active names of the poll,
    whatever the pattern lists are by then.  ([ros2_poll] comes to its
    services when every topic is reported with a type.) *)
Theorem ignored_names_are_never_reoffered topic service
    this_node topic_regex_list srv_regex_list payload network (st1 : Ros1Poll)
    ros2_topics ros2_services_and_types count_publishers count_subscribers
    bridged_1to2 bridged_2to1 (st2 : Ros2Poll) :
  let r1 := collect_ros1_names this_node topic_regex_list srv_regex_list
              payload network st1 in
  let r2 := collect_ros2_names topic_regex_list srv_regex_list ros2_topics
              ros2_services_and_types count_publishers count_subscribers
              bridged_1to2 bridged_2to1 st2 in
  ((¬ whitelisted topic_regex_list topic → topic ∉ valid_ros1_topics st1 →
    List.filter (offered_topic topic) (emitted r1) ≠ [] →
    topic ∈ already_ignored_ros1_topics (final r1))
   ∧ (¬ whitelisted srv_regex_list service → service ∉ valid_ros1_services st1 →
      List.filter (offered_service service) (emitted r1) ≠ [] →
      service ∈ already_ignored_ros1_services (final r1))
   ∧ (¬ whitelisted topic_regex_list topic → topic ∉ valid_ros2_topics st2 →
      List.filter (offered_topic topic) (emitted r2) ≠ [] →
      topic ∈ already_ignored_topics (final r2))
   ∧ (¬ whitelisted srv_regex_list service → service ∉ valid_ros2_services st2 →
      List.filter (offered_service service) (emitted r2) ≠ [] →
      service ∈ already_ignored_services (final r2)))
  ∧ ((topic ∈ already_ignored_ros1_topics st1 →
      List.filter (offered_topic topic) (emitted r1) = []
      ∧ put_aside_ros1 topic (final r1))
     ∧ (service ∈ already_ignored_ros1_services st1 →
        List.filter (offered_service service) (emitted r1) = []
        ∧ service_put_aside_ros1 service (final r1))
     ∧ (topic ∈ already_ignored_topics st2 →
        List.filter (offered_topic topic) (emitted r2) = []
        ∧ put_aside_ros2 topic (final r2))
     ∧ (service ∈ already_ignored_services st2 →
        List.filter (offered_service service) (emitted r2) = []
        ∧ service ∈ already_ignored_services (final r2)
        ∧ (reported_with_a_type ros2_topics →
           active_ros2_services (final r2) !! service = None))).
Proof.
  intros r1 r2. subst r1 r2. split; split_and!.
  - intros Hw Hnew. by apply collect_ros1_names_marks_topic.
  - intros Hw Hnew. by apply collect_ros1_names_marks_service.
  - intros Hw Hnew. by apply collect_ros2_names_marks_topic.
  - intros Hw Hnew. by apply collect_ros2_names_marks_service.
  - intros Hin.
    destruct (collect_ros1_names_put_aside topic this_node topic_regex_list
                srv_regex_list payload network st1 Hin) as [Hside Hquiet].
    split; [by apply filter_none | done].
  - intros Hin.
    destruct (collect_ros1_names_put_aside_service service this_node
                topic_regex_list srv_regex_list payload network st1 Hin)
      as [Hside Hquiet].
    split; [by apply filter_none | done].
  - intros Hin.
    destruct (collect_ros2_names_put_aside topic topic_regex_list srv_regex_list
                ros2_topics ros2_services_and_types count_publishers
                count_subscribers bridged_1to2 bridged_2to1 st2 Hin)
      as [Hside Hquiet].
    split; [by apply filter_none | done].
  - intros Hin.
    destruct (collect_ros2_names_keeps_ignored_service service topic_regex_list
                srv_regex_list ros2_topics ros2_services_and_types
                count_publishers count_subscribers bridged_1to2 bridged_2to1
                st2 Hin) as [Hkept Hquiet].
    split; [by apply filter_none|]. split; [done|].
    intros Htyped.
    by apply (collect_ros2_names_put_aside_service service topic_regex_list
                srv_regex_list ros2_topics ros2_services_and_types
                count_publishers count_subscribers bridged_1to2 bridged_2to1
                st2 Htyped Hin).
Qed.
End IgnoredNames.

(** C8 as the claim states it fails: ["/chatter"] and ["/spawn"] failed the
    match in the first poll of each domain; in the next poll they are listed
    again, and the whitelists now hold patterns that match them, yet the
    matcher is not called and the names are not active. *)
Lemma failed_names_are_reoffered_counterexample :
  emitted (collect_ros1_names (RE:=literal_patterns) "/ros12_bridge_default"
             ["/odom"] ["/reset"] chatter_payload (λ _, no_server)
             fresh_ros1_poll)
  = [check_inregex_list_call topic_rgxp_list_param "/chatter" 1;
     log INFO "ignoring topic '%s',as it does not match any regex \n" ["/chatter"];
     check_inregex_list_call srv_rgxp_list_param "/spawn" 1;
     log INFO "ignoring service '%s',as it does not match any regex \n" ["/spawn"]]
  ∧ check_inregex_list (RE:=literal_patterns) ["/chatter"] "/chatter" ∅
    = (true, {["/chatter"]}, 1)
  ∧ check_inregex_list (RE:=literal_patterns) ["/spawn"] "/spawn" ∅
    = (true, {["/spawn"]}, 1)
  ∧ emitted (collect_ros1_names (RE:=literal_patterns) "/ros12_bridge_default"
               ["/chatter"] ["/spawn"] chatter_payload (λ _, no_server)
               ros1_after_first_poll)
    = []
  ∧ active_publishers
      (final (collect_ros1_names (RE:=literal_patterns) "/ros12_bridge_default"
                ["/chatter"] ["/spawn"] chatter_payload (λ _, no_server)
                ros1_after_first_poll))
    = ∅
  ∧ emitted (collect_ros2_names (RE:=literal_patterns) ["/chatter"] ["/spawn"]
               chatter_ros2_topics spawn_ros2_services (λ _, 1) (λ _, 0)
               (λ _, false) (λ _, false) ros2_after_first_poll)
    = []
  ∧ current_ros2_publishers
      (final (collect_ros2_names (RE:=literal_patterns) ["/chatter"] ["/spawn"]
                chatter_ros2_topics spawn_ros2_services (λ _, 1) (λ _, 0)
                (λ _, false) (λ _, false) ros2_after_first_poll))
    = ∅
  ∧ active_ros2_services
      (final (collect_ros2_names (RE:=literal_patterns) ["/chatter"] ["/spawn"]
                chatter_ros2_topics spawn_ros2_services (λ _, 1) (λ _, 0)
                (λ _, false) (λ _, false) ros2_after_first_poll))
    = ∅.
Proof. split_and!; vm_compute; reflexivity. Qed.

(** Had the names not been put aside, the same poll would have made them
    active. *)
Example fresh_names_become_active :
  active_publishers
    (final (collect_ros1_names (RE:=literal_patterns) "/ros12_bridge_default"
              ["/chatter"] ["/spawn"] chatter_payload (λ _, no_server)
              fresh_ros1_poll))
  = {["/chatter"]}
  ∧ current_ros2_publishers
      (final (collect_ros2_names (RE:=literal_patterns) ["/chatter"] ["/spawn"]
                chatter_ros2_topics spawn_ros2_services (λ _, 1) (λ _, 0)
                (λ _, false) (λ _, false) fresh_ros2_poll))
    = {["/chatter" := "std_msgs/msg/String"]}.
Proof. split; vm_compute; reflexivity. Qed.

Lemma ignored_names_are_never_reoffered_witness :
  "/chatter" ∈ already_ignored_ros1_topics ros1_after_first_poll
  ∧ List.filter (offered_topic "/chatter")
      (emitted (collect_ros1_names (RE:=literal_patterns) "/ros12_bridge_default"
                  ["/chatter"] ["/spawn"] chatter_payload (λ _, no_server)
                  ros1_after_first_poll)) = []
  ∧ "/spawn" ∈ already_ignored_services ros2_after_first_poll
  ∧ active_ros2_services
      (final (collect_ros2_names (RE:=literal_patterns) ["/chatter"] ["/spawn"]
                chatter_ros2_topics spawn_ros2_services (λ _, 1) (λ _, 0)
                (λ _, false) (λ _, false) ros2_after_first_poll))
    !! "/spawn" = None.
Proof.
  assert (¬ whitelisted (RE:=literal_patterns) ["/odom"] "/chatter") as Hfails.
  { intros (rgxp & Hin & Hmatch). apply list_elem_of_singleton in Hin.
    subst rgxp. vm_compute in Hmatch. discriminate. }
  assert (¬ whitelisted (RE:=literal_patterns) ["/reset"] "/spawn") as Hfails'.
  { intros (rgxp & Hin & Hmatch). apply list_elem_of_singleton in Hin.
    subst rgxp. vm_compute in Hmatch. discriminate. }
  assert ("/chatter" ∈ already_ignored_ros1_topics ros1_after_first_poll) as Ht1.
  { apply (proj1 (proj1 (ignored_names_are_never_reoffered (RE:=literal_patterns)
                           "/chatter" "/spawn" "/ros12_bridge_default"
                           ["/odom"] ["/reset"] chatter_payload (λ _, no_server)
                           fresh_ros1_poll chatter_ros2_topics
                           spawn_ros2_services (λ _, 1) (λ _, 0) (λ _, false)
                           (λ _, false) fresh_ros2_poll)));
      [exact Hfails | apply not_elem_of_empty | vm_compute; discriminate]. }
  assert ("/spawn" ∈ already_ignored_services ros2_after_first_poll) as Hs2.
  { apply (proj2 (proj2 (proj2 (proj1
             (ignored_names_are_never_reoffered (RE:=literal_patterns)
                "/chatter" "/spawn" "/ros12_bridge_default"
                ["/odom"] ["/reset"] chatter_payload (λ _, no_server)
                fresh_ros1_poll chatter_ros2_topics
                spawn_ros2_services (λ _, 1) (λ _, 0) (λ _, false)
                (λ _, false) fresh_ros2_poll)))));
      [exact Hfails' | apply not_elem_of_empty | vm_compute; discriminate]. }
  assert (reported_with_a_type chatter_ros2_topics) as Htyped.
  { intros name types Hin. unfold chatter_ros2_topics in Hin.
    apply lookup_singleton_Some in Hin as [_ <-]. done. }
  pose proof (ignored_names_are_never_reoffered (RE:=literal_patterns)
                "/chatter" "/spawn" "/ros12_bridge_default"
                ["/chatter"] ["/spawn"] chatter_payload (λ _, no_server)
                ros1_after_first_poll chatter_ros2_topics
                spawn_ros2_services (λ _, 1) (λ _, 0) (λ _, false)
                (λ _, false) ros2_after_first_poll) as [_ (Hskip1 & _ & _ & Hskip4)].
  split; [exact Ht1|]. split; [exact (proj1 (Hskip1 Ht1))|].
  split; [exact Hs2|].
  exact (proj2 (proj2 (Hskip4 Hs2)) Htyped).
Defined.

(** ** The ROS 1 service type probe *)

(** X2.  A probe that fails before the header is parsed leaves the snapshot
    as it found it. *)
Lemma probe_fails_early server name ros1_services :
  lookupService server = None
  ∨ connect server = false
  ∨ (read_length server).1 ≠ 4%Z
  ∨ (read_response server < 0)%Z
  ∨ (read_response server `mod` 2 ^ 32)%Z ≠ (read_length server).2 →
  ended (get_ros1_service_info server name ros1_services) = Normal tt
  ∧ final (get_ros1_service_info server name ros1_services) = ros1_services.
Proof.
  intros Hfail. unfold get_ros1_service_info. run. cbn [prepend ended final].
  destruct (lookupService server) as [[host port]|]; [|done].
  destruct (connect server); cbn [negb]; [|done].
  destruct (read_length server) as [read length]; cbn [fst snd] in Hfail.
  case_bool_decide; [done|].
  destruct (bool_decide (read_response server < 0)%Z
            || bool_decide (read_response server `mod` 2 ^ 32 ≠ length)%Z)
    eqn:Hbody; [done|].
  apply orb_false_iff in Hbody as [H1%bool_decide_eq_false H2%bool_decide_eq_false].
  destruct Hfail as [?|[?|[?|[?|?]]]]; done.
Qed.

(** X22.  A header without a ["type"] field: the probe logs, erases the
    entry it made before the parse, together with whatever the snapshot
    held for the service, and returns. *)
Lemma probe_without_type_field server name ros1_services host port length header_in :
  lookupService server = Some (host, port) →
  connect server = true →
  read_length server = (4%Z, length) →
  (0 ≤ read_response server)%Z →
  (read_response server `mod` 2 ^ 32)%Z = length →
  parse server = inr header_in →
  header_in !! "type" = None →
  ended (get_ros1_service_info server name ros1_services) = Normal tt
  ∧ final (get_ros1_service_info server name ros1_services)
    = delete name ros1_services.
Proof.
  intros Hl Hc Hr H0 Hlen Hp Ht. unfold get_ros1_service_info. run.
  rewrite Hl, Hc, Hr. cbn [negb].
  rewrite bool_decide_eq_false_2 by (by intros ?).
  rewrite (bool_decide_eq_false_2 (read_response server < 0)%Z) by lia.
  rewrite bool_decide_eq_false_2 by (by intros ?).
  cbn [orb]. run. rewrite Hp, Ht. run. finish_run.
  split; [done|]. apply delete_insert_eq.
Qed.

(** A header [ros::Header::parse] rejects: the function returns at line 483
    and the entry made at line 477 stays, with no field. *)
Lemma probe_parse_failure server name ros1_services host port length error :
  lookupService server = Some (host, port) →
  connect server = true →
  read_length server = (4%Z, length) →
  (0 ≤ read_response server)%Z →
  (read_response server `mod` 2 ^ 32)%Z = length →
  parse server = inl error →
  ended (get_ros1_service_info server name ros1_services) = Normal tt
  ∧ final (get_ros1_service_info server name ros1_services)
    = <[name := ∅]> ros1_services.
Proof.
  intros Hl Hc Hr H0 Hlen Hp. unfold get_ros1_service_info. run.
  rewrite Hl, Hc, Hr. cbn [negb].
  rewrite bool_decide_eq_false_2 by (by intros ?).
  rewrite (bool_decide_eq_false_2 (read_response server < 0)%Z) by lia.
  rewrite bool_decide_eq_false_2 by (by intros ?).
  cbn [orb]. run. rewrite Hp. by finish_run.
Qed.

(** A type string without ["/"]: [t.find("/")] is [npos], and the range
    [[t.begin(), t.begin() + npos)] is not a range of [t]. *)
Lemma split_type_without_separator key (t : string)
    (ros1_services : gmap string (gmap string string)) details :
  ros1_services !! key = Some details →
  details !! "type" = Some t →
  String.index 0 "/" t = None →
  (Z.of_nat (String.length t) < npos)%Z →
  split_type key ros1_services
  = Res (Stops (undefined "iterator past the end of the string")) ros1_services [].
Proof.
  intros Hk Ht Hsep Hlen.
  assert (string_of_range t 0 (find t "/") = None) as Hrange.
  { unfold string_of_range, find. rewrite Hsep.
    rewrite bool_decide_eq_false_2; [done|]. lia. }
  unfold split_type. run. rewrite Hk. simpl. rewrite Ht. simpl.
  by rewrite Hrange.
Qed.

(** C9 does not hold of the code for a header that does not parse.  The
    server of ["/reset"] answers with bytes [ros::Header::parse] rejects.
    The probe leaves an entry without fields in the snapshot; the poll
    publishes it; [update_bridge] then asks the entry for its ["package"]
    and [std::map::at] throws [std::out_of_range], which no handler of the
    file catches. *)
Theorem parse_failure_leaves_an_entry :
  final (get_ros1_service_info garbled_server "/reset" ∅) = {["/reset" := ∅]}
  ∧ ros1_services
      (inventory
         (final (ros1_poll (C:=scripted false) 1 reset_options (Some reset_payload)
                   (λ _, garbled_server) (Some [])
                   (start (C:=scripted false) (0 : @World (scripted false))))))
    = {["/reset" := ∅]}
  ∧ ended (ros1_poll (C:=scripted false) 1 reset_options (Some reset_payload)
             (λ _, garbled_server) (Some [])
                   (start (C:=scripted false) (0 : @World (scripted false))))
    = Stops (exception "std::out_of_range" "map::at").
Proof. split_and!; vm_compute; reflexivity. Qed.

(** C10 does not hold of the code.  The header of ["/reset"] gives the type
    ["Empty"].  The probe does not return through a failure path: it runs
    into the split of the type string, whose iterator arithmetic is outside
    the string, and the entry is still in the snapshot with its ["type"].
    The code of [ros2_poll] for the same situation tests for [npos], logs
    and records nothing. *)
Theorem missing_separator_is_not_detected :
  get_ros1_service_info bare_type_server "/reset" ∅
  = Res (Stops (undefined "iterator past the end of the string"))
        {["/reset" := {["type" := "Empty"]}]}
        [lookupService_call "/reset"]
  ∧ emitted (check_ros2_service (RE:=literal_patterns) ["/reset"]
               ("/reset", ["Empty"]) fresh_ros2_poll)
    = [check_inregex_list_call srv_rgxp_list_param "/reset" 1;
       log ERROR "invalid service type '%s', skipping...\n" ["Empty"]]
  ∧ active_ros2_services
      (final (check_ros2_service (RE:=literal_patterns) ["/reset"]
                ("/reset", ["Empty"]) fresh_ros2_poll))
    = ∅.
Proof. split_and!; vm_compute; reflexivity. Qed.

(** With a type that has its separator the probe records the package and
    the name. *)
Example probe_splits_type :
  final (get_ros1_service_info
           {| lookupService := Some ("localhost", "40123"); connect := true;
              read_length := (4, 16)%Z; read_response := 16%Z;
              parse := inr {["type" := "std_srvs/Empty"]} |}
           "/reset" ∅)
  = {["/reset" := {["type" := "std_srvs/Empty"; "package" := "std_srvs";
                    "name" := "Empty"]}]}.
Proof. vm_compute. reflexivity. Qed.

Lemma probe_fails_early_witness :
  lookupService no_server = None
  ∧ final (get_ros1_service_info no_server "/reset" ∅) = ∅.
Proof.
  split; [reflexivity|].
  refine (proj2 (probe_fails_early no_server "/reset" ∅ _)). by left.
Defined.

Lemma failed_topic_is_put_aside_witness :
  ("/chatter" ∉ already_ignored_ros1_topics fresh_ros1_poll)
  ∧ "/chatter"
    ∈ already_ignored_ros1_topics
        (final (whitelist_ros1_topic (RE:=literal_patterns) ["/odom"] "/chatter"
                  (mret tt) fresh_ros1_poll)).
Proof.
  assert ("/chatter" ∉ already_ignored_ros1_topics fresh_ros1_poll) as Hnew
    by apply not_elem_of_empty.
  split; [exact Hnew|].
  exact (failed_topic_is_put_aside (RE:=literal_patterns) ["/odom"] "/chatter"
           (mret tt) fresh_ros1_poll Hnew eq_refl).
Defined.

(** ** Only whitelisted names reach the bridge *)

Lemma keys_satisfy_empty {V} (W : string → Prop) :
  keys_satisfy W (∅ : gmap string V).
Proof. intros n [x Hx]. by rewrite lookup_empty in Hx. Qed.

Lemma keys_satisfy_insert {V} (W : string → Prop) (m : gmap string V) k v :
  W k → keys_satisfy W m → keys_satisfy W (<[k := v]> m).
Proof.
  intros Hk Hm n Hn. destruct (decide (n = k)) as [->|Hne]; [done|].
  apply Hm. by rewrite lookup_insert_ne in Hn.
Qed.

Lemma keys_satisfy_delete {V} (W : string → Prop) (m : gmap string V) k :
  keys_satisfy W m → keys_satisfy W (delete k m).
Proof.
  intros Hm n [x Hx]. apply lookup_delete_Some in Hx as [_ Hx].
  apply Hm. by exists x.
Qed.

Lemma keys_satisfy_outside {V} (W : string → Prop) (m m' : gmap string V) k :
  W k → keys_satisfy W m → (∀ n, n ≠ k → m' !! n = m !! n) → keys_satisfy W m'.
Proof.
  intros Hk Hm Hsame n Hn. destruct (decide (n = k)) as [->|Hne]; [done|].
  apply Hm. by rewrite <- Hsame.
Qed.

Section WhitelistFacts.
Context {RE : RegexEngine}.

Lemma keys_whitelisted_empty {V} regex_list :
  keys_whitelisted regex_list (∅ : gmap string V).
Proof. apply keys_satisfy_empty. Qed.

Lemma all_whitelisted_empty regex_list : all_whitelisted regex_list ∅.
Proof. intros n Hn. by apply not_elem_of_empty in Hn. Qed.

Lemma keys_whitelisted_insert {V} regex_list (m : gmap string V) k v :
  whitelisted regex_list k → keys_whitelisted regex_list m →
  keys_whitelisted regex_list (<[k := v]> m).
Proof. apply keys_satisfy_insert. Qed.

Lemma keys_whitelisted_delete {V} regex_list (m : gmap string V) k :
  keys_whitelisted regex_list m → keys_whitelisted regex_list (delete k m).
Proof. apply keys_satisfy_delete. Qed.

Lemma all_whitelisted_add regex_list (X : gset string) k :
  whitelisted regex_list k → all_whitelisted regex_list X →
  all_whitelisted regex_list ({[k]} ∪ X).
Proof.
  intros Hk HX n [->%elem_of_singleton|Hn]%elem_of_union; [done | by apply HX].
Qed.

(** The cache of the matcher holds only names that matched. *)
Lemma check_inregex_list_sound regex_list name known_set :
  all_whitelisted regex_list known_set →
  all_whitelisted regex_list (check_inregex_list regex_list name known_set).1.2
  ∧ ((check_inregex_list regex_list name known_set).1.1 = true →
     whitelisted regex_list name).
Proof.
  intros Hknown. unfold check_inregex_list.
  case_bool_decide as Hin; [by split; [|intros _; apply Hknown]|].
  pose proof (match_in_order_found regex_list name 0) as Hfound.
  destruct (match_in_order regex_list name 0) as [[] evaluated]; simpl in *.
  - assert (whitelisted regex_list name) as Hw by by apply Hfound.
    split; [by apply all_whitelisted_add | done].
  - by split.
Qed.

Lemma whitelist_ros1_topic_whitelisted topic_regex_list srv_regex_list
    topic_name activate :
  (whitelisted topic_regex_list topic_name →
   preserves (ros1_poll_whitelisted topic_regex_list srv_regex_list)
     (λ _, True) activate) →
  preserves (ros1_poll_whitelisted topic_regex_list srv_regex_list) (λ _, True)
    (whitelist_ros1_topic topic_regex_list topic_name activate).
Proof.
  intros Hact st HI. split; [|by apply Forall_forall].
  unfold whitelist_ros1_topic. run. case_bool_decide; [done|].
  destruct (check_inregex_list_sound topic_regex_list topic_name
              (valid_ros1_topics st)) as [Hsound Hfound]; [apply HI|].
  destruct (check_inregex_list topic_regex_list topic_name (valid_ros1_topics st))
    as [[found known_set] evaluated]. cbn [fst snd] in *.
  run. cbn [prepend final].
  assert (ros1_poll_whitelisted topic_regex_list srv_regex_list
            (with_valid_ros1_topics known_set st)) as HI1.
  { destruct HI as (? & ? & ? & ? & ?). by split_and!. }
  destruct found.
  - by apply Hact; [apply Hfound|].
  - run. finish_run. destruct HI1 as (? & ? & ? & ? & ?). by split_and!.
Qed.

Lemma check_publisher_whitelisted this_node topic_regex_list srv_regex_list entry :
  preserves (ros1_poll_whitelisted topic_regex_list srv_regex_list) (λ _, True)
    (check_publisher this_node topic_regex_list entry).
Proof.
  unfold check_publisher.
  apply first_other_node_preserves, whitelist_ros1_topic_whitelisted.
  intros Hw. apply preserves_modify. intros st (? & ? & ? & ? & ?).
  split_and!; simpl; try done. by apply all_whitelisted_add.
Qed.

Lemma check_subscriber_whitelisted this_node topic_regex_list srv_regex_list entry :
  preserves (ros1_poll_whitelisted topic_regex_list srv_regex_list) (λ _, True)
    (check_subscriber this_node topic_regex_list entry).
Proof.
  unfold check_subscriber.
  apply first_other_node_preserves, whitelist_ros1_topic_whitelisted.
  intros Hw. apply preserves_modify. intros st (? & ? & ? & ? & ?).
  split_and!; simpl; try done. by apply all_whitelisted_add.
Qed.

(** The probe writes to the entry of the name it is given, to no other. *)
Lemma get_ros1_service_info_whitelisted regex_list server name :
  whitelisted regex_list name →
  preserves (keys_whitelisted regex_list) (λ _, True)
    (get_ros1_service_info server name).
Proof.
  intros Hw.
  assert (∀ field value (m : gmap string (gmap string string)),
            keys_whitelisted regex_list m →
            keys_whitelisted regex_list (assign_field name field value m))
    as Hassign.
  { intros field value m Hm. by apply keys_whitelisted_insert. }
  unfold get_ros1_service_info.
  apply preserves_bind; [by apply preserves_emit | intros _].
  destruct (lookupService server) as [[host port]|]; [|by apply preserves_emit].
  destruct (connect server); cbn [negb]; [|by apply preserves_emit].
  destruct (read_length server) as [read length].
  case_bool_decide; [by apply preserves_emit|].
  destruct (_ || _); [by apply preserves_emit|].
  apply preserves_bind.
  { apply preserves_modify. intros m Hm. by apply keys_whitelisted_insert. }
  intros _.
  destruct (parse server) as [error|header_in]; [by apply preserves_emit|].
  destruct (header_in !! "type") as [value|].
  - apply preserves_bind; [apply preserves_modify, Hassign | intros _].
    unfold split_type.
    apply preserves_bind; [apply preserves_get | intros ros1_services].
    case_match; [|apply preserves_halt].
    apply preserves_bind; [apply preserves_modify, Hassign | intros _].
    case_match; [apply preserves_modify, Hassign | apply preserves_halt].
  - apply preserves_bind; [by apply preserves_emit | intros _].
    apply preserves_modify. intros m Hm. by apply keys_whitelisted_delete.
Qed.

Lemma check_service_whitelisted network topic_regex_list srv_regex_list entry :
  preserves (ros1_poll_whitelisted topic_regex_list srv_regex_list) (λ _, True)
    (check_service network srv_regex_list entry).
Proof.
  intros st HI. split; [|by apply Forall_forall].
  unfold check_service. run. case_bool_decide; [done|].
  destruct (check_inregex_list_sound srv_regex_list entry.1
              (valid_ros1_services st)) as [Hsound Hfound]; [apply HI|].
  destruct (check_inregex_list srv_regex_list entry.1 (valid_ros1_services st))
    as [[found known_set] evaluated]. cbn [fst snd] in *.
  run. cbn [prepend final].
  destruct HI as (Hv1 & Hv2 & Ha1 & Ha2 & Ha3).
  destruct found.
  - unfold zoom.
    destruct (get_ros1_service_info_whitelisted srv_regex_list
                (network entry.1) entry.1 (Hfound eq_refl)
                (active_ros1_services (with_valid_ros1_services known_set st)))
      as [HI _]; [done|].
    destruct (get_ros1_service_info _ _ _) as [o t ev]; simpl in *.
    by split_and!.
  - run. finish_run. by split_and!.
Qed.

Lemma collect_ros1_names_whitelisted this_node topic_regex_list srv_regex_list
    payload network :
  preserves (ros1_poll_whitelisted topic_regex_list srv_regex_list) (λ _, True)
    (collect_ros1_names this_node topic_regex_list srv_regex_list payload network).
Proof.
  unfold collect_ros1_names.
  apply preserves_bind.
  { apply preserves_modify. intros st (? & ? & ? & ? & ?).
    split_and!; simpl; try done; apply all_whitelisted_empty. }
  intros _. apply preserves_bind.
  { apply preserves_modify. intros st (? & ? & ? & ? & ?).
    split_and!; simpl; try done; apply all_whitelisted_empty. }
  intros _. apply preserves_bind.
  { apply preserves_for_each. intros entry _. apply check_publisher_whitelisted. }
  intros _. apply preserves_bind.
  { apply preserves_for_each. intros entry _. apply check_subscriber_whitelisted. }
  intros _. apply preserves_bind.
  { apply preserves_modify. intros st (? & ? & ? & ? & ?).
    split_and!; simpl; try done; apply keys_whitelisted_empty. }
  intros _. apply preserves_for_each. intros entry _.
  apply check_service_whitelisted.
Qed.

Lemma check_ros2_topic_whitelisted topic_regex_list srv_regex_list
    count_publishers count_subscribers bridged_1to2 bridged_2to1 topic_and_types :
  preserves (ros2_poll_whitelisted topic_regex_list srv_regex_list) (λ _, True)
    (check_ros2_topic topic_regex_list count_publishers count_subscribers
       bridged_1to2 bridged_2to1 topic_and_types).
Proof.
  intros st HI. split; [|by apply Forall_forall].
  unfold check_ros2_topic.
  destruct topic_and_types as [topic_name types]. cbn [fst snd].
  case_bool_decide; [done|].
  destruct types as [|topic_type types]; cbn [element_0]; run; [done|].
  case_bool_decide.
  { case_bool_decide; [done|]. run. finish_run.
    destruct HI as (? & ? & ? & ? & ?). by split_and!. }
  case_bool_decide; [done|].
  destruct (check_inregex_list_sound topic_regex_list topic_name
              (valid_ros2_topics st)) as [Hsound Hfound]; [apply HI|].
  destruct (check_inregex_list topic_regex_list topic_name (valid_ros2_topics st))
    as [[found known_set] evaluated]. cbn [fst snd] in *.
  run. cbn [prepend final].
  destruct HI as (Hv1 & Hv2 & Ha1 & Ha2 & Ha3).
  destruct found; cbn [negb].
  - specialize (Hfound eq_refl).
    repeat case_bool_decide; run; finish_run.
    all: split_and!; simpl; try done.
    all: by apply keys_whitelisted_insert.
  - run. finish_run. by split_and!.
Qed.

Lemma check_ros2_service_whitelisted topic_regex_list srv_regex_list
    service_and_types :
  preserves (ros2_poll_whitelisted topic_regex_list srv_regex_list) (λ _, True)
    (check_ros2_service srv_regex_list service_and_types).
Proof.
  intros st HI. split; [|by apply Forall_forall].
  unfold check_ros2_service.
  destruct service_and_types as [service_name types]. cbn [fst snd].
  destruct types as [|service_type types]; cbn [element_0]; run; [done|].
  case_bool_decide.
  { case_bool_decide; [done|]. run. finish_run.
    destruct HI as (? & ? & ? & ? & ?). by split_and!. }
  case_bool_decide; [done|].
  destruct (check_inregex_list_sound srv_regex_list service_name
              (valid_ros2_services st)) as [Hsound Hfound]; [apply HI|].
  destruct (check_inregex_list srv_regex_list service_name (valid_ros2_services st))
    as [[found known_set] evaluated]. cbn [fst snd] in *.
  run. cbn [prepend final].
  destruct HI as (Hv1 & Hv2 & Ha1 & Ha2 & Ha3).
  destruct found; cbn [negb].
  - specialize (Hfound eq_refl).
    case_bool_decide; [finish_run; by split_and!|].
    run. finish_run. split_and!; simpl; try done.
    unfold assign_field. simpl.
    apply keys_whitelisted_insert; [done|]. by apply keys_whitelisted_insert.
  - run. finish_run. by split_and!.
Qed.

Lemma collect_ros2_names_whitelisted topic_regex_list srv_regex_list
    ros2_topics ros2_services_and_types count_publishers count_subscribers
    bridged_1to2 bridged_2to1 :
  preserves (ros2_poll_whitelisted topic_regex_list srv_regex_list) (λ _, True)
    (collect_ros2_names topic_regex_list srv_regex_list ros2_topics
       ros2_services_and_types count_publishers count_subscribers
       bridged_1to2 bridged_2to1).
Proof.
  unfold collect_ros2_names.
  apply preserves_bind.
  { apply preserves_modify. intros st (? & ? & ? & ? & ?).
    split_and!; simpl; try done; apply keys_whitelisted_empty. }
  intros _. apply preserves_bind.
  { apply preserves_modify. intros st (? & ? & ? & ? & ?).
    split_and!; simpl; try done; apply keys_whitelisted_empty. }
  intros _. apply preserves_bind.
  { apply preserves_for_each. intros entry _. apply check_ros2_topic_whitelisted. }
  intros _. apply preserves_bind.
  { apply preserves_modify. intros st (? & ? & ? & ? & ?).
    split_and!; simpl; try done; apply keys_whitelisted_empty. }
  intros _. apply preserves_for_each. intros entry _.
  apply check_ros2_service_whitelisted.
Qed.

(** *** The snapshot of the ROS 1 topics *)

Lemma record_topic_types_keys publishers subscribers topics current n :
  let recorded := foldl (record_topic_types publishers subscribers) current topics in
  (is_Some (recorded.1 !! n) → is_Some (current.1 !! n) ∨ n ∈ publishers)
  ∧ (is_Some (recorded.2 !! n) → is_Some (current.2 !! n) ∨ n ∈ subscribers).
Proof.
  revert current. induction topics as [|[topic_name datatype] topics IH];
    intros current; simpl; [by split; left|].
  destruct (IH (record_topic_types publishers subscribers current
                  (topic_name, datatype))) as [IH1 IH2].
  unfold record_topic_types in IH1, IH2; cbn [fst snd] in IH1, IH2.
  split.
  - intros Hn. destruct (IH1 Hn) as [Hc|]; [|by right].
    case_bool_decide; [|by left].
    destruct (decide (n = topic_name)) as [->|Hne]; [by right|].
    left. by rewrite lookup_insert_ne in Hc.
  - intros Hn. destruct (IH2 Hn) as [Hc|]; [|by right].
    case_bool_decide; [|by left].
    destruct (decide (n = topic_name)) as [->|Hne]; [by right|].
    left. by rewrite lookup_insert_ne in Hc.
Qed.

(** What the loop of lines 694-701 leaves for each name. *)
Lemma add_untyped_subscriber_fold (m : gmap string string) (X : gset string) n :
  set_fold add_untyped_subscriber m X !! n =
  match m !! n with
  | Some datatype => Some datatype
  | None => if bool_decide (n ∈ X) then Some "" else None
  end.
Proof.
  revert n.
  refine (set_fold_ind_L
            (λ (r : gmap string string) (Y : gset string),
               ∀ n, r !! n = match m !! n with
                             | Some datatype => Some datatype
                             | None => if bool_decide (n ∈ Y) then Some "" else None
                             end)
            add_untyped_subscriber m _ _ X).
  - intros n. destruct (m !! n); [done|].
    rewrite bool_decide_eq_false_2; [done | apply not_elem_of_empty].
  - intros x Y r Hx IH n. unfold add_untyped_subscriber.
    destruct (decide (n = x)) as [->|Hne].
    + pose proof (IH x) as Hrx. rewrite (bool_decide_eq_false_2 _ Hx) in Hrx.
      rewrite (bool_decide_eq_true_2 (x ∈ {[x]} ∪ Y));
        [|apply elem_of_union; left; by apply elem_of_singleton].
      destruct (r !! x) as [datatype|] eqn:Hr.
      * rewrite Hr. by destruct (m !! x).
      * rewrite lookup_insert_eq. by destruct (m !! x).
    + assert (match r !! x with
              | None => <[x := ""]> r
              | Some _ => r
              end !! n = r !! n) as ->.
      { destruct (r !! x); [done | by rewrite lookup_insert_ne]. }
      rewrite IH. destruct (m !! n); [done|].
      destruct (decide (n ∈ Y)) as [Hin|Hnot].
      * rewrite !bool_decide_eq_true_2; [done | by apply elem_of_add | done].
      * rewrite !bool_decide_eq_false_2; [done | by apply not_elem_of_add | done].
Qed.

(** The keys of the two snapshots are active names. *)
Lemma current_ros1_topics_keys st topics n :
  (is_Some ((current_ros1_topics st topics).1 !! n) → n ∈ active_publishers st)
  ∧ (is_Some ((current_ros1_topics st topics).2 !! n) ↔ n ∈ active_subscribers st).
Proof.
  unfold current_ros1_topics. cbn [fst snd].
  destruct (record_topic_types_keys (active_publishers st) (active_subscribers st)
              topics (∅, ∅) n) as [H1 H2]. cbn [fst snd] in H1, H2.
  split.
  - intros Hn. destruct (H1 Hn) as [[x Hx]|]; [|done].
    by rewrite lookup_empty in Hx.
  - rewrite add_untyped_subscriber_fold.
    destruct ((foldl _ _ _).2 !! n) as [datatype|] eqn:Hl.
    + split; [intros _ | by eexists].
      destruct H2 as [[x Hx]|]; [by eexists | by rewrite lookup_empty in Hx | done].
    + case_bool_decide; split; try done;
        first [by eexists | by intros [? ?]].
Qed.
End WhitelistFacts.

Section WhitelistedRegistry.
Context {RE : RegexEngine} {C : Collaborators}.
Implicit Types (st : State) (inv : Inventory).

Lemma create_ros1_service_preserves_at (Inv : State → Prop) (P : event → Prop)
    service :
  ignores_world Inv → ignores_warned_once Inv →
  (∀ st bridge, Inv st →
     Inv (set_service_bridges_2_to_1
            (<[service.1 := bridge]> (service_bridges_2_to_1 st)) st)) →
  (∀ e, topic_event e = false → P e) →
  preserves Inv P (create_ros1_service service).
Proof.
  intros Hw Hwo Hs HP. unfold create_ros1_service.
  apply preserves_bind; [apply preserves_get | intros st0].
  destruct (service_bridges_2_to_1 st0 !! service.1); [apply preserves_ret|].
  destruct (service_bridges_1_to_2 st0 !! service.1); [apply preserves_ret|].
  apply preserves_bind; [apply preserves_at_key | intros package].
  apply preserves_bind; [apply preserves_at_key | intros type_name].
  apply preserves_bind; [by apply preserves_emit, HP | intros _].
  destruct (get_service_factory "ros1" package type_name) as [factory|].
  - apply preserves_bind; [by apply preserves_emit, HP | intros _].
    apply preserves_bind; [by apply preserves_call | intros [what|bridge]].
    + by apply preserves_emit, HP.
    + apply preserves_bind; [|intros _; by apply preserves_emit, HP].
      apply preserves_modify. intros st HI. by apply Hs.
  - apply preserves_log_warn_once; [done|]. intros s f a. by apply HP.
Qed.

Lemma create_ros2_service_preserves_at (Inv : State → Prop) (P : event → Prop)
    service :
  ignores_world Inv → ignores_warned_once Inv →
  (∀ st bridge, Inv st →
     Inv (set_service_bridges_1_to_2
            (<[service.1 := bridge]> (service_bridges_1_to_2 st)) st)) →
  (∀ e, topic_event e = false → P e) →
  preserves Inv P (create_ros2_service service).
Proof.
  intros Hw Hwo Hs HP. unfold create_ros2_service.
  apply preserves_bind; [apply preserves_get | intros st0].
  destruct (service_bridges_1_to_2 st0 !! service.1); [apply preserves_ret|].
  destruct (service_bridges_2_to_1 st0 !! service.1); [apply preserves_ret|].
  apply preserves_bind; [apply preserves_at_key | intros package].
  apply preserves_bind; [apply preserves_at_key | intros type_name].
  apply preserves_bind; [by apply preserves_emit, HP | intros _].
  destruct (get_service_factory "ros2" package type_name) as [factory|].
  - apply preserves_bind; [by apply preserves_emit, HP | intros _].
    apply preserves_bind; [by apply preserves_call | intros [what|bridge]].
    + by apply preserves_emit, HP.
    + apply preserves_bind; [|intros _; by apply preserves_emit, HP].
      apply preserves_modify. intros st HI. by apply Hs.
  - apply preserves_log_warn_once; [done|]. intros s f a. by apply HP.
Qed.

(** [update_bridge] keeps what its loops keep on the entries of the
    snapshots. *)
Lemma update_bridge_preserves_listed (Inv : State → Prop) (P : event → Prop)
    fuel inv b12 b21 :
  (∀ k t1, ros1_publishers inv !! k = Some t1 →
           preserves Inv P (update_1to2 inv b12 (k, t1))) →
  (∀ k t2, ros2_publishers inv !! k = Some t2 →
           preserves Inv P (update_2to1 inv b21 (k, t2))) →
  (∀ k details, ros1_services inv !! k = Some details →
                preserves Inv P (create_ros1_service (k, details))) →
  (∀ k details, ros2_services inv !! k = Some details →
                preserves Inv P (create_ros2_service (k, details))) →
  (∀ entry, preserves Inv P (remove_obsolete_2_to_1 inv entry)) →
  (∀ entry, preserves Inv P (remove_obsolete_1_to_2 fuel inv entry)) →
  preserves Inv P (update_bridge fuel inv b12 b21).
Proof.
  intros H1 H2 H3 H4 H5 H6. unfold update_bridge.
  apply preserves_bind; [by apply create_1to2_bridges_preserves | intros _].
  apply preserves_bind; [by apply create_2to1_bridges_preserves | intros _].
  unfold update_service_bridges.
  apply preserves_bind.
  { apply preserves_for_each. intros [k details] Hin.
    by apply H3, elem_of_in_key_order. }
  intros _. apply preserves_bind.
  { apply preserves_for_each. intros [k details] Hin.
    by apply H4, elem_of_in_key_order. }
  intros _. apply preserves_bind; [apply preserves_get | intros st5].
  apply preserves_bind; [by apply preserves_for_each | intros _].
  apply preserves_bind; [apply preserves_get | intros st6].
  by apply preserves_for_each.
Qed.

(** A pass adds entries only under names of its snapshots. *)
Lemma update_bridge_keys (W12 W21 Ws12 Ws21 : string → Prop) fuel inv b12 b21 :
  keys_satisfy W12 (ros1_publishers inv) → keys_satisfy W21 (ros2_publishers inv) →
  keys_satisfy Ws21 (ros1_services inv) → keys_satisfy Ws12 (ros2_services inv) →
  preserves (λ st, keys_satisfy W12 (bridges_1to2 st)
                   ∧ keys_satisfy W21 (bridges_2to1 st)
                   ∧ keys_satisfy Ws12 (service_bridges_1_to_2 st)
                   ∧ keys_satisfy Ws21 (service_bridges_2_to_1 st))
    (λ _, True) (update_bridge fuel inv b12 b21).
Proof.
  intros Hp1 Hp2 Hv1 Hv2.
  set (Inv := λ st, keys_satisfy W12 (bridges_1to2 st)
                    ∧ keys_satisfy W21 (bridges_2to1 st)
                    ∧ keys_satisfy Ws12 (service_bridges_1_to_2 st)
                    ∧ keys_satisfy Ws21 (service_bridges_2_to_1 st)).
  assert (ignores_world Inv) as Hw by (by intros st w).
  assert (ignores_warned_once Inv) as Hwo by (by intros st l).
  apply update_bridge_preserves_listed.
  - intros k t1 Hk. apply update_1to2_preserves; try done.
    intros st m (? & ? & ? & ?) Hsame. split_and!; simpl; try done.
    apply (keys_satisfy_outside _ (bridges_1to2 st) m k); [|done..].
    apply Hp1. by eexists.
  - intros k t2 Hk. apply update_2to1_preserves; try done.
    intros st m (? & ? & ? & ?) Hsame. split_and!; simpl; try done.
    apply (keys_satisfy_outside _ (bridges_2to1 st) m k); [|done..].
    apply Hp2. by eexists.
  - intros k details Hk. apply create_ros1_service_preserves_at; try done.
    intros st bridge (? & ? & ? & ?). split_and!; simpl; try done.
    apply keys_satisfy_insert; [|done]. apply Hv1. by eexists.
  - intros k details Hk. apply create_ros2_service_preserves_at; try done.
    intros st bridge (? & ? & ? & ?). split_and!; simpl; try done.
    apply keys_satisfy_insert; [|done]. apply Hv2. by eexists.
  - intros entry. apply remove_obsolete_2_to_1_preserves; [|done].
    intros st name (? & ? & ? & ?). split_and!; simpl; try done.
    by apply keys_satisfy_delete.
  - intros entry. apply remove_obsolete_1_to_2_preserves; [done| |done].
    intros st name (? & ? & ? & ?). split_and!; simpl; try done.
    by apply keys_satisfy_delete.
Qed.

Lemma update_bridge_whitelisted topic_regex_list srv_regex_list fuel inv b12 b21 :
  inventory_whitelisted topic_regex_list srv_regex_list inv →
  preserves (registry_whitelisted topic_regex_list srv_regex_list) (λ _, True)
    (update_bridge fuel inv b12 b21).
Proof.
  intros (Hp1 & Hs1 & Hp2 & Hs2 & Hv1 & Hv2). by apply update_bridge_keys.
Qed.

Lemma preserves_get_bind {S B} (Inv : S → Prop) (P : event → Prop)
    (k : S → M S B) :
  (∀ s, Inv s → Inv (final (k s s)) ∧ Forall P (emitted (k s s))) →
  preserves Inv P (get ≫= k).
Proof. intros Hk s HI. rewrite run_bind_get. by apply Hk. Qed.

Lemma reconcile_whitelisted fuel (opts : Options) :
  preserves (engine_whitelisted opts) (λ _, True)
    (e ← get;
     zoom registry with_registry
       (update_bridge fuel (inventory e)
          (bridge_all_1to2_topics opts) (bridge_all_2to1_topics opts))).
Proof.
  apply preserves_get_bind. intros e (H1 & H2 & Hinv & Hreg).
  unfold zoom.
  destruct (update_bridge_whitelisted _ _ fuel (inventory e)
              (bridge_all_1to2_topics opts) (bridge_all_2to1_topics opts)
              Hinv (registry e) Hreg) as [HI HP].
  destruct (update_bridge _ _ _ _ _) as [o t ev]; simpl in *.
  split; [by split_and! | done].
Qed.

Lemma ros1_poll_whitelisted_engine fuel (opts : Options) system_state network
    topics :
  preserves (engine_whitelisted opts) (λ _, True)
    (ros1_poll fuel opts system_state network topics).
Proof.
  unfold ros1_poll.
  destruct system_state as [payload|]; [|by apply preserves_emit].
  apply preserves_bind.
  { apply (preserves_zoom_part _
             (ros1_poll_whitelisted (topic_regex_list opts) (srv_regex_list opts))).
    - by intros e (? & ? & ? & ?).
    - intros e t (? & ? & ? & ?) Ht. by split_and!.
    - apply collect_ros1_names_whitelisted. }
  intros _. apply preserves_bind.
  { apply preserves_modify.
    intros e ((? & ? & ? & ? & ?) & ? & (? & ? & ? & ? & ? & ?) & ?).
    by split_and!. }
  intros _. destruct topics as [topics|]; [|by apply preserves_emit].
  apply preserves_bind; [|intros _; apply reconcile_whitelisted].
  apply preserves_modify.
  intros e ((? & ? & Hp & Hs & ?) & ? & (? & ? & ? & ? & ? & ?) & ?).
  pose proof (current_ros1_topics_keys (ros1 e) topics) as Hkeys.
  unfold engine_whitelisted. split_and!; [by split_and! | done | | done].
  unfold inventory_whitelisted. split_and!; try done; intros n Hn.
  - apply Hp. by apply (proj1 (Hkeys n)).
  - apply Hs. by apply (proj1 (proj2 (Hkeys n))).
Qed.

Lemma ros2_poll_whitelisted_engine fuel (opts : Options) ros2_topics
    ros2_services_and_types count_publishers count_subscribers :
  preserves (engine_whitelisted opts) (λ _, True)
    (ros2_poll fuel opts ros2_topics ros2_services_and_types
       count_publishers count_subscribers).
Proof.
  unfold ros2_poll.
  apply preserves_bind; [apply preserves_get | intros e0].
  apply preserves_bind.
  { apply (preserves_zoom_part _
             (ros2_poll_whitelisted (topic_regex_list opts) (srv_regex_list opts))).
    - by intros e (? & ? & ? & ?).
    - intros e t (? & ? & ? & ?) Ht. by split_and!.
    - apply collect_ros2_names_whitelisted. }
  intros _. apply preserves_bind.
  { apply preserves_modify.
    intros e (? & (? & ? & ? & ? & ?) & (? & ? & ? & ? & ? & ?) & ?).
    by split_and!. }
  intros _. apply preserves_bind; [|intros _; apply reconcile_whitelisted].
  apply preserves_modify.
  intros e (? & (? & ? & ? & ? & ?) & (? & ? & ? & ? & ? & ?) & ?).
  by split_and!.
Qed.

Lemma fire_whitelisted (opts : Options) tick :
  preserves (engine_whitelisted opts) (λ _, True) (fire opts tick).
Proof.
  assert (∀ meanwhile : World → World,
            preserves (engine_whitelisted opts) (λ _, True)
              (modify (λ e, with_registry
                 (set_world (meanwhile (world (registry e))) (registry e)) e)))
    as Hmeanwhile.
  { intros meanwhile. apply preserves_modify. by intros e (? & ? & ? & ?). }
  destruct tick; simpl.
  - apply preserves_bind; [apply Hmeanwhile | intros _].
    apply ros1_poll_whitelisted_engine.
  - apply preserves_bind; [apply Hmeanwhile | intros _].
    apply ros2_poll_whitelisted_engine.
Qed.

Lemma run_timers_whitelisted (opts : Options) ticks e :
  engine_whitelisted opts e → engine_whitelisted opts (run_timers opts ticks e).
Proof.
  revert e. induction ticks as [|tick ticks IH]; intros e HI; [done|].
  simpl. apply IH. by apply fire_whitelisted.
Qed.

Lemma start_whitelisted (opts : Options) w : engine_whitelisted opts (start w).
Proof.
  unfold engine_whitelisted, ros1_poll_whitelisted, ros2_poll_whitelisted,
    inventory_whitelisted, registry_whitelisted. simpl.
  split_and!; first [apply all_whitelisted_empty | apply keys_whitelisted_empty].
Qed.

(** X4.  From the start of [main], whatever the two pollers observe at each
    firing of their timers, with the firings one after the other, and
    however each callback ends, every name that has an entry in
    [bridges_1to2] or [bridges_2to1] matches a pattern of the topic
    whitelist, and every name that has an entry in [service_bridges_1_to_2]
    or [service_bridges_2_to_1] matches a pattern of the service
    whitelist. *)
Theorem only_whitelisted_names_are_bridged (opts : Options) ticks w :
  registry_whitelisted (topic_regex_list opts) (srv_regex_list opts)
    (registry (run_timers opts ticks (start w))).
Proof.
  by destruct (run_timers_whitelisted opts ticks (start w)
                 (start_whitelisted opts w)) as (_ & _ & _ & ?).
Qed.
End WhitelistedRegistry.

(** ** What a pass adds to the registry *)

Section PassExtras.
Context {C : Collaborators}.
Implicit Types (st : State) (inv : Inventory).

(** X5.  A pass of [update_bridge] adds no entry under a name its snapshots
    do not call for: a name with an entry in [bridges_1to2] after the pass
    had one before it or is a key of [ros1_publishers] whose visit does
    not end in [continue]; the same holds of [bridges_2to1] and
    [ros2_publishers]; a name in [service_bridges_1_to_2] was there before
    or is a key of [ros2_services], and a name in [service_bridges_2_to_1]
    was there before or is a key of [ros1_services]. *)
Theorem entries_come_from_the_snapshots fuel inv b12 b21 st :
  let st' := final (update_bridge fuel inv b12 b21 st) in
  keys_satisfy (λ n, is_Some (bridges_1to2 st !! n)
                     ∨ ∃ t1, ros1_publishers inv !! n = Some t1
                             ∧ is_Some (wanted_1to2 inv b12 n t1))
    (bridges_1to2 st')
  ∧ keys_satisfy (λ n, is_Some (bridges_2to1 st !! n)
                       ∨ ∃ t2, ros2_publishers inv !! n = Some t2
                               ∧ is_Some (wanted_2to1 inv b21 n t2))
      (bridges_2to1 st')
  ∧ keys_satisfy (λ n, is_Some (service_bridges_1_to_2 st !! n)
                       ∨ is_Some (ros2_services inv !! n))
      (service_bridges_1_to_2 st')
  ∧ keys_satisfy (λ n, is_Some (service_bridges_2_to_1 st !! n)
                       ∨ is_Some (ros1_services inv !! n))
      (service_bridges_2_to_1 st').
Proof.
  intros st'. subst st'.
  destruct (update_bridge_keys
              (λ n, is_Some (bridges_1to2 st !! n) ∨ is_Some (ros1_publishers inv !! n))
              (λ n, is_Some (bridges_2to1 st !! n) ∨ is_Some (ros2_publishers inv !! n))
              (λ n, is_Some (service_bridges_1_to_2 st !! n)
                    ∨ is_Some (ros2_services inv !! n))
              (λ n, is_Some (service_bridges_2_to_1 st !! n)
                    ∨ is_Some (ros1_services inv !! n))
              fuel inv b12 b21) with (st := st) as [(_ & _ & H12 & H21) _];
    try (intros n Hn; by right).
  { split_and!; intros n Hn; by left. }
  split_and!; [| |done|done].
  - intros n Hn.
    pose proof (update_bridge_1to2_entry fuel inv b12 b21 n st) as Hentry.
    cbv zeta in Hentry.
    destruct (ros1_publishers inv !! n) as [t1|]; [|left; by rewrite <- Hentry].
    destruct (wanted_1to2 inv b12 n t1) as [t2|] eqn:Hw;
      [|left; by rewrite <- Hentry].
    right. exists t1. by rewrite Hw.
  - intros n Hn.
    pose proof (update_bridge_2to1_entry fuel inv b12 b21 n st) as Hentry.
    cbv zeta in Hentry.
    destruct (ros2_publishers inv !! n) as [t2|]; [|left; by rewrite <- Hentry].
    destruct (wanted_2to1 inv b21 n t2) as [t1|] eqn:Hw;
      [|left; by rewrite <- Hentry].
    right. exists t2. by rewrite Hw.
Qed.

(** *** Topics *)

Lemma update_1to2_succeeds inv b n t1 t2 st :
  wanted_1to2 inv b n t1 = Some t2 →
  (∀ w, ∃ handles, (create_bridge_from_1_to_2 t1 n t2 w).2 = inr handles) →
  ∃ bridge,
    bridges_1to2 (final (update_1to2 inv b (n, t1) st)) !! n = Some bridge
    ∧ ros1_type_name bridge = t1 ∧ ros2_type_name bridge = t2.
Proof.
  intros Hw Hok.
  assert (∀ st0, ∃ bridge,
            bridges_1to2 (final (create_1to2 n t1 t2 st0)) !! n = Some bridge
            ∧ ros1_type_name bridge = t1 ∧ ros2_type_name bridge = t2) as Hcreate.
  { intros st0. unfold create_1to2. run. cbn [prepend final].
    destruct (Hok (world st0)) as [handles Hh].
    destruct (create_bridge_from_1_to_2 t1 n t2 (world st0)) as [w r].
    cbn [fst snd] in *. subst r. run. finish_run. simpl.
    rewrite lookup_insert_eq. by eexists. }
  destruct (bridges_1to2 st !! n) as [bridge|] eqn:He.
  - destruct (in_place_1to2 bridge t1 t2) eqn:Hin.
    + rewrite (update_1to2_keep _ _ _ _ _ _ _ Hw He Hin). simpl.
      exists bridge. split; [done|]. by apply in_place_1to2_true.
    + unfold update_1to2. cbn [fst snd]. rewrite Hw. run. rewrite He, Hin. run.
      cbn [prepend final]. apply Hcreate.
  - unfold update_1to2. cbn [fst snd]. rewrite Hw. run. rewrite He. apply Hcreate.
Qed.

Lemma update_2to1_succeeds inv b n t1 t2 st :
  wanted_2to1 inv b n t2 = Some t1 →
  (∀ w, ∃ handles, (create_bridge_from_2_to_1 t2 n t1 w).2 = inr handles) →
  ∃ bridge,
    bridges_2to1 (final (update_2to1 inv b (n, t2) st)) !! n = Some bridge
    ∧ (ros1_type_name bridge = t1 ∨ ros1_type_name bridge = "")
    ∧ ros2_type_name bridge = t2.
Proof.
  intros Hw Hok.
  assert (∀ st0, ∃ bridge,
            bridges_2to1 (final (create_2to1 n t1 t2 st0)) !! n = Some bridge
            ∧ (ros1_type_name bridge = t1 ∨ ros1_type_name bridge = "")
            ∧ ros2_type_name bridge = t2) as Hcreate.
  { intros st0. unfold create_2to1. run. cbn [prepend final].
    destruct (Hok (world st0)) as [handles Hh].
    destruct (create_bridge_from_2_to_1 t2 n t1 (world st0)) as [w r].
    cbn [fst snd] in *. subst r. run. finish_run. simpl.
    rewrite lookup_insert_eq. eexists. split; [done|]. split; [by left | done]. }
  destruct (bridges_2to1 st !! n) as [bridge|] eqn:He.
  - destruct (in_place_2to1 bridge t1 t2) eqn:Hin.
    + rewrite (update_2to1_keep _ _ _ _ _ _ _ Hw He Hin). simpl.
      exists bridge. split; [done|]. by apply in_place_2to1_true.
    + unfold update_2to1. cbn [fst snd]. rewrite Hw. run. rewrite He, Hin. run.
      cbn [prepend final]. apply Hcreate.
  - unfold update_2to1. cbn [fst snd]. rewrite Hw. run. rewrite He. apply Hcreate.
Qed.

(** X6.  A topic of [ros1_publishers] whose visit does not end in
    [continue], and for which [create_bridge_from_1_to_2] does not throw,
    has after the pass an entry in [bridges_1to2] that records the ROS 1
    type of the snapshot and the ROS 2 type asked for; this holds however
    the rest of the pass ends. *)
Theorem wanted_1to2_bridge_is_in_place fuel inv b12 b21 st n t1 t2 :
  ros1_publishers inv !! n = Some t1 →
  wanted_1to2 inv b12 n t1 = Some t2 →
  (∀ w, ∃ handles, (create_bridge_from_1_to_2 t1 n t2 w).2 = inr handles) →
  ∃ bridge,
    bridges_1to2 (final (update_bridge fuel inv b12 b21 st)) !! n = Some bridge
    ∧ ros1_type_name bridge = t1 ∧ ros2_type_name bridge = t2.
Proof.
  intros Hn Hw Hok.
  destruct (update_bridge_1to2_at fuel inv b12 b21 n t1 st Hn)
    as (st1 & _ & _ & ->).
  by apply update_1to2_succeeds.
Qed.

(** X7.  The same for a topic of [ros2_publishers]: after the pass
    [bridges_2to1] has an entry for it with the ROS 2 type of the snapshot;
    the recorded ROS 1 type is the one asked for, or the empty string when
    an entry recorded with the empty string was kept. *)
Theorem wanted_2to1_bridge_is_in_place fuel inv b12 b21 st n t1 t2 :
  ros2_publishers inv !! n = Some t2 →
  wanted_2to1 inv b21 n t2 = Some t1 →
  (∀ w, ∃ handles, (create_bridge_from_2_to_1 t2 n t1 w).2 = inr handles) →
  ∃ bridge,
    bridges_2to1 (final (update_bridge fuel inv b12 b21 st)) !! n = Some bridge
    ∧ (ros1_type_name bridge = t1 ∨ ros1_type_name bridge = "")
    ∧ ros2_type_name bridge = t2.
Proof.
  intros Hn Hw Hok.
  destruct (update_bridge_2to1_at fuel inv b12 b21 n t2 st Hn)
    as (st1 & _ & _ & ->).
  by apply update_2to1_succeeds.
Qed.

(** *** Services *)

Lemma bind_final_inv {S A B} (Inv : S → Prop) (m : M S A) (k : A → M S B) s :
  Inv (final (m s)) → (∀ a, preserves Inv (λ _, True) (k a)) →
  Inv (final ((m ≫= k) s)).
Proof.
  intros Hm Hk. rewrite bind_run.
  destruct (m s) as [[a|why] s1 ev1]; simpl in *; [|done].
  destruct (Hk a s1 Hm) as [HI _]. by destruct (k a s1).
Qed.

(** The visit of one service name leaves the entries of the other names
    as they are. *)
Lemma create_ros1_service_other name service v21 v12 :
  service.1 ≠ name →
  preserves (λ st, service_bridges_2_to_1 st !! name = v21
                   ∧ service_bridges_1_to_2 st !! name = v12)
    (λ _, True) (create_ros1_service service).
Proof.
  intros Hne.
  apply create_ros1_service_preserves_at; [by intros ??? | by intros ??? | | done].
  intros st bridge [? ?]. split; simpl; [|done]. by rewrite lookup_insert_ne.
Qed.

Lemma create_ros2_service_other name service v21 v12 :
  service.1 ≠ name →
  preserves (λ st, service_bridges_2_to_1 st !! name = v21
                   ∧ service_bridges_1_to_2 st !! name = v12)
    (λ _, True) (create_ros2_service service).
Proof.
  intros Hne.
  apply create_ros2_service_preserves_at; [by intros ??? | by intros ??? | | done].
  intros st bridge [? ?]. split; simpl; [done|]. by rewrite lookup_insert_ne.
Qed.

Lemma create_ros1_service_creates name details package type_name factory st :
  details !! "package" = Some package → details !! "name" = Some type_name →
  get_service_factory "ros1" package type_name = Some factory →
  (∀ w, ∃ bridge, (service_bridge_2_to_1 factory name w).2 = inr bridge) →
  service_bridges_2_to_1 st !! name = None →
  service_bridges_1_to_2 st !! name = None →
  ended (create_ros1_service (name, details) st) = Normal tt
  ∧ is_Some (service_bridges_2_to_1
               (final (create_ros1_service (name, details) st)) !! name)
  ∧ service_bridges_1_to_2 (final (create_ros1_service (name, details) st)) !! name
    = None.
Proof.
  intros Hp Ht Hf Hok H21 H12. unfold create_ros1_service. cbn [fst snd]. run.
  rewrite H21, H12. unfold at_key. rewrite Hp, Ht. run. rewrite Hf. run.
  cbn [prepend final ended].
  destruct (Hok (world st)) as [bridge Hb].
  destruct (service_bridge_2_to_1 factory name (world st)) as [w r].
  cbn [fst snd] in *. subst r. run. finish_run. simpl.
  rewrite lookup_insert_eq. split_and!; [done | by eexists | done].
Qed.

Lemma create_ros2_service_creates name details package type_name factory st :
  details !! "package" = Some package → details !! "name" = Some type_name →
  get_service_factory "ros2" package type_name = Some factory →
  (∀ w, ∃ bridge, (service_bridge_1_to_2 factory name w).2 = inr bridge) →
  service_bridges_2_to_1 st !! name = None →
  service_bridges_1_to_2 st !! name = None →
  ended (create_ros2_service (name, details) st) = Normal tt
  ∧ service_bridges_2_to_1 (final (create_ros2_service (name, details) st)) !! name
    = None
  ∧ is_Some (service_bridges_1_to_2
               (final (create_ros2_service (name, details) st)) !! name).
Proof.
  intros Hp Ht Hf Hok H21 H12. unfold create_ros2_service. cbn [fst snd]. run.
  rewrite H21, H12. unfold at_key. rewrite Hp, Ht. run. rewrite Hf. run.
  cbn [prepend final ended].
  destruct (Hok (world st)) as [bridge Hb].
  destruct (service_bridge_1_to_2 factory name (world st)) as [w r].
  cbn [fst snd] in *. subst r. run. finish_run. simpl.
  rewrite lookup_insert_eq. split_and!; [done | done | by eexists].
Qed.

(** A loop over the entries of a well-formed snapshot, cut at the visit
    of [name]. *)
Lemma service_loop_at (body : string * gmap string string → M State unit)
    (services : gmap string (gmap string string)) name details
    (Free Taken : State → Prop) st :
  (∀ service, is_Some (service.2 !! "package") → is_Some (service.2 !! "name") →
              returns (body service)) →
  (∀ service, service.1 ≠ name → preserves Free (λ _, True) (body service)) →
  (∀ service, service.1 ≠ name → preserves Taken (λ _, True) (body service)) →
  (∀ st0, Free st0 → ended (body (name, details) st0) = Normal tt
                     ∧ Taken (final (body (name, details) st0))) →
  well_formed services → services !! name = Some details → Free st →
  Taken (final (for_each body (in_key_order services) st)).
Proof.
  intros Hret Hfree Htaken Hat Hwf Hn Hst.
  destruct (in_key_order_split _ _ _ Hn) as (before & after & Heq & Hb & Ha).
  assert (∀ x, x ∈ before → x ∈ in_key_order services) as Hin.
  { intros x Hx. rewrite Heq. apply elem_of_app. by left. }
  rewrite Heq, for_each_app.
  destruct (returns_for_each body before) with (st := st) as [[] Hret1].
  { intros [k d] Hx. apply Hin, elem_of_in_key_order in Hx.
    destruct (Hwf k d Hx). by apply Hret. }
  rewrite (bind_prepend _ _ _ _ Hret1). cbn [prepend final].
  destruct (preserves_for_each Free (λ _, True) body before) with (st := st)
    as [Hfree1 _]; [|done|].
  { intros [k d] Hx. apply Hfree. cbn [fst]. intros ->. apply Hb.
    apply list_elem_of_fmap. by exists (name, d). }
  set (st1 := final (for_each body before st)) in *.
  rewrite for_each_cons.
  destruct (Hat st1 Hfree1) as [Hret2 Htaken2].
  rewrite (bind_prepend _ _ _ _ Hret2). cbn [prepend final].
  apply (preserves_for_each Taken (λ _, True) body after); [|done].
  intros [k d] Hx. apply Htaken. cbn [fst]. intros ->. apply Ha.
  apply list_elem_of_fmap. by exists (name, d).
Qed.

Lemma shutdown_and_erase_preserves_at (Inv : State → Prop) (P : event → Prop)
    fuel name bridge :
  ignores_world Inv →
  (∀ st, Inv st →
     Inv (set_service_bridges_1_to_2 (delete name (service_bridges_1_to_2 st)) st)) →
  (∀ e, topic_event e = false → P e) →
  preserves Inv P (shutdown_and_erase fuel name bridge).
Proof.
  intros Hw Hs HP. induction fuel as [|fuel IH]; simpl; [apply preserves_halt|].
  apply preserves_bind; [by apply preserves_emit, HP | intros _].
  apply preserves_bind; [by apply preserves_emit, HP | intros _].
  apply preserves_bind; [by apply preserves_call | intros [what|]].
  - apply preserves_bind; [by apply preserves_emit, HP | intros _]. apply IH.
  - apply preserves_bind; [by apply preserves_emit, HP | intros _].
    apply preserves_modify. intros st HI. by apply Hs.
Qed.

(** The removal loops keep the entry of a name its snapshot lists. *)
Lemma remove_obsolete_2_to_1_keeps_listed inv name entry (v12 : State → Prop) :
  is_Some (ros1_services inv !! name) →
  (∀ st m, v12 st → v12 (set_service_bridges_2_to_1 m st)) →
  preserves (λ st, is_Some (service_bridges_2_to_1 st !! name) ∧ v12 st)
    (λ _, True) (remove_obsolete_2_to_1 inv entry).
Proof.
  intros [details Hd] Hframe. unfold remove_obsolete_2_to_1.
  destruct (ros1_services inv !! entry.1) eqn:He; [apply preserves_ret|].
  assert (entry.1 ≠ name) as Hne by (intros Heq; congruence).
  apply preserves_bind; [by apply preserves_emit | intros _].
  apply preserves_bind; [by apply preserves_emit | intros _].
  apply preserves_modify. intros st [H21 H12]. split; simpl.
  - by rewrite lookup_delete_ne.
  - by apply Hframe.
Qed.

Lemma remove_obsolete_1_to_2_keeps_listed fuel inv name entry (v21 : State → Prop) :
  is_Some (ros2_services inv !! name) →
  (∀ st w, v21 st → v21 (set_world w st)) →
  (∀ st m, v21 st → v21 (set_service_bridges_1_to_2 m st)) →
  preserves (λ st, is_Some (service_bridges_1_to_2 st !! name) ∧ v21 st)
    (λ _, True) (remove_obsolete_1_to_2 fuel inv entry).
Proof.
  intros [details Hd] Hworld Hframe. unfold remove_obsolete_1_to_2.
  destruct (ros2_services inv !! entry.1) eqn:He; [apply preserves_ret|].
  assert (entry.1 ≠ name) as Hne by (intros Heq; congruence).
  apply shutdown_and_erase_preserves_at; [| |done].
  - intros st w [H12 H21]. split; [done | by apply Hworld].
  - intros st [H12 H21]. split; simpl.
    + by rewrite lookup_delete_ne.
    + by apply Hframe.
Qed.

(** The topic passes leave the service maps as they are. *)
Lemma topic_passes_keep_services (Inv : State → Prop) inv b12 b21 :
  ignores_world Inv →
  (∀ st m, Inv st → Inv (set_bridges_1to2 m st)) →
  (∀ st m, Inv st → Inv (set_bridges_2to1 m st)) →
  ∀ st, Inv st →
    ∃ st2, Inv st2
      ∧ ∀ fuel, final (update_bridge fuel inv b12 b21 st)
                = final (update_service_bridges fuel inv st2).
Proof.
  intros Hw H12 H21 st HI.
  destruct (create_1to2_bridges_returns inv b12 st) as [[] Hret1].
  destruct (create_1to2_bridges_preserves Inv (λ _, True) inv b12) with (st := st)
    as [HI1 _]; [|done|].
  { intros k t1 _. apply update_1to2_preserves; try done.
    intros st0 m HI0 _. by apply H12. }
  set (st1 := final (create_1to2_bridges inv b12 st)) in *.
  destruct (create_2to1_bridges_returns inv b21 st1) as [[] Hret2].
  destruct (create_2to1_bridges_preserves Inv (λ _, True) inv b21) with (st := st1)
    as [HI2 _]; [|done|].
  { intros k t2 _. apply update_2to1_preserves; try done.
    intros st0 m HI0 _. by apply H21. }
  exists (final (create_2to1_bridges inv b21 st1)). split; [done|].
  intros fuel. unfold update_bridge.
  rewrite (bind_prepend _ _ _ _ Hret1). cbn [prepend final]. fold st1.
  by rewrite (bind_prepend _ _ _ _ Hret2).
Qed.

(** X8.  A service of [ros1_services] whose name is in neither service map,
    for which [get_service_factory] returns a factory and
    [service_bridge_2_to_1] does not throw, is in [service_bridges_2_to_1]
    after the pass and not in [service_bridges_1_to_2], whether or not
    [ros2_services] lists the name too: the ROS 1 loop runs first.  The
    entries of [ros1_services] are assumed to have their ["package"] and
    ["name"]. *)
Theorem ros1_service_is_bridged_first fuel inv b12 b21 st name details
    package type_name factory :
  well_formed (ros1_services inv) →
  ros1_services inv !! name = Some details →
  details !! "package" = Some package → details !! "name" = Some type_name →
  get_service_factory "ros1" package type_name = Some factory →
  (∀ w, ∃ bridge, (service_bridge_2_to_1 factory name w).2 = inr bridge) →
  service_bridges_2_to_1 st !! name = None →
  service_bridges_1_to_2 st !! name = None →
  is_Some (service_bridges_2_to_1
             (final (update_bridge fuel inv b12 b21 st)) !! name)
  ∧ service_bridges_1_to_2 (final (update_bridge fuel inv b12 b21 st)) !! name
    = None.
Proof.
  intros Hwf Hn Hp Ht Hf Hok H21 H12.
  set (Free := λ st, service_bridges_2_to_1 st !! name = None
                     ∧ service_bridges_1_to_2 st !! name = None).
  set (Taken := λ st, is_Some (service_bridges_2_to_1 st !! name)
                      ∧ service_bridges_1_to_2 st !! name = None).
  destruct (topic_passes_keep_services Free inv b12 b21) with (st := st)
    as (st2 & Hfree2 & Heq);
    [by intros ??? | by intros ??? | by intros ??? | done |].
  rewrite Heq.
  unfold update_service_bridges.
  apply (bind_final_inv Taken).
  { apply (service_loop_at create_ros1_service (ros1_services inv) name details
             Free Taken); try done.
    - intros service. apply create_ros1_service_returns.
    - intros service Hne. by apply create_ros1_service_other.
    - intros service Hne st0 [[x Hx] H0].
      destruct (create_ros1_service_other name service (Some x) None Hne st0)
        as [[Hk1 Hk2] HP]; [done|].
      split; [|done]. split; [by eexists | done].
    - intros st0 [H1 H2].
      by destruct (create_ros1_service_creates name details package type_name
                     factory st0) as (? & ? & ?). }
  intros _. apply preserves_bind.
  { apply preserves_for_each. intros service _ st0 [[x Hx] H0].
    destruct (decide (service.1 = name)) as [Hsame|Hne].
    - unfold create_ros2_service. rewrite run_bind_get, Hsame, H0, Hx.
      split; [|constructor]. split; [by eexists | done].
    - destruct (create_ros2_service_other name service (Some x) None Hne st0)
        as [[Hk1 Hk2] HP]; [done|].
      split; [|done]. split; [by eexists | done]. }
  intros _. apply preserves_bind; [apply preserves_get | intros st5].
  apply preserves_bind.
  { apply preserves_for_each. intros entry _.
    apply (remove_obsolete_2_to_1_keeps_listed inv name entry
             (λ st, service_bridges_1_to_2 st !! name = None));
      [by eexists | done]. }
  intros _. apply preserves_bind; [apply preserves_get | intros st6].
  apply preserves_for_each. intros entry _.
  apply remove_obsolete_1_to_2_preserves; [by intros ??? | | done].
  intros st0 k [? H0]. split; simpl; [done|].
  rewrite lookup_delete_None. by right.
Qed.

(** X9.  A service of [ros2_services] that [ros1_services] does not list,
    whose name is in neither service map, for which [get_service_factory]
    returns a factory and [service_bridge_1_to_2] does not throw, is in
    [service_bridges_1_to_2] after the pass and not in
    [service_bridges_2_to_1], however the removal loops end.  The entries of
    both service snapshots are assumed to have their ["package"] and
    ["name"]. *)
Theorem ros2_service_is_bridged fuel inv b12 b21 st name details
    package type_name factory :
  well_formed (ros1_services inv) → well_formed (ros2_services inv) →
  ros1_services inv !! name = None →
  ros2_services inv !! name = Some details →
  details !! "package" = Some package → details !! "name" = Some type_name →
  get_service_factory "ros2" package type_name = Some factory →
  (∀ w, ∃ bridge, (service_bridge_1_to_2 factory name w).2 = inr bridge) →
  service_bridges_2_to_1 st !! name = None →
  service_bridges_1_to_2 st !! name = None →
  is_Some (service_bridges_1_to_2
             (final (update_bridge fuel inv b12 b21 st)) !! name)
  ∧ service_bridges_2_to_1 (final (update_bridge fuel inv b12 b21 st)) !! name
    = None.
Proof.
  intros Hwf1 Hwf2 Hn1 Hn Hp Ht Hf Hok H21 H12.
  set (Free := λ st, service_bridges_2_to_1 st !! name = None
                     ∧ service_bridges_1_to_2 st !! name = None).
  set (Taken := λ st, is_Some (service_bridges_1_to_2 st !! name)
                      ∧ service_bridges_2_to_1 st !! name = None).
  destruct (topic_passes_keep_services Free inv b12 b21) with (st := st)
    as (st2 & Hfree2 & Heq);
    [by intros ??? | by intros ??? | by intros ??? | done |].
  rewrite Heq.
  unfold update_service_bridges.
  destruct (returns_for_each create_ros1_service
              (in_key_order (ros1_services inv))) with (st := st2) as [[] Hret1].
  { intros [k d] Hx%elem_of_in_key_order.
    destruct (Hwf1 k d Hx). by apply create_ros1_service_returns. }
  rewrite (bind_prepend _ _ _ _ Hret1). cbn [prepend final].
  destruct (preserves_for_each Free (λ _, True) create_ros1_service
              (in_key_order (ros1_services inv))) with (st := st2)
    as [Hfree3 _]; [|done|].
  { intros [k d] Hx%elem_of_in_key_order. apply create_ros1_service_other.
    cbn [fst]. intros ->. congruence. }
  set (st3 := final (for_each create_ros1_service _ st2)) in *.
  apply (bind_final_inv Taken).
  { apply (service_loop_at create_ros2_service (ros2_services inv) name details
             Free Taken); try done.
    - intros service. apply create_ros2_service_returns.
    - intros service Hne. by apply create_ros2_service_other.
    - intros service Hne st0 [[x Hx] H0].
      destruct (create_ros2_service_other name service None (Some x) Hne st0)
        as [[Hk1 Hk2] HP]; [done|].
      split; [|done]. split; [by eexists | done].
    - intros st0 [H1 H2].
      by destruct (create_ros2_service_creates name details package type_name
                     factory st0) as (? & ? & ?). }
  intros _. apply preserves_bind; [apply preserves_get | intros st5].
  apply preserves_bind.
  { apply preserves_for_each. intros entry _.
    apply remove_obsolete_2_to_1_preserves; [|done].
    intros st0 k [? H0]. split; simpl; [done|].
    rewrite lookup_delete_None. by right. }
  intros _. apply preserves_bind; [apply preserves_get | intros st6].
  apply preserves_for_each. intros entry _.
  apply (remove_obsolete_1_to_2_keeps_listed fuel inv name entry
           (λ st, service_bridges_2_to_1 st !! name = None));
    [by eexists | done | done].
Qed.
End PassExtras.

(** ** The warn-once lines *)

Section WarnOnce.
Context {C : Collaborators}.
Implicit Types (st : State) (inv : Inventory).

Lemma newly_warned_same site st st' :
  warned_once st' = warned_once st → newly_warned site st st' = 0.
Proof.
  intros Heq. unfold newly_warned. rewrite Heq.
  case_bool_decide as H; [by destruct H | done].
Qed.

Lemma tracks_quiet {A} site (m : M State A) :
  (∀ st, warned_once (final (m st)) = warned_once st ∧ emitted (m st) = []) →
  tracks site m.
Proof.
  intros Hm st. destruct (Hm st) as [Hw ->]. split; [by rewrite Hw|].
  by rewrite newly_warned_same.
Qed.

Lemma tracks_ret {A} site (a : A) : tracks site (mret a).
Proof. by apply tracks_quiet. Qed.

Lemma tracks_get site : tracks site get.
Proof. by apply tracks_quiet. Qed.

Lemma tracks_halt {A} site why : tracks site (halt (A:=A) why).
Proof. by apply tracks_quiet. Qed.

Lemma tracks_modify site (f : State → State) :
  (∀ st, warned_once (f st) = warned_once st) → tracks site (modify f).
Proof. intros Hf. apply tracks_quiet. intros st. by split; [apply Hf|]. Qed.

Lemma tracks_call {A} site (f : World → World * A) : tracks site (call f).
Proof.
  apply tracks_quiet. intros st. unfold call. by destruct (f (world st)).
Qed.

Lemma tracks_at_key site details key : tracks site (at_key details key).
Proof. unfold at_key. destruct (details !! key); by apply tracks_quiet. Qed.

Lemma tracks_emit site e : warning_of site e = false → tracks site (emit e).
Proof.
  intros He st. split; [done|]. unfold warnings; simpl. rewrite He. simpl.
  by rewrite newly_warned_same.
Qed.

Lemma tracks_bind {A B} site (m : M State A) (k : A → M State B) :
  tracks site m → (∀ a, tracks site (k a)) → tracks site (m ≫= k).
Proof.
  intros Hm Hk st. rewrite bind_run. destruct (Hm st) as [Hmono1 Hcount1].
  destruct (m st) as [[a|why] st1 ev1]; simpl in *; [|done].
  destruct (Hk a st1) as [Hmono2 Hcount2].
  destruct (k a st1) as [o st2 ev2]; simpl in *.
  split; [auto|].
  unfold warnings in *. rewrite List.filter_app, length_app, Hcount1, Hcount2.
  unfold newly_warned.
  destruct (decide (site ∈ warned_once st)) as [H0|H0];
    destruct (decide (site ∈ warned_once st1)) as [H1|H1];
    destruct (decide (site ∈ warned_once st2)) as [H2|H2];
    repeat case_bool_decide; try done; exfalso; tauto.
Qed.

Lemma tracks_for_each {A} site (body : A → M State unit) l :
  (∀ x, tracks site (body x)) → tracks site (for_each body l).
Proof.
  intros Hbody. induction l as [|x l IH]; [apply tracks_ret|].
  apply tracks_bind; [apply Hbody | intros _; apply IH].
Qed.

(** The statement at the call site [at_site], with its format string. *)
Lemma tracks_log_warn_once site at_site args :
  tracks site (log_warn_once at_site (warn_once_format at_site) args).
Proof.
  intros st. unfold log_warn_once. run.
  case_bool_decide as Hset.
  { split; [done|]. by rewrite newly_warned_same. }
  run. finish_run. split; [by right|].
  unfold warnings, newly_warned; simpl.
  destruct (decide (at_site = site)) as [->|Hne].
  - rewrite !bool_decide_eq_true_2; [done | | done].
    split; [done | by left].
  - rewrite (bool_decide_eq_false_2 (warn_once_format at_site = warn_once_format site)).
    + rewrite bool_decide_eq_false_2; [done|].
      intros [Hclear [?|?]%elem_of_cons]; [congruence | done].
    + by destruct at_site, site.
Qed.

Lemma tracks_create_1to2 site k t1 t2 : tracks site (create_1to2 k t1 t2).
Proof.
  unfold create_1to2.
  apply tracks_bind; [by apply tracks_emit | intros _].
  apply tracks_bind; [apply tracks_call | intros [what|handles]].
  - apply tracks_bind; [by apply tracks_emit | intros _].
    case_match; [by apply tracks_emit | apply tracks_ret].
  - apply tracks_bind; [by apply tracks_modify | intros _]. by apply tracks_emit.
Qed.

Lemma tracks_update_1to2 site inv b ros1_publisher :
  tracks site (update_1to2 inv b ros1_publisher).
Proof.
  unfold update_1to2. case_match; [|apply tracks_ret].
  apply tracks_bind; [apply tracks_get | intros st0].
  case_match; [|apply tracks_create_1to2].
  case_match; [apply tracks_ret|].
  apply tracks_bind; [by apply tracks_modify | intros _].
  do 2 (apply tracks_bind; [by apply tracks_emit | intros _]).
  apply tracks_create_1to2.
Qed.

Lemma tracks_create_2to1 site k t1 t2 : tracks site (create_2to1 k t1 t2).
Proof.
  unfold create_2to1.
  apply tracks_bind; [by apply tracks_emit | intros _].
  apply tracks_bind; [apply tracks_call | intros [what|handles]].
  - apply tracks_bind; [by apply tracks_emit | intros _].
    case_match; [by apply tracks_emit | apply tracks_ret].
  - apply tracks_bind; [by apply tracks_modify | intros _]. by apply tracks_emit.
Qed.

Lemma tracks_update_2to1 site inv b ros2_publisher :
  tracks site (update_2to1 inv b ros2_publisher).
Proof.
  unfold update_2to1. case_match; [|apply tracks_ret].
  apply tracks_bind; [apply tracks_get | intros st0].
  case_match; [|apply tracks_create_2to1].
  case_match; [apply tracks_ret|].
  apply tracks_bind; [by apply tracks_modify | intros _].
  do 2 (apply tracks_bind; [by apply tracks_emit | intros _]).
  apply tracks_create_2to1.
Qed.

Lemma tracks_create_ros1_service site service :
  tracks site (create_ros1_service service).
Proof.
  unfold create_ros1_service.
  apply tracks_bind; [apply tracks_get | intros st0].
  destruct (service_bridges_2_to_1 st0 !! service.1); [apply tracks_ret|].
  destruct (service_bridges_1_to_2 st0 !! service.1); [apply tracks_ret|].
  apply tracks_bind; [apply tracks_at_key | intros package].
  apply tracks_bind; [apply tracks_at_key | intros type_name].
  apply tracks_bind; [by apply tracks_emit | intros _].
  destruct (get_service_factory "ros1" package type_name) as [factory|].
  - apply tracks_bind; [by apply tracks_emit | intros _].
    apply tracks_bind; [apply tracks_call | intros [what|bridge]].
    + by apply tracks_emit.
    + apply tracks_bind; [by apply tracks_modify | intros _]. by apply tracks_emit.
  - apply (tracks_log_warn_once site warn_ros1_service).
Qed.

Lemma tracks_create_ros2_service site service :
  tracks site (create_ros2_service service).
Proof.
  unfold create_ros2_service.
  apply tracks_bind; [apply tracks_get | intros st0].
  destruct (service_bridges_1_to_2 st0 !! service.1); [apply tracks_ret|].
  destruct (service_bridges_2_to_1 st0 !! service.1); [apply tracks_ret|].
  apply tracks_bind; [apply tracks_at_key | intros package].
  apply tracks_bind; [apply tracks_at_key | intros type_name].
  apply tracks_bind; [by apply tracks_emit | intros _].
  destruct (get_service_factory "ros2" package type_name) as [factory|].
  - apply tracks_bind; [by apply tracks_emit | intros _].
    apply tracks_bind; [apply tracks_call | intros [what|bridge]].
    + by apply tracks_emit.
    + apply tracks_bind; [by apply tracks_modify | intros _]. by apply tracks_emit.
  - apply (tracks_log_warn_once site warn_ros2_service).
Qed.

Lemma tracks_remove_obsolete_2_to_1 site inv entry :
  tracks site (remove_obsolete_2_to_1 inv entry).
Proof.
  unfold remove_obsolete_2_to_1. case_match; [apply tracks_ret|].
  do 2 (apply tracks_bind; [by apply tracks_emit | intros _]).
  by apply tracks_modify.
Qed.

Lemma tracks_shutdown_and_erase site fuel name bridge :
  tracks site (shutdown_and_erase fuel name bridge).
Proof.
  induction fuel as [|fuel IH]; simpl; [apply tracks_halt|].
  do 2 (apply tracks_bind; [by apply tracks_emit | intros _]).
  apply tracks_bind; [apply tracks_call | intros [what|]].
  - apply tracks_bind; [by apply tracks_emit | intros _]. apply IH.
  - apply tracks_bind; [by apply tracks_emit | intros _]. by apply tracks_modify.
Qed.

Lemma tracks_update_bridge site fuel inv b12 b21 :
  tracks site (update_bridge fuel inv b12 b21).
Proof.
  unfold update_bridge, create_1to2_bridges, create_2to1_bridges,
    update_service_bridges.
  apply tracks_bind.
  { apply tracks_for_each. intros x. apply tracks_update_1to2. }
  intros _. apply tracks_bind.
  { apply tracks_for_each. intros x. apply tracks_update_2to1. }
  intros _. apply tracks_bind.
  { apply tracks_for_each. intros x. apply tracks_create_ros1_service. }
  intros _. apply tracks_bind.
  { apply tracks_for_each. intros x. apply tracks_create_ros2_service. }
  intros _. apply tracks_bind; [apply tracks_get | intros st5].
  apply tracks_bind.
  { apply tracks_for_each. intros x. apply tracks_remove_obsolete_2_to_1. }
  intros _. apply tracks_bind; [apply tracks_get | intros st6].
  apply tracks_for_each. intros entry. unfold remove_obsolete_1_to_2.
  case_match; [apply tracks_ret | apply tracks_shutdown_and_erase].
Qed.

(** X10.  Over any sequence of passes of [update_bridge], whatever the
    snapshots, the factories and the way each pass ends, each of the two
    [RCUTILS_LOG_WARN_ONCE_NAMED] statements logs at most one line: one if
    its flag was clear before the first pass and is set after the last,
    none otherwise.  Once the warning for one service was logged, no
    service that cannot be bridged in that direction is reported any
    more, whatever its name. *)
Theorem each_warning_is_logged_once site b12 b21 passes st :
  warnings site (passes_log b12 b21 passes st)
  = newly_warned site st (run_passes b12 b21 passes st).
Proof.
  revert st. induction passes as [|p passes IH]; intros st.
  { simpl. by rewrite newly_warned_same. }
  cbn [passes_log run_passes foldl].
  destruct (tracks_update_bridge site (pass_fuel p) (pass_inventory p) b12 b21
              (set_world (meanwhile p (world st)) st)) as [Hmono Hcount].
  set (st1 := final (update_bridge _ _ _ _ _)) in *.
  assert (∀ st0, site ∈ warned_once st0 →
                 site ∈ warned_once (run_passes b12 b21 passes st0)) as Hkeep.
  { clear. induction passes as [|q passes IH]; intros st0 Hin; [done|].
    simpl. apply IH.
    by apply (tracks_update_bridge site (pass_fuel q) (pass_inventory q) b12 b21). }
  unfold warnings in *. rewrite List.filter_app, length_app, Hcount.
  fold (run_passes b12 b21 passes st1). specialize (IH st1).
  unfold warnings in IH. rewrite IH. specialize (Hkeep st1).
  unfold newly_warned in *. simpl in *.
  destruct (decide (site ∈ warned_once st)) as [H0|H0];
    destruct (decide (site ∈ warned_once st1)) as [H1|H1];
    destruct (decide (site ∈ warned_once (run_passes b12 b21 passes st1)))
      as [H2|H2];
    repeat case_bool_decide; try done; exfalso; tauto.
Qed.
End WarnOnce.

(** ** The split of a service type *)

Lemma substring_whole t : String.substring 0 (String.length t) t = t.
Proof. induction t as [|c t IH]; simpl; [done | by rewrite IH]. Qed.

Lemma append_cons c (s t : string) : String c s +:+ t = String c (s +:+ t).
Proof. reflexivity. Qed.

Lemma substring_split t i :
  i ≤ String.length t →
  String.substring 0 i t +:+ String.substring i (String.length t - i) t = t.
Proof.
  revert i. induction t as [|c t IH]; intros [|i] Hi; simpl in *; try lia.
  - done.
  - by rewrite substring_whole.
  - rewrite append_cons. f_equal. apply IH. lia.
Qed.

Lemma substring_separator t i k :
  String.substring i 1 t = "/" →
  String.substring i (S k) t = "/" +:+ String.substring (S i) k t
  ∧ i < String.length t.
Proof.
  revert i. induction t as [|c t IH]; intros [|i] Hsep; simpl in *; try done.
  - split; [|lia]. destruct t; by simplify_eq.
  - destruct (IH i Hsep) as [Heq Hlt]. split; [|lia].
    rewrite Heq. by destruct t.
Qed.

Lemma substring_of_prefix t i j :
  j < i → String.substring j 1 (String.substring 0 i t) = String.substring j 1 t.
Proof.
  revert i j. induction t as [|c t IH]; intros [|i] [|j] Hlt; simpl; try lia; try done.
  - by destruct i, t.
  - apply IH. lia.
Qed.

Lemma length_substring_le t i : String.length (String.substring 0 i t) ≤ i.
Proof.
  revert i. induction t as [|c t IH]; intros [|i]; simpl; try lia.
  specialize (IH i). lia.
Qed.

(** The split of a type string at its first ["/"]. *)
Lemma split_at_separator ty i :
  String.index 0 "/" ty = Some i →
  String.substring 0 i ty +:+ "/"
    +:+ String.substring (i + 1) (String.length ty - (i + 1)) ty = ty
  ∧ String.index 0 "/" (String.substring 0 i ty) = None
  ∧ i < String.length ty.
Proof.
  intros Hi. pose proof (String.index_correct1 _ _ _ _ Hi) as Hsep.
  cbn [String.length] in Hsep.
  destruct (substring_separator ty i (String.length ty - (i + 1)) Hsep)
    as [Heq Hlt].
  split_and!; [|
    |done].
  - assert (i ≤ String.length ty) as Hle by lia.
    pose proof (substring_split ty i Hle) as Hsplit.
    replace (String.length ty - i) with (S (String.length ty - (i + 1)))
      in Hsplit by lia.
    rewrite Heq in Hsplit. rewrite Nat.add_1_r in Hsplit |- *. exact Hsplit.
  - destruct (String.index 0 "/" (String.substring 0 i ty)) as [j|] eqn:Hj; [|done].
    pose proof (String.index_correct1 _ _ _ _ Hj) as Hsep'.
    cbn [String.length] in Hsep'.
    destruct (substring_separator _ j 0 Hsep') as [_ Hj'].
    pose proof (length_substring_le ty i).
    rewrite substring_of_prefix in Hsep' by lia.
    by destruct (String.index_correct2 _ _ _ _ Hi j); [lia | lia |].
Qed.

Lemma find_separator ty :
  find ty "/" ≠ npos →
  ∃ i, String.index 0 "/" ty = Some i ∧ find ty "/" = Z.of_nat i.
Proof.
  unfold find. destruct (String.index 0 "/" ty) as [i|]; [|done].
  intros _. by exists i.
Qed.

Section ServiceTypes.
Context {RE : RegexEngine}.

Lemma check_ros2_service_recorded regex_list ros2_services_and_types
    service_and_types :
  ros2_services_and_types !! service_and_types.1 = Some service_and_types.2 →
  preserves (λ st, map_Forall (recorded_from ros2_services_and_types)
                     (active_ros2_services st))
    (λ _, True) (check_ros2_service regex_list service_and_types).
Proof.
  intros Hlisted st HI. split; [|by apply Forall_forall].
  unfold check_ros2_service.
  destruct service_and_types as [service_name types]. cbn [fst snd] in *.
  destruct types as [|service_type types]; cbn [element_0]; run; [done|].
  case_bool_decide as Hmany.
  { case_bool_decide; [done|]. run. by finish_run. }
  assert (types = []) as -> by (destruct types; [done | simpl in Hmany; lia]).
  case_bool_decide; [done|].
  destruct (check_inregex_list regex_list service_name (valid_ros2_services st))
    as [[found known_set] evaluated].
  run. cbn [prepend final].
  destruct found; cbn [negb]; [|run; by finish_run].
  case_bool_decide as Hsep; [by finish_run|].
  apply find_separator in Hsep as (i & Hi & ->).
  destruct (split_at_separator _ _ Hi) as (Hjoin & Hfirst & Hlt).
  run. finish_run. simpl. unfold assign_field.
  rewrite lookup_insert_eq. simpl.
  rewrite Nat2Z.id.
  replace (Z.to_nat (Z.of_nat i + 1)) with (i + 1) by lia.
  rewrite insert_insert_eq. apply map_Forall_insert_2; [|done].
  exists service_type. split; [done|].
  eexists _, _. split_and!; [|apply lookup_insert_eq|done|done].
  rewrite lookup_insert_ne by done. apply lookup_insert_eq.
Qed.

(** X11.  When every topic is reported with a type, so that [ros2_poll]
    comes to its services, every entry it leaves in [active_ros2_services]
    is for a service the node reports with exactly one type, and holds
    under ["package"] the part of that type before its first ["/"] and
    under ["name"] the part after it: joined by ["/"] they give the type
    back.  So every entry has the two fields [update_bridge] asks for. *)
Theorem ros2_services_are_split topic_regex_list srv_regex_list ros2_topics
    ros2_services_and_types count_publishers count_subscribers
    bridged_1to2 bridged_2to1 st :
  reported_with_a_type ros2_topics →
  let st' := final (collect_ros2_names topic_regex_list srv_regex_list
                      ros2_topics ros2_services_and_types count_publishers
                      count_subscribers bridged_1to2 bridged_2to1 st) in
  map_Forall (recorded_from ros2_services_and_types) (active_ros2_services st')
  ∧ well_formed (active_ros2_services st').
Proof.
  intros Htyped st'.
  assert (map_Forall (recorded_from ros2_services_and_types)
            (active_ros2_services st')) as Hrec.
  { subst st'. unfold collect_ros2_names. run.
    set (st0 := with_current_ros2_subscribers ∅ (with_current_ros2_publishers ∅ st)).
    destruct (ros2_topic_loop_returns topic_regex_list ros2_topics
                count_publishers count_subscribers bridged_1to2 bridged_2to1
                Htyped st0) as [[] Hret].
    rewrite (bind_prepend _ _ _ _ Hret). run. cbn [prepend final].
    apply (preserves_for_each
             (λ st, map_Forall (recorded_from ros2_services_and_types)
                      (active_ros2_services st)) (λ _, True)).
    - intros [name types] Hin%elem_of_in_key_order.
      by apply check_ros2_service_recorded.
    - simpl. apply map_Forall_empty. }
  split; [done|].
  intros name details Hd.
  destruct (Hrec name details Hd) as (service_type & _ & p & nm & Hp & Hn & _).
  split; by eexists.
Qed.
End ServiceTypes.

(** The split of lines 495-497 for a type that has its separator. *)
Lemma split_type_with_separator key (ty : string)
    (ros1_services : gmap string (gmap string string)) details i :
  ros1_services !! key = Some details →
  details !! "type" = Some ty →
  String.index 0 "/" ty = Some i →
  split_type key ros1_services
  = Res (Normal tt)
        (<[key := <["name" := String.substring (i + 1)
                                (String.length ty - (i + 1)) ty]>
                    (<["package" := String.substring 0 i ty]> details)]>
           ros1_services) [].
Proof.
  intros Hk Ht Hi.
  destruct (split_at_separator _ _ Hi) as (_ & _ & Hlt).
  assert (string_of_range ty 0 (find ty "/") = Some (String.substring 0 i ty))
    as Hpackage.
  { unfold string_of_range, find. rewrite Hi.
    rewrite bool_decide_eq_true_2 by lia. do 2 f_equal; lia. }
  assert (string_of_range ty (find ty "/" + 1) (Z.of_nat (String.length ty))
          = Some (String.substring (i + 1) (String.length ty - (i + 1)) ty))
    as Hname.
  { unfold string_of_range, find. rewrite Hi.
    rewrite bool_decide_eq_true_2 by lia. do 2 f_equal; lia. }
  unfold split_type. run. rewrite Hk. simpl. rewrite Ht. simpl.
  rewrite Hpackage. run. rewrite Hname. finish_run. f_equal.
  unfold assign_field. rewrite Hk. simpl.
  by rewrite lookup_insert_eq, insert_insert_eq.
Qed.

(** X12.  A probe that reads a header whose ["type"] holds a ["/"] returns
    and leaves for the service an entry with the type under ["type"], the
    part before the first ["/"] under ["package"] and the part after it
    under ["name"]; no other entry of the snapshot changes. *)
Theorem probe_records_the_split_type server name ros1_services host port length
    header_in ty i :
  lookupService server = Some (host, port) →
  connect server = true →
  read_length server = (4%Z, length) →
  (0 ≤ read_response server)%Z →
  (read_response server `mod` 2 ^ 32)%Z = length →
  parse server = inr header_in →
  header_in !! "type" = Some ty →
  String.index 0 "/" ty = Some i →
  ended (get_ros1_service_info server name ros1_services) = Normal tt
  ∧ ∃ details,
      final (get_ros1_service_info server name ros1_services)
      = <[name := details]> ros1_services
      ∧ details !! "type" = Some ty
      ∧ splits ty details.
Proof.
  intros Hl Hc Hr H0 Hlen Hp Ht Hi.
  destruct (split_at_separator _ _ Hi) as (Hjoin & Hfirst & Hlt).
  unfold get_ros1_service_info. run.
  rewrite Hl, Hc, Hr. cbn [negb].
  rewrite bool_decide_eq_false_2 by (by intros ?).
  rewrite (bool_decide_eq_false_2 (read_response server < 0)%Z) by lia.
  rewrite bool_decide_eq_false_2 by (by intros ?).
  cbn [orb]. run. rewrite Hp, Ht. run.
  assert (assign_field name "type" ty (<[name := ∅]> ros1_services)
          = <[name := {["type" := ty]}]> ros1_services) as ->.
  { unfold assign_field. rewrite lookup_insert_eq, insert_insert_eq. simpl.
    by rewrite insert_empty. }
  rewrite (split_type_with_separator name ty _ {["type" := ty]} i);
    [|apply lookup_insert_eq|apply lookup_singleton_eq|done].
  cbn [prepend ended final]. split; [done|].
  rewrite insert_insert_eq.
  eexists. split; [done|]. split.
  - rewrite !lookup_insert_ne by done. apply lookup_singleton_eq.
  - eexists _, _. split_and!; [|apply lookup_insert_eq|done|done].
    rewrite lookup_insert_ne by done. apply lookup_insert_eq.
Qed.

(** ** The pollers: which names become active *)

Section PollerExtras.
Context {RE : RegexEngine}.

Lemma preserves_anything {S A} (m : M S A) : preserves (λ _, True) (λ _, True) m.
Proof. intros s _. split; [done | by apply Forall_forall]. Qed.

(** A topic all of whose nodes are the bridge itself is not looked at. *)
Lemma first_other_node_own {S} this_node (body : M S unit) nodes :
  Forall (λ node_name, node_name = this_node) nodes →
  first_other_node this_node body nodes = mret tt.
Proof.
  induction 1 as [|node_name nodes Hown _ IH]; simpl; [done|].
  by rewrite bool_decide_eq_true_2.
Qed.

Lemma whitelist_ros1_topic_frame (Inv : Ros1Poll → Prop) regex_list topic_name
    activate :
  (∀ st X, Inv st → Inv (with_valid_ros1_topics X st)) →
  (∀ st X, Inv st → Inv (with_already_ignored_ros1_topics X st)) →
  preserves Inv (λ _, True) activate →
  preserves Inv (λ _, True) (whitelist_ros1_topic regex_list topic_name activate).
Proof.
  intros Hvalid Hignored Hact. unfold whitelist_ros1_topic.
  apply preserves_bind; [apply preserves_get | intros st0].
  case_bool_decide; [apply preserves_ret|].
  destruct (check_inregex_list regex_list topic_name (valid_ros1_topics st0))
    as [[found known_set] evaluated].
  apply preserves_bind; [by apply preserves_emit | intros _].
  apply preserves_bind.
  { apply preserves_modify. intros st HI. by apply Hvalid. }
  intros _. destruct found; [done|].
  apply preserves_bind; [by apply preserves_emit | intros _].
  apply preserves_modify. intros st HI. by apply Hignored.
Qed.

Lemma check_service_frame (Inv : Ros1Poll → Prop) network regex_list entry :
  (∀ st X, Inv st → Inv (with_valid_ros1_services X st)) →
  (∀ st X, Inv st → Inv (with_already_ignored_ros1_services X st)) →
  (∀ st m, Inv st → Inv (with_active_ros1_services m st)) →
  preserves Inv (λ _, True) (check_service network regex_list entry).
Proof.
  intros Hvalid Hignored Hactive. unfold check_service.
  apply preserves_bind; [apply preserves_get | intros st0].
  case_bool_decide; [apply preserves_ret|].
  destruct (check_inregex_list regex_list entry.1 (valid_ros1_services st0))
    as [[found known_set] evaluated].
  apply preserves_bind; [by apply preserves_emit | intros _].
  apply preserves_bind.
  { apply preserves_modify. intros st HI. by apply Hvalid. }
  intros _. destruct found.
  - apply preserves_zoom; [|apply preserves_anything].
    intros st t HI. by apply Hactive.
  - apply preserves_bind; [by apply preserves_emit | intros _].
    apply preserves_modify. intros st HI. by apply Hignored.
Qed.

(** X13.  A topic that the master lists as published only by the node of
    the bridge itself is not among the active publishers after
    [ros1_poll] has gone through the system state, and a topic subscribed
    only by the bridge itself is not among the active subscribers:
    the endpoints the bridge creates do not count as a demand. *)
Theorem own_node_does_not_activate this_node topic_regex_list srv_regex_list
    payload network st n :
  let st' := final (collect_ros1_names this_node topic_regex_list srv_regex_list
                      payload network st) in
  ((∀ nodes, (n, nodes) ∈ default [] (payload !! 0) →
             Forall (λ node_name, node_name = this_node) nodes) →
   n ∉ active_publishers st')
  ∧ ((∀ nodes, (n, nodes) ∈ default [] (payload !! 1) →
               Forall (λ node_name, node_name = this_node) nodes) →
     n ∉ active_subscribers st').
Proof.
  intros st'. subst st'. unfold collect_ros1_names. run. split; intros Hown.
  - match goal with
    | |- context [(?m ≫= ?k) ?s] =>
        assert (preserves (λ st, n ∉ active_publishers st) (λ _, True) (m ≫= k))
          as Hp
    end.
    { apply preserves_bind.
      { apply preserves_for_each. intros [k nodes] Hin. unfold check_publisher.
        cbn [fst snd]. destruct (decide (k = n)) as [->|Hne].
        - rewrite first_other_node_own by by apply Hown. apply preserves_ret.
        - apply first_other_node_preserves, whitelist_ros1_topic_frame;
            [done | done |].
          apply preserves_modify. intros st0 H0. simpl.
          by apply not_elem_of_add. }
      intros _. apply preserves_bind.
      { apply preserves_for_each. intros entry _. unfold check_subscriber.
        apply first_other_node_preserves, whitelist_ros1_topic_frame;
          [done | done | by apply preserves_modify]. }
      intros _. apply preserves_bind; [by apply preserves_modify | intros _].
      apply preserves_for_each. intros entry _. by apply check_service_frame. }
    eapply proj1, Hp. simpl. apply not_elem_of_empty.
  - match goal with
    | |- context [(?m ≫= ?k) ?s] =>
        assert (preserves (λ st, n ∉ active_subscribers st) (λ _, True) (m ≫= k))
          as Hp
    end.
    { apply preserves_bind.
      { apply preserves_for_each. intros entry _. unfold check_publisher.
        apply first_other_node_preserves, whitelist_ros1_topic_frame;
          [done | done | by apply preserves_modify]. }
      intros _. apply preserves_bind.
      { apply preserves_for_each. intros [k nodes] Hin. unfold check_subscriber.
        cbn [fst snd]. destruct (decide (k = n)) as [->|Hne].
        - rewrite first_other_node_own by by apply Hown. apply preserves_ret.
        - apply first_other_node_preserves, whitelist_ros1_topic_frame;
            [done | done |].
          apply preserves_modify. intros st0 H0. simpl.
          by apply not_elem_of_add. }
      intros _. apply preserves_bind; [by apply preserves_modify | intros _].
      apply preserves_for_each. intros entry _. by apply check_service_frame. }
    eapply proj1, Hp. simpl. apply not_elem_of_empty.
Qed.

(** *** ROS 2 topics *)

(** One visit of the loop over [ros2_topics], seen from the entry of [n] in
    [current_ros2_publishers]. *)
Lemma check_ros2_topic_publishers n regex_list count_publishers count_subscribers
    bridged_1to2 bridged_2to1 topic_and_types :
  (topic_and_types.1 = n →
   count_publishers n = 0
   ∨ (bridged_1to2 n = true ∧ count_publishers n = 1)
   ∨ 1 < length topic_and_types.2) →
  preserves (λ st, current_ros2_publishers st !! n = None) (λ _, True)
    (check_ros2_topic regex_list count_publishers count_subscribers
       bridged_1to2 bridged_2to1 topic_and_types).
Proof.
  intros Hcond st HI. split; [|by apply Forall_forall].
  unfold check_ros2_topic.
  destruct topic_and_types as [k types]. cbn [fst snd] in *.
  case_bool_decide; [done|].
  destruct types as [|topic_type types]; cbn [element_0]; run; [done|].
  case_bool_decide as Hmany.
  { case_bool_decide; [done|]. run. by finish_run. }
  case_bool_decide; [done|].
  destruct (check_inregex_list regex_list k (valid_ros2_topics st))
    as [[found known_set] evaluated].
  run. cbn [prepend final].
  destruct found; cbn [negb]; [|run; by finish_run].
  cbv zeta.
  destruct (decide (k = n)) as [->|Hne].
  - assert ((if bridged_1to2 n && bool_decide (0 < count_publishers n)
             then count_publishers n - 1 else count_publishers n) = 0) as ->.
    { destruct (Hcond eq_refl) as [Hnone|[[Hb Hone]|?]]; [| |lia].
      - rewrite Hnone. by destruct (bridged_1to2 n).
      - by rewrite Hb, Hone. }
    rewrite (bool_decide_eq_false_2 (0 ≠ 0)) by (by intros ?). run.
    case_bool_decide; by finish_run.
  - repeat case_bool_decide; run; finish_run; simpl;
      rewrite ?lookup_insert_ne by done; done.
Qed.

Lemma check_ros2_topic_subscribers n regex_list count_publishers count_subscribers
    bridged_1to2 bridged_2to1 topic_and_types :
  (topic_and_types.1 = n →
   count_subscribers n = 0
   ∨ (bridged_2to1 n = true ∧ count_subscribers n = 1)
   ∨ 1 < length topic_and_types.2) →
  preserves (λ st, current_ros2_subscribers st !! n = None) (λ _, True)
    (check_ros2_topic regex_list count_publishers count_subscribers
       bridged_1to2 bridged_2to1 topic_and_types).
Proof.
  intros Hcond st HI. split; [|by apply Forall_forall].
  unfold check_ros2_topic.
  destruct topic_and_types as [k types]. cbn [fst snd] in *.
  case_bool_decide; [done|].
  destruct types as [|topic_type types]; cbn [element_0]; run; [done|].
  case_bool_decide as Hmany.
  { case_bool_decide; [done|]. run. by finish_run. }
  case_bool_decide; [done|].
  destruct (check_inregex_list regex_list k (valid_ros2_topics st))
    as [[found known_set] evaluated].
  run. cbn [prepend final].
  destruct found; cbn [negb]; [|run; by finish_run].
  cbv zeta.
  destruct (decide (k = n)) as [->|Hne].
  - assert ((if bridged_2to1 n && bool_decide (0 < count_subscribers n)
             then count_subscribers n - 1 else count_subscribers n) = 0) as ->.
    { destruct (Hcond eq_refl) as [Hnone|[[Hb Hone]|?]]; [| |lia].
      - rewrite Hnone. by destruct (bridged_2to1 n).
      - by rewrite Hb, Hone. }
    rewrite (bool_decide_eq_false_2 (0 ≠ 0)) by (by intros ?).
    case_bool_decide; run; by finish_run.
  - repeat case_bool_decide; run; finish_run; simpl;
      rewrite ?lookup_insert_ne by done; done.
Qed.

Lemma check_ros2_service_frame (Inv : Ros2Poll → Prop) regex_list
    service_and_types :
  (∀ st X, Inv st → Inv (with_valid_ros2_services X st)) →
  (∀ st X, Inv st → Inv (with_already_ignored_services X st)) →
  (∀ st m, Inv st → Inv (with_active_ros2_services m st)) →
  preserves Inv (λ _, True) (check_ros2_service regex_list service_and_types).
Proof.
  intros Hvalid Hignored Hactive. unfold check_ros2_service.
  apply preserves_bind; [apply preserves_element_0 | intros service_type].
  apply preserves_bind; [apply preserves_get | intros st0].
  case_bool_decide.
  { case_bool_decide; [apply preserves_ret|].
    apply preserves_bind; [by apply preserves_emit | intros _].
    apply preserves_modify. intros st HI. by apply Hignored. }
  case_bool_decide; [apply preserves_ret|].
  destruct (check_inregex_list regex_list service_and_types.1
              (valid_ros2_services st0)) as [[found known_set] evaluated].
  apply preserves_bind; [by apply preserves_emit | intros _].
  apply preserves_bind.
  { apply preserves_modify. intros st HI. by apply Hvalid. }
  intros _. destruct found; cbn [negb].
  - case_bool_decide; [by apply preserves_emit|].
    apply preserves_bind; apply preserves_modify || intros _.
    + intros st HI. by apply Hactive.
    + apply preserves_modify. intros st HI. by apply Hactive.
  - apply preserves_bind; [by apply preserves_emit | intros _].
    apply preserves_modify. intros st HI. by apply Hignored.
Qed.

(** X14.  [ros2_poll] leaves out of [current_ros2_publishers] a topic the
    node counts no publisher for, and a topic whose only publisher is the
    one of its own 1to2 bridge; likewise [current_ros2_subscribers] for
    subscribers and the 2to1 bridge. *)
Theorem own_endpoints_are_not_counted topic_regex_list srv_regex_list ros2_topics
    ros2_services_and_types count_publishers count_subscribers
    bridged_1to2 bridged_2to1 st n :
  let st' := final (collect_ros2_names topic_regex_list srv_regex_list
                      ros2_topics ros2_services_and_types count_publishers
                      count_subscribers bridged_1to2 bridged_2to1 st) in
  (count_publishers n = 0 ∨ (bridged_1to2 n = true ∧ count_publishers n = 1) →
   current_ros2_publishers st' !! n = None)
  ∧ (count_subscribers n = 0 ∨ (bridged_2to1 n = true ∧ count_subscribers n = 1) →
     current_ros2_subscribers st' !! n = None).
Proof.
  intros st'. subst st'. unfold collect_ros2_names. run. split; intros Hcount.
  - match goal with
    | |- context [(?m ≫= ?k) ?s] =>
        assert (preserves (λ st, current_ros2_publishers st !! n = None)
                  (λ _, True) (m ≫= k)) as Hp
    end.
    { apply preserves_bind.
      { apply preserves_for_each. intros entry _.
        apply check_ros2_topic_publishers. intros _.
        destruct Hcount as [?|?]; [by left | by right; left]. }
      intros _. apply preserves_bind; [by apply preserves_modify | intros _].
      apply preserves_for_each. intros entry _.
      by apply check_ros2_service_frame. }
    eapply proj1, Hp. simpl. apply lookup_empty.
  - match goal with
    | |- context [(?m ≫= ?k) ?s] =>
        assert (preserves (λ st, current_ros2_subscribers st !! n = None)
                  (λ _, True) (m ≫= k)) as Hp
    end.
    { apply preserves_bind.
      { apply preserves_for_each. intros entry _.
        apply check_ros2_topic_subscribers. intros _.
        destruct Hcount as [?|?]; [by left | by right; left]. }
      intros _. apply preserves_bind; [by apply preserves_modify | intros _].
      apply preserves_for_each. intros entry _.
      by apply check_ros2_service_frame. }
    eapply proj1, Hp. simpl. apply lookup_empty.
Qed.

(** X15.  When every topic is reported with a type, a topic the ROS 2 node
    reports with more than one type is put aside by [ros2_poll]: after the
    poll it is in [already_ignored_topics] and in neither snapshot, whatever
    the whitelist says about its name.  The name ["parameter_events"], which
    the loop skips before this test, is left out. *)
Theorem multi_type_topic_is_put_aside topic_regex_list srv_regex_list ros2_topics
    ros2_services_and_types count_publishers count_subscribers
    bridged_1to2 bridged_2to1 st n types :
  reported_with_a_type ros2_topics →
  ros2_topics !! n = Some types → 1 < length types → n ∉ ignored_topics →
  put_aside_ros2 n
    (final (collect_ros2_names topic_regex_list srv_regex_list ros2_topics
              ros2_services_and_types count_publishers count_subscribers
              bridged_1to2 bridged_2to1 st)).
Proof.
  intros Htyped Hn Hmany Hkept. unfold collect_ros2_names. run.
  set (st0 := with_current_ros2_subscribers ∅ (with_current_ros2_publishers ∅ st)).
  set (body := check_ros2_topic topic_regex_list count_publishers
                 count_subscribers bridged_1to2 bridged_2to1).
  destruct (in_key_order_split _ _ _ Hn) as (before & after & Heq & Hb & Ha).
  assert (∀ y, y ∈ in_key_order ros2_topics → returns (body y)) as Hret.
  { intros [k tys] Hin%elem_of_in_key_order.
    apply check_ros2_topic_returns. exact (Htyped k tys Hin). }
  destruct (returns_for_each body (in_key_order ros2_topics) Hret st0)
    as [[] Hall].
  rewrite (bind_prepend _ _ _ _ Hall). cbn [prepend final].
  rewrite Heq in Hret |- *.
  rewrite for_each_at_in; cycle 1.
  { intros y Hy. apply Hret. apply elem_of_app. by left. }
  { apply Hret. apply elem_of_app. right. by left. }
  cbn [prepend final].
  destruct (preserves_for_each
              (λ st, current_ros2_publishers st !! n = None
                     ∧ current_ros2_subscribers st !! n = None)
              (λ _, True) body before) with (st := st0) as [[Hp1 Hs1] _].
  { intros [k tys] Hin.
    assert (k ≠ n) as Hne.
    { intros ->. apply Hb. apply list_elem_of_fmap. by exists (n, tys). }
    intros s [H1 H2]. split; [|by apply Forall_forall]. split.
    - by apply (check_ros2_topic_publishers n).
    - by apply (check_ros2_topic_subscribers n). }
  { split; apply lookup_empty. }
  set (st1 := final (for_each body before st0)) in *.
  assert (put_aside_ros2 n (final (body (n, types) st1))) as Hside.
  { subst body. unfold check_ros2_topic. cbn [fst snd].
    rewrite bool_decide_eq_false_2 by done.
    destruct types as [|topic_type types]; [simpl in Hmany; lia|].
    cbn [element_0]. run.
    rewrite bool_decide_eq_true_2 by done.
    case_bool_decide; [by split_and!|].
    run. finish_run. split_and!; simpl; [|done..].
    apply elem_of_union. left. by apply elem_of_singleton. }
  destruct (preserves_for_each (put_aside_ros2 n) (λ e, offered_topic n e = false)
              body after) with (st := final (body (n, types) st1)) as [Hside2 _].
  { intros entry _. apply check_ros2_topic_put_aside. }
  { done. }
  run.
  apply (preserves_for_each (put_aside_ros2 n) (λ e, offered_topic n e = false)
           (check_ros2_service srv_regex_list)).
  - intros entry _. apply check_ros2_service_put_aside.
  - by destruct Hside2 as (? & ? & ?).
Qed.

(** *** The snapshot of the ROS 1 topics *)

Lemma record_topic_types_fst publishers subscribers topics current :
  (foldl (record_topic_types publishers subscribers) current topics).1
  = foldl (λ (m : gmap string string) (topic : string * string),
             if bool_decide (topic.1 ∈ publishers)
             then <[topic.1 := topic.2]> m else m) current.1 topics.
Proof.
  revert current. induction topics as [|topic topics IH]; intros current; [done|].
  cbn [foldl]. by rewrite IH.
Qed.

Lemma record_topic_types_snd publishers subscribers topics current :
  (foldl (record_topic_types publishers subscribers) current topics).2
  = foldl (λ (m : gmap string string) (topic : string * string),
             if bool_decide (topic.1 ∈ subscribers)
             then <[topic.1 := topic.2]> m else m) current.2 topics.
Proof.
  revert current. induction topics as [|topic topics IH]; intros current; [done|].
  cbn [foldl]. by rewrite IH.
Qed.

(** The loop of lines 670-691, for one of its two maps: [names] is the set
    of active names the map is filtered by. *)
Lemma recorded_types_lookup (names : gset string) topics
    (current : gmap string string) n :
  let recorded :=
    foldl (λ (m : gmap string string) (topic : string * string),
             if bool_decide (topic.1 ∈ names)
             then <[topic.1 := topic.2]> m else m) current topics in
  (∀ datatype, recorded !! n = Some datatype →
     current !! n = Some datatype ∨ (n ∈ names ∧ (n, datatype) ∈ topics))
  ∧ (is_Some (current !! n) ∨ (n ∈ names ∧ n ∈ topics.*1) →
     is_Some (recorded !! n)).
Proof.
  revert current. induction topics as [|[k v] topics IH]; intros current.
  { simpl. split; [intros ? ?; by left|].
    intros [?|[_ Hin]]; [done | by apply elem_of_nil in Hin]. }
  cbn [foldl fst snd]. rewrite fmap_cons. cbn [fst].
  destruct (decide (k ∈ names)) as [Hk|Hk].
  - rewrite bool_decide_eq_true_2 by done.
    destruct (IH (<[k := v]> current)) as [IH1 IH2]. split.
    + intros datatype Hr. destruct (IH1 datatype Hr) as [Hc|[? ?]];
        [|right; split; [done | by right]].
      destruct (decide (n = k)) as [->|Hne].
      * rewrite lookup_insert_eq in Hc. simplify_eq.
        right. split; [done | by left].
      * left. by rewrite lookup_insert_ne in Hc.
    + intros Hn. apply IH2.
      destruct (decide (n = k)) as [->|Hne];
        [left; rewrite lookup_insert_eq; by eexists|].
      rewrite lookup_insert_ne by done.
      destruct Hn as [?|[? Hin]]; [by left|].
      apply elem_of_cons in Hin as [?|?]; [done | by right].
  - rewrite bool_decide_eq_false_2 by done.
    destruct (IH current) as [IH1 IH2]. split.
    + intros datatype Hr. destruct (IH1 datatype Hr) as [Hc|[? ?]];
        [by left | right; split; [done | by right]].
    + intros Hn. apply IH2. destruct Hn as [?|[? Hin]]; [by left|].
      apply elem_of_cons in Hin as [->|?]; [done | by right].
Qed.

(** X16.  The two snapshots [ros1_poll] builds from the answer of
    [getTopics]: a name is in [current_ros1_publishers] exactly when it is
    an active publisher and the master reports a type for it, and its type
    is one the master reports; a name is in [current_ros1_subscribers]
    exactly when it is an active subscriber, with a type the master
    reports or, when the master reports none, the empty string. *)
Theorem ros1_snapshot_of_active_topics st topics n :
  let current := current_ros1_topics st topics in
  (is_Some (current.1 !! n) ↔ n ∈ active_publishers st ∧ n ∈ topics.*1)
  ∧ (∀ datatype, current.1 !! n = Some datatype → (n, datatype) ∈ topics)
  ∧ (is_Some (current.2 !! n) ↔ n ∈ active_subscribers st)
  ∧ (∀ datatype, current.2 !! n = Some datatype →
       (n, datatype) ∈ topics ∨ ((n ∉ topics.*1) ∧ datatype = "")).
Proof.
  intros current. subst current. unfold current_ros1_topics. cbn [fst snd].
  rewrite record_topic_types_fst, record_topic_types_snd. cbn [fst snd].
  destruct (recorded_types_lookup (active_publishers st) topics ∅ n) as [H1 H2].
  destruct (recorded_types_lookup (active_subscribers st) topics ∅ n) as [H3 H4].
  cbv zeta in H1, H2, H3, H4.
  match goal with
  | |- context [set_fold add_untyped_subscriber ?m _] => set (typed := m) in *
  end.
  split_and!.
  - split.
    + intros [datatype Hd]. destruct (H1 datatype Hd) as [He|[Hp Hin]].
      { by rewrite lookup_empty in He. }
      split; [done|]. apply list_elem_of_fmap. by exists (n, datatype).
    + intros [Hp Hin]. apply H2. by right.
  - intros datatype Hd. destruct (H1 datatype Hd) as [He|[_ Hin]]; [|done].
    by rewrite lookup_empty in He.
  - rewrite add_untyped_subscriber_fold.
    destruct (typed !! n) as [recorded|] eqn:Hl.
    + split; [intros _ | by eexists].
      destruct (H3 recorded eq_refl) as [He|[? _]]; [|done].
      by rewrite lookup_empty in He.
    + case_bool_decide; split; try done;
        first [by eexists | by intros [? ?]].
  - intros datatype. rewrite add_untyped_subscriber_fold.
    destruct (typed !! n) as [recorded|] eqn:Hl.
    + intros [= <-]. destruct (H3 recorded eq_refl) as [He|[_ Hin]]; [|by left].
      by rewrite lookup_empty in He.
    + case_bool_decide as Hs; [|done]. intros [= <-]. right. split; [|done].
      intros Hin. destruct H4 as [x Hx]; [by right | congruence].
Qed.
End PollerExtras.

(** ** The command line *)

Lemma std_find_None args flag :
  CommandLine.std_find args flag = None ↔ flag ∉ args.
Proof.
  induction args as [|arg args IH]; simpl.
  - split; [intros _; apply not_elem_of_nil | done].
  - case_bool_decide as Harg.
    + split; [done|]. intros Hnot. destruct Hnot. subst. by left.
    + rewrite fmap_None, IH, not_elem_of_cons. split; [by intros ? | by intros [_ ?]].
Qed.

Lemma std_find_first before flag rest :
  flag ∉ before →
  CommandLine.std_find (before ++ flag :: rest) flag = Some (length before).
Proof.
  induction before as [|arg before IH]; intros Hnot; simpl.
  - by rewrite bool_decide_eq_true_2.
  - apply not_elem_of_cons in Hnot as [Hne Hnot].
    rewrite bool_decide_eq_false_2 by done. by rewrite IH.
Qed.

Lemma get_flag_option_true args flag :
  CommandLine.get_flag_option args flag = true ↔ flag ∈ args.
Proof.
  unfold CommandLine.get_flag_option. rewrite bool_decide_eq_true, std_find_None.
  split; [apply dec_stable | by intros ??].
Qed.

Lemma find_command_option_true args flag :
  CommandLine.find_command_option args flag = true ↔ flag ∈ args.
Proof. apply get_flag_option_true. Qed.

(** X17.  [get_flag_val] returns the argument that follows the first
    occurrence of the option, whatever that argument is, another option
    included; it returns the default when the option does not occur and
    when its first occurrence is the last argument.  Later occurrences of
    the option are not looked at. *)
Theorem get_flag_val_takes_what_follows args flag default_val :
  (flag ∉ args → CommandLine.get_flag_val args flag default_val = default_val)
  ∧ (∀ before rest,
       args = before ++ flag :: rest → flag ∉ before →
       CommandLine.get_flag_val args flag default_val
       = default default_val (head rest)).
Proof.
  split.
  - intros Hnot. unfold CommandLine.get_flag_val.
    by rewrite (proj2 (std_find_None args flag) Hnot).
  - intros before rest -> Hnot. unfold CommandLine.get_flag_val.
    rewrite std_find_first by done.
    rewrite lookup_app_r by lia.
    replace (S (length before) - length before) with 1 by lia.
    by destruct rest.
Qed.

(** X18.  [parse_command_options] returns false exactly when the arguments
    hold [-h], [--help] or [--print-pairs]; with [-h] or [--help] it writes
    the usage text and nothing else, whatever the other arguments.  When it
    returns true it has written nothing, [--bridge-all-topics] has set both
    direction flags, and each direction flag is set exactly when
    [--bridge-all-topics] or the option of the direction is among the
    arguments. *)
Theorem parse_command_options_flags message_mappings service_mappings args :
  let '(written, parsed) :=
    CommandLine.parse_command_options message_mappings service_mappings args in
  (parsed = None ↔ "-h" ∈ args ∨ "--help" ∈ args ∨ "--print-pairs" ∈ args)
  ∧ ("-h" ∈ args ∨ "--help" ∈ args → written = [CommandLine.cout CommandLine.usage])
  ∧ (∀ p, parsed = Some p →
       written = []
       ∧ (CommandLine.output_topic_introspection p = true
          ↔ "--show-introspection" ∈ args)
       ∧ (CommandLine.bridge_all_1to2_topics p = true
          ↔ "--bridge-all-topics" ∈ args ∨ "--bridge-all-1to2-topics" ∈ args)
       ∧ (CommandLine.bridge_all_2to1_topics p = true
          ↔ "--bridge-all-topics" ∈ args ∨ "--bridge-all-2to1-topics" ∈ args)).
Proof.
  unfold CommandLine.parse_command_options.
  destruct (CommandLine.find_command_option args "-h"
            || CommandLine.find_command_option args "--help") eqn:Hhelp.
  { apply orb_true_iff in Hhelp.
    rewrite !find_command_option_true in Hhelp.
    split_and!; [|done|done]. split; [intros _|done]. tauto. }
  apply orb_false_iff in Hhelp as [Hh Hhelp].
  assert ("-h" ∉ args) as Hh'.
  { rewrite <- find_command_option_true. by rewrite Hh. }
  assert ("--help" ∉ args) as Hhelp'.
  { rewrite <- find_command_option_true. by rewrite Hhelp. }
  destruct (CommandLine.get_flag_option args "--print-pairs") eqn:Hpairs.
  { apply get_flag_option_true in Hpairs.
    split_and!; [|tauto|done]. split; [intros _|done]. tauto. }
  assert ("--print-pairs" ∉ args) as Hpairs'.
  { rewrite <- get_flag_option_true. by rewrite Hpairs. }
  split_and!; [split; [done | tauto] | tauto |].
  intros p [= <-]. simpl. split; [done|].
  rewrite !orb_true_iff, !get_flag_option_true. done.
Qed.

(** ** The whitelists of [main] *)

Section WhitelistLoading.
Context {RE : RegexEngine} {PS : ParameterServer}.

(** The loop over the elements of an array appends the patterns in the
    order of the array. *)
Lemma emplace_back_all name rgxps (whitelist_map : gmap string (list regex)) regex_list patterns :
  whitelist_map !! name = Some regex_list →
  compile_all rgxps = Some patterns →
  for_each (emplace_back name) rgxps whitelist_map
  = Res (Normal tt) (<[name := regex_list ++ patterns]> whitelist_map) [].
Proof.
  intros Hl Hc. unfold compile_all in Hc. apply mapM_Some in Hc.
  revert whitelist_map regex_list Hl.
  induction Hc as [|element rgxp rgxps rest Hrgxp _ IH];
    intros whitelist_map regex_list Hl.
  { cbn [for_each]. rewrite app_nil_r. by rewrite insert_id by done. }
  assert (emplace_back name element
          = modify (λ m : gmap string (list regex),
                      <[name := default [] (m !! name) ++ [rgxp]]> m)) as Hone.
  { unfold emplace_back.
    destruct (as_string element) as [what|rgxp_str]; [done|].
    destruct (compile rgxp_str) as [what|rgxp']; [done|].
    by injection Hrgxp as ->. }
  rewrite for_each_cons, Hone. run. cbv beta. rewrite Hl. simpl.
  rewrite (IH _ (regex_list ++ [rgxp])); [|apply lookup_insert_eq].
  by rewrite insert_insert_eq, <- app_assoc.
Qed.

Lemma resolve_listed name (whitelist_map : gmap string (list regex)) patterns :
  whitelist_map !! name = Some [] →
  patterns_of name = Some patterns →
  ended (resolve name whitelist_map) = Normal tt
  ∧ final (resolve name whitelist_map) = <[name := patterns]> whitelist_map.
Proof.
  intros Hl Hp. unfold resolve, patterns_of in *.
  destruct (getParam name ≫= as_array) as [rgxps|].
  - by rewrite (emplace_back_all name rgxps whitelist_map [] patterns).
  - injection Hp as <-. simpl. by rewrite insert_id.
Qed.

Lemma resolve_all names (whitelist_map : gmap string (list regex)) :
  NoDup names →
  (∀ name, name ∈ names →
           whitelist_map !! name = Some [] ∧ is_Some (patterns_of name)) →
  ended (for_each resolve names whitelist_map) = Normal tt
  ∧ (∀ name, name ∈ names →
             final (for_each resolve names whitelist_map) !! name
             = patterns_of name)
  ∧ (∀ name, (name ∉ names) →
             final (for_each resolve names whitelist_map) !! name
             = whitelist_map !! name).
Proof.
  revert whitelist_map. induction names as [|name names IH];
    intros whitelist_map Hnd Hall.
  { split_and!; [done | | done]. intros name Hin. by apply elem_of_nil in Hin. }
  apply NoDup_cons in Hnd as [Hnew Hnd].
  destruct (Hall name) as [Hl [patterns Hp]]; [by left|].
  destruct (resolve_listed name whitelist_map patterns Hl Hp) as [Hret Hfin].
  rewrite for_each_cons, (bind_prepend _ _ _ _ Hret), Hfin.
  cbn [prepend ended final].
  destruct (IH (<[name := patterns]> whitelist_map) Hnd) as (Hend & Hin & Hout).
  { intros n Hn. destruct (Hall n) as [? ?]; [by right|].
    rewrite lookup_insert_ne; [done|]. by intros ->. }
  split_and!; [done | |].
  - intros n [->|Hn]%elem_of_cons; [|by apply Hin].
    by rewrite Hout, lookup_insert_eq.
  - intros n [Hne Hn]%not_elem_of_cons. rewrite Hout by done.
    by rewrite lookup_insert_ne.
Qed.

(** X19.  When each of the two parameters is missing, is not an array, or
    is an array of strings that all compile, the loop of [main] returns and
    leaves under each parameter name the patterns of its array in the
    order of the array, the empty list for a parameter that is missing or
    not an array.  This holds also when the two names are the same: the
    topic and the service whitelist are then the same list. *)
Theorem whitelists_are_loaded_in_order topic_rgxp_list_param srv_rgxp_list_param
    topic_regex_list srv_regex_list st :
  patterns_of topic_rgxp_list_param = Some topic_regex_list →
  patterns_of srv_rgxp_list_param = Some srv_regex_list →
  ended (load_whitelist_map topic_rgxp_list_param srv_rgxp_list_param st)
  = Normal tt
  ∧ whitelist (final (load_whitelist_map topic_rgxp_list_param
                        srv_rgxp_list_param st)) topic_rgxp_list_param
    = topic_regex_list
  ∧ whitelist (final (load_whitelist_map topic_rgxp_list_param
                        srv_rgxp_list_param st)) srv_rgxp_list_param
    = srv_regex_list.
Proof.
  intros Ht Hs. unfold load_whitelist_map. run.
  set (whitelist_map := <[srv_rgxp_list_param := []]>
                          (<[topic_rgxp_list_param := []]> ∅) : gmap string (list regex)).
  destruct (resolve_all (in_key_order whitelist_map).*1 whitelist_map)
    as (Hend & Hin & _).
  { apply NoDup_in_key_order. }
  { intros name [[k v] [-> Hk%elem_of_in_key_order]]%list_elem_of_fmap.
    cbn [fst]. subst whitelist_map.
    destruct (decide (k = srv_rgxp_list_param)) as [->|Hne1].
    { rewrite lookup_insert_eq. split; [done | by eexists]. }
    rewrite lookup_insert_ne in Hk |- * by done.
    destruct (decide (k = topic_rgxp_list_param)) as [->|Hne2].
    { rewrite lookup_insert_eq. split; [done | by eexists]. }
    by rewrite lookup_insert_ne, lookup_empty in Hk. }
  split; [done|]. unfold whitelist. rewrite !Hin, Ht, Hs; [done | |].
  - apply registered_is_visited. subst whitelist_map.
    rewrite lookup_insert_eq. by eexists.
  - apply registered_is_visited. subst whitelist_map.
    destruct (decide (topic_rgxp_list_param = srv_rgxp_list_param)) as [->|Hne].
    + rewrite lookup_insert_eq. by eexists.
    + rewrite lookup_insert_ne, lookup_insert_eq by done. by eexists.
Qed.

(** A parameter that is missing or not an array leaves its list empty,
    whatever the loop does for the other parameter. *)
Lemma missing_parameter_gives_empty_list name topic_rgxp_list_param
    srv_rgxp_list_param st :
  getParam name ≫= as_array = None →
  name = topic_rgxp_list_param ∨ name = srv_rgxp_list_param →
  whitelist (final (load_whitelist_map topic_rgxp_list_param
                      srv_rgxp_list_param st)) name = [].
Proof.
  intros Hmissing Hname.
  unfold load_whitelist_map. run.
  set (whitelist_map := <[srv_rgxp_list_param := []]>
                          (<[topic_rgxp_list_param := []]> ∅) : gmap string (list regex)).
  assert (whitelist_map !! name = Some []) as Hstart.
  { subst whitelist_map.
    destruct (decide (name = srv_rgxp_list_param)) as [->|Hne];
      [apply lookup_insert_eq|].
    rewrite lookup_insert_ne by done.
    destruct Hname as [->|?]; [apply lookup_insert_eq | done]. }
  destruct (preserves_for_each
              (λ m : gmap string (list regex), m !! name = Some []) (λ _, True)
              resolve (in_key_order whitelist_map).*1) with (st := whitelist_map)
    as [Hkept _]; [|done|by unfold whitelist; rewrite Hkept].
  intros k _. unfold resolve.
  destruct (decide (k = name)) as [->|Hne].
  - rewrite Hmissing. by apply preserves_emit.
  - destruct (getParam k ≫= as_array) as [rgxps|]; [|by apply preserves_emit].
    apply preserves_for_each. intros element _. unfold emplace_back.
    destruct (as_string element) as [what|rgxp_str]; [apply preserves_halt|].
    destruct (compile rgxp_str) as [what|rgxp]; [apply preserves_halt|].
    apply preserves_modify. intros m Hm. by rewrite lookup_insert_ne.
Qed.
End WhitelistLoading.

Section EmptyWhitelist.
Context {RE : RegexEngine} {PS : ParameterServer} {C : Collaborators}.

Lemma keys_whitelisted_nil {V} (m : gmap string V) :
  keys_whitelisted [] m → m = ∅.
Proof.
  intros Hm. apply map_empty. intros n.
  destruct (m !! n) as [x|] eqn:Hx; [|done].
  destruct (Hm n) as (rgxp & Hin & _); [by eexists|].
  by apply elem_of_nil in Hin.
Qed.

(** X20.  When the parameter of the topic whitelist is missing or is not an
    array, the bridge bridges no topic: with the list [main] has loaded,
    [bridges_1to2] and [bridges_2to1] are empty after any sequence of
    firings of the two timers, whatever the command line, the service
    whitelist and what the pollers observe. *)
Theorem missing_topic_whitelist_bridges_nothing topic_rgxp_list_param
    srv_rgxp_list_param st (opts : Options) ticks w :
  getParam topic_rgxp_list_param ≫= as_array = None →
  topic_regex_list opts
  = whitelist (final (load_whitelist_map topic_rgxp_list_param
                        srv_rgxp_list_param st)) topic_rgxp_list_param →
  bridges_1to2 (registry (run_timers opts ticks (start w))) = ∅
  ∧ bridges_2to1 (registry (run_timers opts ticks (start w))) = ∅.
Proof.
  intros Hmissing Hlist.
  rewrite (missing_parameter_gives_empty_list topic_rgxp_list_param
             topic_rgxp_list_param srv_rgxp_list_param st Hmissing) in Hlist
    by by left.
  destruct (run_timers_whitelisted opts ticks (start w)
              (start_whitelisted opts w)) as (_ & _ & _ & H12 & H21 & _).
  rewrite Hlist in H12, H21.
  split; by apply keys_whitelisted_nil.
Qed.
End EmptyWhitelist.

(** ** Whitelisted names get through *)

Section Activation.
Context {RE : RegexEngine}.

Lemma whitelisted_is_found regex_list name known_set :
  whitelisted regex_list name →
  (check_inregex_list regex_list name known_set).1.1 = true.
Proof.
  intros Hw. unfold check_inregex_list. case_bool_decide; [done|].
  apply (match_in_order_found regex_list name 0) in Hw.
  by destruct (match_in_order regex_list name 0) as [[] evaluated].
Qed.

(** The loop over the nodes of a topic comes to its body when one of the
    nodes is not the bridge. *)
Lemma first_other_node_other {S} this_node (body : M S unit) nodes :
  (∃ node_name, node_name ∈ nodes ∧ node_name ≠ this_node) →
  first_other_node this_node body nodes = body.
Proof.
  intros (node_name & Hin & Hne).
  induction nodes as [|first nodes IH]; [by apply elem_of_nil in Hin|].
  simpl. case_bool_decide as Hfirst; [|done].
  apply IH. apply elem_of_cons in Hin as [->|Hin]; [congruence | done].
Qed.

(** A whitelisted name is never put into the already-ignored set. *)
Lemma whitelist_ros1_topic_keeps_wanted n regex_list topic_name activate :
  whitelisted regex_list n →
  preserves (λ st, n ∉ already_ignored_ros1_topics st) (λ _, True) activate →
  preserves (λ st, n ∉ already_ignored_ros1_topics st) (λ _, True)
    (whitelist_ros1_topic regex_list topic_name activate).
Proof.
  intros Hw Hact st HI. split; [|by apply Forall_forall].
  unfold whitelist_ros1_topic. run. case_bool_decide; [done|].
  pose proof (whitelisted_is_found regex_list n (valid_ros1_topics st) Hw) as Hfound.
  destruct (decide (topic_name = n)) as [->|Hne].
  - destruct (check_inregex_list regex_list n (valid_ros1_topics st))
      as [[found known_set] evaluated]. cbn [fst snd] in Hfound. subst found.
    run. cbn [prepend final]. by apply Hact.
  - destruct (check_inregex_list regex_list topic_name (valid_ros1_topics st))
      as [[found known_set] evaluated].
    run. cbn [prepend final]. destruct found; [by apply Hact|].
    run. finish_run. simpl. by apply not_elem_of_add.
Qed.

Lemma whitelist_ros1_topic_activates n regex_list activate st :
  whitelisted regex_list n → n ∉ already_ignored_ros1_topics st →
  final (whitelist_ros1_topic regex_list n activate st)
  = final (activate
             (with_valid_ros1_topics
                (check_inregex_list regex_list n (valid_ros1_topics st)).1.2 st)).
Proof.
  intros Hw Hnew. unfold whitelist_ros1_topic. run.
  rewrite bool_decide_eq_false_2 by done.
  pose proof (whitelisted_is_found regex_list n (valid_ros1_topics st) Hw) as Hfound.
  destruct (check_inregex_list regex_list n (valid_ros1_topics st))
    as [[found known_set] evaluated]. cbn [fst snd] in *. subst found.
  run. by cbn [prepend final].
Qed.

(** One of the two topic loops of [ros1_poll], cut at the entry of [n]. *)
Lemma topic_loop_activates (check : string * list string → M Ros1Poll unit)
    (active : Ros1Poll → gset string) entries n nodes st :
  (∀ entry, returns (check entry)) →
  (∀ entry, preserves (λ st, n ∉ already_ignored_ros1_topics st) (λ _, True)
              (check entry)) →
  (∀ entry, preserves (λ st, n ∈ active st) (λ _, True) (check entry)) →
  (∀ st0, n ∉ already_ignored_ros1_topics st0 →
          n ∈ active (final (check (n, nodes) st0))) →
  (n, nodes) ∈ entries → n ∉ already_ignored_ros1_topics st →
  n ∈ active (final (for_each check entries st)).
Proof.
  intros Hret Hkeep Hmono Hat Hin Hnew.
  apply list_elem_of_split in Hin as (before & after & ->).
  rewrite for_each_at by done. cbn [prepend final].
  destruct (preserves_for_each _ (λ _, True) check before (λ x _, Hkeep x) st Hnew)
    as [Hnew1 _].
  apply (preserves_for_each _ (λ _, True) check after (λ x _, Hmono x)).
  by apply Hat.
Qed.

Lemma check_publisher_keeps_wanted n this_node regex_list entry :
  whitelisted regex_list n →
  preserves (λ st, n ∉ already_ignored_ros1_topics st) (λ _, True)
    (check_publisher this_node regex_list entry).
Proof.
  intros Hw. unfold check_publisher.
  apply first_other_node_preserves, whitelist_ros1_topic_keeps_wanted; [done|].
  by apply preserves_modify.
Qed.

Lemma check_subscriber_keeps_wanted n this_node regex_list entry :
  whitelisted regex_list n →
  preserves (λ st, n ∉ already_ignored_ros1_topics st) (λ _, True)
    (check_subscriber this_node regex_list entry).
Proof.
  intros Hw. unfold check_subscriber.
  apply first_other_node_preserves, whitelist_ros1_topic_keeps_wanted; [done|].
  by apply preserves_modify.
Qed.

(** X23.  A topic that matches the topic whitelist, that is not in
    [already_ignored_ros1_topics], and that the master lists with a
    publisher other than the bridge is among the active publishers after
    [ros1_poll] has gone through the system state; with a subscriber other
    than the bridge it is among the active subscribers. *)
Theorem whitelisted_topic_becomes_active this_node topic_regex_list srv_regex_list
    payload network st n :
  whitelisted topic_regex_list n →
  n ∉ already_ignored_ros1_topics st →
  let st' := final (collect_ros1_names this_node topic_regex_list srv_regex_list
                      payload network st) in
  ((∃ nodes, (n, nodes) ∈ default [] (payload !! 0)
             ∧ ∃ node_name, node_name ∈ nodes ∧ node_name ≠ this_node) →
   n ∈ active_publishers st')
  ∧ ((∃ nodes, (n, nodes) ∈ default [] (payload !! 1)
               ∧ ∃ node_name, node_name ∈ nodes ∧ node_name ≠ this_node) →
     n ∈ active_subscribers st').
Proof.
  intros Hw Hnew st'. subst st'. unfold collect_ros1_names. run.
  set (st0 := with_active_subscribers ∅ (with_active_publishers ∅ st)).
  set (publishers := for_each (check_publisher this_node topic_regex_list)
                       (default [] (payload !! 0))).
  destruct (returns_for_each (check_publisher this_node topic_regex_list)
              (default [] (payload !! 0))
              (λ y _, check_publisher_returns this_node topic_regex_list y) st0)
    as [[] Hret1].
  rewrite (bind_prepend _ _ _ _ Hret1). cbn [prepend final]. fold publishers.
  set (st1 := final (publishers st0)).
  set (subscribers := for_each (check_subscriber this_node topic_regex_list)
                        (default [] (payload !! 1))).
  destruct (returns_for_each (check_subscriber this_node topic_regex_list)
              (default [] (payload !! 1))
              (λ y _, check_subscriber_returns this_node topic_regex_list y) st1)
    as [[] Hret2].
  rewrite (bind_prepend _ _ _ _ Hret2). cbn [prepend final]. fold subscribers.
  set (st2 := final (subscribers st1)).
  run.
  assert (∀ (Inv : Ros1Poll → Prop),
            (∀ st X, Inv st → Inv (with_valid_ros1_services X st)) →
            (∀ st X, Inv st → Inv (with_already_ignored_ros1_services X st)) →
            (∀ st m, Inv st → Inv (with_active_ros1_services m st)) →
            Inv st2 →
            Inv (final (for_each (check_service network srv_regex_list)
                          (default [] (payload !! 2))
                          (with_active_ros1_services ∅ st2)))) as Hservices.
  { intros Inv H1 H2 H3 HI.
    apply (preserves_for_each Inv (λ _, True)); [|by apply H3].
    intros entry _. by apply check_service_frame. }
  split.
  - intros (nodes & Hin & Hother). apply (Hservices (λ st, n ∈ active_publishers st));
      try done.
    apply (preserves_for_each (λ st, n ∈ active_publishers st) (λ _, True)).
    { intros entry _. unfold check_subscriber.
      apply first_other_node_preserves, whitelist_ros1_topic_frame;
        [done | done | by apply preserves_modify]. }
    apply (topic_loop_activates (check_publisher this_node topic_regex_list)
             active_publishers _ n nodes); try done.
    + apply check_publisher_returns.
    + intros entry. by apply check_publisher_keeps_wanted.
    + intros entry. unfold check_publisher.
      apply first_other_node_preserves, whitelist_ros1_topic_frame; [done | done |].
      apply preserves_modify. intros s Hs. simpl. by apply elem_of_add.
    + intros s Hs. unfold check_publisher. cbn [fst snd].
      rewrite first_other_node_other by done.
      rewrite whitelist_ros1_topic_activates by done. simpl.
      apply elem_of_union. left. by apply elem_of_singleton.
  - intros (nodes & Hin & Hother). apply (Hservices (λ st, n ∈ active_subscribers st));
      try done.
    apply (topic_loop_activates (check_subscriber this_node topic_regex_list)
             active_subscribers _ n nodes); try done.
    + apply check_subscriber_returns.
    + intros entry. by apply check_subscriber_keeps_wanted.
    + intros entry. unfold check_subscriber.
      apply first_other_node_preserves, whitelist_ros1_topic_frame; [done | done |].
      apply preserves_modify. intros s Hs. simpl. by apply elem_of_add.
    + intros s Hs. unfold check_subscriber. cbn [fst snd].
      rewrite first_other_node_other by done.
      rewrite whitelist_ros1_topic_activates by done. simpl.
      apply elem_of_union. left. by apply elem_of_singleton.
    + apply (preserves_for_each (λ st, n ∉ already_ignored_ros1_topics st)
               (λ _, True)); [|done].
      intros entry _. by apply check_publisher_keeps_wanted.
Qed.

(** One visit of the loop over [ros2_topics] to another topic than [n]. *)
Lemma check_ros2_topic_frame (Inv : Ros2Poll → Prop) regex_list count_publishers
    count_subscribers bridged_1to2 bridged_2to1 topic_and_types :
  (∀ st X, Inv st → Inv (with_valid_ros2_topics X st)) →
  (∀ st, Inv st →
     Inv (with_already_ignored_topics
            ({[topic_and_types.1]} ∪ already_ignored_topics st) st)) →
  (∀ st v, Inv st →
     Inv (with_current_ros2_publishers
            (<[topic_and_types.1 := v]> (current_ros2_publishers st)) st)) →
  (∀ st v, Inv st →
     Inv (with_current_ros2_subscribers
            (<[topic_and_types.1 := v]> (current_ros2_subscribers st)) st)) →
  preserves Inv (λ _, True)
    (check_ros2_topic regex_list count_publishers count_subscribers
       bridged_1to2 bridged_2to1 topic_and_types).
Proof.
  intros Hvalid Hignored Hpub Hsub st HI. split; [|by apply Forall_forall].
  unfold check_ros2_topic.
  destruct topic_and_types as [k types]. cbn [fst snd] in *.
  case_bool_decide; [done|].
  destruct types as [|topic_type types]; cbn [element_0]; run; [done|].
  case_bool_decide.
  { case_bool_decide; [done|]. run. finish_run. by apply Hignored. }
  case_bool_decide; [done|].
  destruct (check_inregex_list regex_list k (valid_ros2_topics st))
    as [[found known_set] evaluated].
  run. cbn [prepend final].
  specialize (Hvalid st known_set HI).
  destruct found; cbn [negb]; [|run; finish_run; by apply Hignored].
  cbv zeta.
  repeat case_bool_decide; run; finish_run; auto.
Qed.

(** X24.  When every topic is reported with a type, a topic the ROS 2 node
    reports with one type, that matches the topic whitelist and is not in
    [already_ignored_topics], is in [current_ros2_publishers] with that
    type after [ros2_poll] when the node counts a publisher for it besides
    the one of the 1to2 bridge the bridge may have for the topic, and in
    [current_ros2_subscribers] when the node counts a subscriber besides
    the one of its 2to1 bridge. *)
Theorem whitelisted_ros2_topic_is_listed topic_regex_list srv_regex_list ros2_topics
    ros2_services_and_types count_publishers count_subscribers
    bridged_1to2 bridged_2to1 st n topic_type :
  reported_with_a_type ros2_topics →
  ros2_topics !! n = Some [topic_type] →
  n ∉ ignored_topics →
  whitelisted topic_regex_list n →
  n ∉ already_ignored_topics st →
  let st' := final (collect_ros2_names topic_regex_list srv_regex_list
                      ros2_topics ros2_services_and_types count_publishers
                      count_subscribers bridged_1to2 bridged_2to1 st) in
  ((if bridged_1to2 n then 1 else 0) < count_publishers n →
   current_ros2_publishers st' !! n = Some topic_type)
  ∧ ((if bridged_2to1 n then 1 else 0) < count_subscribers n →
     current_ros2_subscribers st' !! n = Some topic_type).
Proof.
  intros Htyped Hn Hkept Hw Hnew st'. subst st'. unfold collect_ros2_names. run.
  set (st0 := with_current_ros2_subscribers ∅ (with_current_ros2_publishers ∅ st)).
  set (body := check_ros2_topic topic_regex_list count_publishers
                 count_subscribers bridged_1to2 bridged_2to1).
  destruct (in_key_order_split _ _ _ Hn) as (before & after & Heq & Hb & Ha).
  assert (∀ y, y ∈ in_key_order ros2_topics → returns (body y)) as Hret.
  { intros [k tys] Hin%elem_of_in_key_order.
    apply check_ros2_topic_returns. exact (Htyped k tys Hin). }
  destruct (returns_for_each body (in_key_order ros2_topics) Hret st0)
    as [[] Hall].
  rewrite (bind_prepend _ _ _ _ Hall). cbn [prepend final].
  rewrite Heq in Hret |- *.
  rewrite for_each_at_in; cycle 1.
  { intros y Hy. apply Hret. apply elem_of_app. by left. }
  { apply Hret. apply elem_of_app. right. by left. }
  cbn [prepend final]. run.
  destruct (preserves_for_each (λ st, n ∉ already_ignored_topics st)
              (λ _, True) body before) with (st := st0) as [Hnew1 _]; [|done|].
  { intros [k tys] Hin.
    assert (k ≠ n) as Hne.
    { intros ->. apply Hb. apply list_elem_of_fmap. by exists (n, tys). }
    apply check_ros2_topic_frame; try done.
    intros s Hs. simpl. by apply not_elem_of_add. }
  set (st1 := final (for_each body before st0)) in *.
  assert (∀ (Inv : Ros2Poll → Prop),
            (∀ st X, Inv st → Inv (with_valid_ros2_topics X st)) →
            (∀ st X, Inv st → Inv (with_already_ignored_topics X st)) →
            (∀ st k v, k ≠ n → Inv st →
               Inv (with_current_ros2_publishers
                      (<[k := v]> (current_ros2_publishers st)) st)) →
            (∀ st k v, k ≠ n → Inv st →
               Inv (with_current_ros2_subscribers
                      (<[k := v]> (current_ros2_subscribers st)) st)) →
            (∀ st X, Inv st → Inv (with_valid_ros2_services X st)) →
            (∀ st X, Inv st → Inv (with_already_ignored_services X st)) →
            (∀ st m, Inv st → Inv (with_active_ros2_services m st)) →
            Inv (final (body (n, [topic_type]) st1)) →
            Inv (final (for_each (check_ros2_service srv_regex_list)
                          (in_key_order ros2_services_and_types)
                          (with_active_ros2_services ∅
                             (final (for_each body after
                                       (final (body (n, [topic_type]) st1))))))))
    as Hrest.
  { intros Inv H1 H2 H3 H4 H5 H6 H7 HI.
    apply (preserves_for_each Inv (λ _, True)).
    { intros entry _. by apply check_ros2_service_frame. }
    apply H7. apply (preserves_for_each Inv (λ _, True) body after); [|done].
    intros [k tys] Hin.
    assert (k ≠ n) as Hne.
    { intros ->. apply Ha. apply list_elem_of_fmap. by exists (n, tys). }
    apply check_ros2_topic_frame; cbn [fst]; auto. }
  pose proof (whitelisted_is_found topic_regex_list n (valid_ros2_topics st1) Hw)
    as Hfound.
  assert (∀ c (b : bool), (if b then 1 else 0) < c →
            (if b && bool_decide (0 < c) then c - 1 else c) ≠ 0) as Hcount.
  { intros c [] Hc; simpl; [|lia]. case_bool_decide; lia. }
  split; intros Hc.
  - apply (Hrest (λ st, current_ros2_publishers st !! n = Some topic_type));
      try done.
    { intros s k v Hne Hs. simpl. by rewrite lookup_insert_ne. }
    subst body. unfold check_ros2_topic. cbn [fst snd element_0].
    rewrite bool_decide_eq_false_2 by done. run.
    rewrite bool_decide_eq_false_2 by (simpl; lia).
    rewrite bool_decide_eq_false_2 by done.
    destruct (check_inregex_list topic_regex_list n (valid_ros2_topics st1))
      as [[found known_set] evaluated]. cbn [fst snd] in Hfound. subst found.
    run. cbn [prepend final negb]. cbv zeta.
    rewrite (bool_decide_eq_true_2 _ (Hcount _ _ Hc)). run.
    case_bool_decide; run; finish_run; simpl; apply lookup_insert_eq.
  - apply (Hrest (λ st, current_ros2_subscribers st !! n = Some topic_type));
      try done.
    { intros s k v Hne Hs. simpl. by rewrite lookup_insert_ne. }
    subst body. unfold check_ros2_topic. cbn [fst snd element_0].
    rewrite bool_decide_eq_false_2 by done. run.
    rewrite bool_decide_eq_false_2 by (simpl; lia).
    rewrite bool_decide_eq_false_2 by done.
    destruct (check_inregex_list topic_regex_list n (valid_ros2_topics st1))
      as [[found known_set] evaluated]. cbn [fst snd] in Hfound. subst found.
    run. cbn [prepend final negb]. cbv zeta.
    rewrite (bool_decide_eq_true_2 _ (Hcount _ _ Hc)).
    case_bool_decide; run; finish_run; simpl; apply lookup_insert_eq.
Qed.
End Activation.

(** ** Each poller writes its own side *)

Section Sides.
Context {RE : RegexEngine} {C : Collaborators}.

(** X25.  [ros1_poll] leaves the sets and maps of [ros2_poll] and the three
    ROS 2 snapshots as they are, and [ros2_poll] leaves the sets and maps
    of [ros1_poll] and the three ROS 1 snapshots as they are, however the
    callback ends. *)
Theorem pollers_keep_to_their_side fuel (opts : Options) e :
  (∀ system_state network topics,
     let r := ros1_poll fuel opts system_state network topics e in
     ros2 (final r) = ros2 e
     ∧ ros2_publishers (inventory (final r)) = ros2_publishers (inventory e)
     ∧ ros2_subscribers (inventory (final r)) = ros2_subscribers (inventory e)
     ∧ ros2_services (inventory (final r)) = ros2_services (inventory e))
  ∧ (∀ ros2_topics ros2_services_and_types count_publishers count_subscribers,
       let r := ros2_poll fuel opts ros2_topics ros2_services_and_types
                  count_publishers count_subscribers e in
       ros1 (final r) = ros1 e
       ∧ ros1_publishers (inventory (final r)) = ros1_publishers (inventory e)
       ∧ ros1_subscribers (inventory (final r)) = ros1_subscribers (inventory e)
       ∧ ros1_services (inventory (final r)) = ros1_services (inventory e)).
Proof.
  assert (∀ (Inv : Engine → Prop) fuel' b12 b21,
            (∀ e0 t, Inv e0 → Inv (with_registry t e0)) →
            preserves Inv (λ _, True)
              (e0 ← get;
               zoom registry with_registry
                 (update_bridge fuel' (inventory e0) b12 b21))) as Hreconcile.
  { intros Inv fuel' b12 b21 Hreg. apply preserves_bind; [apply preserves_get|].
    intros e0. apply preserves_zoom; [done | apply preserves_anything]. }
  split.
  - intros system_state network topics r. subst r.
    set (Inv := λ e' : Engine,
           ros2 e' = ros2 e
           ∧ ros2_publishers (inventory e') = ros2_publishers (inventory e)
           ∧ ros2_subscribers (inventory e') = ros2_subscribers (inventory e)
           ∧ ros2_services (inventory e') = ros2_services (inventory e)).
    assert (preserves Inv (λ _, True)
              (ros1_poll fuel opts system_state network topics)) as Hp.
    { unfold ros1_poll.
      destruct system_state as [payload|]; [|by apply preserves_emit].
      apply preserves_bind.
      { apply preserves_zoom; [done | apply preserves_anything]. }
      intros _. apply preserves_bind; [by apply preserves_modify | intros _].
      destruct topics as [topics|]; [|by apply preserves_emit].
      apply preserves_bind; [by apply preserves_modify | intros _].
      by apply Hreconcile. }
    by apply Hp.
  - intros ros2_topics ros2_services_and_types count_publishers count_subscribers r.
    subst r.
    set (Inv := λ e' : Engine,
           ros1 e' = ros1 e
           ∧ ros1_publishers (inventory e') = ros1_publishers (inventory e)
           ∧ ros1_subscribers (inventory e') = ros1_subscribers (inventory e)
           ∧ ros1_services (inventory e') = ros1_services (inventory e)).
    assert (preserves Inv (λ _, True)
              (ros2_poll fuel opts ros2_topics ros2_services_and_types
                 count_publishers count_subscribers)) as Hp.
    { unfold ros2_poll.
      apply preserves_bind; [apply preserves_get | intros e0].
      apply preserves_bind.
      { apply preserves_zoom; [done | apply preserves_anything]. }
      intros _. apply preserves_bind; [by apply preserves_modify | intros _].
      apply preserves_bind; [by apply preserves_modify | intros _].
      by apply Hreconcile. }
    by apply Hp.
Qed.
End Sides.

(** ** Failed calls to the master *)

Section MasterFailures.
Context {RE : RegexEngine} {C : Collaborators}.

(** X21.  When [getSystemState] fails, [ros1_poll] logs and changes
    nothing.  When [getSystemState] succeeds and [getTopics] fails,
    [ros1_poll] returns before it reaches [update_bridge]: the registry
    and the two snapshots of the ROS 1 topics are as they were, and so is
    everything [ros2_poll] owns, while [ros1_services] has already been
    replaced if the loop over the services has returned. *)
Theorem failed_master_calls fuel (opts : Options) network e :
  (∀ topics,
     ros1_poll fuel opts None network topics e
     = Res (Normal tt) e
         [log ERROR "failed to get system state from ROS 1 master\n" []])
  ∧ (∀ payload,
       let r := ros1_poll fuel opts (Some payload) network None e in
       registry (final r) = registry e
       ∧ ros2 (final r) = ros2 e
       ∧ ros1_publishers (inventory (final r)) = ros1_publishers (inventory e)
       ∧ ros1_subscribers (inventory (final r)) = ros1_subscribers (inventory e)
       ∧ ros2_publishers (inventory (final r)) = ros2_publishers (inventory e)
       ∧ ros2_subscribers (inventory (final r)) = ros2_subscribers (inventory e)
       ∧ ros2_services (inventory (final r)) = ros2_services (inventory e)
       ∧ (ended r = Normal tt →
          ros1_services (inventory (final r)) = active_ros1_services (ros1 (final r)))).
Proof.
  split; [done|]. intros payload r. subst r. unfold ros1_poll.
  rewrite bind_run. unfold zoom.
  destruct (collect_ros1_names _ _ _ _ _ _) as [[[]|why] t ev]; [|by split_and!].
  run. finish_run. by split_and!.
Qed.
End MasterFailures.

(** ** Scenarios *)

(** A whitelisted topic with a publisher on ROS 1 and a subscriber on
    ROS 2 has its bridge after one firing of each timer. *)
Example whitelisted_topic_is_bridged :
  bridges_1to2 (registry (run_timers chatter_options chatter_ticks
                            (start (C:=scripted false) (0 : @World (scripted false)))))
  = {["/chatter" := {| bridge_handles := (0 : @Bridge1to2Handles (scripted false));
                       ros1_type_name := "std_msgs/String";
                       ros2_type_name := "std_msgs/msg/String" |}]}.
Proof. vm_compute. reflexivity. Qed.

(** The name the ROS 2 loop skips is ["parameter_events"] without a leading
    slash: ["/parameter_events"] is tested against the whitelist like any
    other topic. *)
Example parameter_events_with_a_slash_is_tested :
  current_ros2_publishers
    (final (collect_ros2_names (RE:=literal_patterns) ["/parameter_events"] []
              {["/parameter_events" := ["rcl_interfaces/msg/ParameterEvent"]]} ∅
              (λ _, 1) (λ _, 0) (λ _, false) (λ _, false) fresh_ros2_poll))
  = {["/parameter_events" := "rcl_interfaces/msg/ParameterEvent"]}.
Proof. vm_compute. reflexivity. Qed.

Lemma wanted_1to2_bridge_is_in_place_witness :
  ∃ bridge,
    bridges_1to2
      (final (update_bridge (C:=scripted false) 1 (scan_inventory "LaserScanB")
                false false (empty_registry (0 : @World (scripted false)))))
    !! "/scan" = Some bridge
    ∧ ros1_type_name bridge = "LaserScan"
    ∧ ros2_type_name bridge = "LaserScanB".
Proof.
  apply (wanted_1to2_bridge_is_in_place (C:=scripted false) 1
           (scan_inventory "LaserScanB") false false
           (empty_registry (0 : @World (scripted false)))
           "/scan" "LaserScan" "LaserScanB").
  - reflexivity.
  - reflexivity.
  - intros w. exists w. reflexivity.
Defined.

Lemma wanted_2to1_bridge_is_in_place_witness :
  ∃ bridge,
    bridges_2to1
      (final (update_bridge (C:=scripted false) 1 cmd_vel_inventory false false
                cmd_vel_registry))
    !! "/cmd_vel" = Some bridge
    ∧ (ros1_type_name bridge = "geometry_msgs/Twist" ∨ ros1_type_name bridge = "")
    ∧ ros2_type_name bridge = "geometry_msgs/msg/Twist".
Proof.
  apply (wanted_2to1_bridge_is_in_place (C:=scripted false) 1 cmd_vel_inventory
           false false cmd_vel_registry
           "/cmd_vel" "geometry_msgs/Twist" "geometry_msgs/msg/Twist").
  - reflexivity.
  - reflexivity.
  - intros w. exists w. reflexivity.
Defined.

Lemma ros1_service_is_bridged_first_witness :
  is_Some (service_bridges_2_to_1
             (final (update_bridge (C:=scripted false) 1 settled_inventory
                       false false (empty_registry (0 : @World (scripted false)))))
           !! "/add_two_ints")
  ∧ service_bridges_1_to_2
      (final (update_bridge (C:=scripted false) 1 settled_inventory
                false false (empty_registry (0 : @World (scripted false)))))
    !! "/add_two_ints" = None.
Proof.
  apply (ros1_service_is_bridged_first (C:=scripted false) 1 settled_inventory
           false false (empty_registry (0 : @World (scripted false)))
           "/add_two_ints"
           {["package" := "example_srvs"; "name" := "AddTwoInts"]}
           "example_srvs" "AddTwoInts" ()).
  - apply map_Forall_singleton. split; by eexists.
  - reflexivity.
  - reflexivity.
  - reflexivity.
  - reflexivity.
  - intros w. exists w. reflexivity.
  - reflexivity.
  - reflexivity.
Defined.

Lemma ros2_service_is_bridged_witness :
  is_Some (service_bridges_1_to_2
             (final (update_bridge (C:=scripted false) 1 two_services_inventory
                       false false (empty_registry (0 : @World (scripted false)))))
           !! "/a")
  ∧ service_bridges_2_to_1
      (final (update_bridge (C:=scripted false) 1 two_services_inventory
                false false (empty_registry (0 : @World (scripted false)))))
    !! "/a" = None.
Proof.
  apply (ros2_service_is_bridged (C:=scripted false) 1 two_services_inventory
           false false (empty_registry (0 : @World (scripted false)))
           "/a" {["package" := "example_srvs"; "name" := "A"]}
           "example_srvs" "A" ()).
  - apply map_Forall_empty.
  - apply map_Forall_insert_2; [split; by eexists|].
    apply map_Forall_singleton. split; by eexists.
  - reflexivity.
  - reflexivity.
  - reflexivity.
  - reflexivity.
  - reflexivity.
  - intros w. exists w. reflexivity.
  - reflexivity.
  - reflexivity.
Defined.

Lemma probe_records_the_split_type_witness :
  ended (get_ros1_service_info typed_server "/reset" ∅) = Normal tt
  ∧ ∃ details,
      final (get_ros1_service_info typed_server "/reset" ∅)
      = <["/reset" := details]> ∅
      ∧ details !! "type" = Some "std_srvs/Empty"
      ∧ splits "std_srvs/Empty" details.
Proof.
  apply (probe_records_the_split_type typed_server "/reset" ∅
           "localhost" "40123" 16%Z {["type" := "std_srvs/Empty"]}
           "std_srvs/Empty" 8).
  - reflexivity.
  - reflexivity.
  - reflexivity.
  - simpl. lia.
  - reflexivity.
  - reflexivity.
  - reflexivity.
  - reflexivity.
Defined.

Lemma probe_without_type_field_witness :
  ended (get_ros1_service_info untyped_server "/reset" {["/reset" := ∅]})
  = Normal tt
  ∧ final (get_ros1_service_info untyped_server "/reset" {["/reset" := ∅]})
    = delete "/reset" {["/reset" := ∅]}.
Proof.
  apply (probe_without_type_field untyped_server "/reset" {["/reset" := ∅]}
           "localhost" "40123" 16%Z {["callerid" := "/server"]}).
  - reflexivity.
  - reflexivity.
  - reflexivity.
  - simpl. lia.
  - reflexivity.
  - reflexivity.
  - reflexivity.
Defined.

Lemma own_node_does_not_activate_witness :
  "/chatter" ∉ active_publishers
                 (final (collect_ros1_names (RE:=literal_patterns)
                           "/ros12_bridge_default" ["/chatter"] [] echo_payload
                           (λ _, no_server) fresh_ros1_poll)).
Proof.
  apply (proj1 (own_node_does_not_activate (RE:=literal_patterns)
                  "/ros12_bridge_default" ["/chatter"] [] echo_payload
                  (λ _, no_server) fresh_ros1_poll "/chatter")).
  intros nodes Hin. simpl in Hin.
  apply list_elem_of_singleton in Hin. injection Hin as ->.
  by repeat constructor.
Defined.

Lemma own_endpoints_are_not_counted_witness :
  current_ros2_publishers
    (final (collect_ros2_names (RE:=literal_patterns) ["/chatter"] []
              chatter_ros2_topics ∅ (λ _, 1) (λ _, 0) (λ _, true) (λ _, false)
              fresh_ros2_poll))
  !! "/chatter" = None.
Proof.
  apply (proj1 (own_endpoints_are_not_counted (RE:=literal_patterns)
                  ["/chatter"] [] chatter_ros2_topics ∅ (λ _, 1) (λ _, 0)
                  (λ _, true) (λ _, false) fresh_ros2_poll "/chatter")).
  right. split; reflexivity.
Defined.

Lemma multi_type_topic_is_put_aside_witness :
  put_aside_ros2 "/tf"
    (final (collect_ros2_names (RE:=literal_patterns) ["/tf"] []
              mixed_ros2_topics ∅ (λ _, 1) (λ _, 1) (λ _, false) (λ _, false)
              fresh_ros2_poll)).
Proof.
  apply (multi_type_topic_is_put_aside (RE:=literal_patterns) ["/tf"] []
           mixed_ros2_topics ∅ (λ _, 1) (λ _, 1) (λ _, false) (λ _, false)
           fresh_ros2_poll "/tf"
           ["tf2_msgs/msg/TFMessage"; "custom_msgs/msg/TF"]).
  - intros name types Hin. unfold mixed_ros2_topics in Hin.
    apply lookup_singleton_Some in Hin as [_ <-]. done.
  - reflexivity.
  - simpl. lia.
  - unfold ignored_topics. intros Hin. apply elem_of_singleton in Hin. done.
Defined.

Lemma ros2_services_are_split_witness :
  well_formed
    (active_ros2_services
       (final (collect_ros2_names (RE:=literal_patterns) ["/chatter"] ["/spawn"]
                 chatter_ros2_topics spawn_ros2_services (λ _, 1) (λ _, 0)
                 (λ _, false) (λ _, false) fresh_ros2_poll)))
  ∧ active_ros2_services
      (final (collect_ros2_names (RE:=literal_patterns) ["/chatter"] ["/spawn"]
                chatter_ros2_topics spawn_ros2_services (λ _, 1) (λ _, 0)
                (λ _, false) (λ _, false) fresh_ros2_poll))
    !! "/spawn" = Some {["package" := "sim_srvs"; "name" := "srv/Spawn"]}.
Proof.
  split; [|vm_compute; reflexivity].
  apply (ros2_services_are_split (RE:=literal_patterns) ["/chatter"] ["/spawn"]
           chatter_ros2_topics spawn_ros2_services (λ _, 1) (λ _, 0)
           (λ _, false) (λ _, false) fresh_ros2_poll).
  intros name types Hin. unfold chatter_ros2_topics in Hin.
  apply lookup_singleton_Some in Hin as [_ <-]. done.
Defined.

Lemma get_flag_val_takes_what_follows_witness :
  CommandLine.get_flag_val
    ["bridge"; "--topic-regex-list"; "--node-suffix"; "a"]
    "--topic-regex-list" "topics_re"
  = "--node-suffix"
  ∧ CommandLine.get_flag_val ["bridge"; "--node-suffix"] "--node-suffix" "default"
    = "default".
Proof.
  split.
  - apply (proj2 (get_flag_val_takes_what_follows
                    ["bridge"; "--topic-regex-list"; "--node-suffix"; "a"]
                    "--topic-regex-list" "topics_re")
             ["bridge"] ["--node-suffix"; "a"]); [reflexivity|].
    intros Hin. apply list_elem_of_singleton in Hin. done.
  - apply (proj2 (get_flag_val_takes_what_follows
                    ["bridge"; "--node-suffix"] "--node-suffix" "default")
             ["bridge"] []); [reflexivity|].
    intros Hin. apply list_elem_of_singleton in Hin. done.
Defined.

Lemma whitelists_are_loaded_in_order_witness :
  ended (load_whitelist_map (PS:=scripted_parameters) "topics_re" "services_re" ∅)
  = Normal tt
  ∧ whitelist (final (load_whitelist_map (PS:=scripted_parameters)
                        "topics_re" "services_re" ∅)) "topics_re"
    = ["/chatter"; "/scan"]
  ∧ whitelist (final (load_whitelist_map (PS:=scripted_parameters)
                        "topics_re" "services_re" ∅)) "services_re"
    = [].
Proof.
  apply (whitelists_are_loaded_in_order (PS:=scripted_parameters)
           "topics_re" "services_re").
  - reflexivity.
  - reflexivity.
Defined.

Lemma missing_topic_whitelist_bridges_nothing_witness :
  bridges_1to2 (registry (run_timers reset_options chatter_ticks
                            (start (C:=scripted false) (0 : @World (scripted false)))))
  = ∅
  ∧ bridges_2to1 (registry (run_timers reset_options chatter_ticks
                              (start (C:=scripted false) (0 : @World (scripted false)))))
    = ∅.
Proof.
  apply (missing_topic_whitelist_bridges_nothing (PS:=scripted_parameters)
           (C:=scripted false) "rate" "services_re" ∅ reset_options chatter_ticks
           (0 : @World (scripted false))).
  - reflexivity.
  - vm_compute. reflexivity.
Defined.

Lemma whitelisted_topic_becomes_active_witness :
  "/chatter" ∈ active_publishers
                 (final (collect_ros1_names (RE:=literal_patterns)
                           "/ros12_bridge_default" ["/chatter"] [] chatter_payload
                           (λ _, no_server) fresh_ros1_poll)).
Proof.
  apply (proj1 (whitelisted_topic_becomes_active (RE:=literal_patterns)
                  "/ros12_bridge_default" ["/chatter"] [] chatter_payload
                  (λ _, no_server) fresh_ros1_poll "/chatter"
                  (ex_intro _ "/chatter" (conj (list_elem_of_here _ _) eq_refl))
                  (not_elem_of_empty _))).
  exists ["/talker"]. split; [apply list_elem_of_here|].
  exists "/talker". split; [apply list_elem_of_here | done].
Defined.

Lemma whitelisted_ros2_topic_is_listed_witness :
  current_ros2_publishers
    (final (collect_ros2_names (RE:=literal_patterns) ["/chatter"] []
              chatter_ros2_topics ∅ (λ _, 1) (λ _, 0) (λ _, false) (λ _, false)
              fresh_ros2_poll))
  !! "/chatter" = Some "std_msgs/msg/String".
Proof.
  assert ("/chatter" ∉ ignored_topics) as Hkept.
  { unfold ignored_topics. intros Hin. apply elem_of_singleton in Hin. done. }
  assert (reported_with_a_type chatter_ros2_topics) as Htyped.
  { intros name types Hin. unfold chatter_ros2_topics in Hin.
    apply lookup_singleton_Some in Hin as [_ <-]. done. }
  apply (proj1 (whitelisted_ros2_topic_is_listed (RE:=literal_patterns)
                  ["/chatter"] [] chatter_ros2_topics ∅ (λ _, 1) (λ _, 0)
                  (λ _, false) (λ _, false) fresh_ros2_poll "/chatter"
                  "std_msgs/msg/String" Htyped eq_refl Hkept
                  (ex_intro _ "/chatter" (conj (list_elem_of_here _ _) eq_refl))
                  (not_elem_of_empty _))).
  simpl. lia.
Defined.
